(* ===== verification/_CoqProject ===== *)
-Q . S2P
Prelude.v
Trans.v
SendQueue.v
Floats.v
Strconv.v
Flags.v
GoFmt.v
Md5.v
StoreIface.v
MemStore.v
LoadedStore.v
TimeFmt.v
FileTree.v
Loader.v
Control.v
Ingest.v
S3Api.v
Json.v
Xml.v
ZcopyProto.v
ZcopyServer.v
Client.v
ClientIds.v
ZcopySync.v
System.v
EndToEnd.v
ZcopyService.v
VerbsConfig.v
VerbsConn.v
VerbsErr.v
VerbsRing.v
VerbsSend.v
VerbsSim.v
VerbsSafe.v
VerbsRecv.v
VerbsMsg.v
VerbsEnd.v
VerbsStream.v
VerbsSetup.v
VerbsHandshake.v
VerbsOpen.v
VerbsDial.v
ClientNew.v
VerbsListen.v
App.v
Smoke.v
Commands.v
Usage.v
SharedMem.v
Bench.v
BenchReport.v
BenchRun.v
Demo.v
DemoStats.v
DemoRun.v
LoadMain.v
