(* ===== verification/Prelude.v ===== *)
(** * Verification of rdma-demo: two S3 servers with an RDMA data path, their protocol,
    client and transport

    The repository holds two object servers, [internal/inmems3] (a capacity-bounded
    store) and [internal/s3rdmaserver] (objects loaded at start, uploads discarded).
    Both answer S3 requests over HTTP, and "zcopy" requests over RDMA message
    connections: JSON control messages, with the objects' bytes written directly
    into memory the client shares.  [pkg/rdma/client] is the client side of that
    protocol and [pkg/rdma] the message connection, Go over C over libibverbs.

    ** The files

    - Prelude.v: machine integers at their width ([i64], [u32], ...), Go's strings and
      byte slices and the functions of its library the code uses, sorting, sums, and
      the lemmas and tactics the other files share (hint databases [go], [go_rw]).
    - Trans.v: transition systems for the concurrent components (reachability, runs,
      invariants, measures); Floats.v: float64 on the Standard Library's SpecFloat, with
      the lemma on the rounded index of a quantile.
    - Md5.v, TimeFmt.v, Json.v, Strconv.v, GoFmt.v: what the programs use of crypto/md5,
      time, encoding/json, strconv (ParseFloat, correctly rounded, among others) and fmt,
      executable, with their test vectors.
    - StoreIface.v: the interface between handlers and stores, class [ObjectStore]
      (handler.go's Store) with its laws [ObjectStoreLaws].  The handlers' and the
      services' theorems are proved against the laws; each store proves them.
    - MemStore.v: internal/inmems3/store/store.go.  The record [MemoryStore] has the
      struct's fields; every method is a function from state to state and result.
      [Inv] is the representation invariant; [run_refines_spec] relates any sequence
      of operations to an abstract bounded map with insertion order.
    - LoadedStore.v: internal/s3rdmaserver/store/store.go, refined to a flat map.
    - FileTree.v: directory trees and filepath.WalkDir; Loader.v: the two loaders that
      import a directory, [RootLoader] (s3rdmaserver/store/loader.go) and [FolderLoader]
      (inmems3/payload/loader.go); Control.v: inmems3/control/server.go, its responses
      and the status of an error.
    - Ingest.v: internal/inmems3/ingest/put.go and the body consumer of s3rdmaserver,
      over a reader that may split the body in any way.
    - S3Api.v: the ServeHTTP of both servers (s3api/handler.go), with bucket, listing
      and object handlers and the XML responses as data; Xml.v: the text of the
      responses, and a reader for it that stands for the client.
    - ZcopyProto.v: pkg/rdma/zcopyproto/protocol.go over Json.v.
    - ZcopyServer.v: one zcopy connection of either server (zcopy/service.go).  The
      state is the connection with its loop and GET goroutines; a label names the next
      atomic step (a receive, a credit taken, a send, ...), and [exec] is the step.  A
      run is a list of labels, so that every interleaving is covered.  ZcopyService.v:
      NewService, Serve and Close with any number of connections over one store.
    - Client.v: pkg/rdma/client/client.go in the same style: calls, the receive loop,
      result channels with their panics, credits and references.  ClientIds.v: that the
      ids of its requests, channels and frames are never mixed up.  SendQueue.v: the
      goroutine sendLoop and sendSerialized, whose whole is one step in Client.v.
    - System.v: a client and a service joined by two queues of frames (what conn.go's
      MessageConn promises), [act] being a step of either end and [Inv] the invariant of
      the composition, on which ZcopySync.v gives the service's part; EndToEnd.v: its
      theorems.
    - VerbsConfig.v: pkg/rdma/verbs.go, and the packed records on the wire.
    - VerbsConn.v: the C struct go_rdma_conn, the device below it as the class [Host]
      (one function per library call) with its laws [HostLaws], the state-and-error
      monad the C code is written in, and the waits on completion queues.
    - VerbsErr.v: the error texts that cross from C to Go, with their allocation and
      freeing (the other files keep the codes), the clock, the sleep, the diagnostic switch.
    - VerbsRing.v: the invariant [ring_inv] of the send ring and the waiting loops.
    - VerbsSend.v, VerbsRecv.v: the C functions that send and receive.
    - VerbsMsg.v: the Go methods of verbsMessageConn and conn.go's BorrowedMessage.
    - VerbsSim.v: a small executable device that satisfies the laws; witnesses run on it.
    - VerbsSafe.v, VerbsEnd.v: the theorems about the send path, and about the receive
      path and the two ends together; VerbsStream.v: that the methods of VerbsMsg.v carry
      the queue of frames System.v is composed over.
    - VerbsSetup.v: go_rdma_open, go_rdma_listen, go_rdma_accept and the frees, over the
      class [CmHost]; every resource acquired and released is accounted in a [heap], with
      a flag for a double free or a leak of a pointer.  VerbsHandshake.v: the invariant
      [Inv] of a connection under construction through each of its steps; VerbsOpen.v:
      the theorems, and a host on which the witnesses run.
    - VerbsDial.v: VerbsOptions.Open, its attempts, and the goroutines it leaves behind;
      the log of the events says what was opened, closed, allocated and freed.
      ClientNew.v: New of the client, on top of it, with normalizeAddress and hello.
    - VerbsListen.v: the listener of verbs_listener.go: accept workers, AcceptMessage and
      Close as a transition system ([act], [reaches]).
    - App.v: the configuration, Validate and Run of the two servers ([InmemApp],
      [S3App]) over the class [AppHost], composing loaders, stores and listeners.
    - Smoke.v: pkg/s3rdmasmoke, the checks and the verdict of a smoke run; SharedMem.v:
      its shared memory regions, with an account of descriptors and mappings.
    - Flags.v: the flag package, on which Commands.v has the command lines and the main
      functions of the two servers and of the smoke tool; Usage.v: their usage texts.
    - Bench.v: cmd/bench-client, its closed and open loops as transition systems of
      workers, channels and collector, and its summary; BenchReport.v: the report and the
      JSON file; BenchRun.v: its main.  Demo.v: cmd/s3-rdma-zcopy-demo, the checks of its
      flags, the placement of its GETs and one verified operation; DemoStats.v: the runtime
      statistics it samples; DemoRun.v: its loops, its report and its main.  LoadMain.v:
      the command lines of both, and the theorem on those of all five programs.

    ** What the theorems show

    - Stores: any sequence of operations refines an abstract map ([run_refines_spec],
      [loaded_run_refines_flat]); the bounded store never exceeds its capacity, evicts
      oldest first and only what it must, and refuses without a change.
    - HTTP: every request gets one well-formed answer; GET and HEAD return the stored
      object, PUT's ETag is the body's digest however the body arrives, listings are
      the sorted matching keys, and a client that parses the XML reads exactly these
      ([client_reads_sorted_keys]); only DELETE removes.
    - Protocol: decoding an encoded message gives it back.
    - Service: the data sent never exceed the credits granted; data come right after
      their meta and are bytes of stored objects; requests are answered; closing ends.
      This holds of every connection of a service ([service_within_grants],
      [service_keeps_objects]), and each is closed once.
    - Client: no step panics or blocks on a result channel; acks never exceed frames; a
      GET places the object where it says; a failed receive loop wakes every caller.
      The sends of its callers run one at a time, in order, and the loop that runs them
      never blocks and ends when the client is closed; New leaks no connection.
    - Client and service together: the data frames under way, delivered and lent stay
      within the credits of the hello ([outstanding_within_hello]); a GET that succeeds
      has the bytes of the object it named, however the calls interleave, and they stay in
      the shared region until another payload is written over them
      ([get_returns_named_object]); from a state with nothing under way a GET of an object
      that is not empty can be carried through and gives back what it took
      ([get_and_release_cycle]).  Both assume that no object is empty and no send is cut
      in two ([empty_get_swallows_reply] and [partial_put_ends_connection] show why).
    - Transport: the wrapping counters of the send ring stay exact, requests in flight
      keep their staged bytes, a remote write changes the addressed range of the peer's
      window and nothing else, its notification follows its completion, the receiver
      reads the bytes sent ([offset_transfer]), and a lent receive slot is not posted.  A
      sequence of sends arrives as the queue of frames of System.v
      ([transport_refines_queue]), and a payload written into the peer's window stays there
      through later sends, of messages or to other places ([payload_survives_later_sends]).
      An error's text arrives whole, whatever its length, and is freed
      ([error_text_delivered]).
    - Loading: after LoadRoot every regular file is the object its path names, and
      nothing else is; AddFolder replaces exactly the buckets of the folder.
    - Set-up: a failed open, listen or accept leaves the resources as they were, a
      successful one leaves a connection whose close frees all it acquired
      ([go_rdma_open_safe], [go_rdma_listen_safe], [go_rdma_accept_safe]); dialing closes
      every connection but the one returned, ends within a bound that the deadline or
      the number of attempts gives, and passes the configuration unchanged.
    - Listener: a listener is freed after its workers and once, no send on a closed
      channel, connections are delivered in the order of the queue, Close ends.
    - Servers and smoke run: Validate accepts exactly what the flags' checks say; Run
      closes what it opens, serves what it has preloaded and, for the standalone server,
      returns exactly the failures the system has reported; a smoke run that succeeds
      has put or got what it claims, inside the shared memory; every configuration can be
      written as a command line ([command_lines_round_trip]); the usage texts have one entry
      for each flag, with its default ([usage_describes_flags]).
    - Load generators: the loops run every job once, count every result and end; the
      quantiles of the summary are in range and in order; the GETs of a burst do not
      overlap; an operation succeeds exactly when size and bytes are right, and always
      releases what it has borrowed; main puts every object a GET benchmark reads, prints
      the report of the summary it returns, and closes and unmaps every client it has made.
    - Defects: the theorems whose name says so ([wrap_slot_collision],
      [stale_release_frees_newer], [oversized_message_is_split],
      [negative_offset_leaks_credit], [refused_put_payload_is_executed],
      [cancelled_get_leaks_frame], [split_decodes_twice], [failed_load_loses_old_objects],
      [merged_directories_lose_files], [bucket_name_changes_status],
      [failed_migrate_loses_id], [shared_length_is_truncated], [timed_out_open_loses_text],
      [close_abandons_queue], [inmem_run_forgets_failures], [smoke_rdma_slips], [rdma_mode_is_refused],
      [open_slots_collide], [overlapping_windows_are_accepted], [empty_get_swallows_reply],
      [partial_put_ends_connection], [lowcpu_flag_is_ignored], [help_shows_current_values],
      [infinite_rate_is_accepted], [control_characters_are_lost], [eagain_text_leaks]) exhibit what the code does.

    ** Modelling choices

    - Locks make methods atomic: a method under a mutex is one step.  The verbs
      connection's methods hold its lock for reading only; they are one step because
      their callers send one at a time, and receive in one loop.  Map iteration order is
      an argument, or shown not to matter.
    - Time enters as results of calls (timeouts, contexts, clocks), never as a value the
      theorems compare.  Log output is left out.
    - Fuel: string scans use the string's length; the loops of the transport use the
      number of requests in flight, the bytes left or the number of slots, and running
      out is a result of its own, [Diverged], which the theorems exclude.  A wait for
      the device ends as [Blocked] after [poll_budget] polls, a parameter of the host:
      the model says nothing about how long a device may take.
    - The device's laws hold for a reliable connection: completions of signaled requests
      in posting order, one receive per completion, oldest first, and no write to a
      receive buffer that is not posted.  A failed completion promises nothing.

    - The composition of System.v relies on the connection being ordered and reliable as
      MessageConn says.  [transport_refines_queue] discharges it for the verbs transport on
      a device that executes requests in the order they are posted, for control messages
      that fit a frame and lengths and offsets below 2^32; a lost connection is a receive
      that fails.
    - A frame of System.v carries its payload by value, as the window was when it arrived.
      In the code it is a place in the window, which later messages of the service may
      overwrite: [get_returns_named_object] says which message brought the bytes and that
      they stay in the window while no later one is written over them,
      [payload_survives_later_sends] the same of the transport; callers whose windows
      overlap do lose them ([open_slots_collide]).
    - url.Parse is a parameter of ClientNew.v ([url_Parse]): the code uses only the host
      it finds, whose grammar differs between versions of Go.

    ** Not modelled

    Log output and the log level; the texts of the C code's errors at the places that
    report them (VerbsErr.v has how a text travels, the other files the codes); an munmap
    that fails, which is only printed; the HTTP and gRPC libraries, the AWS SDK, the RDMA
    libraries and the operating system, whose answers are arguments or type classes;
    generated code. *)

From stdpp Require Export gmap strings list sorting pretty.
From Stdlib Require Export ZArith Lia Ascii.
From Stdlib Require Export Strings.Byte.
From Stdlib Require Strings.String.

#[export] Set Default Goal Selector "!".

(** ** Scope and notations of the development *)

Declare Scope go_scope.
Delimit Scope go_scope with go.
#[global] Open Scope Z_scope.

(** ** Machine integers

    Go's [int] and [int64] are 64-bit two's complement; the transport's C code
    uses [uint32_t], [uint64_t] and [int32_t].  An arithmetic result is written
    as the mathematical one followed by the wrap of its type. *)

Definition max_int : Z := 2 ^ 63 - 1.
Definition i64 (z : Z) : Z := (z + 2 ^ 63) mod 2 ^ 64 - 2 ^ 63.
Definition u64 (z : Z) : Z := z mod 2 ^ 64.
Definition int64 (z : Z) : Prop := - 2 ^ 63 <= z < 2 ^ 63.
Definition u32 (z : Z) : Z := z mod 2 ^ 32.
Definition i32 (z : Z) : Z := (z + 2 ^ 31) mod 2 ^ 32 - 2 ^ 31.

(** ** Fallible results: Go's [(value, error)] pairs *)

Inductive res (E A : Type) : Type :=
| Ok (a : A)
| Err (e : E).
Arguments Ok {E A} a.
Arguments Err {E A} e.

Definition rbind {E A B} (x : res E A) (f : A -> res E B) : res E B :=
  match x with Ok a => f a | Err e => Err e end.

Definition is_ok {E A} (x : res E A) : bool :=
  match x with Ok _ => true | Err _ => false end.

Notation "'try' x <- c1 ; c2" := (rbind c1 (fun x => c2))
  (at level 10, x pattern, c1 at level 100, c2 at level 200) : go_scope.

(** ** Bytes and strings

    A Go string is a sequence of bytes, here a [string] of 8-bit characters;
    a [[]byte] is a [list byte]. *)

Definition bytes_of_string (s : string) : list byte := String.list_byte_of_string s.
Definition string_of_bytes (l : list byte) : string := String.string_of_list_byte l.

#[export] Instance byte_decision : EqDecision byte := byte_eq_dec.

Definition dquote : string := String "034"%char EmptyString.

(** [len(b)] *)
Definition blen {A} (b : list A) : Z := Z.of_nat (length b).

Fixpoint string_len (s : string) : Z :=
  match s with EmptyString => 0 | String _ s' => 1 + string_len s' end.

(** The [%d] verb, [strconv.Itoa] and [strconv.FormatUint(_, 10)]. *)
Definition fmt_d (z : Z) : string := pretty z.

(** [strings.TrimPrefix]'s core: the rest of [s] after [p], if [p] is a prefix. *)
Fixpoint strip_prefix (p s : string) : option string :=
  match p, s with
  | EmptyString, _ => Some s
  | String a p', String b s' => if Ascii.eqb a b then strip_prefix p' s' else None
  | String _ _, EmptyString => None
  end.

Definition HasPrefix (s p : string) : bool :=
  match strip_prefix p s with Some _ => true | None => false end.

Definition TrimPrefix (s p : string) : string := default s (strip_prefix p s).

(** The index of a byte, and [strings.Contains]. *)
Fixpoint IndexByte (s : string) (c : ascii) : option nat :=
  match s with
  | EmptyString => None
  | String a s' => if Ascii.eqb a c then Some O else S <$> IndexByte s' c
  end.

Fixpoint Contains (s sub : string) : bool :=
  HasPrefix s sub || match s with EmptyString => false | String _ s' => Contains s' sub end.

(** [s[:n]] and [s[n:]] for [n] within the string. *)
Fixpoint str_take (n : nat) (s : string) : string :=
  match n, s with
  | S n', String a s' => String a (str_take n' s')
  | _, _ => EmptyString
  end.

Fixpoint str_drop (n : nat) (s : string) : string :=
  match n, s with
  | S n', String _ s' => str_drop n' s'
  | _, _ => s
  end.

(** [strings.TrimSpace]: the byte sequences of the runes [unicode.IsSpace] accepts. *)
Definition space_runes : list string :=
  let s1 a := String a EmptyString in
  let s2 a b := String a (String b EmptyString) in
  let s3 a b c := String a (String b (String c EmptyString)) in
  [s1 "009"%char; s1 "010"%char; s1 "011"%char; s1 "012"%char; s1 "013"%char; s1 " "%char;
   s2 "194"%char "133"%char; s2 "194"%char "160"%char;
   s3 "225"%char "154"%char "128"%char;
   s3 "226"%char "128"%char "128"%char; s3 "226"%char "128"%char "129"%char;
   s3 "226"%char "128"%char "130"%char; s3 "226"%char "128"%char "131"%char;
   s3 "226"%char "128"%char "132"%char; s3 "226"%char "128"%char "133"%char;
   s3 "226"%char "128"%char "134"%char; s3 "226"%char "128"%char "135"%char;
   s3 "226"%char "128"%char "136"%char; s3 "226"%char "128"%char "137"%char;
   s3 "226"%char "128"%char "138"%char; s3 "226"%char "128"%char "168"%char;
   s3 "226"%char "128"%char "169"%char; s3 "226"%char "128"%char "175"%char;
   s3 "226"%char "129"%char "159"%char; s3 "227"%char "128"%char "128"%char].

Fixpoint strip_any (ps : list string) (s : string) : option string :=
  match ps with
  | [] => None
  | p :: ps' => match strip_prefix p s with Some r => Some r | None => strip_any ps' s end
  end.

Fixpoint trim_left_fuel (ps : list string) (n : nat) (s : string) : string :=
  match n with
  | O => s
  | S n' => match strip_any ps s with Some r => trim_left_fuel ps n' r | None => s end
  end.

Definition TrimLeftSpace (s : string) : string :=
  trim_left_fuel space_runes (String.length s) s.

Definition TrimRightSpace (s : string) : string :=
  String.rev (trim_left_fuel (String.rev <$> space_runes) (String.length s) (String.rev s)).

Definition TrimSpace (s : string) : string := TrimRightSpace (TrimLeftSpace s).

(** [strings.ToLower], as far as a comparison with an ASCII string can tell:
    besides the ASCII letters, the runes U+0130 and U+212A are the only ones
    whose lower case is an ASCII letter. *)
Definition ascii_lower (a : ascii) : ascii :=
  let n := nat_of_ascii a in
  if (65 <=? n)%nat && (n <=? 90)%nat then ascii_of_nat (n + 32) else a.

Fixpoint ToLower (s : string) : string :=
  match s with
  | String "196" (String "176" r) => String "i" (ToLower r)
  | String "226" (String "132" (String "170" r)) => String "k" (ToLower r)
  | String a r => String (ascii_lower a) (ToLower r)
  | EmptyString => EmptyString
  end.

(** ** Bytes as integers, little-endian words, hexadecimal *)

Definition Z_of_byte (b : byte) : Z := Z.of_N (Byte.to_N b).
Definition byte_of_Z (z : Z) : byte := default x00 (Byte.of_N (Z.to_N (z mod 256))).

(** [binary.LittleEndian.Uint32], [Uint64] and the packed fields of a C struct. *)
Fixpoint le_get (l : list byte) : Z :=
  match l with [] => 0 | b :: l' => Z_of_byte b + 256 * le_get l' end.

Fixpoint le_put (n : nat) (z : Z) : list byte :=
  match n with O => [] | S n' => byte_of_Z z :: le_put n' (z / 256) end.

Definition hex_digit (n : Z) : ascii :=
  ascii_of_nat (Z.to_nat (if n <? 10 then 48 + n else 87 + n)).

(** [hex.EncodeToString] *)
Fixpoint hex_encode (l : list byte) : string :=
  match l with
  | [] => EmptyString
  | b :: l' =>
      String (hex_digit (Z_of_byte b / 16)) (String (hex_digit (Z_of_byte b mod 16)) (hex_encode l'))
  end.

(** ** Decimal numbers read back *)

(** [strconv.Atoi]: an optional sign and decimal digits within 64 bits. *)
Fixpoint digits_value (s : string) (acc : Z) : option Z :=
  match s with
  | EmptyString => Some acc
  | String a r =>
    let n := Z.of_nat (nat_of_ascii a) in
    if (48 <=? n) && (n <=? 57) then digits_value r (10 * acc + (n - 48)) else None
  end.

Definition Atoi (s : string) : option Z :=
  let '(neg, body) := match s with
                      | String "-" r => (true, r)
                      | String "+" r => (false, r)
                      | _ => (false, s)
                      end in
  match body with
  | EmptyString => None
  | _ => match digits_value body 0 with
         | None => None
         | Some n => let v := if neg : bool then - n else n in
                     if (- 2 ^ 63 <=? v) && (v <? 2 ^ 63) then Some v else None
         end
  end.

(** ** Sorting by byte order ([sort.Strings], [sort.Slice] by key) *)

Definition key_le {A} (key : A -> string) (x y : A) : Prop := String.le (key x) (key y).
#[export] Instance key_le_dec {A} (key : A -> string) : RelDecision (key_le key).
Proof. intros x y. unfold key_le. apply _. Defined.

Definition sort_by {A} (key : A -> string) (l : list A) : list A := merge_sort (key_le key) l.

(** ** Sums *)

Fixpoint zsum {A} (f : A -> Z) (l : list A) : Z :=
  match l with [] => 0 | x :: l' => f x + zsum f l' end.

(** ** Lemmas on machine integers *)

Lemma i64_id z : - 2 ^ 63 <= z < 2 ^ 63 -> i64 z = z.
Proof. intros. unfold i64. rewrite Z.mod_small; lia. Qed.

Lemma i64_range z : - 2 ^ 63 <= i64 z < 2 ^ 63.
Proof. unfold i64. pose proof (Z.mod_pos_bound (z + 2 ^ 63) (2 ^ 64)). lia. Qed.

Lemma i64_add_i64 a b : i64 (i64 a + b) = i64 (a + b).
Proof.
  unfold i64. f_equal.
  replace ((a + 2 ^ 63) mod 2 ^ 64 - 2 ^ 63 + b + 2 ^ 63)
    with ((a + 2 ^ 63) mod 2 ^ 64 + b) by lia.
  rewrite Z.add_mod_idemp_l by lia. f_equal. lia.
Qed.

Lemma i64_sub_i64 a b : i64 (i64 a - b) = i64 (a - b).
Proof. apply (i64_add_i64 a (- b)). Qed.

Lemma u32_id z : 0 <= z < 2 ^ 32 -> u32 z = z.
Proof. intros. unfold u32. by apply Z.mod_small. Qed.

Lemma u32_range z : 0 <= u32 z < 2 ^ 32.
Proof. unfold u32. apply Z.mod_pos_bound. lia. Qed.

Lemma u64_id z : 0 <= z < 2 ^ 64 -> u64 z = z.
Proof. intros. unfold u64. by apply Z.mod_small. Qed.

Lemma u64_range z : 0 <= u64 z < 2 ^ 64.
Proof. unfold u64. apply Z.mod_pos_bound. lia. Qed.

Lemma i32_id z : - 2 ^ 31 <= z < 2 ^ 31 -> i32 z = z.
Proof. intros. unfold i32. rewrite Z.mod_small; lia. Qed.

(** ** Lemmas on bytes and words *)

Lemma Z_of_byte_range b : 0 <= Z_of_byte b < 256.
Proof. unfold Z_of_byte. pose proof (Byte.to_N_bounded b). lia. Qed.

Lemma byte_of_Z_of_byte b : byte_of_Z (Z_of_byte b) = b.
Proof.
  unfold byte_of_Z. rewrite Z.mod_small by apply Z_of_byte_range.
  unfold Z_of_byte. by rewrite N2Z.id, Byte.of_to_N.
Qed.

Lemma Z_of_byte_of_Z z : Z_of_byte (byte_of_Z z) = z mod 256.
Proof.
  unfold byte_of_Z. pose proof (Z.mod_pos_bound z 256).
  destruct (Byte.of_N (Z.to_N (z mod 256))) as [b|] eqn:E; simpl.
  - apply Byte.to_of_N in E. unfold Z_of_byte. rewrite E. lia.
  - apply Byte.of_N_None_iff in E. lia.
Qed.

Lemma length_le_put n z : length (le_put n z) = n.
Proof. revert z. induction n; simpl; intros; auto. Qed.

Lemma le_get_put n z : le_get (le_put n z) = z mod 256 ^ Z.of_nat n.
Proof.
  revert z. induction n as [|n IH]; intros z; simpl le_put; simpl le_get.
  { by rewrite Z.pow_0_r, Z.mod_1_r. }
  rewrite IH, Z_of_byte_of_Z, Nat2Z.inj_succ, Z.pow_succ_r by lia.
  rewrite Z.rem_mul_r; lia.
Qed.

Lemma le_get_range l : 0 <= le_get l < 256 ^ blen l.
Proof.
  unfold blen. induction l as [|b l IH]; simpl le_get.
  { simpl. lia. }
  change (length (b :: l)) with (S (length l)).
  rewrite Nat2Z.inj_succ, Z.pow_succ_r by lia.
  pose proof (Z_of_byte_range b). lia.
Qed.

Lemma le_put_get l : le_put (length l) (le_get l) = l.
Proof.
  induction l as [|b l IH]; simpl; [done|].
  pose proof (Z_of_byte_range b) as Hb.
  f_equal.
  - rewrite <- (byte_of_Z_of_byte b) at 2. unfold byte_of_Z at 1 2. do 3 f_equal.
    rewrite Z.mul_comm, Z.mod_add by lia. done.
  - rewrite Z.mul_comm, Z.div_add, Z.div_small by lia. by rewrite Z.add_0_l.
Qed.

(** ** Lemmas on lists and sums *)

Lemma blen_nonneg {A} (l : list A) : 0 <= blen l.
Proof. unfold blen. lia. Qed.

Lemma blen_app {A} (l k : list A) : blen (l ++ k) = blen l + blen k.
Proof. unfold blen. rewrite length_app. lia. Qed.

Lemma blen_zero {A} (l : list A) : blen l = 0 <-> l = [].
Proof. unfold blen. destruct l; simpl; split; (done || lia). Qed.

Lemma zsum_app {A} (f : A -> Z) l k : zsum f (l ++ k) = zsum f l + zsum f k.
Proof. induction l; simpl; lia. Qed.

Lemma zsum_nonneg {A} (f : A -> Z) l : (forall x, 0 <= f x) -> 0 <= zsum f l.
Proof. intros H. induction l as [|x l IH]; simpl; [lia|]. specialize (H x). lia. Qed.

Lemma zsum_perm {A} (f : A -> Z) l k : l ≡ₚ k -> zsum f l = zsum f k.
Proof. induction 1; simpl; lia. Qed.

#[export] Instance zsum_proper {A} (f : A -> Z) : Proper ((≡ₚ) ==> eq) (zsum f).
Proof. intros l k. apply zsum_perm. Qed.

#[export] Instance blen_proper {A} : Proper ((≡ₚ) ==> eq) (@blen A).
Proof. intros l k Hp. unfold blen. by rewrite (Permutation_length Hp). Qed.

Lemma zsum_filter_le {A} (f : A -> Z) (P : A -> Prop) `{!forall x, Decision (P x)} l :
  (forall x, 0 <= f x) -> zsum f (filter P l) <= zsum f l.
Proof.
  intros Hf. induction l as [|x l IH]; simpl; [lia|].
  rewrite filter_cons. specialize (Hf x). case_decide; simpl; lia.
Qed.

(** ** Lemmas on lists with keys *)

Lemma filter_agree {A} (P Q : A -> Prop) `{!forall x, Decision (P x)} `{!forall x, Decision (Q x)} (l : list A) :
  (forall x, x ∈ l -> P x <-> Q x) -> filter P l = filter Q l.
Proof.
  induction l as [|x l IH]; intros HPQ; [done|]. rewrite !filter_cons.
  rewrite IH by (intros y Hy; apply HPQ; by right).
  pose proof (HPQ x (list_elem_of_here _ _)). repeat case_decide; tauto.
Qed.

Lemma filter_none {A} (P : A -> Prop) `{!forall x, Decision (P x)} (l : list A) :
  (forall x, x ∈ l -> P x) -> filter P l = l.
Proof.
  induction l as [|x l IH]; intros HP; [done|]. rewrite filter_cons.
  rewrite decide_True by (apply HP; left). f_equal. apply IH. intros y Hy; apply HP; by right.
Qed.

Lemma fmap_filter_commute {A B} (f : A -> B) (P : B -> Prop) (Q : A -> Prop)
    `{!forall x, Decision (P x)} `{!forall x, Decision (Q x)} (l : list A) :
  (forall x, x ∈ l -> P (f x) <-> Q x) -> filter P (f <$> l) = f <$> filter Q l.
Proof.
  induction l as [|x l IH]; intros HPQ; [done|].
  rewrite fmap_cons, !filter_cons.
  rewrite IH by (intros y Hy; apply HPQ; by right).
  pose proof (HPQ x (list_elem_of_here _ _)).
  repeat case_decide; [by rewrite fmap_cons|tauto|tauto|done].
Qed.

Lemma NoDup_fmap_filter {A B} (f : A -> B) (P : A -> Prop) `{!forall x, Decision (P x)} (l : list A) :
  NoDup (f <$> l) -> NoDup (f <$> filter P l).
Proof.
  induction l as [|x l IH]; [done|]. rewrite fmap_cons, filter_cons. intros [Hx Hl]%NoDup_cons.
  case_decide; [|by apply IH]. rewrite fmap_cons. apply NoDup_cons. split; [|by apply IH].
  intros (y & Hy & Hin)%list_elem_of_fmap. apply list_elem_of_filter in Hin as [_ Hin].
  apply Hx, list_elem_of_fmap. by exists y.
Qed.

Lemma NoDup_fmap_inj {A B} (f : A -> B) (l : list A) x y :
  NoDup (f <$> l) -> x ∈ l -> y ∈ l -> f x = f y -> x = y.
Proof.
  induction l as [|z l IH]; [by intros _ ?%not_elem_of_nil|].
  rewrite fmap_cons. intros [Hz Hl]%NoDup_cons [->|Hx]%elem_of_cons [->|Hy]%elem_of_cons Hf; auto.
  - destruct Hz. apply list_elem_of_fmap. by exists y.
  - destruct Hz. apply list_elem_of_fmap. by exists x.
Qed.

Lemma fold_left_perm {A B} (f : A -> B -> A) (l k : list B) (a : A) :
  (forall a x y, f (f a x) y = f (f a y) x) -> l ≡ₚ k -> fold_left f l a = fold_left f k a.
Proof.
  intros Hf Hp. revert a. induction Hp as [|x l k _ IH|x y l|l k m _ IH1 _ IH2];
    intros a; simpl; [done|apply IH|by rewrite Hf|by rewrite IH1].
Qed.

(** ** Lemmas on strings *)

Lemma IndexByte_app b k c :
  IndexByte b c = None -> IndexByte (b +:+ String c k) c = Some (String.length b).
Proof.
  induction b as [|a b IH]; simpl; [by rewrite Ascii.eqb_refl|].
  destruct (Ascii.eqb a c); [done|].
  destruct (IndexByte b c); [done|]. intros _. by rewrite IH.
Qed.

Lemma str_take_app b s : str_take (String.length b) (b +:+ s) = b.
Proof. induction b as [|a b IH]; simpl; [by destruct s|]. by rewrite IH. Qed.

Lemma str_drop_app b s : str_drop (String.length b) (b +:+ s) = s.
Proof. induction b as [|a b IH]; simpl; [by destruct s|done]. Qed.

Lemma str_drop_S_app b a s : str_drop (S (String.length b)) (b +:+ String a s) = s.
Proof. induction b as [|c b IH]; simpl; [by destruct s|done]. Qed.


Lemma strip_prefix_app p s : strip_prefix p (p +:+ s) = Some s.
Proof. induction p as [|a p IH]; simpl; [done|]. by rewrite Ascii.eqb_refl. Qed.

Lemma strip_prefix_Some p s r : strip_prefix p s = Some r <-> s = p +:+ r.
Proof.
  split; [|intros ->; apply strip_prefix_app].
  revert s. induction p as [|a p IH]; simpl; intros s; [by intros [= ->]|].
  destruct s as [|b s]; [done|].
  destruct (Ascii.eqb_spec a b) as [->|]; [|done]. intros H. by rewrite (IH s).
Qed.

Lemma HasPrefix_true s p : HasPrefix s p = true <-> exists r, s = p +:+ r.
Proof.
  unfold HasPrefix. destruct (strip_prefix p s) as [r|] eqn:E.
  - apply strip_prefix_Some in E. split; eauto.
  - split; [done|]. intros [r ->]. by rewrite strip_prefix_app in E.
Qed.

Lemma HasPrefix_nil s : HasPrefix s "" = true.
Proof. by destruct s. Qed.

(** ** Lemmas on trimming *)

Lemma rev_app_app a s t : String.rev_app a (s +:+ t) = String.rev_app a s +:+ t.
Proof. revert s. induction a as [|c a IH]; intros s; simpl; [done|]. apply (IH (String c s)). Qed.

Lemma string_rev_app a b : String.rev (a +:+ b) = String.rev b +:+ String.rev a.
Proof.
  unfold String.rev. enough (forall s, String.rev_app (a +:+ b) s = String.rev_app b (String.rev_app a s)) as E.
  { by rewrite E, <- rev_app_app. }
  induction a as [|c a IH]; intros s; simpl; [done|apply IH].
Qed.

Lemma string_rev_nil s : String.rev s = EmptyString -> s = EmptyString.
Proof.
  destruct s as [|c s]; [done|]. change (String c s) with (String c EmptyString +:+ s).
  rewrite string_rev_app. simpl. by destruct (String.rev s).
Qed.

Lemma string_rev_length s : String.length (String.rev s) = String.length s.
Proof.
  unfold String.rev. enough (forall t, String.length (String.rev_app s t) = (String.length s + String.length t)%nat) as E.
  { rewrite E. simpl. lia. }
  induction s as [|c s IH]; intros t; simpl; [done|]. rewrite IH. simpl. lia.
Qed.

Lemma string_app_nil_r s : s +:+ EmptyString = s.
Proof. induction s as [|c s IH]; [done|]. exact (f_equal (String c) IH). Qed.

Lemma string_app_assoc a b c : (a +:+ b) +:+ c = a +:+ (b +:+ c).
Proof. induction a as [|x a IH]; [done|]. exact (f_equal (String x) IH). Qed.

Lemma string_app_length a b : String.length (a +:+ b) = (String.length a + String.length b)%nat.
Proof. induction a as [|x a IH]; [done|]. exact (f_equal S IH). Qed.

Lemma string_rev_rev s : String.rev (String.rev s) = s.
Proof.
  induction s as [|c s IH]; [done|]. change (String c s) with (String c EmptyString +:+ s).
  by rewrite !string_rev_app, IH.
Qed.

Lemma strip_any_Some ps s r : strip_any ps s = Some r -> exists p, p ∈ ps /\ s = p +:+ r.
Proof.
  induction ps as [|p ps IH]; simpl; [done|]. destruct (strip_prefix p s) as [r'|] eqn:Hp.
  - intros [= ->]. apply strip_prefix_Some in Hp. exists p. split; [by left|done].
  - intros (q & Hq & ->)%IH. exists q. split; [by right|done].
Qed.

Lemma strip_any_app ps p s : p ∈ ps -> strip_any ps (p +:+ s) <> None.
Proof.
  induction ps as [|q ps IH]; simpl; intros Hp; [by apply elem_of_nil in Hp|].
  destruct (strip_prefix q _) eqn:Hq; [done|]. apply elem_of_cons in Hp as [->|Hp]; [|by apply IH].
  by rewrite strip_prefix_app in Hq.
Qed.

(** With the string's length as fuel, no rune is left to strip. *)
Lemma trim_left_stripped ps n s :
  Forall (fun p => p <> EmptyString) ps -> (String.length s <= n)%nat ->
  strip_any ps (trim_left_fuel ps n s) = None.
Proof.
  intros Hps. revert s. induction n as [|n IH]; intros s Hn; simpl.
  - destruct s; [|simpl in Hn; lia]. induction Hps as [|p ps Hp _ IHps]; simpl; [done|].
    by destruct p.
  - destruct (strip_any ps s) as [r|] eqn:Hs; [|done]. apply IH.
    apply strip_any_Some in Hs as (p & Hp & ->). rewrite Forall_forall in Hps.
    specialize (Hps p Hp). rewrite string_app_length in Hn. destruct p; [done|]. simpl in Hn. lia.
Qed.

Lemma trim_left_suffix ps n s :
  exists w, s = w +:+ trim_left_fuel ps n s /\
    (w = EmptyString \/ exists w' p, p ∈ ps /\ w = w' +:+ p).
Proof.
  revert s. induction n as [|n IH]; intros s; simpl; [by exists EmptyString; auto|].
  destruct (strip_any ps s) as [r|] eqn:Hs; [|by exists EmptyString; auto].
  apply strip_any_Some in Hs as (p & Hp & ->). destruct (IH r) as (w & Hr & Hw).
  exists (p +:+ w). rewrite string_app_assoc, <- Hr. split; [done|]. right.
  destruct Hw as [->|(w' & q & Hq & ->)].
  - exists EmptyString, p. by rewrite string_app_nil_r.
  - exists (p +:+ w'), q. by rewrite string_app_assoc.
Qed.

Lemma trim_left_empties ps s :
  s <> EmptyString -> trim_left_fuel ps (String.length s) s = EmptyString ->
  exists p r, p ∈ ps /\ s = p +:+ r.
Proof.
  intros Hs. destruct s as [|c s]; [done|]. change (String.length (String c s)) with (S (String.length s)).
  simpl. destruct (strip_any ps (String c s)) as [r|] eqn:E; [|done].
  apply strip_any_Some in E as (p & Hp & E). intros _. by exists p, r.
Qed.

Lemma rev_space_runes_nonempty : Forall (fun p => p <> EmptyString) (String.rev <$> space_runes).
Proof. repeat constructor; discriminate. Qed.

(** Trimming a trimmed string does not empty it. *)
Lemma TrimSpace_TrimSpace s : TrimSpace s <> EmptyString -> TrimSpace (TrimSpace s) <> EmptyString.
Proof.
  set (y := TrimSpace s). intros Hy.
  assert (Hrev : strip_any (String.rev <$> space_runes) (String.rev y) = None).
  { subst y. unfold TrimSpace, TrimRightSpace. rewrite string_rev_rev.
    apply trim_left_stripped; [apply rev_space_runes_nonempty|]. by rewrite string_rev_length. }
  clearbody y. unfold TrimSpace. intros H0. apply string_rev_nil in H0.
  unfold TrimLeftSpace in H0.
  destruct (trim_left_suffix space_runes (String.length y) y) as (w & Hyw & Hw).
  set (z := trim_left_fuel space_runes (String.length y) y) in *. clearbody z.
  destruct (decide (String.rev z = EmptyString)) as [Hz|Hz].
  - apply string_rev_nil in Hz as ->. rewrite string_app_nil_r in Hyw. subst w.
    destruct Hw as [|(w' & p & Hp & ->)]; [done|].
    rewrite string_rev_app in Hrev. apply strip_any_app in Hrev; [done|].
    apply list_elem_of_fmap. by exists p.
  - rewrite <- (string_rev_length z) in H0. apply trim_left_empties in H0 as (p & r & Hp & Hr); [|done].
    rewrite Hyw, string_rev_app, Hr, string_app_assoc in Hrev. by apply strip_any_app in Hrev.
Qed.

Lemma trim_left_done ps n s : strip_any ps s = None -> trim_left_fuel ps n s = s.
Proof. destruct n; simpl; [done|]. by intros ->. Qed.

Lemma strip_any_prefix ps a b : strip_any ps (a +:+ b) = None -> strip_any ps a = None.
Proof.
  intros Hab. destruct (strip_any ps a) as [r|] eqn:Ha; [|done].
  apply strip_any_Some in Ha as (p & Hp & ->). rewrite string_app_assoc in Hab.
  by apply strip_any_app in Hab.
Qed.

Lemma TrimSpace_idem s : TrimSpace (TrimSpace s) = TrimSpace s.
Proof.
  unfold TrimSpace at 2 3. set (z := TrimLeftSpace s).
  assert (Hz : strip_any space_runes z = None).
  { apply trim_left_stripped; [repeat constructor; discriminate|done]. }
  clearbody z. set (y := TrimRightSpace z).
  assert (Hy : strip_any (String.rev <$> space_runes) (String.rev y) = None).
  { subst y. unfold TrimRightSpace. rewrite string_rev_rev.
    apply trim_left_stripped; [apply rev_space_runes_nonempty|]. by rewrite string_rev_length. }
  assert (Hl : strip_any space_runes y = None).
  { destruct (trim_left_suffix (String.rev <$> space_runes) (String.length z) (String.rev z)) as (w & Hw & _).
    apply (f_equal String.rev) in Hw. rewrite string_rev_rev, string_rev_app in Hw.
    fold (TrimRightSpace z) in Hw. apply (strip_any_prefix _ (TrimRightSpace z) (String.rev w)). by rewrite <- Hw. }
  clearbody y. unfold TrimSpace, TrimLeftSpace, TrimRightSpace.
  rewrite (trim_left_done _ _ y) by done. rewrite trim_left_done by done. apply string_rev_rev.
Qed.

Lemma Contains_app a b sub : Contains b sub = true -> Contains (a +:+ b) sub = true.
Proof.
  intros Hb. induction a as [|c a IH]; [done|].
  change (HasPrefix (String c a +:+ b) sub || Contains (a +:+ b) sub = true).
  rewrite IH. apply orb_true_r.
Qed.

(** ** Lemmas on decimal numbers *)

Definition is_digit (a : ascii) : bool :=
  let n := Z.of_nat (nat_of_ascii a) in (48 <=? n) && (n <=? 57).

Fixpoint all_chars (f : ascii -> bool) (s : string) : bool :=
  match s with EmptyString => true | String a r => f a && all_chars f r end.

Lemma pretty_char_value (d : N) :
  (d < 10)%N ->
  Z.of_nat (nat_of_ascii (pretty_N_char d)) = 48 + Z.of_N d /\ is_digit (pretty_N_char d) = true.
Proof.
  intros Hd. assert (HF : Forall (fun d => Z.of_nat (nat_of_ascii (pretty_N_char d)) = 48 + Z.of_N d /\
    is_digit (pretty_N_char d) = true) [0; 1; 2; 3; 4; 5; 6; 7; 8; 9]%N).
  { repeat (constructor; [vm_compute; split; reflexivity|]). constructor. }
  rewrite Forall_forall in HF. apply HF. rewrite !elem_of_cons. lia.
Qed.

Lemma digits_value_go x s :
  digits_value (pretty_N_go x s) 0 = digits_value s (Z.of_N x).
Proof.
  revert s. induction (N.lt_wf_0 x) as [x _ IH]; intros s.
  destruct (decide (0 < x)%N) as [Hx|Hx]; [|replace x with 0%N by lia; by rewrite pretty_N_go_0].
  rewrite pretty_N_go_step by done. rewrite IH by (apply N.div_lt; lia). simpl.
  destruct (pretty_char_value (x mod 10)) as [Hv Hd]; [apply N.mod_lt; lia|].
  unfold is_digit in Hd. rewrite Hd, Hv. f_equal.
  pose proof (N.div_mod x 10). lia.
Qed.

Lemma pretty_go_all_digits x s :
  all_chars is_digit s = true -> all_chars is_digit (pretty_N_go x s) = true.
Proof.
  revert s. induction (N.lt_wf_0 x) as [x _ IH]; intros s Hs.
  destruct (decide (0 < x)%N) as [Hx|Hx]; [|replace x with 0%N by lia; by rewrite pretty_N_go_0].
  rewrite pretty_N_go_step by done. apply IH; [apply N.div_lt; lia|]. simpl.
  destruct (pretty_char_value (x mod 10)) as [_ ->]; [apply N.mod_lt; lia|done].
Qed.

(** A positive number starts with a digit that is not zero. *)
Lemma pretty_go_head x s :
  (0 < x)%N -> exists a r, pretty_N_go x s = String a r /\ is_digit a = true /\ a <> "0"%char.
Proof.
  revert s. induction (N.lt_wf_0 x) as [x _ IH]; intros s Hx.
  rewrite pretty_N_go_step by done. destruct (decide (0 < x / 10)%N) as [Hq|Hq].
  - apply IH; [apply N.div_lt; lia|done].
  - assert (Hz : (x / 10 = 0)%N) by (apply N.le_0_r, N.nlt_ge, Hq). rewrite Hz, pretty_N_go_0.
    assert (Hlt : (x mod 10 < 10)%N) by (apply N.mod_lt; lia).
    destruct (pretty_char_value (x mod 10) Hlt) as [Hv Hd]. eexists _, _. split; [done|].
    split; [done|]. intros H0. rewrite H0 in Hv. change (Z.of_nat (nat_of_ascii "0")) with 48 in Hv.
    pose proof (N.div_mod x 10 ltac:(lia)) as Hdm. rewrite Hz in Hdm. lia.
Qed.

Lemma fmt_d_nonneg z : 0 <= z -> fmt_d z = pretty (Z.to_N z).
Proof. intros Hz. unfold fmt_d. destruct z; [done|done|lia]. Qed.

Lemma fmt_d_neg z : z < 0 -> fmt_d z = String "-" (pretty (Z.to_N (- z))).
Proof. intros Hz. unfold fmt_d. destruct z; [lia|lia|done]. Qed.

Lemma pretty_N_facts (n : N) :
  digits_value (pretty n) 0 = Some (Z.of_N n) /\ all_chars is_digit (pretty n) = true /\
  (pretty n = "0" \/ exists a r, pretty n = String a r /\ is_digit a = true /\ a <> "0"%char).
Proof.
  unfold pretty, pretty_N. case_decide as Hn.
  { subst. split_and!; [done|done|by left]. }
  split; [by rewrite digits_value_go|]. split; [by apply pretty_go_all_digits|].
  right. apply pretty_go_head. lia.
Qed.

(** ** Sorting lemmas *)

Lemma sort_by_perm {A} (key : A -> string) l : sort_by key l ≡ₚ l.
Proof. apply merge_sort_Permutation. Qed.

Lemma key_le_total {A} (key : A -> string) : Total (key_le key).
Proof. intros x y. apply String.le_total. Qed.

Lemma key_le_trans {A} (key : A -> string) : Transitive (key_le key).
Proof. intros x y z. unfold key_le. intros. by etrans. Qed.

Lemma sort_by_sorted {A} (key : A -> string) l : StronglySorted (key_le key) (sort_by key l).
Proof.
  unfold sort_by. apply StronglySorted_merge_sort; [apply key_le_trans|apply key_le_total].
Qed.

(** Two sorted permutations of a list whose keys are distinct are equal: the
    order in which a map is iterated does not matter once its entries are sorted. *)
Lemma sorted_perm_unique {A} (key : A -> string) (l k : list A) :
  (forall x y, x ∈ l -> y ∈ l -> key x = key y -> x = y) ->
  StronglySorted (key_le key) l -> StronglySorted (key_le key) k -> l ≡ₚ k -> l = k.
Proof.
  intros Hinj Hl. revert k. induction Hl as [|x l Hl IH Hx]; intros k Hk Hp.
  { by apply Permutation_nil_l in Hp. }
  destruct Hk as [|y k Hk Hy]; [by apply Permutation_nil_r in Hp|].
  assert (x = y) as ->.
  { assert (x ∈ y :: k) as [->|Hxk]%elem_of_cons by (rewrite <- Hp; left); [done|].
    assert (y ∈ x :: l) as [->|Hyl]%elem_of_cons by (rewrite Hp; left); [done|].
    apply Hinj; [left|by right|].
    rewrite Forall_forall in Hx, Hy. apply (anti_symm String.le); [by apply Hx|by apply Hy]. }
  f_equal. apply IH; [|done|by apply Permutation_cons_inv in Hp].
  intros ????; apply Hinj; by right.
Qed.

Lemma sort_by_iteration_order {A} (key : A -> string) (l k : list A) :
  (forall x y, x ∈ l -> y ∈ l -> key x = key y -> x = y) ->
  l ≡ₚ k -> sort_by key l = sort_by key k.
Proof.
  intros Hinj Hp. apply (sorted_perm_unique key); [|apply sort_by_sorted..|].
  - intros x y. rewrite !sort_by_perm. apply Hinj.
  - by rewrite !sort_by_perm.
Qed.

(** ** Writing into a region of bytes *)

(** Bytes written over a region from position [i]. *)
Definition splice (i : nat) (d m : list byte) : list byte :=
  take i m ++ d ++ drop (i + length d) m.

Lemma length_splice i d m : (i + length d <= length m)%nat -> length (splice i d m) = length m.
Proof. intros. unfold splice. rewrite !length_app, length_take, length_drop. lia. Qed.

Lemma splice_splice i d1 d2 m :
  (i + length d1 + length d2 <= length m)%nat ->
  splice (i + length d1) d2 (splice i d1 m) = splice i (d1 ++ d2) m.
Proof.
  intros Hle. unfold splice at 1.
  assert (Ht : take (i + length d1) (splice i d1 m) = take i m ++ d1).
  { unfold splice. rewrite app_assoc. apply take_app_length'. rewrite length_app, length_take. lia. }
  assert (Hd : drop (i + length d1 + length d2) (splice i d1 m) =
               drop (i + length d1 + length d2) m).
  { unfold splice. rewrite app_assoc, drop_app_ge by (rewrite length_app, length_take; lia).
    rewrite drop_drop. f_equal. rewrite length_app, length_take. lia. }
  rewrite Ht, Hd. unfold splice. rewrite length_app, <- !app_assoc. by rewrite Nat.add_assoc.
Qed.

Lemma splice_nil i m : splice i [] m = m.
Proof. unfold splice. simpl. rewrite Nat.add_0_r. apply take_drop. Qed.

Lemma read_splice i d m :
  (i + length d <= length m)%nat -> take (length d) (drop i (splice i d m)) = d.
Proof.
  intros Hle. unfold splice. rewrite drop_app_ge by (rewrite length_take; lia).
  rewrite length_take. replace (i - i `min` length m)%nat with 0%nat by lia.
  rewrite drop_0. by apply take_app_length'.
Qed.

(** What is read elsewhere stays. *)
Lemma take_drop_splice i d m o n :
  (i + length d <= length m)%nat -> (o + n <= i \/ i + length d <= o)%nat ->
  take n (drop o (splice i d m)) = take n (drop o m).
Proof.
  intros Hl Ho. unfold splice. destruct Ho as [Ho|Ho].
  - rewrite drop_app_le by (rewrite length_take; lia).
    rewrite take_app_le by (rewrite length_drop, length_take; lia).
    rewrite skipn_firstn_comm, take_take. f_equal. lia.
  - rewrite app_assoc, drop_app_ge by (rewrite length_app, length_take; lia).
    rewrite drop_drop, length_app, length_take. do 2 f_equal. lia.
Qed.

(** ** Automation *)

Create HintDb go.
Create Rewrite HintDb go_rw.
#[export] Hint Resolve blen_nonneg i64_range u32_range u64_range sort_by_perm sort_by_sorted : go.
#[export] Hint Rewrite @blen_app @zsum_app i64_add_i64 i64_sub_i64 : go_rw.

(** Turn the boolean tests of the code into propositions. *)
Ltac bool_facts :=
  repeat match goal with
  | H : (_ <? _) = true |- _ => apply Z.ltb_lt in H
  | H : (_ <? _) = false |- _ => apply Z.ltb_ge in H
  | H : (_ <=? _) = true |- _ => apply Z.leb_le in H
  | H : (_ <=? _) = false |- _ => apply Z.leb_gt in H
  | H : (_ =? _) = true |- _ => apply Z.eqb_eq in H
  | H : (_ =? _) = false |- _ => apply Z.eqb_neq in H
  | H : String.eqb _ _ = true |- _ => apply String.eqb_eq in H
  | H : String.eqb _ _ = false |- _ => apply String.eqb_neq in H
  | H : _ && _ = true |- _ => apply andb_true_iff in H as [??]
  | H : _ || _ = false |- _ => apply orb_false_iff in H as [??]
  | H : negb _ = true |- _ => apply negb_true_iff in H
  | H : negb _ = false |- _ => apply negb_false_iff in H
  end.

(** Case analysis on the tests of the goal, keeping the equations as facts. *)
Ltac split_tests :=
  repeat (case_match; simplify_eq/=); bool_facts.
