(* ===== verification/Trans.v ===== *)
(** * Concurrent components as transition systems

    A component with several goroutines is a state and a partial function [act]: [act a s]
    is the state after the atomic step [a], and [None] when the step is not possible in
    [s].  Reachability, runs of a given sequence of steps, and the two rules the
    components share: an invariant is preserved, and a measure that every step of some
    kind lowers bounds the runs of that kind. *)

From S2P Require Import Prelude.

Section trans.
Context {S A : Type} (act : A -> S -> option S).
Implicit Types (s : S) (a : A) (l : list A).

Inductive reaches_by s0 : S -> Prop :=
| reaches_refl : reaches_by s0 s0
| reaches_step s a s' : reaches_by s0 s -> act a s = Some s' -> reaches_by s0 s'.

Fixpoint run_by (l : list A) (s : S) : option S :=
  match l with
  | [] => Some s
  | a :: l' => match act a s with Some s' => run_by l' s' | None => None end
  end.

Lemma run_reaches s0 l s s' : reaches_by s0 s -> run_by l s = Some s' -> reaches_by s0 s'.
Proof.
  revert s. induction l as [|a l IH]; intros s Hr; simpl; [by intros [= <-]|].
  destruct (act a s) as [s1|] eqn:E; [|done]. apply IH. by eapply reaches_step.
Qed.

(** The state after a run, [s0] when there is no such run. *)
Definition after_by s0 l : S := default s0 (run_by l s0).

Lemma after_run s0 l :
  match run_by l s0 with Some _ => true | None => false end = true -> run_by l s0 = Some (after_by s0 l).
Proof. unfold after_by. by destruct (run_by l s0). Qed.

Lemma after_reaches s0 l :
  match run_by l s0 with Some _ => true | None => false end = true -> reaches_by s0 (after_by s0 l).
Proof.
  unfold after_by. destruct (run_by l s0) as [s|] eqn:E; [|done]. intros _.
  by eapply run_reaches; [apply reaches_refl|].
Qed.

Section invariant.
Context (I : S -> Prop) (I_step : forall a s s', I s -> act a s = Some s' -> I s').

Lemma reaches_inv s0 s : I s0 -> reaches_by s0 s -> I s.
Proof. intros H0 Hr. induction Hr; [done|by eapply I_step]. Qed.

(** A run of steps that [K] selects is no longer than what they lower the measure by. *)
Context (K : A -> bool) (rank : S -> nat) (Lower : S -> Prop).
Context (K_lowers : forall a s s', I s -> Lower s -> K a = true -> act a s = Some s' ->
                      (rank s' < rank s)%nat /\ Lower s').

Lemma run_bounded l s s' :
  I s -> Lower s -> forallb K l = true -> run_by l s = Some s' ->
  (length l + rank s' <= rank s)%nat /\ I s' /\ Lower s'.
Proof.
  revert s. induction l as [|a l IH]; intros s Hs HL Hl Hrun; simpl in *; [by simplify_eq|].
  apply andb_prop in Hl as [Ha Hl]. destruct (act a s) as [s1|] eqn:E; [|done].
  destruct (K_lowers a s s1 Hs HL Ha E) as [Hlt HL1]. apply I_step in E; [|done].
  destruct (IH s1 E HL1 Hl Hrun) as (H1 & H2 & H3). split_and!; [lia|done|done].
Qed.
End invariant.

(** An invariant of the runs whose steps satisfy [K], as long as a count that a step
    raises by at most one stays below [N]: the condition under which a wrapping counter
    has not come round. *)
Lemma run_inv_within (I : S -> Prop) (K : A -> Prop) (n : S -> Z) (N : Z) l s s' :
  (forall a s s', K a -> I s -> n s + 1 < N -> act a s = Some s' -> I s' /\ n s' <= n s + 1) ->
  Forall K l -> I s -> n s + Z.of_nat (length l) < N -> run_by l s = Some s' ->
  I s' /\ n s' <= n s + Z.of_nat (length l).
Proof.
  intros Hstep Hl. revert s. induction Hl as [|a l Ha Hl IH]; intros s Hs Hn; simpl in *.
  { intros [= <-]. split; [done|lia]. }
  destruct (act a s) as [s1|] eqn:E; [|done].
  destruct (Hstep a s s1 Ha Hs ltac:(lia) E) as [H1 Hle]. intros Hrun.
  destruct (IH s1 H1 ltac:(lia) Hrun) as [H2 H3]. split; [done|lia].
Qed.

Lemma run_inv (I : S -> Prop) (K : A -> Prop) l s s' :
  (forall a s s', K a -> I s -> act a s = Some s' -> I s') ->
  Forall K l -> I s -> run_by l s = Some s' -> I s'.
Proof.
  intros Hstep Hl Hs Hrun.
  destruct (run_inv_within I K (fun _ => 0) (2 + Z.of_nat (length l)) l s s') as [H1 _]; try done; [|lia].
  intros a s1 s2 Ha H1 _ E. split; [by apply (Hstep a s1)|lia].
Qed.
End trans.

(** ** What the goroutines hold, and sums over them *)

Lemma concat_insert {P X} (f : P -> list X) (l : list P) i p p' :
  l !! i = Some p -> f p ++ concat (f <$> <[i := p']> l) ≡ₚ f p' ++ concat (f <$> l).
Proof.
  revert i. induction l as [|q l IH]; intros [|i] Hi; simplify_eq/=.
  - solve_Permutation.
  - specialize (IH i Hi). rewrite !(Permutation_app_comm (f q)), !app_assoc, IH. done.
Qed.

Lemma forallb_at {P} (f : P -> bool) (l : list P) i p :
  forallb f l = true -> l !! i = Some p -> f p = true.
Proof.
  intros Hall Hi. rewrite forallb_forall in Hall. apply list_elem_of_lookup_2 in Hi.
  by apply list_elem_of_In, Hall in Hi.
Qed.

Lemma sum_list_insert {P} (f : P -> nat) (l : list P) i p p' :
  l !! i = Some p ->
  (sum_list (f <$> <[i := p']> l) + f p = sum_list (f <$> l) + f p')%nat.
Proof.
  revert i. induction l as [|q l IH]; intros [|i] Hi; simplify_eq/=; [lia|].
  specialize (IH i Hi). lia.
Qed.

Lemma sum_list_bound {P} (f : P -> nat) (l : list P) n :
  (forall p, f p <= n)%nat -> (sum_list (f <$> l) <= n * length l)%nat.
Proof. intros Hf. induction l as [|p l IH]; csimpl; [lia|]. specialize (Hf p). lia. Qed.

Lemma forallb_not {P} (f : P -> bool) (l : list P) :
  forallb f l = false -> exists i p, l !! i = Some p /\ f p = false.
Proof.
  induction l as [|p l IH]; [done|]. simpl. destruct (f p) eqn:Ep; [|by exists 0%nat, p].
  intros Hl. destruct (IH Hl) as (i & q & Hi & Hq). by exists (Datatypes.S i), q.
Qed.
