(* ===== verification/SendQueue.v ===== *)
(** * The serialised sender of the zcopy client (client.go: sendLoop, sendSerialized)

    Every send of the client goes through one goroutine: a caller puts a request with its
    operation on a bounded queue and waits on a channel of its own; [sendLoop] takes the
    requests one by one, runs their operations and sends the results; [Close] closes
    [closedCh].  Client.v takes such a send as one step with an outcome; here are its
    parts, as a transition system: the selects of [sendSerialized] and of [sendLoop], the
    queue, the callers' contexts and their result channels of capacity one.  A send on a
    full result channel would block the loop: it makes the step impossible, and
    [send_loop_never_blocks] shows that this does not happen. *)

From S2P Require Import Prelude Trans.

(** ** State *)

(** What an operation, or the loop in its place, answers. *)
Inductive sresult :=
| RNil                 (* the operation ran and returned nil *)
| ROpErr               (* it ran and returned an error *)
| RNilOp               (* there was no operation *)
| RClosed              (* net.ErrClosed *)
| RCtxErr.             (* the context's error *)

#[export] Instance sresult_eq_dec : EqDecision sresult.
Proof. solve_decision. Defined.

(** Where [sendSerialized] stands: before its check of the context, in its first select,
    in its second one, or returned. *)
Inductive caller_pc := CCheck | CEnqueue | CAwait | CReturned (r : sresult).

Record caller := {
  c_pc : caller_pc;
  c_op : bool;                 (* req.op is not nil *)
  c_ctx : bool;                (* ctx.Done() is closed *)
  c_out : option sresult;      (* the buffer of req.out *)
}.

(** Where [sendLoop] stands: in its select, running the operation of a request, in the
    loop that drains the queue, or returned. *)
Inductive loop_pc := LSelect | LRun (i : nat) | LDrain | LExit.

Record sender := {
  queue : list nat;            (* sendReqCh *)
  capacity : nat;
  callers : list caller;
  loop : loop_pc;
  closedCh : bool;
  accepted : list nat;         (* the requests enqueued so far, in order *)
  handled : list (nat * sresult);  (* those answered, in order *)
}.

Definition newSender (cap : nat) : sender :=
  {| queue := []; capacity := cap; callers := []; loop := LSelect; closedCh := false;
     accepted := []; handled := [] |}.

Definition set_callers (s : sender) (l : list caller) : sender :=
  {| queue := queue s; capacity := capacity s; callers := l; loop := loop s; closedCh := closedCh s;
     accepted := accepted s; handled := handled s |}.
Definition set_queue (s : sender) (q a : list nat) : sender :=
  {| queue := q; capacity := capacity s; callers := callers s; loop := loop s; closedCh := closedCh s;
     accepted := a; handled := handled s |}.
Definition set_loop (s : sender) (p : loop_pc) : sender :=
  {| queue := queue s; capacity := capacity s; callers := callers s; loop := p; closedCh := closedCh s;
     accepted := accepted s; handled := handled s |}.
Definition set_closed (s : sender) : sender :=
  {| queue := queue s; capacity := capacity s; callers := callers s; loop := loop s; closedCh := true;
     accepted := accepted s; handled := handled s |}.

Definition put_caller (s : sender) (i : nat) (c : caller) : sender := set_callers s (<[i := c]> (callers s)).
Definition with_pc (c : caller) (p : caller_pc) : caller :=
  {| c_pc := p; c_op := c_op c; c_ctx := c_ctx c; c_out := c_out c |}.
Definition with_out (c : caller) (o : option sresult) : caller :=
  {| c_pc := c_pc c; c_op := c_op c; c_ctx := c_ctx c; c_out := o |}.
Definition cancelled (c : caller) : caller :=
  {| c_pc := c_pc c; c_op := c_op c; c_ctx := true; c_out := c_out c |}.

(** [req.out <- r]: not possible while the buffer is full. *)
Definition answer (s : sender) (i : nat) (r : sresult) : option sender :=
  match callers s !! i with
  | Some c =>
    match c_out c with
    | None =>
      Some {| queue := queue s; capacity := capacity s; callers := <[i := with_out c (Some r)]> (callers s);
              loop := loop s; closedCh := closedCh s; accepted := accepted s;
              handled := handled s ++ [(i, r)] |}
    | Some _ => None
    end
  | None => None
  end.

(** ** sendSerialized *)

(** [if err := ctx.Err(); err != nil] *)
Definition check_ctx (c : caller) : caller :=
  if c_ctx c then with_pc c (CReturned RCtxErr) else with_pc c CEnqueue.

(** The first select: the request is queued, the context is done, or the client closed. *)
Inductive enqueue_arm := EQueue | ECtx | EClosed.

Definition enqueue (s : sender) (i : nat) (c : caller) (a : enqueue_arm) : option sender :=
  match a with
  | EQueue =>
    if (length (queue s) <? capacity s)%nat then
      Some (put_caller (set_queue s (queue s ++ [i]) (accepted s ++ [i])) i (with_pc c CAwait))
    else None
  | ECtx => if c_ctx c then Some (put_caller s i (with_pc c (CReturned RCtxErr))) else None
  | EClosed => if closedCh s then Some (put_caller s i (with_pc c (CReturned RClosed))) else None
  end.

(** The second select: the result, the context, or the closed client, where a result
    that is already there is still taken. *)
Inductive await_arm := AOut | ACtxDone | AClosedCh.

Definition await (s : sender) (i : nat) (c : caller) (a : await_arm) : option sender :=
  let take r := put_caller s i (with_out (with_pc c (CReturned r)) None) in
  match a with
  | AOut => match c_out c with Some r => Some (take r) | None => None end
  | ACtxDone => if c_ctx c then Some (put_caller s i (with_pc c (CReturned RCtxErr))) else None
  | AClosedCh =>
    if closedCh s then
      Some (match c_out c with
            | Some r => take r
            | None => put_caller s i (with_pc c (CReturned RClosed))
            end)
    else None
  end.

(** ** sendLoop *)

(** [case req := <-c.sendReqCh] *)
Definition loop_take (s : sender) : option sender :=
  match loop s, queue s with
  | LSelect, i :: q =>
    let s1 := set_queue s q (accepted s) in
    match callers s !! i with
    | Some c => if c_op c then Some (set_loop s1 (LRun i)) else answer s1 i RNilOp
    | None => None
    end
  | _, _ => None
  end.

(** [req.out <- req.op(req.ctx)]: the operation has returned, nil or an error. *)
Definition loop_done (s : sender) (ok : bool) : option sender :=
  match loop s with
  | LRun i =>
    match answer s i (if ok then RNil else ROpErr) with
    | Some s1 => Some (set_loop s1 LSelect)
    | None => None
    end
  | _ => None
  end.

(** [case <-c.closedCh], and one turn of the loop that drains the queue. *)
Definition loop_closed (s : sender) : option sender :=
  match loop s with LSelect => if closedCh s then Some (set_loop s LDrain) else None | _ => None end.

Definition loop_drain (s : sender) : option sender :=
  match loop s with
  | LDrain =>
    match queue s with
    | [] => Some (set_loop s LExit)
    | i :: q => answer (set_queue s q (accepted s)) i RClosed
    end
  | _ => None
  end.

(** ** Steps *)

Inductive step :=
| SCall (op ctx : bool)                (* a call of sendSerialized *)
| SCancel (i : nat)                    (* a caller's context ends *)
| SCheck (i : nat)
| SEnqueue (i : nat) (a : enqueue_arm)
| SAwait (i : nat) (a : await_arm)
| STake
| SDone (ok : bool)
| SLoopClosed
| SDrain
| SClose.                              (* close(c.closedCh) *)

Definition act (a : step) (s : sender) : option sender :=
  match a with
  | SCall op ctx =>
    Some (set_callers s (callers s ++ [{| c_pc := CCheck; c_op := op; c_ctx := ctx; c_out := None |}]))
  | SCancel i =>
    match callers s !! i with Some c => Some (put_caller s i (cancelled c)) | None => None end
  | SCheck i =>
    match callers s !! i with
    | Some c => match c_pc c with CCheck => Some (put_caller s i (check_ctx c)) | _ => None end
    | None => None
    end
  | SEnqueue i a =>
    match callers s !! i with
    | Some c => match c_pc c with CEnqueue => enqueue s i c a | _ => None end
    | None => None
    end
  | SAwait i a =>
    match callers s !! i with
    | Some c => match c_pc c with CAwait => await s i c a | _ => None end
    | None => None
    end
  | STake => loop_take s
  | SDone ok => loop_done s ok
  | SLoopClosed => loop_closed s
  | SDrain => loop_drain s
  | SClose => Some (set_closed s)
  end.

Abbreviation run := (run_by act).

(** ** The invariant *)

Definition running (s : sender) : list nat := match loop s with LRun i => [i] | _ => [] end.
Definition waiting (s : sender) : list nat := running s ++ queue s.

(** Results the loop alone can give: the others a caller may also find by itself. *)
Definition from_loop (r : sresult) : bool :=
  match r with RNil | ROpErr | RNilOp => true | RClosed | RCtxErr => false end.

(** An operation has run exactly when the answer is one that it gave. *)
Definition has_run (r : sresult) : bool := match r with RNil | ROpErr => true | _ => false end.

Record caller_ok (s : sender) (i : nat) (c : caller) : Prop := {
  co_early : (c_pc c = CCheck \/ c_pc c = CEnqueue) -> i ∉ accepted s;
  co_await : c_pc c = CAwait -> i ∈ accepted s;
  co_waiting : i ∈ waiting s -> c_out c = None;
  co_out : forall r, c_out c = Some r -> (i, r) ∈ handled s;
  co_ret : forall r, c_pc c = CReturned r -> from_loop r = true -> (i, r) ∈ handled s;
  co_answered : forall r, (i, r) ∈ handled s ->
    (r = RClosed /\ closedCh s = true) \/ (from_loop r = true /\ c_op c = has_run r);
  co_kept : forall r, (i, r) ∈ handled s ->
    (c_pc c = CAwait /\ c_out c = Some r) \/
    (exists r', c_pc c = CReturned r' /\ (r' = r \/ from_loop r' = false));
  co_why : forall r, c_pc c = CReturned r ->
    match r with RCtxErr => c_ctx c = true | RClosed => closedCh s = true | _ => True end;
}.

Record inv (s : sender) : Prop := {
  i_split : accepted s = (handled s).*1 ++ waiting s;
  i_nodup : NoDup (accepted s);
  i_bound : (length (queue s) <= capacity s)%nat;
  i_known : forall i, i ∈ accepted s -> is_Some (callers s !! i);
  i_callers : forall i c, callers s !! i = Some c -> caller_ok s i c;
  i_running : forall i c, loop s = LRun i -> callers s !! i = Some c -> c_op c = true;
  i_closed : (loop s = LDrain \/ loop s = LExit) -> closedCh s = true;
}.

Lemma inv_newSender cap : inv (newSender cap).
Proof.
  split; simpl; try done; try (by apply NoDup_nil); try lia; try (intros i Hi; by apply not_elem_of_nil in Hi).
  by intros [H|H].
Qed.

(** A step of one caller alone: what the lists record is as before. *)
Lemma inv_put s i c c' :
  inv s -> callers s !! i = Some c -> c_op c' = c_op c -> caller_ok s i c' ->
  inv (put_caller s i c').
Proof.
  intros [I1 I2 I3 I4 I5 I6 I7] Hc Hop Hok. split; simpl; try done.
  - intros j Hj. destruct (decide (i = j)) as [->|Hne].
    + rewrite list_lookup_insert_eq; [done|]. by eapply lookup_lt_Some.
    + rewrite list_lookup_insert_ne by done. by apply I4.
  - intros j d Hj. apply list_lookup_insert_Some in Hj as [(<- & -> & _)|(Hne & Hj)].
    + destruct Hok. by split.
    + destruct (I5 j d Hj). by split.
  - intros j d Hl Hj. apply list_lookup_insert_Some in Hj as [(<- & -> & _)|(Hne & Hj)].
    + rewrite Hop. by eapply I6.
    + by eapply I6.
Qed.

(** [answer], of the request the loop has in hand: [s] is the state with that request
    taken off what is waiting. *)
Lemma answer_inv s s1 i r c :
  inv s -> waiting s = i :: waiting s1 -> callers s !! i = Some c ->
  (r = RClosed /\ closedCh s = true) \/ (from_loop r = true /\ c_op c = has_run r) ->
  s1 = {| queue := queue s1; capacity := capacity s; callers := callers s; loop := loop s1;
          closedCh := closedCh s; accepted := accepted s; handled := handled s |} ->
  running s1 = [] -> (length (queue s1) <= length (queue s))%nat ->
  ((loop s1 = LDrain \/ loop s1 = LExit) -> closedCh s = true) ->
  exists s', answer s1 i r = Some s' /\ inv s' /\ loop s' = loop s1 /\ queue s' = queue s1.
Proof.
  intros [I1 I2 I3 I4 I5 I6 I7] Hw Hc Hr -> Hrun Hq Hcl. unfold answer; simpl in *. rewrite Hc.
  assert (Hin : i ∈ accepted s) by (rewrite I1, Hw; set_solver).
  rewrite (co_waiting _ _ _ (I5 i c Hc)) by (rewrite Hw; set_solver).
  assert (Hnh : forall r0, (i, r0) ∉ handled s).
  { intros r0 Hr0. rewrite I1, Hw in I2. apply NoDup_app in I2 as (_ & I2 & _).
    apply (I2 i); [apply list_elem_of_fmap; by exists (i, r0)|by left]. }
  eexists; split; [done|]. split; [|done]. split; simpl; try done.
  - rewrite fmap_app, <- app_assoc. simpl. by rewrite I1, Hw.
  - lia.
  - intros j Hj. destruct (decide (i = j)) as [->|Hne].
    + rewrite list_lookup_insert_eq; [done|]. by eapply lookup_lt_Some.
    + rewrite list_lookup_insert_ne by done. by apply I4.
  - rewrite I1, Hw in I2. intros j d Hj.
    apply list_lookup_insert_Some in Hj as [(<- & <- & _)|(Hne & Hj)].
    + destruct (I5 i c Hc) as [A1 A2 A3 A4 A5 A6 A7 A8]. split; simpl in *; try done.
      * intros Hiw. exfalso. apply NoDup_app in I2 as (_ & _ & I2). apply NoDup_cons in I2 as [I2 _].
        by apply I2.
      * intros r0 [= <-]. set_solver.
      * intros r0 H1 H2. set_solver.
      * intros r0 Hr0. apply elem_of_app in Hr0 as [Hr0|Hr0]; [by apply A6|].
        apply list_elem_of_singleton in Hr0 as [= ->]. done.
      * intros r0 Hr0. apply elem_of_app in Hr0 as [Hr0|Hr0]; [by apply Hnh in Hr0|].
        apply list_elem_of_singleton in Hr0 as [= ->].
        destruct (c_pc c) as [| | |r'] eqn:Epc; [destruct A1; auto..|by left|]. right. exists r'.
        split; [done|]. right. destruct (from_loop r') eqn:Ef; [|done]. by destruct (Hnh r'); auto.
    + destruct (I5 j d Hj) as [A1 A2 A3 A4 A5 A6 A7 A8]. split; simpl; try done.
      * intros Hjw. apply A3. rewrite Hw. set_solver.
      * intros r0 H1. set_solver.
      * intros r0 H1 H2. set_solver.
      * intros r0 Hr0. apply elem_of_app in Hr0 as [Hr0|Hr0]; [by apply A6|].
        apply list_elem_of_singleton in Hr0 as [= -> ->]. done.
      * intros r0 Hr0. apply elem_of_app in Hr0 as [Hr0|Hr0]; [by apply A7|].
        apply list_elem_of_singleton in Hr0 as [= -> ->]. done.
  - intros j d Hl. unfold running in Hrun; simpl in Hrun. by rewrite Hl in Hrun.
Qed.

(** A request is queued. *)
Lemma enqueue_inv s i c :
  inv s -> callers s !! i = Some c -> c_pc c = CEnqueue -> (length (queue s) < capacity s)%nat ->
  inv (put_caller (set_queue s (queue s ++ [i]) (accepted s ++ [i])) i (with_pc c CAwait)).
Proof.
  intros [I1 I2 I3 I4 I5 I6 I7] Hc Hpc Hcap. destruct (I5 i c Hc) as [A1 A2 A3 A4 A5 A6 A7 A8].
  assert (Hni : i ∉ accepted s) by auto.
  assert (Hnh : forall r, (i, r) ∉ handled s).
  { intros r Hr. apply Hni. rewrite I1. apply elem_of_app. left. apply list_elem_of_fmap. by exists (i, r). }
  split; simpl; try done.
  - rewrite I1. unfold waiting, running; simpl. by rewrite !app_assoc.
  - apply NoDup_app. split_and!; [done|set_solver|by apply NoDup_singleton].
  - rewrite length_app. simpl. lia.
  - intros j Hj. destruct (decide (i = j)) as [->|Hne].
    + rewrite list_lookup_insert_eq; [done|]. by eapply lookup_lt_Some.
    + rewrite list_lookup_insert_ne by done. apply I4. set_solver.
  - intros j d Hj. apply list_lookup_insert_Some in Hj as [(<- & <- & _)|(Hne & Hj)].
    + split; simpl; try done; [intros [|]; done|set_solver| |].
      * intros _. destruct (c_out c) as [r|] eqn:E; [|done]. by destruct (Hnh r); auto.
      * intros r Hr. by destruct (Hnh r).
    + destruct (I5 j d Hj) as [B1 B2 B3 B4 B5 B6 B7 B8]. split; simpl; try done; [intros He; specialize (B1 He); set_solver|intros He; specialize (B2 He); set_solver|].
      intros Hw. apply B3. unfold waiting, running in *; simpl in *. set_solver.
  - intros j d Hl Hj. apply list_lookup_insert_Some in Hj as [(<- & <- & _)|(Hne & Hj)]; [by apply (I6 i c)|by apply (I6 j d)].
Qed.

Lemma inv_call s op ctx :
  inv s -> inv (set_callers s (callers s ++ [{| c_pc := CCheck; c_op := op; c_ctx := ctx; c_out := None |}])).
Proof.
  intros [I1 I2 I3 I4 I5 I6 I7].
  assert (Hnew : length (callers s) ∉ accepted s).
  { intros Hin. apply I4 in Hin. apply lookup_lt_is_Some in Hin. lia. }
  assert (Hpos : forall j d,
    (callers s ++ [{| c_pc := CCheck; c_op := op; c_ctx := ctx; c_out := None |}]) !! j = Some d ->
    callers s !! j = Some d \/ (j = length (callers s) /\
      d = {| c_pc := CCheck; c_op := op; c_ctx := ctx; c_out := None |})).
  { intros j d Hj. apply lookup_snoc_Some in Hj as [[_ ?]|[? <-]]; auto. }
  split; simpl; try done.
  - intros j Hj. destruct (I4 j Hj) as [d Hd]. exists d. by apply lookup_app_l_Some.
  - intros j d Hj. apply Hpos in Hj as [Hj|[-> ->]]; [destruct (I5 j d Hj); by split|].
    split; simpl; try done; intros r Hr; destruct Hnew; rewrite I1; apply elem_of_app; left;
      apply list_elem_of_fmap; by exists (length (callers s), r).
  - intros j d Hl Hj. apply Hpos in Hj as [Hj|[-> ->]]; [by eapply I6|].
    destruct Hnew. rewrite I1. unfold waiting, running. rewrite Hl. set_solver.
Qed.

(** ** What the loop does next is always possible *)

Lemma loop_take_inv s i q :
  inv s -> loop s = LSelect -> queue s = i :: q -> exists s', loop_take s = Some s' /\ inv s'.
Proof.
  intros Hs Hl Hq. unfold loop_take. rewrite Hl, Hq.
  destruct (i_known s Hs i) as [c Hc].
  { rewrite (i_split s Hs). unfold waiting. rewrite Hq. set_solver. }
  rewrite Hc. destruct (c_op c) eqn:Hop.
  - eexists; split; [done|]. destruct Hs as [I1 I2 I3 I4 I5 I6 I7]. split; simpl; try done.
    + rewrite I1. unfold waiting, running; simpl. by rewrite Hl, Hq.
    + rewrite Hq in I3. simpl in I3. lia.
    + intros j d Hj. destruct (I5 j d Hj) as [A1 A2 A3 A4 A5 A6 A7 A8]. split; try done.
      intros Hw. apply A3. unfold waiting, running in *; simpl in *. rewrite Hl, Hq. set_solver.
    + intros j d [= <-] Hj. by simplify_eq.
    + by intros [|].
  - destruct (answer_inv s (set_queue s q (accepted s)) i RNilOp c) as (s' & H1 & H2 & _); eauto.
    + unfold waiting, running; simpl. by rewrite Hl, Hq.
    + unfold running; simpl. by rewrite Hl.
    + simpl. rewrite Hq. simpl. lia.
    + simpl. rewrite Hl. by intros [|].
Qed.

Lemma loop_done_inv s i ok :
  inv s -> loop s = LRun i -> exists s', loop_done s ok = Some s' /\ inv s'.
Proof.
  intros Hs Hl. unfold loop_done. rewrite Hl.
  destruct (i_known s Hs i) as [c Hc].
  { rewrite (i_split s Hs). unfold waiting, running. rewrite Hl. set_solver. }
  assert (Hop := i_running s Hs i c Hl Hc).
  destruct (answer_inv s (set_loop s LSelect) i (if ok then RNil else ROpErr) c) as (s' & H1 & H2 & H3 & H4);
    try done.
  - unfold waiting, running; simpl. by rewrite Hl.
  - right. by destruct ok.
  - by intros [|].
  - unfold answer in *; simpl in *. rewrite Hc in *. destruct (c_out c); [done|]. simplify_eq.
    eexists; split; [done|]. done.
Qed.

Lemma loop_drain_inv s :
  inv s -> loop s = LDrain -> exists s', loop_drain s = Some s' /\ inv s'.
Proof.
  intros Hs Hl. unfold loop_drain. rewrite Hl. destruct (queue s) as [|i q] eqn:Hq.
  - eexists; split; [done|]. destruct Hs as [I1 I2 I3 I4 I5 I6 I7].
    assert (Hw : waiting (set_loop s LExit) = waiting s) by (unfold waiting, running; simpl; by rewrite Hl).
    split; simpl; try done; rewrite ?Hw; try done.
    + intros j d Hj. destruct (I5 j d Hj). by split; rewrite ?Hw.
    + intros _. apply I7. by left.
  - destruct (i_known s Hs i) as [c Hc].
    { rewrite (i_split s Hs). unfold waiting. rewrite Hq. set_solver. }
    destruct (answer_inv s (set_queue s q (accepted s)) i RClosed c) as (s' & H1 & H2 & _); eauto.
    + unfold waiting, running; simpl. by rewrite Hl, Hq.
    + left. split; [done|]. apply (i_closed s Hs). by left.
    + unfold running; simpl. by rewrite Hl.
    + simpl. rewrite Hq. simpl. lia.
    + simpl. intros _. apply (i_closed s Hs). by left.
Qed.

(** ** Every step preserves it *)

Lemma await_inv s i c a s' :
  inv s -> callers s !! i = Some c -> c_pc c = CAwait -> await s i c a = Some s' -> inv s'.
Proof.
  intros Hs Hc Hpc Ha. destruct (i_callers s Hs i c Hc) as [A1 A2 A3 A4 A5 A6 A7 A8].
  assert (Htake : forall r, c_out c = Some r ->
            inv (put_caller s i (with_out (with_pc c (CReturned r)) None))).
  { intros r Hr. apply (inv_put s i c); try done. split; simpl; try done.
    - by intros [|].
    - intros r0 [= <-] _. by apply A4.
    - intros r0 Hr0. right. exists r. split; [done|]. left.
      destruct (A7 r0 Hr0) as [[_ H]|(r' & H & _)]; congruence.
    - intros r0 [= <-]. specialize (A6 r (A4 r Hr)). by destruct r, A6 as [[]|[]]. }
  assert (Hgive : forall r, from_loop r = false ->
            match r with RCtxErr => c_ctx c = true | RClosed => closedCh s = true | _ => True end ->
            inv (put_caller s i (with_pc c (CReturned r)))).
  { intros r Hf Hwhy. apply (inv_put s i c); try done. split; simpl; try done.
    - by intros [|].
    - intros r0 [= <-] H. by rewrite Hf in H.
    - intros r0 Hr0. right. exists r. auto.
    - by intros r0 [= <-]. }
  destruct a; simpl in Ha.
  - destruct (c_out c) as [r|]; simplify_eq. by apply Htake.
  - destruct (c_ctx c) eqn:Ex; simplify_eq. by apply Hgive.
  - destruct (closedCh s) eqn:Ex; [|done]. destruct (c_out c) as [r|]; simplify_eq; [by apply Htake|].
    by apply Hgive.
Qed.

(** Before its request is queued, a caller has no result and none is on its way. *)
Lemma inv_early s i c p :
  inv s -> callers s !! i = Some c -> c_pc c = CCheck \/ c_pc c = CEnqueue ->
  p = CEnqueue \/ (p = CReturned RCtxErr /\ c_ctx c = true) \/
    (p = CReturned RClosed /\ closedCh s = true) ->
  inv (put_caller s i (with_pc c p)).
Proof.
  intros Hs Hc Hpc Hp. destruct (i_callers s Hs i c Hc) as [A1 A2 A3 A4 A5 A6 A7 A8].
  assert (Hnh : forall r, (i, r) ∉ handled s).
  { intros r Hr. apply (A1 Hpc). rewrite (i_split s Hs). apply elem_of_app. left.
    apply list_elem_of_fmap. by exists (i, r). }
  apply (inv_put s i c); try done. split; simpl; try done.
  - intros _. by apply A1.
  - intros ->. by destruct Hp as [|[[]|[]]].
  - intros r -> Hf. by destruct Hp as [|[[[= ->] _]|[[= ->] _]]].
  - intros r Hr. by destruct (Hnh r).
  - intros r ->. by destruct Hp as [|[[[= ->] ?]|[[= ->] ?]]].
Qed.

Lemma step_inv a s s' : inv s -> act a s = Some s' -> inv s'.
Proof.
  intros Hs Ha. destruct a as [op ctx|i|i|i a|i a| |ok| | |]; simpl in Ha.
  - simplify_eq. by apply inv_call.
  - destruct (callers s !! i) as [c|] eqn:Hc; simplify_eq. apply (inv_put s i c); try done.
    destruct (i_callers s Hs i c Hc) as [A1 A2 A3 A4 A5 A6 A7 A8]. split; simpl; try done.
    intros r Hr. specialize (A8 r Hr). by destruct r.
  - destruct (callers s !! i) as [c|] eqn:Hc; [|done]. destruct (c_pc c) eqn:Hpc; simplify_eq.
    unfold check_ctx. destruct (c_ctx c) eqn:Ex; apply inv_early; auto.
  - destruct (callers s !! i) as [c|] eqn:Hc; [|done]. destruct (c_pc c) eqn:Hpc; simplify_eq.
    destruct a; simpl in Ha.
    + destruct (Nat.ltb_spec (length (queue s)) (capacity s)); simplify_eq. by apply enqueue_inv.
    + destruct (c_ctx c) eqn:Ex; simplify_eq. apply inv_early; auto.
    + destruct (closedCh s) eqn:Ex; simplify_eq. apply inv_early; auto.
  - destruct (callers s !! i) as [c|] eqn:Hc; [|done]. destruct (c_pc c) eqn:Hpc; simplify_eq.
    by eapply await_inv.
  - unfold loop_take in Ha. destruct (loop s) as [|j| |] eqn:Hl, (queue s) as [|i q] eqn:Hq; simplify_eq.
    destruct (loop_take_inv s i q Hs Hl Hq) as (s1 & H1 & H2). unfold loop_take in H1.
    rewrite Hl, Hq in H1. congruence.
  - unfold loop_done in Ha. destruct (loop s) eqn:Hl; simplify_eq.
    destruct (loop_done_inv s i ok Hs Hl) as (s1 & H1 & H2). unfold loop_done in H1.
    rewrite Hl in H1. congruence.
  - unfold loop_closed in Ha. destruct (loop s) eqn:Hl, (closedCh s) eqn:Hcl; simplify_eq.
    destruct Hs as [I1 I2 I3 I4 I5 I6 I7].
    assert (Hw : waiting (set_loop s LDrain) = waiting s) by (unfold waiting, running; simpl; by rewrite Hl).
    split; simpl; try done; rewrite ?Hw; try done.
    intros j d Hj. destruct (I5 j d Hj). by split; rewrite ?Hw.
  - unfold loop_drain in Ha. destruct (loop s) eqn:Hl; simplify_eq.
    destruct (loop_drain_inv s Hs Hl) as (s1 & H1 & H2). unfold loop_drain in H1.
    rewrite Hl in H1. congruence.
  - simplify_eq. destruct Hs as [I1 I2 I3 I4 I5 I6 I7]. split; try done.
    intros j d Hj. destruct (I5 j d Hj) as [A1 A2 A3 A4 A5 A6 A7 A8]. split; try done.
    + intros r Hr. destruct (A6 r Hr) as [[-> _]|]; [by left|by right].
    + intros r Hr. specialize (A8 r Hr). by destruct r.
Qed.

Definition reaches (cap : nat) := reaches_by act (newSender cap).

Lemma reached_inv cap s : reaches cap s -> inv s.
Proof. apply reaches_inv; [apply step_inv|apply inv_newSender]. Qed.

(** ** What is left to do *)

Definition caller_rank (c : caller) : nat :=
  match c_pc c with CCheck => 5 | CEnqueue => 4 | CAwait => 1 | CReturned _ => 0 end.
Definition loop_rank (p : loop_pc) : nat :=
  match p with LRun _ => 3 | LSelect => 2 | LDrain => 1 | LExit => 0 end.
Definition rank (s : sender) : nat :=
  (sum_list (caller_rank <$> callers s) + 2 * length (queue s) + loop_rank (loop s))%nat.

(** The steps of the loop and of the calls under way: not a new call, an expiring context
    or [Close]. *)
Definition own (a : step) : bool :=
  match a with SCall _ _ | SCancel _ | SClose => false | _ => true end.

Lemma put_rank s i c c' k :
  callers s !! i = Some c -> (caller_rank c' + k = caller_rank c)%nat ->
  (rank (put_caller s i c') + k = rank s)%nat.
Proof.
  intros Hc Hk. unfold rank; simpl.
  assert (H := sum_list_insert caller_rank (callers s) i c c' Hc). lia.
Qed.

Lemma answer_rank s i r s' :
  answer s i r = Some s' -> rank s' = rank s /\ loop s' = loop s /\ queue s' = queue s /\
    closedCh s' = closedCh s.
Proof.
  unfold answer. destruct (callers s !! i) as [c|] eqn:Hc; [|done]. destruct (c_out c); [done|].
  intros [= <-]. split; [|done]. unfold rank; simpl.
  assert (H := sum_list_insert caller_rank (callers s) i c (with_out c (Some r)) Hc).
  change (caller_rank (with_out c (Some r))) with (caller_rank c) in H. lia.
Qed.

Lemma own_lowers a s s' : own a = true -> act a s = Some s' -> (rank s' < rank s)%nat.
Proof.
  intros Ho Ha. destruct a as [| |i|i a|i a| |ok| | |]; try done; simpl in Ha.
  - destruct (callers s !! i) as [c|] eqn:Hc; [|done]. destruct (c_pc c) eqn:Hp; simplify_eq.
    unfold check_ctx. destruct (c_ctx c).
    + assert (H := put_rank s i c (with_pc c (CReturned RCtxErr)) 5 Hc). unfold caller_rank in H; simpl in H.
      rewrite Hp in H. lia.
    + assert (H := put_rank s i c (with_pc c CEnqueue) 1 Hc). unfold caller_rank in H; simpl in H.
      rewrite Hp in H. lia.
  - destruct (callers s !! i) as [c|] eqn:Hc; [|done]. destruct (c_pc c) eqn:Hp; simplify_eq.
    assert (Hr : forall r, (rank (put_caller s i (with_pc c (CReturned r))) + 4 = rank s)%nat).
    { intros r. apply (put_rank s i c); [done|]. unfold caller_rank; simpl. by rewrite Hp. }
    destruct a; simpl in Ha.
    + destruct (length (queue s) <? capacity s)%nat; simplify_eq.
      assert (H := sum_list_insert caller_rank (callers s) i c (with_pc c CAwait) Hc).
      unfold caller_rank in H at 2 4; simpl in H. rewrite Hp in H. unfold rank; simpl.
      rewrite length_app; simpl. lia.
    + destruct (c_ctx c); simplify_eq. specialize (Hr RCtxErr). lia.
    + destruct (closedCh s); simplify_eq. specialize (Hr RClosed). lia.
  - destruct (callers s !! i) as [c|] eqn:Hc; [|done]. destruct (c_pc c) eqn:Hp; simplify_eq.
    assert (Hr : forall r c', c_pc c' = CReturned r -> (rank (put_caller s i c') + 1 = rank s)%nat).
    { intros r c' Hc'. apply (put_rank s i c); [done|]. unfold caller_rank. by rewrite Hp, Hc'. }
    destruct a; simpl in Ha; repeat case_match; simplify_eq;
      match goal with |- (rank (put_caller _ _ ?c') < _)%nat => specialize (Hr _ c' eq_refl); lia end.
  - unfold loop_take in Ha. destruct (loop s) as [|j| |] eqn:Hl, (queue s) as [|i q] eqn:Hq; simplify_eq.
    destruct (callers s !! i) as [c|]; [|done]. destruct (c_op c); simplify_eq.
    + unfold rank; simpl. rewrite Hl, Hq. simpl. lia.
    + apply answer_rank in Ha as [-> _]. unfold rank; simpl. rewrite Hl, Hq. simpl. lia.
  - unfold loop_done in Ha. destruct (loop s) eqn:Hl; simplify_eq.
    destruct (answer s i _) as [s1|] eqn:E; simplify_eq. apply answer_rank in E as (Hr & Hl1 & Hq & _).
    unfold rank in *; simpl. rewrite Hq, Hl1, Hl in Hr. rewrite Hq, Hl. simpl in *. lia.
  - unfold loop_closed in Ha. destruct (loop s) eqn:Hl, (closedCh s); simplify_eq.
    unfold rank; simpl. rewrite Hl. simpl. lia.
  - unfold loop_drain in Ha. destruct (loop s) eqn:Hl; simplify_eq.
    destruct (queue s) as [|i q] eqn:Hq; simplify_eq.
    + unfold rank; simpl. rewrite Hl, Hq. simpl. lia.
    + apply answer_rank in Ha as [-> _]. unfold rank; simpl. rewrite Hl, Hq. simpl. lia.
Qed.

Lemma own_closed a s s' : own a = true -> act a s = Some s' -> closedCh s' = closedCh s.
Proof.
  intros Ho Ha. destruct a; try done; simpl in Ha;
    unfold enqueue, await, loop_take, loop_done, loop_closed, loop_drain in Ha;
    repeat case_match; simplify_eq; try done;
    repeat match goal with H : answer _ _ _ = Some _ |- _ => apply answer_rank in H as (_ & _ & _ & H) end;
    simpl in *; congruence.
Qed.

(** ** Properties *)

(** C23: In every reachable state [sendLoop] can take its next step: it never finds the
    result channel of a request full, so it never blocks on a caller that has given up;
    it takes a queued request when there is one, stops when the client is closed, and
    ends the operation it runs whatever that returns. *)
Theorem send_loop_never_blocks cap s :
  reaches cap s ->
  match loop s with
  | LSelect => (queue s <> [] -> is_Some (act STake s)) /\ (closedCh s = true -> is_Some (act SLoopClosed s))
  | LRun _ => forall ok, is_Some (act (SDone ok) s)
  | LDrain => is_Some (act SDrain s)
  | LExit => closedCh s = true
  end.
Proof.
  intros Hr. apply reached_inv in Hr as Hs. destruct (loop s) as [|i| |] eqn:Hl; simpl.
  - split.
    + intros Hq. destruct (queue s) as [|i q] eqn:Eq; [done|].
      destruct (loop_take_inv s i q Hs Hl Eq) as (s' & -> & _). by eexists.
    + intros Hc. unfold loop_closed. rewrite Hl, Hc. by eexists.
  - intros ok. destruct (loop_done_inv s i ok Hs Hl) as (s' & -> & _). by eexists.
  - destruct (loop_drain_inv s Hs Hl) as (s' & -> & _). by eexists.
  - apply (i_closed s Hs). by right.
Qed.

(** C22: The sends of one client are serialised.  The requests are answered in the order
    in which they were queued, each at most once, and at most [capacity] of them wait.
    The operation of a call that returns nil or its error has run, and gave that result;
    a call that returns without it does so because its context is done or the client is
    closed, and its operation may have run all the same. *)
Theorem sends_are_serialised cap s :
  reaches cap s ->
  accepted s = (handled s).*1 ++ running s ++ queue s /\ NoDup (accepted s) /\
  (length (queue s) <= capacity s)%nat /\
  (forall i c r, callers s !! i = Some c -> c_pc c = CReturned r ->
    match r with
    | RCtxErr => c_ctx c = true
    | RClosed => closedCh s = true
    | _ => (i, r) ∈ handled s /\ c_op c = has_run r
    end) /\
  (forall i r, (i, r) ∈ handled s ->
    exists c, callers s !! i = Some c /\
      ((c_pc c = CAwait /\ c_out c = Some r) \/ c_pc c = CReturned r \/
       c_pc c = CReturned RCtxErr \/ c_pc c = CReturned RClosed)).
Proof.
  intros Hr. apply reached_inv in Hr as Hs. destruct Hs as [I1 I2 I3 I4 I5 I6 I7]. split_and!; try done.
  - intros i c r Hc Hp. destruct (I5 i c Hc) as [_ _ _ _ A5 A6 _ A8]. specialize (A8 r Hp). specialize (A5 r Hp).
    destruct r; try done; specialize (A5 eq_refl); (split; [done|]); by destruct (A6 _ A5) as [[]|[]].
  - intros i r Hi. destruct (I4 i) as [c Hc].
    { rewrite I1. apply elem_of_app. left. apply list_elem_of_fmap. by exists (i, r). }
    exists c. split; [done|]. destruct (co_kept _ _ _ (I5 i c Hc) r Hi) as [?|(r' & Hp & [->|Hf])]; auto.
    rewrite Hp. destruct r'; try done; auto.
Qed.

(** The loop has returned, and so has every call of [sendSerialized]. *)
Definition settled (s : sender) : Prop :=
  loop s = LExit /\ forall i c, callers s !! i = Some c -> exists r, c_pc c = CReturned r.

(** With the client closed, something that is not settled can go on. *)
Lemma closed_progress s :
  inv s -> closedCh s = true -> settled s \/ exists a s', own a = true /\ act a s = Some s'.
Proof.
  intros Hs Hcl. destruct (loop s) as [|i| |] eqn:Hl.
  - right. exists SLoopClosed, (set_loop s LDrain). split; [done|]. simpl. unfold loop_closed. by rewrite Hl, Hcl.
  - right. destruct (loop_done_inv s i true Hs Hl) as (s' & H & _). by exists (SDone true), s'.
  - right. destruct (loop_drain_inv s Hs Hl) as (s' & H & _). by exists SDrain, s'.
  - destruct (forallb (fun c => match c_pc c with CReturned _ => true | _ => false end) (callers s)) eqn:E.
    + left. split; [done|]. intros i c Hc. assert (Hp := forallb_at _ _ i c E Hc). simpl in Hp.
      destruct (c_pc c) as [| | |r] eqn:Ep; try done. by exists r.
    + right. apply forallb_not in E as (i & c & Hc & Hf). destruct (c_pc c) eqn:Hp; try done.
      * exists (SCheck i). eexists. split; [done|]. simpl. by rewrite Hc, Hp.
      * exists (SEnqueue i EClosed). eexists. split; [done|]. simpl. rewrite Hc, Hp. simpl. by rewrite Hcl.
      * exists (SAwait i AClosedCh). eexists. split; [done|]. simpl. rewrite Hc, Hp. simpl. by rewrite Hcl.
Qed.

(** C24: [Close] ends the sender.  Once [closedCh] is closed, the loop and the calls under
    way take at most [rank s] further steps whatever the scheduler does, and whenever no
    step is left the loop has returned and every call of [sendSerialized] has too: nobody
    waits for a result that does not come, even one whose request was queued after the
    loop had drained the queue. *)
Theorem close_stops_the_sender cap s l s' :
  reaches cap s -> closedCh s = true -> forallb own l = true -> run l s = Some s' ->
  (length l <= rank s)%nat /\ (settled s' \/ exists a s'', own a = true /\ act a s' = Some s'').
Proof.
  intros Hr Hcl Hl Hrun. apply reached_inv in Hr as Hs.
  destruct (run_bounded act inv step_inv own rank (fun s => closedCh s = true)) with (l := l) (s := s) (s' := s')
    as (H1 & H2 & H3); try done.
  - intros a s1 s2 _ H1 Ha Hact. split; [by eapply own_lowers|]. rewrite (own_closed a s1 s2); done.
  - split; [lia|]. by apply closed_progress.
Qed.

(** ** Concrete runs *)

(** Two calls: the first gives up while it waits, the second is queued behind it. *)
Definition given_up : list step :=
  [SCall true false; SCheck 0; SEnqueue 0 EQueue; SCall true false; SCheck 1; SEnqueue 1 EQueue;
   SCancel 0; SAwait 0 ACtxDone; STake].

(** Both operations run, and the second call returns nil. *)
Definition both_ran : list step :=
  given_up ++ [SDone true; STake; SDone true; SAwait 1 AOut].

(** A call queues its request after the loop has drained the queue of a closed client. *)
Definition late : list step :=
  [SCall true false; SCheck 0; SClose; SLoopClosed; SDrain].

Definition sent_after (l : list step) : sender := after_by act (newSender 2) l.

Lemma reaches_after l :
  match run l (newSender 2) with Some _ => true | None => false end = true -> reaches 2 (sent_after l).
Proof. apply after_reaches. Qed.

(** The operation of a call that returned its context's error runs, and nothing blocks. *)
Example gave_up_and_ran :
  (c_pc <$> callers (sent_after both_ran)) = [CReturned RCtxErr; CReturned RNil] /\
  handled (sent_after both_ran) = [(0%nat, RNil); (1%nat, RNil)].
Proof. by vm_compute. Qed.

Lemma send_loop_never_blocks_witness :
  loop (sent_after given_up) = LRun 0 /\ forall ok, is_Some (act (SDone ok) (sent_after given_up)).
Proof.
  split; [by vm_compute|].
  exact (send_loop_never_blocks 2 (sent_after given_up) (reaches_after given_up eq_refl)).
Defined.

Lemma sends_are_serialised_witness :
  accepted (sent_after both_ran) = (handled (sent_after both_ran)).*1 ++
    running (sent_after both_ran) ++ queue (sent_after both_ran) /\
  accepted (sent_after both_ran) = [0%nat; 1%nat].
Proof.
  split; [|by vm_compute].
  exact (proj1 (sends_are_serialised 2 (sent_after both_ran) (reaches_after both_ran eq_refl))).
Defined.

Lemma close_stops_the_sender_witness :
  let s := sent_after late in
  let s' := default s (run [SEnqueue 0 EQueue; SAwait 0 AClosedCh] s) in
  closedCh s = true /\ queue s' = [0%nat] /\ settled s' /\
  ((2 <= rank s)%nat /\ (settled s' \/ exists a s'', own a = true /\ act a s' = Some s'')).
Proof.
  split; [by vm_compute|]. split; [by vm_compute|]. split.
  - split; [by vm_compute|]. intros [|[|i]] c Hc; vm_compute in Hc; [|done|done].
    exists RClosed. by injection Hc as <-.
  - apply (close_stops_the_sender 2 (sent_after late) [SEnqueue 0 EQueue; SAwait 0 AClosedCh]);
      [by apply reaches_after|by vm_compute..].
Defined.
