(* ===== verification/Floats.v ===== *)
(** * float64

    The operations on Go's float64 that the benchmark clients use, on the executable
    IEEE 754 numbers of the Standard Library: 53 bits of precision, rounding to nearest,
    ties to even.  The main lemma is about the index [int(float64(n) * p)] of a quantile:
    rounding never takes it past [n]. *)

From Stdlib Require Import SpecFloat.
From S2P Require Import Prelude.

Definition float64 : Type := spec_float.

Definition f64_of_Z (z : Z) : float64 := binary_normalize 53 1024 z 0 false.
Definition f64_add : float64 -> float64 -> float64 := SFadd 53 1024.
Definition f64_mul : float64 -> float64 -> float64 := SFmul 53 1024.
Definition f64_div : float64 -> float64 -> float64 := SFdiv 53 1024.
Definition f64_lt : float64 -> float64 -> bool := SFltb.
Definition f64_le : float64 -> float64 -> bool := SFleb.
Definition f64_eq : float64 -> float64 -> bool := SFeqb.
Definition f64_zero : float64 := S754_zero false.
Definition f64_one : float64 := Eval vm_compute in f64_of_Z 1.

(** A finite number without its fraction. *)
Definition f64_trunc (x : float64) : option Z :=
  match x with
  | S754_zero _ => Some 0
  | S754_finite s m e =>
    let n := if 0 <=? e then Zpos m * 2 ^ e else Zpos m / 2 ^ (- e) in
    Some (if s then - n else n)
  | _ => None
  end.

(** [int64(x)].  What a machine makes of a number out of range is not specified: amd64
    gives the least integer. *)
Definition i64_of_f64 (x : float64) : Z :=
  match f64_trunc x with
  | Some n => if (- 2 ^ 63 <=? n) && (n <? 2 ^ 63) then n else - 2 ^ 63
  | None => - 2 ^ 63
  end.

(** math.Ceil *)
Definition f64_ceil (x : float64) : float64 :=
  match x with
  | S754_finite s m e =>
    if 0 <=? e then x
    else
      let d := 2 ^ (- e) in
      if s then
        match Zpos m / d with Z0 => S754_zero true | n => f64_of_Z (- n) end
      else f64_of_Z ((Zpos m + d - 1) / d)
  | _ => x
  end.

(** time.Duration.Seconds *)
Definition Seconds (d : Z) : float64 :=
  f64_add (f64_of_Z (Z.quot d (10 ^ 9))) (f64_div (f64_of_Z (Z.rem d (10 ^ 9))) (f64_of_Z (10 ^ 9))).

(** ** Digits and shifts *)

Lemma digits2_bounds p : 2 ^ (Zpos (digits2_pos p) - 1) <= Zpos p < 2 ^ Zpos (digits2_pos p).
Proof.
  induction p as [p IH|p IH|]; cbn [digits2_pos]; [| |by cbn].
  all: rewrite Pos2Z.inj_succ; replace (Z.succ (Zpos (digits2_pos p)) - 1)
         with (Z.succ (Zpos (digits2_pos p) - 1)) by lia; rewrite !Z.pow_succ_r by lia; lia.
Qed.

Lemma digits2_le p k : 0 <= k -> Zpos p < 2 ^ k -> Zpos (digits2_pos p) <= k.
Proof.
  intros Hk Hp. destruct (Z.le_gt_cases (Zpos (digits2_pos p)) k) as [|Hg]; [done|].
  pose proof (digits2_bounds p) as [H1 _].
  assert (2 ^ k <= 2 ^ (Zpos (digits2_pos p) - 1)) by (apply Z.pow_le_mono_r; lia). lia.
Qed.

Lemma shr_1_m r : 0 <= shr_m r -> shr_m (shr_1 r) = shr_m r / 2.
Proof.
  destruct r as [[|[p|p|]|p] b s]; cbn [shr_m shr_1]; intros Hr; [done| | |done|lia].
  - rewrite (Pos2Z.inj_xI p). apply (Z.div_unique _ 2 _ 1); lia.
  - rewrite (Pos2Z.inj_xO p). apply (Z.div_unique _ 2 _ 0); lia.
Qed.

Lemma iter_shr_m p r : 0 <= shr_m r ->
  0 <= shr_m (SpecFloat.iter_pos shr_1 p r) /\
  shr_m (SpecFloat.iter_pos shr_1 p r) = shr_m r / 2 ^ Zpos p.
Proof.
  revert r. induction p as [p IH|p IH|]; intros r Hr; cbn [SpecFloat.iter_pos].
  - pose proof (shr_1_m r Hr) as E1. assert (0 <= shr_m (shr_1 r)) as G1 by (rewrite E1; apply Z.div_pos; lia).
    destruct (IH _ G1) as [G2 E2]. destruct (IH _ G2) as [G3 E3]. split; [done|].
    rewrite E3, E2, E1, !Z.div_div by lia. f_equal.
    rewrite (Pos2Z.inj_xI p), Z.pow_add_r, Z.pow_twice_r by lia. lia.
  - destruct (IH _ Hr) as [G2 E2]. destruct (IH _ G2) as [G3 E3]. split; [done|].
    rewrite E3, E2, Z.div_div by lia. f_equal. by rewrite (Pos2Z.inj_xO p), Z.pow_twice_r.
  - rewrite shr_1_m by done. split; [apply Z.div_pos; lia|done].
Qed.

(** Shifting right by [n], when that is positive: a division, with the remainder only
    deciding whether rounding adds one. *)
Lemma shr_fexp_spec m e r e' :
  0 <= m -> shr_fexp 53 1024 m e loc_Exact = (r, e') ->
  let n := Z.max 0 (fexp 53 1024 (Zdigits2 m + e) - e) in
  e' = e + n /\ shr_m r = m / 2 ^ n.
Proof.
  intros Hm. unfold shr_fexp, shr. cbn [shr_record_of_loc]. cbv zeta.
  destruct (fexp 53 1024 (Zdigits2 m + e) - e) as [|p|p]; intros [= <- <-].
  - by rewrite Z.add_0_r, Z.div_1_r.
  - destruct (iter_shr_m p {| shr_m := m; shr_r := false; shr_s := false |} Hm) as [_ E].
    by rewrite E.
  - by rewrite Z.add_0_r, Z.div_1_r.
Qed.

Lemma round_bounds m l : m <= round_nearest_even m l <= m + 1.
Proof. destruct l as [|[]]; simpl; try lia. destruct (Z.even m); lia. Qed.

Lemma fexp_max e : fexp 53 1024 e = Z.max (e - 53) (- 1074).
Proof. done. Qed.

Lemma Zdigits2_pos p : Zdigits2 (Zpos p) = Zpos (digits2_pos p).
Proof. done. Qed.

(** A mantissa of exactly 53 bits is not rounded. *)
Lemma round_aux_exact p e :
  Zpos (digits2_pos p) = 53 -> - 1074 <= e <= 971 ->
  binary_round_aux 53 1024 false (Zpos p) e loc_Exact = S754_finite false p e.
Proof.
  intros Hd He.
  assert (E : shr_fexp 53 1024 (Zpos p) e loc_Exact = ({| shr_m := Zpos p; shr_r := false; shr_s := false |}, e)).
  { unfold shr_fexp. rewrite fexp_max, Zdigits2_pos, Hd.
    replace (Z.max (53 + e - 53) (- 1074) - e) with 0 by lia. done. }
  unfold binary_round_aux. rewrite E. cbn [shr_m loc_of_shr_record round_nearest_even].
  rewrite E. cbn [shr_m]. assert (Hle : (e <=? 1024 - 53) = true) by (apply Z.leb_le; lia).
  by rewrite Hle.
Qed.

Lemma digits2_shift_pos p k :
  Zpos (digits2_pos (shift_pos k p)) = Zpos (digits2_pos p) + Zpos k.
Proof.
  unfold shift_pos. induction k as [|k IH] using Pos.peano_ind; [simpl; lia|].
  rewrite Pos.iter_succ. cbn [digits2_pos]. rewrite !Pos2Z.inj_succ, IH. lia.
Qed.

(** An integer of at most 53 bits is a float64, its mantissa shifted to 53 bits. *)
Lemma f64_of_small n :
  0 < n < 2 ^ 53 ->
  exists m k, f64_of_Z n = S754_finite false m (- k) /\ 0 <= k <= 52 /\
    Zpos m = n * 2 ^ k /\ Zpos (digits2_pos m) = 53.
Proof.
  destruct n as [|p|p]; [lia| |lia]. intros Hn.
  pose proof (digits2_le p 53 ltac:(lia) (proj2 Hn)) as Hd.
  assert (E : f64_of_Z (Zpos p) = let '(mz, ez) := shl_align p 0 (fexp 53 1024 (Zpos (digits2_pos p) + 0)) in
    binary_round_aux 53 1024 false (Zpos mz) ez loc_Exact) by done.
  rewrite E. clear E. unfold shl_align. rewrite Z.add_0_r, fexp_max, Z.sub_0_r.
  assert (Hmax : Z.max (Zpos (digits2_pos p) - 53) (- 1074) = Zpos (digits2_pos p) - 53)
    by (pose proof (Pos2Z.is_pos (digits2_pos p)); lia).
  rewrite Hmax. destruct (Zpos (digits2_pos p) - 53) as [|j|j] eqn:Ej; [|lia|].
  - exists p, 0. rewrite round_aux_exact by lia. split_and!; [done|lia|lia|by rewrite Z.mul_1_r|lia].
  - exists (shift_pos j p), (Zpos j). pose proof (Pos2Z.is_pos (digits2_pos p)).
    change (Pos.iter xO p j) with (shift_pos j p).
    rewrite round_aux_exact by (rewrite ?digits2_shift_pos; lia).
    split_and!; [done|lia|lia| |rewrite digits2_shift_pos; lia].
    by rewrite shift_pos_correct, Z.mul_comm.
Qed.

(** The quantile of an index: [int(float64(n) * p)] is an index up to [n]. *)
Lemma quantile_index n m e :
  0 <= n < 2 ^ 53 -> e <= 0 -> Zpos m < 2 ^ (- e) ->
  exists k, f64_trunc (f64_mul (f64_of_Z n) (S754_finite false m e)) = Some k /\ 0 <= k <= n.
Proof.
  intros Hn He Hm. destruct (Z.eq_dec n 0) as [->|Hne]; [by exists 0|].
  destruct (f64_of_small n ltac:(lia)) as (x & kx & -> & Hkx & Ex & Hdx).
  pose proof (digits2_bounds x) as [_ Hx]. rewrite Hdx in Hx.
  unfold f64_mul, SFmul. cbn [xorb].
  set (M := (x * m)%positive). assert (HM : Zpos M = Zpos x * Zpos m) by apply Pos2Z.inj_mul.
  assert (HlM : Zpos M < Zpos x * 2 ^ (- e)) by (rewrite HM; nia).
  assert (HdM : Zdigits2 (Zpos M) <= 53 - e).
  { apply digits2_le; [lia|]. replace (53 - e) with (53 + - e) by lia. rewrite Z.pow_add_r by lia. nia. }
  clearbody M. unfold binary_round_aux.
  destruct (shr_fexp 53 1024 (Zpos M) (- kx + e) loc_Exact) as [r1 e1] eqn:E1.
  apply shr_fexp_spec in E1 as [He1 Hr1]; [|done]. rewrite fexp_max in He1, Hr1. cbv zeta in *.
  set (n1 := Z.max 0 _) in *. assert (Hn1 : 0 <= n1 /\ e1 <= - kx) by lia. clearbody n1.
  set (D := - kx - e1). assert (Hlt : shr_m r1 < Zpos x * 2 ^ D).
  { rewrite Hr1. apply Z.div_lt_upper_bound; [lia|]. rewrite Z.mul_comm, <- Z.mul_assoc, <- Z.pow_add_r by lia.
    by replace (D + n1) with (- e) by lia. }
  pose proof (Z.div_pos (Zpos M) (2 ^ n1) ltac:(lia) ltac:(lia)) as H0r. rewrite <- Hr1 in H0r.
  set (m2 := round_nearest_even _ _). pose proof (round_bounds (shr_m r1) (loc_of_shr_record r1)) as Hm2.
  fold m2 in Hm2. clearbody m2. assert (Hd2 : Zdigits2 m2 <= 53 + D).
  { destruct m2 as [|q|q]; [simpl; lia| |lia]. apply digits2_le; [lia|]. rewrite Z.pow_add_r by lia. nia. }
  destruct (shr_fexp 53 1024 m2 e1 loc_Exact) as [r2 e2] eqn:E2.
  apply shr_fexp_spec in E2 as [He2 Hr2]; [|lia]. rewrite fexp_max in He2, Hr2. cbv zeta in *.
  set (n2 := Z.max 0 _) in *. assert (Hn2 : 0 <= n2 /\ e2 <= - kx) by lia. clearbody n2.
  assert (Hq : 0 <= shr_m r2 <= n * 2 ^ (- e2)).
  { rewrite Hr2. split; [apply Z.div_pos; lia|]. apply Z.div_le_upper_bound; [lia|].
    replace (2 ^ n2 * (n * 2 ^ (- e2))) with (Zpos x * 2 ^ D); [lia|].
    rewrite Ex. replace (2 ^ n2 * (n * 2 ^ (- e2))) with (n * (2 ^ n2 * 2 ^ (- e2))) by lia.
    rewrite <- Z.mul_assoc, <- !Z.pow_add_r by lia. f_equal. f_equal. lia. }
  destruct (shr_m r2) as [|q|q]; [by exists 0; split; [|lia]| |lia].
  rewrite (proj2 (Z.leb_le e2 (1024 - 53))) by lia. cbn [f64_trunc]. eexists. split; [done|].
  destruct (0 <=? e2) eqn:E0; bool_facts.
  - replace e2 with 0 in * by lia. lia.
  - split; [apply Z.div_pos; lia|]. apply Z.div_le_upper_bound; lia.
Qed.
