(* ===== verification/Strconv.v ===== *)
(** * strconv: the conversions of the flags' values

    strconv.ParseInt (base 0), strconv.ParseBool and strconv.ParseFloat with its decimal
    and hexadecimal forms, rounded once to the nearest float64.  [float_text] writes a
    float64 as a hexadecimal literal, which ParseFloat reads back exactly. *)

From Stdlib Require Import SpecFloat.
From S2P Require Import Prelude Floats.

(** ** strconv.ParseInt(s, 0, 64) *)

Definition code (a : ascii) : Z := Z.of_nat (nat_of_ascii a).
Definition is_num (a : ascii) : bool := (48 <=? code a) && (code a <=? 57).

(** The function [lower] of strconv: [c | ('x' - 'X')]. *)
Definition lower (a : ascii) : Z := Z.lor (code a) 32.

(** A base prefix of at least three bytes, a leading zero, or base ten. *)
Definition base_of (s : string) : Z * string :=
  match s with
  | String "0" r =>
    match r with
    | String c (String _ _ as r') =>
      if lower c =? 98 then (2, r') else if lower c =? 111 then (8, r')
      else if lower c =? 120 then (16, r') else (8, r)
    | _ => (8, r)
    end
  | _ => (10, s)
  end.

(** The loop over the digits; whether an underscore was seen. *)
Fixpoint uint_digits (base : Z) (s : string) (n : Z) (underscores : bool) : option (Z * bool) :=
  match s with
  | EmptyString => Some (n, underscores)
  | String c r =>
    if Ascii.eqb c "_" then uint_digits base r n true
    else
      let d := if (48 <=? code c) && (code c <=? 57) then Some (code c - 48)
               else if (97 <=? lower c) && (lower c <=? 122) then Some (lower c - 87) else None in
      match d with
      | Some v => if base <=? v then None else uint_digits base r (n * base + v) underscores
      | None => None
      end
  end.

(** [underscoreOK], after the sign: what was seen last is a digit, an underscore, the
    beginning or something else. *)
Inductive saw := SawStart | SawDigit | SawUnderscore | SawOther.

Fixpoint underscore_loop (hex : bool) (s : string) (w : saw) : bool :=
  match s with
  | EmptyString => match w with SawUnderscore => false | _ => true end
  | String c r =>
    if ((48 <=? code c) && (code c <=? 57)) || (hex && (97 <=? lower c) && (lower c <=? 102)) then
      underscore_loop hex r SawDigit
    else if Ascii.eqb c "_" then
      match w with SawDigit => underscore_loop hex r SawUnderscore | _ => false end
    else match w with SawUnderscore => false | _ => underscore_loop hex r SawOther end
  end.

Definition underscoreOK (s : string) : bool :=
  match s with
  | String "0" (String c r) =>
    if (lower c =? 98) || (lower c =? 111) || (lower c =? 120)
    then underscore_loop (lower c =? 120) r SawDigit
    else underscore_loop false s SawStart
  | _ => underscore_loop false s SawStart
  end.

(** strconv.ParseUint(s, 0, 64), its two errors not told apart. *)
Definition ParseUint (s : string) : option Z :=
  match s with
  | EmptyString => None
  | _ =>
    let '(base, digits) := base_of s in
    match uint_digits base digits 0 false with
    | Some (n, underscores) =>
      if negb (n <? 2 ^ 64) then None
      else if underscores && negb (underscoreOK s) then None else Some n
    | None => None
    end
  end.

(** A leading sign. *)
Definition split_sign (s : string) : bool * string :=
  match s with
  | String "-" r => (true, r)
  | String "+" r => (false, r)
  | _ => (false, s)
  end.

Definition ParseInt (s : string) : option Z :=
  let '(neg, body) := split_sign s in
  match ParseUint body with
  | None => None
  | Some un =>
    if neg then (if 2 ^ 63 <? un then None else Some (- un))
    else if 2 ^ 63 <=? un then None else Some un
  end.

(** ** strconv.ParseBool *)

Definition ParseBool (s : string) : option bool :=
  if existsb (String.eqb s) ["1"; "t"; "T"; "TRUE"; "true"; "True"]%string then Some true
  else if existsb (String.eqb s) ["0"; "f"; "F"; "FALSE"; "false"; "False"]%string then Some false
  else None.

(** ** strconv.ParseFloat(s, 64) *)

Definition ascii_fold (a : ascii) : ascii :=
  if (65 <=? code a) && (code a <=? 90) then ascii_of_nat (Z.to_nat (code a + 32)) else a.
Fixpoint fold_case (s : string) : string :=
  match s with EmptyString => EmptyString | String c r => String (ascii_fold c) (fold_case r) end.

(** The function [special]: an infinity with its sign, or "nan" without one. *)
Definition special (s : string) : option float64 :=
  let '(neg, body) := split_sign s in
  if String.eqb (fold_case body) "inf" || String.eqb (fold_case body) "infinity" then Some (S754_infinity neg)
  else if String.eqb (fold_case s) "nan" then Some S754_nan
  else None.

(** A digit of the mantissa. *)
Definition mant_digit (hex : bool) (c : ascii) : option Z :=
  if is_num c then Some (code c - 48)
  else if hex && (97 <=? lower c) && (lower c <=? 102) then Some (lower c - 87)
  else None.

(** The mantissa: its digits as an integer, how many of them follow the point, whether
    there was a digit and an underscore, and the rest of the string. *)
Record mantissa := { m_value : Z; m_frac : Z; m_digits : bool; m_underscores : bool; m_rest : string }.

Fixpoint read_mantissa (hex : bool) (s : string) (v frac : Z) (dot digits us : bool) : mantissa :=
  let stop := {| m_value := v; m_frac := frac; m_digits := digits; m_underscores := us; m_rest := s |} in
  match s with
  | EmptyString => stop
  | String c r =>
    if Ascii.eqb c "_" then read_mantissa hex r v frac dot digits true
    else if Ascii.eqb c "." then (if dot then stop else read_mantissa hex r v frac true digits us)
    else
      match mant_digit hex c with
      | Some d => read_mantissa hex r (v * (if hex then 16 else 10) + d) (if dot then frac + 1 else frac) dot true us
      | None => stop
      end
  end.

(** The digits of the exponent, which must end the string; it grows no further once it
    has five digits. *)
Fixpoint exp_digits (s : string) (e : Z) (us : bool) : option (Z * bool) :=
  match s with
  | EmptyString => Some (e, us)
  | String c r =>
    if Ascii.eqb c "_" then exp_digits r e true
    else if is_num c
    then exp_digits r (if e <? 10000 then e * 10 + (code c - 48) else e) us
    else None
  end.

(** What follows the mantissa: an exponent, which only a decimal number may leave out. *)
Definition read_exponent (hex : bool) (s : string) (us : bool) : option (Z * bool) :=
  match s with
  | EmptyString => if hex then None else Some (0, us)
  | String c r =>
    if lower c =? (if hex then 112 else 101) then
      let '(neg, body) := split_sign r in
      match body with
      | String d _ =>
        if is_num d then
          '(e, us') ← exp_digits body 0 us; Some ((if neg then - e else e), us')
        else None
      | EmptyString => None
      end
    else None
  end.

(** A prefix "0x", when more than that is there. *)
Definition hex_prefix (s : string) : bool * string :=
  match s with
  | String "0" (String c (String _ _ as r)) => if lower c =? 120 then (true, r) else (false, s)
  | _ => (false, s)
  end.

(** The float64 nearest to [m * 10^e] and to [m * 2^e]. *)
Definition f64_of_dec (m e : Z) : float64 :=
  match m with
  | Zpos p =>
    if 0 <=? e then binary_normalize 53 1024 (m * 10 ^ e) 0 false
    else match 10 ^ (- e) with
         | Zpos q => SFdiv 53 1024 (S754_finite false p 0) (S754_finite false q 0)
         | _ => S754_nan
         end
  | _ => f64_zero
  end.
Definition f64_of_bin (m e : Z) : float64 := binary_normalize 53 1024 m e false.

Definition is_finite (x : float64) : bool :=
  match x with S754_zero _ | S754_finite _ _ _ => true | _ => false end.

(** [None]: not a number's syntax, or out of range. *)
Definition ParseFloat (s : string) : option float64 :=
  match special s with
  | Some x => Some x
  | None =>
    let '(neg, body) := split_sign s in
    let '(hex, digits) := hex_prefix body in
    let m := read_mantissa hex digits 0 0 false false false in
    if negb (m_digits m) then None
    else
      '(e, us) ← read_exponent hex (m_rest m) (m_underscores m);
      if us && negb (underscoreOK body) then None
      else
        let x := if hex then f64_of_bin (m_value m) (e - 4 * m_frac m) else f64_of_dec (m_value m) (e - m_frac m) in
        if is_finite x then Some (if neg then SFopp x else x) else None
  end.

Definition parse_text (s : string) : option (option Z * Z) :=
  x ← ParseFloat s; Some (f64_trunc x, i64_of_f64 (f64_mul x (f64_of_Z 1000))).

Example parse_floats :
  parse_text <$> ["100"; "0.5"; "1e3"; "-2.25E+1"; "0x1.8p1"; "1_0.5"; "1e-400"; ".5"; "5."; "0x10p-2"]%string =
  [Some (Some 100, 100000); Some (Some 0, 500); Some (Some 1000, 1000000); Some (Some (-22), -22500);
   Some (Some 3, 3000); Some (Some 10, 10500); Some (Some 0, 0); Some (Some 0, 500); Some (Some 5, 5000);
   Some (Some 4, 4000)].
Proof. vm_compute. reflexivity. Qed.

Example parse_float_refuses :
  ParseFloat <$> [""; "."; "e5"; "1e"; "1e+"; "0x1"; "1__0"; "_1"; "1_"; "1.2.3"; "+nan"; "infi"; "1e400"; "1 "]%string =
  replicate 14 None.
Proof. vm_compute. reflexivity. Qed.

(** The decimal one tenth is the float64 that a Go constant 0.1 is; an infinity and
    not-a-number are accepted. *)
Example parse_tenth :
  ParseFloat "0.1" = Some (S754_finite false 7205759403792794 (-56)) /\
  ParseFloat "-Infinity" = Some (S754_infinity true) /\ ParseFloat "NaN" = Some S754_nan.
Proof. vm_compute. by split_and!. Qed.

(** ** Integers read back *)

Lemma uint_digits_decimal s n us :
  all_chars is_digit s = true ->
  uint_digits 10 s n us = (fun v => (v, us)) <$> digits_value s n.
Proof.
  revert n. induction s as [|c r IH]; intros n; [done|]. simpl. intros [Hc Hr]%andb_prop.
  change (is_digit c) with (is_num c) in Hc. unfold is_num, code in *.
  assert (Hu : Ascii.eqb c "_" = false).
  { destruct (Ascii.eqb_spec c "_") as [->|]; done. }
  rewrite Hu, Hc. bool_facts. rewrite (proj2 (Z.leb_gt 10 _)) by lia. rewrite IH by done.
  by rewrite (Z.mul_comm n 10).
Qed.

Lemma base_of_decimal a r :
  is_digit a = true -> a <> "0"%char -> base_of (String a r) = (10, String a r).
Proof. intros Hd Ha. unfold base_of. by destruct a as [[] [] [] [] [] [] [] []]. Qed.

Lemma ParseUint_pretty (n : N) : Z.of_N n < 2 ^ 64 -> ParseUint (pretty n) = Some (Z.of_N n).
Proof.
  intros Hn. destruct (pretty_N_facts n) as (Hv & Hd & [H0|(a & r & Ha & Had & Hne)]).
  - rewrite H0 in *. simpl in Hv. injection Hv as <-. done.
  - rewrite Ha in *. unfold ParseUint. rewrite base_of_decimal by done.
    rewrite uint_digits_decimal, Hv by done. simpl. by rewrite (proj2 (Z.ltb_lt _ _) Hn).
Qed.

Lemma split_sign_pretty (n : N) : split_sign (pretty n) = (false, pretty n).
Proof.
  destruct (pretty_N_facts n) as (_ & _ & [->|(a & r & -> & Had & Hne)]); [done|].
  unfold split_sign. by destruct a as [[] [] [] [] [] [] [] []].
Qed.

Lemma flag_int_fmt z : int64 z -> ParseInt (fmt_d z) = Some z.
Proof.
  intros Hz. unfold int64 in Hz. destruct (Z.le_gt_cases 0 z) as [H0|H0].
  - rewrite fmt_d_nonneg by done. unfold ParseInt. rewrite split_sign_pretty, ParseUint_pretty by lia.
    rewrite Z2N.id by done. by rewrite (proj2 (Z.leb_gt (2 ^ 63) z)) by lia.
  - rewrite fmt_d_neg by done. unfold ParseInt. simpl. rewrite ParseUint_pretty by lia.
    rewrite Z2N.id by lia. rewrite (proj2 (Z.ltb_ge (2 ^ 63) (- z))) by lia. f_equal. lia.
Qed.

Lemma ParseBool_fmt (b : bool) : ParseBool (if b then "true" else "false") = Some b.
Proof. by destruct b. Qed.


Lemma digits_value_mono s x v : 0 <= x -> digits_value s x = Some v -> x <= v.
Proof.
  revert x. induction s as [|c r IH]; intros x Hx; simpl; [intros [= ->]; lia|].
  destruct (_ && _) eqn:E; [|done]. bool_facts. intros Hv. apply IH in Hv; lia.
Qed.

(** ** Floats written and read back *)

Definition hex_char (d : Z) : ascii := ascii_of_nat (Z.to_nat (if d <? 10 then 48 + d else 87 + d)).

Fixpoint hex_go (fuel : nat) (n : Z) (acc : string) : string :=
  match fuel with
  | O => acc
  | S fuel' =>
    if n <? 16 then String (hex_char n) acc else hex_go fuel' (n / 16) (String (hex_char (n mod 16)) acc)
  end.

(** A float64 as a hexadecimal literal. *)
Definition float_text (x : float64) : string :=
  match x with
  | S754_zero s => if s then "-0" else "0"
  | S754_infinity s => if s then "-inf" else "inf"
  | S754_nan => "nan"
  | S754_finite s m e =>
    (if s then "-0x" else "0x") +:+ hex_go 20 (Zpos m) (String "p" (fmt_d e))
  end.

(** What the operations yield: 53 bits, an exponent within range. *)
Definition f64_ok (x : float64) : Prop :=
  match x with S754_finite _ m e => bounded 53 1024 m e = true | _ => True end.

Lemma f64_of_bin_ok m e : bounded 53 1024 m e = true -> f64_of_bin (Zpos m) e = S754_finite false m e.
Proof.
  intros [Hc He]%andb_prop. unfold canonical_mantissa in Hc. apply Z.eqb_eq in Hc.
  unfold f64_of_bin, binary_normalize, binary_round. rewrite Hc. unfold shl_align. rewrite Z.sub_diag.
  assert (E : shr_fexp 53 1024 (Zpos m) e loc_Exact = ({| shr_m := Zpos m; shr_r := false; shr_s := false |}, e)).
  { unfold shr_fexp. rewrite Zdigits2_pos, Hc, Z.sub_diag. done. }
  unfold binary_round_aux. rewrite E. cbn [shr_m loc_of_shr_record round_nearest_even]. rewrite E. cbn [shr_m].
  change (1024 - 53) with 971 in *. by rewrite He.
Qed.

Lemma bounded_exponent m e : bounded 53 1024 m e = true -> Zpos m < 2 ^ 53 /\ - 1074 <= e <= 971.
Proof.
  intros [Hc He]%andb_prop. unfold canonical_mantissa in Hc. apply Z.eqb_eq in Hc. apply Z.leb_le in He.
  rewrite fexp_max in Hc. pose proof (digits2_bounds m) as [_ Hd]. split; [|lia].
  eapply Z.lt_le_trans; [exact Hd|]. apply Z.pow_le_mono_r; lia.
Qed.

Lemma hex_char_digit d : 0 <= d < 16 ->
  mant_digit true (hex_char d) = Some d /\ Ascii.eqb (hex_char d) "_" = false /\ Ascii.eqb (hex_char d) "." = false.
Proof.
  intros Hd. assert (Hin : d ∈ seqZ 0 16) by (apply elem_of_seqZ; lia).
  assert (HF : Forall (fun d => mant_digit true (hex_char d) = Some d /\ Ascii.eqb (hex_char d) "_" = false /\
    Ascii.eqb (hex_char d) "." = false) (seqZ 0 16)) by (vm_compute; by repeat constructor).
  rewrite Forall_forall in HF. by apply HF.
Qed.

(** One more digit of a hexadecimal mantissa, before [acc]. *)
Lemma read_hex_digit d acc v digits : 0 <= d < 16 ->
  read_mantissa true (String (hex_char d) acc) v 0 false digits false =
  read_mantissa true acc (v * 16 + d) 0 false true false.
Proof. intros Hd. destruct (hex_char_digit d Hd) as (H1 & H2 & H3). cbn [read_mantissa]. by rewrite H1, H2, H3. Qed.

Lemma read_hex fuel n acc digits :
  0 <= n < 16 ^ Z.of_nat fuel -> (0 < fuel)%nat ->
  read_mantissa true (hex_go fuel n acc) 0 0 false digits false = read_mantissa true acc n 0 false true false.
Proof.
  revert n acc. induction fuel as [|fuel IH]; intros n acc Hn Hf; [lia|]. cbn [hex_go].
  destruct (Z.ltb_spec n 16) as [Hl|Hl]; [by rewrite read_hex_digit by lia|].
  assert (Hdm : n = 16 * (n / 16) + n mod 16) by (apply Z.div_mod; lia).
  pose proof (Z.mod_pos_bound n 16 ltac:(lia)) as Hm.
  rewrite Nat2Z.inj_succ, Z.pow_succ_r in Hn by lia.
  assert (Hq : 0 < n / 16 < 16 ^ Z.of_nat fuel) by (Z.div_mod_to_equations; lia).
  rewrite IH; [|lia|destruct fuel; simpl in Hq; lia]. rewrite read_hex_digit by lia.
  f_equal. lia.
Qed.

Lemma hex_go_head fuel n acc : (0 < fuel)%nat -> exists c r, hex_go fuel n acc = String c r.
Proof.
  revert n acc. induction fuel as [|fuel IH]; intros n acc Hf; [lia|]. cbn [hex_go].
  destruct (n <? 16); [eauto|]. destruct fuel as [|fuel]; [simpl; eauto|]. apply IH. lia.
Qed.

(** Decimal digits up to 10000 are not cut off. *)
Lemma exp_digits_decimal s n v us :
  all_chars is_digit s = true -> 0 <= n -> digits_value s n = Some v -> v < 10000 ->
  exp_digits s n us = Some (v, us).
Proof.
  revert n. induction s as [|c r IH]; intros n Hs Hn; [by intros [= ->]|]. simpl in Hs.
  apply andb_prop in Hs as [Hc Hr]. simpl. change (is_digit c) with (is_num c) in Hc. unfold is_num, code in *.
  rewrite Hc. intros Hv Hlt. bool_facts.
  assert (Hle : 10 * n + (Z.of_nat (nat_of_ascii c) - 48) <= v) by (apply digits_value_mono in Hv; lia).
  destruct (Ascii.eqb_spec c "_") as [->|]; [by vm_compute in H|].
  rewrite (proj2 (Z.ltb_lt n 10000)) by lia. rewrite (Z.mul_comm n 10). apply IH; [done|lia|done|done].
Qed.

(** The exponent of a literal. *)
Lemma read_exponent_fmt e us : - 1074 <= e <= 971 ->
  read_exponent true (String "p" (fmt_d e)) us = Some (e, us).
Proof.
  intros He. assert (Hd : forall n : N, Z.of_N n < 10000 ->
    exists d r, pretty n = String d r /\ is_num d = true /\ exp_digits (pretty n) 0 us = Some (Z.of_N n, us)).
  { intros n Hn. destruct (pretty_N_facts n) as (Hv & Hall & Hhead).
    assert (Hh : exists d r, pretty n = String d r).
    { destruct Hhead as [->|(a & r & -> & _)]; eauto. }
    destruct Hh as (d & r & Hp). exists d, r. rewrite Hp in *. split_and!; [done|by apply andb_prop in Hall as [? _]|].
    by apply exp_digits_decimal. }
  unfold read_exponent. change (lower "p" =? 112) with true. cbv iota.
  destruct (Z.le_gt_cases 0 e) as [H0|H0].
  - rewrite fmt_d_nonneg, split_sign_pretty by done. destruct (Hd (Z.to_N e)) as (d & r & Hp & Hn & Hx); [lia|].
    rewrite Hp in *. rewrite Hn, Hx. cbn [mbind option_bind]. by rewrite Z2N.id.
  - rewrite fmt_d_neg by done. cbn [split_sign]. destruct (Hd (Z.to_N (- e))) as (d & r & Hp & Hn & Hx); [lia|].
    rewrite Hp in *. rewrite Hn, Hx. cbn [mbind option_bind]. rewrite Z2N.id by lia. by rewrite Z.opp_involutive.
Qed.

Lemma ParseFloat_text x : f64_ok x -> ParseFloat (float_text x) = Some x.
Proof.
  destruct x as [z|z| |s m e]; [by destruct z|by destruct z|done|]. intros Hb. simpl in Hb.
  pose proof (bounded_exponent _ _ Hb) as [Hm He]. unfold ParseFloat.
  set (body := String "0" (String "x" (hex_go 20 (Zpos m) (String "p" (fmt_d e))))).
  assert (Htext : float_text (S754_finite s m e) = if s then String "-" body else body) by (by destruct s).
  assert (Hsign : split_sign (float_text (S754_finite s m e)) = (s, body)) by (rewrite Htext; by destruct s).
  assert (Hspecial : special (float_text (S754_finite s m e)) = None).
  { unfold special. rewrite Hsign, Htext. by destruct s. }
  rewrite Hspecial, Hsign.
  assert (Hhex : hex_prefix body = (true, hex_go 20 (Zpos m) (String "p" (fmt_d e)))).
  { unfold body. destruct (hex_go_head 20 (Zpos m) (String "p" (fmt_d e)) ltac:(lia)) as (c & r & Hh).
    by rewrite Hh. }
  rewrite Hhex, read_hex; [|lia|lia]. cbn [read_mantissa Ascii.eqb Bool.eqb].
  change (mant_digit true "p") with (@None Z). cbn [m_digits m_rest m_underscores m_value m_frac negb].
  rewrite read_exponent_fmt by done. cbn [mbind option_bind andb]. rewrite Z.mul_0_r, Z.sub_0_r, f64_of_bin_ok by done.
  by destruct s.
Qed.
