(* ===== verification/Flags.v ===== *)
(** * Command lines: Go's flag package as the programs use it

    A flag set is the list of its flags with their current values; [Parse] is
    FlagSet.Parse, with the conversions of the values: those of Strconv.v and
    time.ParseDuration.  [parse_flag] is what the theorems on the
    programs' command lines (Commands.v) use: an argument "--name=value" sets its flag. *)

From S2P Require Import Prelude Floats Strconv.

(** ** time.ParseDuration *)

(** [leadingInt]: the digits at the front, and what follows; [None] on overflow. *)
Fixpoint leadingInt (s : string) (x : Z) : option (Z * string) :=
  match s with
  | String c r =>
    if is_num c then
      if 2 ^ 63 / 10 <? x then None
      else
        let x' := x * 10 + (code c - 48) in
        if 2 ^ 63 <? x' then None else leadingInt r x'
    else Some (x, s)
  | EmptyString => Some (x, s)
  end.

(** [leadingFraction]: the value and its scale, further digits being ignored once the
    value would overflow. *)
Fixpoint leadingFraction (s : string) (x : Z) (scale : float64) (overflow : bool) : Z * float64 * string :=
  match s with
  | String c r =>
    if is_num c then
      if overflow then leadingFraction r x scale true
      else if (2 ^ 63 - 1) / 10 <? x then leadingFraction r x scale true
      else
        let y := x * 10 + (code c - 48) in
        if 2 ^ 63 <? y then leadingFraction r x scale true
        else leadingFraction r y (f64_mul scale (f64_of_Z 10)) false
    else (x, scale, s)
  | EmptyString => (x, scale, s)
  end.

Definition micro_sign : string := String "194" (String "181" EmptyString).
Definition greek_mu : string := String "206" (String "188" EmptyString).

(** The map [unitMap], in nanoseconds. *)
Definition unit_of (u : string) : option Z :=
  if String.eqb u "ns" then Some 1
  else if String.eqb u "us" || String.eqb u (micro_sign +:+ "s") || String.eqb u (greek_mu +:+ "s") then Some 1000
  else if String.eqb u "ms" then Some (10 ^ 6)
  else if String.eqb u "s" then Some (10 ^ 9)
  else if String.eqb u "m" then Some (60 * 10 ^ 9)
  else if String.eqb u "h" then Some (3600 * 10 ^ 9)
  else None.

(** A unit: the bytes up to the next digit or period. *)
Fixpoint split_unit (s : string) : string * string :=
  match s with
  | String c r =>
    if is_num c || Ascii.eqb c "." then (EmptyString, s)
    else let '(u, rest) := split_unit r in (String c u, rest)
  | EmptyString => (EmptyString, EmptyString)
  end.

Definition starts_number (s : string) : bool :=
  match s with String c _ => is_num c || Ascii.eqb c "." | EmptyString => false end.

(** One term of a duration, "12.5s": its nanoseconds and the rest of the string. *)
Definition duration_term (s : string) : option (Z * string) :=
  if negb (starts_number s) then None
  else
    match leadingInt s 0 with
    | None => None
    | Some (v, s1) =>
      let pre := negb (string_len s1 =? string_len s) in
      let '(f, scale, s2, post) :=
        match s1 with
        | String "." r =>
          let '(f, scale, rest) := leadingFraction r 0 f64_one false in
          (f, scale, rest, negb (string_len rest =? string_len r))
        | _ => (0, f64_one, s1, false)
        end in
      if negb pre && negb post then None
      else
        let '(u, rest) := split_unit s2 in
        match u, unit_of u with
        | EmptyString, _ | _, None => None
        | _, Some unit =>
          if 2 ^ 63 / unit <? v then None
          else
            let v1 := v * unit in
            let v2 := if 0 <? f then
                        v1 + i64_of_f64 (f64_mul (f64_of_Z f) (f64_div (f64_of_Z unit) scale))
                      else v1 in
            if 2 ^ 63 <? v2 then None else Some (v2, rest)
        end
    end.

(** The loop over the terms; each consumes at least a byte. *)
Fixpoint duration_terms (fuel : nat) (s : string) (d : Z) : option Z :=
  match s, fuel with
  | EmptyString, _ => Some d
  | _, O => None
  | _, S fuel' =>
    match duration_term s with
    | None => None
    | Some (v, rest) => if 2 ^ 63 <? d + v then None else duration_terms fuel' rest (d + v)
    end
  end.

Definition ParseDuration (s : string) : option Z :=
  let '(neg, body) := split_sign s in
  if String.eqb body "0" then Some 0
  else if String.eqb body "" then None
  else match duration_terms (String.length body) body 0 with
  | None => None
  | Some d => if neg then Some (i64 (- d)) else if 2 ^ 63 - 1 <? d then None else Some d
  end.

(** ** Flag sets *)

Inductive value :=
| VBool (b : bool)
| VInt (n : Z)               (* int and int64 *)
| VString (s : string)
| VFloat (x : float64)
| VDuration (d : Z).

(** The flags with their current values: the map [formal]. *)
Definition FlagSet : Type := list (string * value).

Fixpoint flag_get (fs : FlagSet) (name : string) : option value :=
  match fs with
  | [] => None
  | (n, v) :: fs' => if String.eqb n name then Some v else flag_get fs' name
  end.

Fixpoint flag_set (fs : FlagSet) (name : string) (v : value) : FlagSet :=
  match fs with
  | [] => []
  | (n, w) :: fs' => if String.eqb n name then (n, v) :: fs' else (n, w) :: flag_set fs' name v
  end.

(** [Value.Set]: the new value, of the flag's own type. *)
Definition Set_value (old : value) (s : string) : option value :=
  match old with
  | VBool _ => VBool <$> ParseBool s
  | VInt _ => VInt <$> ParseInt s
  | VString _ => Some (VString s)
  | VFloat _ => VFloat <$> ParseFloat s
  | VDuration _ => VDuration <$> ParseDuration s
  end.

Inductive flag_err :=
| ErrSyntax (s : string)
| ErrHelp
| ErrUndefined (name : string)
| ErrBadValue (name value : string)
| ErrNeedsArgument (name : string).

Inductive parsed := Parsed (fs : FlagSet) (rest : list string) | ParseErr (e : flag_err).

(** What an argument is, before its name is looked up. *)
Inductive arg := ArgEnd | ArgTerminator | ArgBad | ArgFlag (name : string) (val : option string).

(** A name and the value after its first "=", which cannot be its first byte. *)
Fixpoint split_eq (s : string) : string * option string :=
  match s with
  | EmptyString => (EmptyString, None)
  | String "=" r => (EmptyString, Some r)
  | String c r => let '(n, v) := split_eq r in (String c n, v)
  end.

Definition read_name (name : string) : arg :=
  match name with
  | EmptyString | String "-" _ | String "=" _ => ArgBad
  | _ => let '(n, v) := split_eq name in ArgFlag n v
  end.

Definition read_arg (s : string) : arg :=
  match s with
  | String "-" (String "-" EmptyString) => ArgTerminator
  | String "-" (String "-" name) => read_name name
  | String "-" EmptyString => ArgEnd
  | String "-" name => read_name name
  | _ => ArgEnd
  end.

Definition is_bool (v : value) : bool := match v with VBool _ => true | _ => false end.

(** [Parse], and in it one turn of [parseOne]. *)
Fixpoint Parse (args : list string) (fs : FlagSet) : parsed :=
  match args with
  | [] => Parsed fs []
  | s :: args' =>
    match read_arg s with
    | ArgEnd => Parsed fs args
    | ArgTerminator => Parsed fs args'
    | ArgBad => ParseErr (ErrSyntax s)
    | ArgFlag name val =>
      match flag_get fs name with
      | None => ParseErr (if String.eqb name "help" || String.eqb name "h" then ErrHelp else ErrUndefined name)
      | Some old =>
        let set v k :=
          match Set_value old v with
          | Some new => k (flag_set fs name new)
          | None => ParseErr (ErrBadValue name v)
          end in
        if is_bool old then set (default "true"%string val) (Parse args')
        else match val, args' with
        | Some v, _ => set v (Parse args')
        | None, v :: args'' => set v (Parse args'')
        | None, [] => ParseErr (ErrNeedsArgument name)
        end
      end
    end
  end.

(** ** Numbers read back *)

(** A number that fits, and what follows it. *)
Lemma leadingInt_digits s x v rest :
  0 <= x -> all_chars is_digit s = true -> digits_value s x = Some v -> v <= 2 ^ 63 ->
  leadingInt rest v = Some (v, rest) -> leadingInt (s +:+ rest) x = Some (v, rest).
Proof.
  revert x. induction s as [|c r IH]; intros x Hx; simpl; [by intros _ [= ->]|].
  intros [Hc Hr]%andb_prop Hv Hm Hrest. change (is_digit c) with (is_num c) in Hc.
  change (leadingInt (String c (r +:+ rest)) x = Some (v, rest)). simpl. rewrite Hc.
  unfold is_num, code in *. rewrite Hc in Hv. bool_facts.
  apply digits_value_mono in Hv as Hle; [|lia].
  rewrite (proj2 (Z.ltb_ge (2 ^ 63 / 10) x)) by (Z.div_mod_to_equations; lia).
  rewrite (proj2 (Z.ltb_ge (2 ^ 63) _)) by lia. apply IH; try done; [lia|].
  rewrite <- Hv. f_equal. lia.
Qed.

Lemma string_len_nonneg s : 0 <= string_len s.
Proof. induction s; simpl; lia. Qed.

Lemma string_len_app a b : string_len (a +:+ b) = string_len a + string_len b.
Proof.
  induction a as [|c r IH]; [done|]. change (string_len (String c (r +:+ b)) = string_len (String c r) + string_len b).
  simpl. rewrite IH. lia.
Qed.

Lemma duration_ns (n : N) :
  Z.of_N n <= 2 ^ 63 -> duration_term (pretty n +:+ "ns") = Some (Z.of_N n, ""%string).
Proof.
  intros Hn. destruct (pretty_N_facts n) as (Hv & Hd & Hs).
  assert (Hhead : exists a r, pretty n = String a r /\ is_num a = true).
  { destruct Hs as [->|(a & r & -> & Ha & _)]; [by eexists _, _|by exists a, r]. }
  destruct Hhead as (a & r & Ha & Hnum). unfold duration_term.
  assert (Hst : starts_number (pretty n +:+ "ns") = true).
  { rewrite Ha. change (is_num a || Ascii.eqb a "." = true). by rewrite Hnum. }
  rewrite Hst. cbn [negb]. rewrite (leadingInt_digits _ 0 (Z.of_N n) "ns") by done.
  assert (Hpre : (string_len "ns" =? string_len (pretty n +:+ "ns")) = false).
  { apply Z.eqb_neq. rewrite string_len_app, Ha. simpl. pose proof (string_len_nonneg r). lia. }
  rewrite Hpre. cbn [negb andb]. change (split_unit "ns") with ("ns"%string, ""%string). cbv iota beta.
  change (unit_of "ns") with (Some 1). cbv iota beta. rewrite Z.div_1_r, Z.mul_1_r.
  rewrite (proj2 (Z.ltb_ge (2 ^ 63) _)) by lia. simpl. by rewrite (proj2 (Z.ltb_ge (2 ^ 63) _)) by lia.
Qed.

Lemma ParseDuration_fmt z : int64 z -> ParseDuration (fmt_d z +:+ "ns") = Some z.
Proof.
  intros Hz. unfold int64 in Hz.
  assert (Hterms : forall n : N, Z.of_N n <= 2 ^ 63 ->
    let body := pretty n +:+ "ns" in
    String.eqb body "0" = false /\ String.eqb body "" = false /\
    duration_terms (String.length body) body 0 = Some (Z.of_N n)).
  { intros n Hn body. pose proof (duration_ns n Hn) as Ht. fold body in Ht.
    assert (Hb : exists a b r, body = String a (String b r)).
    { unfold body. destruct (pretty n) as [|a [|b r]]; [by eexists _, _, _|by eexists _, _, _|].
      by exists a, b, (r +:+ "ns"). }
    destruct Hb as (a & b & r & Hb). rewrite Hb in *. split; [simpl; by destruct (Ascii.eqb a "0")|].
    split; [done|]. cbn [String.length duration_terms]. rewrite Ht.
    rewrite (proj2 (Z.ltb_ge (2 ^ 63) _)) by lia. by rewrite Z.add_0_l. }
  destruct (Z.le_gt_cases 0 z) as [H0|H0].
  - rewrite fmt_d_nonneg by done. unfold ParseDuration.
    assert (Hsign : split_sign (pretty (Z.to_N z) +:+ "ns") = (false, pretty (Z.to_N z) +:+ "ns")).
    { destruct (pretty_N_facts (Z.to_N z)) as (_ & _ & [->|(a & r & -> & Had & Hne)]); [done|].
      change (split_sign (String a (r +:+ "ns")) = (false, String a (r +:+ "ns"))).
      unfold split_sign. by destruct a as [[] [] [] [] [] [] [] []]. }
    rewrite Hsign. destruct (Hterms (Z.to_N z)) as (-> & -> & ->); [lia|].
    rewrite Z2N.id by done. by rewrite (proj2 (Z.ltb_ge (2 ^ 63 - 1) z)) by lia.
  - rewrite fmt_d_neg by done. change (String "-" (pretty (Z.to_N (- z))) +:+ "ns") with
      (String "-" (pretty (Z.to_N (- z)) +:+ "ns")). unfold ParseDuration. cbn [split_sign].
    destruct (Hterms (Z.to_N (- z))) as (-> & -> & ->); [lia|]. rewrite Z2N.id by lia.
    f_equal. rewrite Z.opp_involutive. unfold i64.
    rewrite Z.mod_small by lia. lia.
Qed.

(** ** Values and arguments written and read back *)

(** A value as an argument can write it; a duration in nanoseconds, a float exactly. *)
Definition render (v : value) : string :=
  match v with
  | VBool b => if b then "true" else "false"
  | VInt n => fmt_d n
  | VString s => s
  | VFloat x => float_text x
  | VDuration d => fmt_d d +:+ "ns"
  end.

Definition same_type (v w : value) : bool :=
  match v, w with
  | VBool _, VBool _ | VInt _, VInt _ | VString _, VString _ | VFloat _, VFloat _ | VDuration _, VDuration _ => true
  | _, _ => false
  end.

Definition value_ok (v : value) : Prop :=
  match v with VInt n | VDuration n => int64 n | VFloat x => f64_ok x | _ => True end.

Lemma Set_render old v : same_type old v = true -> value_ok v -> Set_value old (render v) = Some v.
Proof.
  destruct old, v; try done; simpl; intros _ Hv.
  - by rewrite ParseBool_fmt.
  - by rewrite flag_int_fmt.
  - by rewrite ParseFloat_text.
  - by rewrite ParseDuration_fmt.
Qed.

(** A flag's name: not empty, no "-" first, no "=" in it. *)
Definition good_name (n : string) : bool :=
  match n with
  | EmptyString => false
  | String c _ => negb (Ascii.eqb c "-") && all_chars (fun a => negb (Ascii.eqb a "=")) n
  end.

Definition render_arg (f : string * value) : string := String "-" (String "-" (f.1 +:+ String "=" (render f.2))).

Lemma split_eq_name n v :
  all_chars (fun a => negb (Ascii.eqb a "=")) n = true -> split_eq (n +:+ String "=" v) = (n, Some v).
Proof.
  induction n as [|c r IH]; [done|]. intros [Hc Hr]%andb_prop.
  change (split_eq (String c (r +:+ String "=" v)) = (String c r, Some v)). simpl. rewrite IH by done.
  destruct (Ascii.eqb_spec c "=") as [->|Hne]; [done|]. by destruct c as [[] [] [] [] [] [] [] []].
Qed.

Lemma read_render n v : good_name n = true -> read_arg (render_arg (n, v)) = ArgFlag n (Some (render v)).
Proof.
  intros Hn. unfold render_arg. simpl. destruct n as [|c r]; [done|]. apply andb_prop in Hn as [Hc Hn].
  change (read_name (String c (r +:+ String "=" (render v))) = ArgFlag (String c r) (Some (render v))).
  pose proof (split_eq_name (String c r) (render v) Hn) as Hs.
  change (split_eq (String c (r +:+ String "=" (render v))) = (String c r, Some (render v))) in Hs.
  apply andb_prop in Hn as [He _]. unfold read_name. rewrite Hs.
  by destruct c as [[] [] [] [] [] [] [] []].
Qed.

(** The argument "--name=value" sets its flag, which is not a flag before it. *)
Lemma parse_flag args fs n v w fs' :
  good_name n = true -> same_type w v = true -> value_ok v -> n ∉ fs.*1 ->
  Parse (render_arg (n, v) :: args) (fs ++ (n, w) :: fs') = Parse args (fs ++ (n, v) :: fs').
Proof.
  intros Hn Ht Hv Hni. cbn [Parse]. rewrite read_render by done.
  assert (Hget : flag_get (fs ++ (n, w) :: fs') n = Some w).
  { clear Hn. induction fs as [|[m x] fs IH]; simpl; [by rewrite String.eqb_refl|].
    destruct (String.eqb_spec m n) as [->|]; [set_solver|]. apply IH. set_solver. }
  assert (Hset : flag_set (fs ++ (n, w) :: fs') n v = fs ++ (n, v) :: fs').
  { clear Hn Hget. induction fs as [|[m x] fs IH]; simpl; [by rewrite String.eqb_refl|].
    destruct (String.eqb_spec m n) as [->|]; [set_solver|]. rewrite IH by set_solver. done. }
  rewrite Hget. cbv zeta. cbn [from_option]. unfold id. rewrite Set_render, Hset by done. by destruct (is_bool w).
Qed.

(** Two flag sets with the same flags, of the same types. *)
Definition same_flags (fs fs' : FlagSet) : bool :=
  bool_decide (fs.*1 = fs'.*1) && forallb (fun '(v, w) => same_type v w) (zip fs.*2 fs'.*2).

(** Every flag set is what its arguments make of a set with the same flags. *)
Theorem parse_render fs fs' :
  same_flags fs fs' = true -> NoDup fs.*1 -> forallb good_name fs.*1 = true ->
  Forall (fun f => value_ok f.2) fs' -> Parse (render_arg <$> fs') fs = Parsed fs' [].
Proof.
  unfold same_flags. intros [Hnames%bool_decide_eq_true Htypes]%andb_prop Hnd Hgood Hok.
  assert (Hgen : forall pre, NoDup ((pre ++ fs).*1) ->
    Parse (render_arg <$> fs') (pre ++ fs) = Parsed (pre ++ fs') []); [|by apply (Hgen [])].
  clear Hnd. revert fs Hnames Htypes Hgood. induction Hok as [|[n v] fs' Hv Hok IH]; intros fs Hnames Htypes Hgood pre Hnd.
  { by destruct fs. }
  destruct fs as [|[m w] fs]; [done|]. simpl in Hnames. injection Hnames as -> Hnames.
  simpl in Htypes, Hgood. apply andb_prop in Htypes as [Ht Htypes]. apply andb_prop in Hgood as [Hn Hgood].
  rewrite fmap_cons, parse_flag; try done.
  - assert (E : forall x (l : FlagSet), pre ++ (n, x) :: l = (pre ++ [(n, x)]) ++ l) by (intros; by rewrite <- app_assoc).
    rewrite (E v fs), (E v fs'). apply IH; try done. rewrite !fmap_app in *. simpl in *. by rewrite <- app_assoc.
  - rewrite fmap_app in Hnd. apply NoDup_app in Hnd as (_ & Hnd & _). intros Hin. apply (Hnd n Hin). by left.
Qed.
