(* ===== verification/GoFmt.v ===== *)
(** * fmt: how the programs write numbers and durations

    The verbs of fmt.Printf and the String method of time.Duration that the programs' key
    names, usage texts and reports use, and filepath.Base. *)

From Stdlib Require Import SpecFloat.
From S2P Require Import Prelude Floats.

(** [%0wd] *)
Definition pad_zero (w : nat) (s : string) : string :=
  String.concat "" (replicate (w - String.length s) "0"%string) +:+ s.
Definition fmt_0d (w : nat) (z : Z) : string :=
  if z <? 0 then String "-" (pad_zero (w - 1) (fmt_d (- z))) else pad_zero w (fmt_d z).

Definition fmt_t (b : bool) : string := if b then "true" else "false".

(** [%.2f]: the exact value rounded to hundredths, a tie to the even one. *)
Definition hundredths (m e : Z) : Z :=
  let n := if 0 <=? e then m * 2 ^ e * 100 else m * 100 in
  let d := if 0 <=? e then 1 else 2 ^ (- e) in
  let q := n / d in
  let r := 2 * (n mod d) in
  if d <? r then q + 1 else if r <? d then q else if Z.even q then q else q + 1.

Definition fmt_hundredths (q : Z) : string := fmt_d (q / 100) +:+ "." +:+ pad_zero 2 (fmt_d (q mod 100)).

Definition fmt_2f (x : float64) : string :=
  match x with
  | S754_nan => "NaN"
  | S754_infinity s => if s then "-Inf" else "+Inf"
  | S754_zero s => if s then "-0.00" else "0.00"
  | S754_finite s m e => (if s then "-" else "") +:+ fmt_hundredths (hundredths (Zpos m) e)
  end.

(** ** time.Duration.String *)

(** [fmtFrac]: the last [prec] digits of [v] without the zeros they end in, after a point
    if any is left, before what [acc] holds; and the rest of [v]. *)
Fixpoint fmt_frac (prec : nat) (v : Z) (print : bool) (acc : string) : string * Z :=
  match prec with
  | O => (if print then String "." acc else acc, v)
  | S prec' =>
    let digit := v mod 10 in
    let print' := print || negb (digit =? 0) in
    fmt_frac prec' (v / 10) print' (if print' then fmt_d digit +:+ acc else acc)
  end.

Definition micro : string := String "194" (String "181" EmptyString).

(** [format], of the absolute value. *)
Definition duration_text (u : Z) : string :=
  if u <? 10 ^ 9 then
    if u =? 0 then "0s"
    else
      let '(prec, unit) :=
        if u <? 1000 then (0%nat, "ns"%string) else if u <? 10 ^ 6 then (3%nat, micro +:+ "s") else (6%nat, "ms"%string) in
      let '(text, v) := fmt_frac prec u false unit in fmt_d v +:+ text
  else
    let '(text, v) := fmt_frac 9 u false "s" in
    let sec := fmt_d (v mod 60) +:+ text in
    let mins := v / 60 in
    if 0 <? mins then
      let min := fmt_d (mins mod 60) +:+ "m" +:+ sec in
      let hours := mins / 60 in
      if 0 <? hours then fmt_d hours +:+ "h" +:+ min else min
    else sec.

Definition Duration_String (d : Z) : string :=
  if d <? 0 then "-" +:+ duration_text (u64 (- d)) else duration_text d.

(** ** filepath.Base *)

Fixpoint drop_slashes (l : list ascii) : list ascii :=
  match l with c :: l' => if Ascii.eqb c "/" then drop_slashes l' else l | [] => [] end.
Fixpoint until_slash (l : list ascii) : list ascii :=
  match l with c :: l' => if Ascii.eqb c "/" then [] else c :: until_slash l' | [] => [] end.

Definition path_base (path : string) : string :=
  match path with
  | EmptyString => "."
  | _ =>
    match drop_slashes (rev (String.list_ascii_of_string path)) with
    | [] => "/"
    | l => String.string_of_list_ascii (rev (until_slash l))
    end
  end.

(** ** Examples *)

Example durations_written :
  Duration_String <$> [0; 1; 1100; 2200000; 3300000000; 4 * 60 * 10 ^ 9 + 5 * 10 ^ 9; 4 * 60 * 10 ^ 9 + 5001000000;
    5 * 3600 * 10 ^ 9 + 6 * 60 * 10 ^ 9 + 7001000000; 8 * 60 * 10 ^ 9 + 1; 2 ^ 63 - 1; - 2 ^ 63; - 1500000]%Z =
  ["0s"; "1ns"; "1.1" +:+ micro +:+ "s"; "2.2ms"; "3.3s"; "4m5s"; "4m5.001s"; "5h6m7.001s"; "8m0.000000001s";
   "2562047h47m16.854775807s"; "-2562047h47m16.854775808s"; "-1.5ms"]%string.
Proof. vm_compute. reflexivity. Qed.

Example hundredths_written :
  (fun n => fmt_2f (f64_div (f64_of_Z n) (f64_of_Z 8))) <$> [0; 1; 3; -13; 8000; 801] =
  ["0.00"; "0.12"; "0.38"; "-1.62"; "1000.00"; "100.12"]%string.
Proof. vm_compute. reflexivity. Qed.

Example bases : path_base <$> ["/usr/bin/tool"; "tool"; "./a/b//"; "///"; ""]%string = ["tool"; "tool"; "b"; "/"; "."]%string.
Proof. vm_compute. reflexivity. Qed.
