(* ===== verification/Md5.v ===== *)
(** * MD5 as [crypto/md5] computes it

    The stores and the upload paths tag every object with the quoted hexadecimal
    MD5 of its bytes.  [md5_sum] is the digest of RFC 1321 on a byte list, written
    to be evaluated; [Hasher] is the running [hash.Hash] the streaming upload path
    feeds, whose state is the bytes written so far. *)

From S2P Require Import Prelude.

(** ** The digest *)

Definition md5_K : list Z :=
  [3614090360; 3905402710; 606105819; 3250441966;
   4118548399; 1200080426; 2821735955; 4249261313;
   1770035416; 2336552879; 4294925233; 2304563134;
   1804603682; 4254626195; 2792965006; 1236535329;
   4129170786; 3225465664; 643717713; 3921069994;
   3593408605; 38016083; 3634488961; 3889429448;
   568446438; 3275163606; 4107603335; 1163531501;
   2850285829; 4243563512; 1735328473; 2368359562;
   4294588738; 2272392833; 1839030562; 4259657740;
   2763975236; 1272893353; 4139469664; 3200236656;
   681279174; 3936430074; 3572445317; 76029189;
   3654602809; 3873151461; 530742520; 3299628645;
   4096336452; 1126891415; 2878612391; 4237533241;
   1700485571; 2399980690; 4293915773; 2240044497;
   1873313359; 4264355552; 2734768916; 1309151649;
   4149444226; 3174756917; 718787259; 3951481745].
Definition md5_S : list Z :=
  [7; 12; 17; 22; 7; 12; 17; 22; 7; 12; 17; 22; 7; 12; 17; 22;
   5; 9; 14; 20; 5; 9; 14; 20; 5; 9; 14; 20; 5; 9; 14; 20;
   4; 11; 16; 23; 4; 11; 16; 23; 4; 11; 16; 23; 4; 11; 16; 23;
   6; 10; 15; 21; 6; 10; 15; 21; 6; 10; 15; 21; 6; 10; 15; 21].

Definition rotl32 (x c : Z) : Z := u32 (Z.lor (Z.shiftl x c) (Z.shiftr x (32 - c))).
Definition not32 (x : Z) : Z := 2 ^ 32 - 1 - x.

(** The message with its 0x80 byte, its zero padding and its 64-bit bit length. *)
Definition md5_pad (m : list byte) : list byte :=
  let zeros := Z.to_nat ((55 - blen m) mod 64) in
  m ++ x80 :: replicate zeros x00 ++ le_put 8 (u64 (8 * blen m)).

Fixpoint words_of (fuel : nat) (l : list byte) : list Z :=
  match fuel, l with
  | S fuel', _ :: _ => le_get (take 4 l) :: words_of fuel' (drop 4 l)
  | _, _ => []
  end.

Definition md5_state : Type := Z * Z * Z * Z.

Definition md5_round (ws : list Z) (st : md5_state) (i : nat) : md5_state :=
  let '(a, b, c, d) := st in
  let iz := Z.of_nat i in
  let '(f, g) :=
    if (i <? 16)%nat then (Z.lor (Z.land b c) (Z.land (not32 b) d), iz)
    else if (i <? 32)%nat then (Z.lor (Z.land d b) (Z.land (not32 d) c), (5 * iz + 1) mod 16)
    else if (i <? 48)%nat then (Z.lxor b (Z.lxor c d), (3 * iz + 5) mod 16)
    else (Z.lxor c (Z.lor b (not32 d)), (7 * iz) mod 16) in
  let x := u32 (f + a + nth i md5_K 0 + nth (Z.to_nat g) ws 0) in
  (d, u32 (b + rotl32 x (nth i md5_S 0)), b, c).

Definition md5_block (st : md5_state) (ws : list Z) : md5_state :=
  let '(a0, b0, c0, d0) := st in
  let '(a, b, c, d) := fold_left (md5_round ws) (seq 0 64) st in
  (u32 (a0 + a), u32 (b0 + b), u32 (c0 + c), u32 (d0 + d)).

Fixpoint md5_blocks (fuel : nat) (st : md5_state) (ws : list Z) : md5_state :=
  match fuel, ws with
  | S fuel', _ :: _ => md5_blocks fuel' (md5_block st (take 16 ws)) (drop 16 ws)
  | _, _ => st
  end.

Definition md5_init : md5_state := (1732584193, 4023233417, 2562383102, 271733878).

(** [md5.Sum]: 16 bytes. *)
Definition md5_sum (m : list byte) : list byte :=
  let p := md5_pad m in
  let ws := words_of (length p) p in
  let '(a, b, c, d) := md5_blocks (length ws) md5_init ws in
  le_put 4 a ++ le_put 4 b ++ le_put 4 c ++ le_put 4 d.

(** ** The running hash: [md5.New], [Write], [Sum] *)

Record Hasher := { written : list byte }.

Definition hasher_new : Hasher := {| written := [] |}.
Definition hasher_write (h : Hasher) (p : list byte) : Hasher := {| written := written h ++ p |}.
Definition hasher_sum (h : Hasher) : list byte := md5_sum (written h).

(** [`"` + hex.EncodeToString(sum) + `"`], the form of every ETag. *)
Definition quoted_hex (sum : list byte) : string := dquote +:+ hex_encode sum +:+ dquote.
Definition etag_of (body : list byte) : string := quoted_hex (md5_sum body).

(** ** The digest agrees with the test suite of RFC 1321 *)

Example md5_empty :
  hex_encode (md5_sum []) = "d41d8cd98f00b204e9800998ecf8427e".
Proof. vm_compute. reflexivity. Qed.

Example md5_message_digest :
  hex_encode (md5_sum (bytes_of_string "message digest")) = "f96b697d7cb7938d525a2f31aaf161d0".
Proof. vm_compute. reflexivity. Qed.

Example md5_two_blocks :
  hex_encode (md5_sum (bytes_of_string
    "12345678901234567890123456789012345678901234567890123456789012345678901234567890"))
  = "57edf4a22be3c955ac49da2e2107b67a".
Proof. vm_compute. reflexivity. Qed.

Lemma length_md5_sum m : length (md5_sum m) = 16%nat.
Proof.
  unfold md5_sum. destruct (md5_blocks _ _ _) as [[[a b] c] d].
  by rewrite !length_app, !length_le_put.
Qed.
