(* ===== verification/StoreIface.v ===== *)
(** * Objects, and what a store promises its clients

    [Object] and [ListedObject] are the records both store packages declare.
    [ObjectStore] is the interface the HTTP handlers and the zcopy services are
    written against (internal/*/s3api/handler.go [Store], internal/*/zcopy/service.go
    [ObjectStore]); [ObjectStoreLaws] is the contract their theorems use, which
    MemStore.v and LoadedStore.v discharge for the two implementations. *)

From S2P Require Import Prelude.

(** ** Time

    [time.Time]: nanoseconds since the zero time, and whether the location is UTC. *)

Record Time := { instant : Z; utc : bool }.

Definition IsZero (t : Time) : bool := instant t =? 0.
Definition UTC (t : Time) : Time := {| instant := instant t; utc := true |}.

(** ** Objects *)

Record Object := { Body : list byte; ETag : string; LastModified : Time }.
Record ListedObject := { Key : string; ObjectOf : Object }.

#[export] Instance Time_eq_dec : EqDecision Time.
Proof. solve_decision. Defined.
#[export] Instance Object_eq_dec : EqDecision Object.
Proof. solve_decision. Defined.

Definition size_of (o : Object) : Z := blen (Body o).

Abbreviation bucket_map := (gmap string (gmap string Object)).

(** [b, ok := s.buckets[bucket]; obj, ok := b[key]], shared by both stores. *)
Definition lookup_object (bs : bucket_map) (bucket key : string) : option Object :=
  match bs !! bucket with
  | None => None
  | Some b => b !! key
  end.

(** The listing loop over one bucket, its entries taken in some order, then sorted. *)
Definition list_entries (entries : list (string * Object)) (prefix : string) : list ListedObject :=
  let out := omap (fun '(k, v) =>
    if negb (String.eqb prefix EmptyString) && negb (HasPrefix k prefix) then None
    else Some {| Key := k; ObjectOf := v |}) entries in
  sort_by Key out.

(** ** The interface *)

Class ObjectStore (S : Type) := {
  st_CreateBucket : S -> string -> S;
  st_BucketExists : S -> string -> bool;
  st_DeleteBucket : S -> string -> S * bool;
  st_GetObject : S -> string -> string -> option Object;
  st_DeleteObject : S -> string -> string -> S * bool;
  st_ListObjects : S -> string -> string -> option (list ListedObject);
  st_ListBuckets : S -> list string;
}.

Class ObjectStoreLaws (S : Type) `{ObjectStore S} := {
  law_get_create s n b k :
    st_GetObject (st_CreateBucket s n) b k = st_GetObject s b k;
  law_exists_create s n :
    TrimSpace n <> EmptyString -> st_BucketExists (st_CreateBucket s n) n = true;
  law_exists_create_ne s n b :
    b <> n -> st_BucketExists (st_CreateBucket s n) b = st_BucketExists s b;
  law_exists_mono s n b :
    st_BucketExists s b = true -> st_BucketExists (st_CreateBucket s n) b = true;
  law_delete_bucket s n s' ok :
    st_DeleteBucket s n = (s', ok) ->
    ok = st_BucketExists s n /\ st_BucketExists s' n = false /\
    (forall k, st_GetObject s' n k = None) /\
    (forall b k, b <> n -> st_GetObject s' b k = st_GetObject s b k) /\
    (forall b, b <> n -> st_BucketExists s' b = st_BucketExists s b);
  law_delete_object s b k s' ok :
    st_DeleteObject s b k = (s', ok) ->
    ok = bool_decide (is_Some (st_GetObject s b k)) /\
    st_GetObject s' b k = None /\
    (forall b' k', (b', k') <> (b, k) -> st_GetObject s' b' k' = st_GetObject s b' k') /\
    (forall b', st_BucketExists s' b' = st_BucketExists s b');
  law_get_bucket s b k o :
    st_GetObject s b k = Some o -> st_BucketExists s b = true;
  law_list_none s b p :
    st_ListObjects s b p = None <-> st_BucketExists s b = false;
  law_list_spec s b p l :
    st_ListObjects s b p = Some l ->
    StronglySorted (key_le Key) l /\ NoDup (Key <$> l) /\
    forall k o, {| Key := k; ObjectOf := o |} ∈ l <->
      st_GetObject s b k = Some o /\ HasPrefix k p = true;
  law_list_buckets s :
    StronglySorted (key_le id) (st_ListBuckets s) /\ NoDup (st_ListBuckets s) /\
    forall b, b ∈ st_ListBuckets s <-> st_BucketExists s b = true;
}.

(** ** Lemmas on listings, used by both implementations *)

Lemma elem_of_list_entries entries prefix k o :
  {| Key := k; ObjectOf := o |} ∈ list_entries entries prefix <->
  (k, o) ∈ entries /\ HasPrefix k prefix = true.
Proof.
  unfold list_entries. rewrite sort_by_perm, list_elem_of_omap. split.
  - intros ([k' o'] & Hin & Hf).
    destruct (String.eqb_spec prefix EmptyString) as [->|]; simpl in Hf.
    + simplify_eq. split; [done|apply HasPrefix_nil].
    + destruct (HasPrefix k' prefix) eqn:E; simplify_eq/=. done.
  - intros [Hin Hp]. exists (k, o). split; [done|]. rewrite Hp. by rewrite andb_false_r.
Qed.

Lemma list_entries_keys_nodup (m : gmap string Object) prefix :
  NoDup (Key <$> list_entries (map_to_list m) prefix).
Proof.
  unfold list_entries. rewrite sort_by_perm.
  generalize (NoDup_fst_map_to_list m). induction (map_to_list m) as [|[k o] l IH]; simpl.
  { intros _. constructor. }
  intros [Hk Hl]%NoDup_cons. specialize (IH Hl).
  destruct (negb _ && negb _); simpl; [exact IH|]. constructor; [|exact IH].
  intros ([k' o'] & -> & Hin)%list_elem_of_fmap. apply Hk.
  apply list_elem_of_omap in Hin as ([k2 o2] & Hin & Hf).
  case_match; simplify_eq/=. apply list_elem_of_fmap. by exists (k', o').
Qed.

(** The listing does not depend on the order in which the map is iterated. *)
Lemma list_entries_iteration_order (m : gmap string Object) entries prefix :
  entries ≡ₚ map_to_list m ->
  list_entries entries prefix = list_entries (map_to_list m) prefix.
Proof.
  intros Hp. unfold list_entries. apply sort_by_iteration_order.
  - assert (Hk : forall k o, {| Key := k; ObjectOf := o |} ∈ list_entries entries prefix ->
      m !! k = Some o).
    { intros k o [Hin _]%elem_of_list_entries. rewrite Hp in Hin. by apply elem_of_map_to_list. }
    unfold list_entries in Hk. intros [k o] [k' o'] H1 H2 ?; simplify_eq/=.
    rewrite <- (sort_by_perm Key) in H1, H2. apply Hk in H1, H2. congruence.
  - by rewrite Hp.
Qed.

Lemma list_buckets_spec (bs : bucket_map) :
  let out := sort_by id (fst <$> map_to_list bs) in
  StronglySorted (key_le id) out /\ NoDup out /\ forall b, b ∈ out <-> is_Some (bs !! b).
Proof.
  simpl. split_and!; [apply sort_by_sorted|rewrite sort_by_perm; apply NoDup_fst_map_to_list|].
  intros b. rewrite sort_by_perm, list_elem_of_fmap. split.
  - intros ([b' m] & -> & Hin). apply elem_of_map_to_list in Hin. by exists m.
  - intros [m Hm]. exists (b, m). by rewrite elem_of_map_to_list.
Qed.

(** ** Lemmas on [lookup_object] *)

Lemma lookup_object_insert_bucket (bs : bucket_map) n b k :
  bs !! n = None -> lookup_object (<[n := ∅]> bs) b k = lookup_object bs b k.
Proof.
  intros Hn. unfold lookup_object. destruct (decide (b = n)) as [->|].
  - by rewrite lookup_insert_eq, Hn, lookup_empty.
  - by rewrite lookup_insert_ne.
Qed.

Lemma lookup_object_set (bs : bucket_map) b m k o b' k' :
  bs !! b = Some m ->
  lookup_object (<[b := <[k := o]> m]> bs) b' k' =
  if decide ((b', k') = (b, k)) then Some o else lookup_object bs b' k'.
Proof.
  intros Hb. unfold lookup_object. destruct (decide (b' = b)) as [->|Hne].
  - rewrite lookup_insert_eq, Hb. case_decide; simplify_eq; [by rewrite lookup_insert_eq|].
    rewrite lookup_insert_ne; congruence.
  - rewrite lookup_insert_ne by done. case_decide; congruence.
Qed.

Lemma lookup_object_del (bs : bucket_map) b m k b' k' :
  bs !! b = Some m ->
  lookup_object (<[b := delete k m]> bs) b' k' =
  if decide ((b', k') = (b, k)) then None else lookup_object bs b' k'.
Proof.
  intros Hb. unfold lookup_object. destruct (decide (b' = b)) as [->|Hne].
  - rewrite lookup_insert_eq, Hb. case_decide; simplify_eq; [by rewrite lookup_delete_eq|].
    rewrite lookup_delete_ne; congruence.
  - rewrite lookup_insert_ne by done. case_decide; congruence.
Qed.

Lemma lookup_object_del_bucket (bs : bucket_map) n b k :
  lookup_object (delete n bs) b k = if decide (b = n) then None else lookup_object bs b k.
Proof.
  unfold lookup_object. case_decide as Hd; [subst; by rewrite lookup_delete_eq|].
  by rewrite lookup_delete_ne.
Qed.

#[export] Hint Rewrite lookup_object_del_bucket : go_rw.
