(* ===== verification/MemStore.v ===== *)
(** * The capacity-bounded in-memory store (internal/inmems3/store/store.go)

    A map of buckets to maps of keys to objects, a count of the resident bytes,
    and the FIFO order of insertion: a linked list ([container/list]) of object
    ids and an index from an id to its list element.  A list element is a pointer
    in the code, so it has an identity here: the list holds (element, id) pairs and
    the index maps an id to an element.

    Specification: [Queue], the objects in insertion order.  [Rep s q] relates a
    store to its queue; every operation on the store is shown to do to the queue
    what the specification ([spec_put], [spec_remove], ...) says. *)

From S2P Require Import Prelude Md5 StoreIface.

(** ** Policies and errors *)

Definition EvictPolicy : Type := string.
Definition EvictPolicyReject : EvictPolicy := "reject".
Definition EvictPolicyFIFO : EvictPolicy := "fifo".

(** The errors of the package: [ErrCapacityExceeded] wrapped with its numbers,
    and the unsupported policy, printed with [%q]. *)
Inductive StoreErr :=
| ErrCapacityExceeded (need used limit : Z)
| UnsupportedPolicy (v : string).

Definition ParseEvictPolicy (v : string) : res StoreErr EvictPolicy :=
  let p := ToLower (TrimSpace v) in
  if String.eqb p EmptyString || String.eqb p EvictPolicyReject then Ok EvictPolicyReject
  else if String.eqb p EvictPolicyFIFO then Ok EvictPolicyFIFO
  else Err (UnsupportedPolicy v).

(** ** State *)

Record MemoryStore := {
  buckets : bucket_map;
  maxBytes : Z;
  evictPolicy : EvictPolicy;
  usedBytes : Z;
  fifoOrder : list (nat * string);
  orderIndex : gmap string nat;
  nextElem : nat;
}.

Definition NewMemoryStore (max : Z) (policy : EvictPolicy) : MemoryStore :=
  {| buckets := ∅; maxBytes := max; evictPolicy := policy; usedBytes := 0;
     fifoOrder := []; orderIndex := ∅; nextElem := O |}.

Definition with_buckets (s : MemoryStore) (bs : bucket_map) : MemoryStore :=
  {| buckets := bs; maxBytes := maxBytes s; evictPolicy := evictPolicy s;
     usedBytes := usedBytes s; fifoOrder := fifoOrder s; orderIndex := orderIndex s;
     nextElem := nextElem s |}.

Definition with_used (s : MemoryStore) (u : Z) : MemoryStore :=
  {| buckets := buckets s; maxBytes := maxBytes s; evictPolicy := evictPolicy s;
     usedBytes := u; fifoOrder := fifoOrder s; orderIndex := orderIndex s;
     nextElem := nextElem s |}.

Definition with_order (s : MemoryStore) (l : list (nat * string)) (ix : gmap string nat) (n : nat)
    : MemoryStore :=
  {| buckets := buckets s; maxBytes := maxBytes s; evictPolicy := evictPolicy s;
     usedBytes := usedBytes s; fifoOrder := l; orderIndex := ix; nextElem := n |}.

(** [list.Remove(elem)] unlinks the element, [list.PushBack(v)] makes a new one. *)
Definition list_Remove (l : list (nat * string)) (e : nat) : list (nat * string) :=
  filter (fun x => x.1 <> e) l.

(** ** Object ids *)

Definition nul : ascii := "000"%char.

Definition makeObjectID (bucket key : string) : string := bucket +:+ String nul key.

Definition splitObjectID (id : string) : option (string * string) :=
  match IndexByte id nul with
  | Some (S idx) => Some (str_take (S idx) id, str_drop (S (S idx)) id)
  | _ => None
  end.

(** ** The operations that hold the lock *)

Definition lookupObjectByIDLocked (s : MemoryStore) (id : string) : option Object :=
  match splitObjectID id with
  | None => None
  | Some (bucket, key) => lookup_object (buckets s) bucket key
  end.

Definition removeObjectLocked (s : MemoryStore) (bucket key : string) : MemoryStore * bool :=
  match buckets s !! bucket with
  | None => (s, false)
  | Some b =>
    match b !! key with
    | None => (s, false)
    | Some obj =>
      let s1 := with_buckets s (<[bucket := delete key b]> (buckets s)) in
      let s2 := with_used s1 (i64 (usedBytes s1 - size_of obj)) in
      let id := makeObjectID bucket key in
      match orderIndex s2 !! id with
      | Some elem =>
        (with_order s2 (list_Remove (fifoOrder s2) elem) (delete id (orderIndex s2)) (nextElem s2),
         true)
      | None => (s2, true)
      end
    end
  end.

Definition evictObjectByIDLocked (s : MemoryStore) (id : string) : MemoryStore :=
  match splitObjectID id with
  | None => s
  | Some (bucket, key) => (removeObjectLocked s bucket key).1
  end.

Definition insertObjectLocked (s : MemoryStore) (bucket key : string) (obj : Object) : MemoryStore :=
  let b := default ∅ (buckets s !! bucket) in
  let s1 := with_buckets s (<[bucket := <[key := obj]> b]> (buckets s)) in
  let s2 := with_used s1 (i64 (usedBytes s1 + size_of obj)) in
  let id := makeObjectID bucket key in
  let l := match orderIndex s2 !! id with
           | Some elem => list_Remove (fifoOrder s2) elem
           | None => fifoOrder s2
           end in
  let elem := nextElem s2 in
  with_order s2 (l ++ [(elem, id)]) (<[id := elem]> (orderIndex s2)) (S elem).

(** The scan of the FIFO list: the ids to evict and the bytes they free. *)
Fixpoint evict_scan (s : MemoryStore) (l : list (nat * string)) (hasCurrent : bool)
    (currentID : string) (needFree freed : Z) (evictIDs : list string) : Z * list string :=
  match l with
  | [] => (freed, evictIDs)
  | (_, id) :: l' =>
    if freed <? needFree then
      if hasCurrent && String.eqb id currentID then
        evict_scan s l' hasCurrent currentID needFree freed evictIDs
      else match lookupObjectByIDLocked s id with
      | None => evict_scan s l' hasCurrent currentID needFree freed evictIDs
      | Some evictObj =>
        evict_scan s l' hasCurrent currentID needFree (i64 (freed + size_of evictObj))
          (evictIDs ++ [id])
      end
    else (freed, evictIDs)
  end.

Definition ensureCapacityLocked (s : MemoryStore) (currentID : string) (hasCurrent : bool)
    (currentSize newSize : Z) : MemoryStore * option StoreErr :=
  if maxBytes s <=? 0 then (s, None)
  else
    let effectiveUsed := if hasCurrent then i64 (usedBytes s - currentSize) else usedBytes s in
    let targetUsed := i64 (effectiveUsed + newSize) in
    if targetUsed <=? maxBytes s then (s, None)
    else if String.eqb (evictPolicy s) EvictPolicyReject then
      (s, Some (ErrCapacityExceeded newSize effectiveUsed (maxBytes s)))
    else if String.eqb (evictPolicy s) EvictPolicyFIFO then
      let needFree := i64 (targetUsed - maxBytes s) in
      let '(freed, evictIDs) :=
        evict_scan s (fifoOrder s) hasCurrent currentID needFree 0 [] in
      if freed <? needFree then
        (s, Some (ErrCapacityExceeded newSize effectiveUsed (maxBytes s)))
      else (fold_left evictObjectByIDLocked evictIDs s, None)
    else (s, Some (UnsupportedPolicy (evictPolicy s))).

(** ** The exported operations *)

Definition CreateBucket (s : MemoryStore) (name : string) : MemoryStore :=
  match buckets s !! name with
  | Some _ => s
  | None => with_buckets s (<[name := ∅]> (buckets s))
  end.

Definition BucketExists (s : MemoryStore) (name : string) : bool :=
  bool_decide (is_Some (buckets s !! name)).

(** [for key := range b { removeObjectLocked }]: the keys in the map's iteration order. *)
Definition remove_keys (s : MemoryStore) (name : string) (keys : list string) : MemoryStore :=
  fold_left (fun s' key => (removeObjectLocked s' name key).1) keys s.

Definition DeleteBucket (s : MemoryStore) (name : string) : MemoryStore * bool :=
  match buckets s !! name with
  | None => (s, false)
  | Some b =>
    let s1 := remove_keys s name (fst <$> map_to_list b) in
    (with_buckets s1 (delete name (buckets s1)), true)
  end.

Definition PutObject (s : MemoryStore) (bucket key : string) (body : list byte) (now : Time)
    : MemoryStore * res StoreErr Object :=
  let obj := {| Body := body; ETag := etag_of body; LastModified := UTC now |} in
  let newSize := size_of obj in
  let currentID := makeObjectID bucket key in
  let s0 := match buckets s !! bucket with
            | Some _ => s
            | None => with_buckets s (<[bucket := ∅]> (buckets s))
            end in
  let old := lookup_object (buckets s0) bucket key in
  let oldExists := bool_decide (is_Some old) in
  let oldSize := match old with Some o => size_of o | None => 0 end in
  match ensureCapacityLocked s0 currentID oldExists oldSize newSize with
  | (s1, Some err) => (s1, Err err)
  | (s1, None) =>
    let s2 := if oldExists then (removeObjectLocked s1 bucket key).1 else s1 in
    (insertObjectLocked s2 bucket key obj, Ok obj)
  end.

Definition GetObject (s : MemoryStore) (bucket key : string) : option Object :=
  lookup_object (buckets s) bucket key.

Definition DeleteObject (s : MemoryStore) (bucket key : string) : MemoryStore * bool :=
  removeObjectLocked s bucket key.

Definition ListObjects (s : MemoryStore) (bucket prefix : string) : option (list ListedObject) :=
  match buckets s !! bucket with
  | None => None
  | Some b => Some (list_entries (map_to_list b) prefix)
  end.

Definition ListBuckets (s : MemoryStore) : list string :=
  sort_by id (fst <$> map_to_list (buckets s)).

(** ** Specification: the queue of objects in insertion order *)

Abbreviation queue := (list (string * string * Object)).

Definition q_bytes (q : queue) : Z := zsum (fun x => size_of x.2) q.
Definition q_keys (q : queue) : list (string * string) := fst <$> q.
Definition q_del (k : string * string) (q : queue) : queue := filter (fun x => x.1 <> k) q.

(** The shortest prefix whose bytes reach [need], and what is left behind it. *)
Fixpoint q_take (need : Z) (q : queue) : queue :=
  match q with
  | [] => []
  | x :: q' => if need <=? 0 then [] else x :: q_take (need - size_of x.2) q'
  end.

Fixpoint q_drop (need : Z) (q : queue) : queue :=
  match q with
  | [] => []
  | x :: q' => if need <=? 0 then q else q_drop (need - size_of x.2) q'
  end.

Definition spec_put (max : Z) (policy : EvictPolicy) (q : queue) (k : string * string) (o : Object)
    : res StoreErr queue :=
  let q' := q_del k q in
  let target := q_bytes q' + size_of o in
  if (max <=? 0) || (target <=? max) then Ok (q' ++ [(k, o)])
  else if String.eqb policy EvictPolicyReject then
    Err (ErrCapacityExceeded (size_of o) (q_bytes q') max)
  else if String.eqb policy EvictPolicyFIFO then
    if size_of o <=? max then Ok (q_drop (target - max) q' ++ [(k, o)])
    else Err (ErrCapacityExceeded (size_of o) (q_bytes q') max)
  else Err (UnsupportedPolicy policy).

Definition spec_delete_bucket (q : queue) (name : string) : queue :=
  filter (fun x => x.1.1 <> name) q.

(** ** The representation relation *)

(** A bucket name an object id can be split back into: not empty, no NUL byte. *)
Definition good_bucket (b : string) : Prop := b <> EmptyString /\ IndexByte b nul = None.
#[export] Instance good_bucket_dec b : Decision (good_bucket b).
Proof. unfold good_bucket. apply _. Defined.

Definition id_of (x : string * string * Object) : string := makeObjectID x.1.1 x.1.2.

Record Rep (s : MemoryStore) (q : queue) : Prop := {
  rep_get b k o : lookup_object (buckets s) b k = Some o <-> (b, k, o) ∈ q;
  rep_keys : NoDup (q_keys q);
  rep_good x : x ∈ q -> good_bucket x.1.1;
  rep_ids : snd <$> fifoOrder s = id_of <$> q;
  rep_elems : NoDup (fst <$> fifoOrder s);
  rep_fresh e : e ∈ fst <$> fifoOrder s -> (e < nextElem s)%nat;
  rep_index id e : orderIndex s !! id = Some e <-> (e, id) ∈ fifoOrder s;
  rep_used : usedBytes s = q_bytes q;
  rep_fits : q_bytes q < 2 ^ 63;
}.

(** One step of a client of the store, and the stores and queues a run reaches. *)
Inductive store_op :=
| OpCreate (name : string)
| OpDeleteBucket (name : string)
| OpPut (bucket key : string) (body : list byte) (now : Time)
| OpDelete (bucket key : string).

Definition exec (s : MemoryStore) (op : store_op) : MemoryStore :=
  match op with
  | OpCreate n => CreateBucket s n
  | OpDeleteBucket n => (DeleteBucket s n).1
  | OpPut b k body now => (PutObject s b k body now).1
  | OpDelete b k => (DeleteObject s b k).1
  end.

Definition spec_exec (max : Z) (policy : EvictPolicy) (q : queue) (op : store_op) : queue :=
  match op with
  | OpCreate n => q
  | OpDeleteBucket n => spec_delete_bucket q n
  | OpPut b k body now =>
    match spec_put max policy q (b, k)
            {| Body := body; ETag := etag_of body; LastModified := UTC now |} with
    | Ok q' => q'
    | Err _ => q
    end
  | OpDelete b k => q_del (b, k) q
  end.

(** A put is admissible when its bucket can be named by an object id and the
    bytes held with the new body can be counted in 63 bits. *)
Definition admissible (q : queue) (op : store_op) : Prop :=
  match op with
  | OpPut b k body _ => good_bucket b /\ q_bytes q + blen body < 2 ^ 63
  | _ => True
  end.

Fixpoint run (s : MemoryStore) (ops : list store_op) : MemoryStore :=
  match ops with [] => s | op :: ops' => run (exec s op) ops' end.

Fixpoint spec_run (max : Z) (policy : EvictPolicy) (q : queue) (ops : list store_op) : queue :=
  match ops with
  | [] => q
  | op :: ops' => spec_run max policy (spec_exec max policy q op) ops'
  end.

Fixpoint admissible_run (max : Z) (policy : EvictPolicy) (q : queue) (ops : list store_op) : Prop :=
  match ops with
  | [] => True
  | op :: ops' => admissible q op /\ admissible_run max policy (spec_exec max policy q op) ops'
  end.

(** ** Lemmas: ids *)

Lemma split_make b k : good_bucket b -> splitObjectID (makeObjectID b k) = Some (b, k).
Proof.
  intros [Hne Hn]. unfold splitObjectID, makeObjectID. rewrite IndexByte_app by done.
  destruct (String.length b) as [|n] eqn:E; [by destruct b|].
  rewrite <- E. by rewrite str_take_app, str_drop_S_app.
Qed.

Lemma makeObjectID_inj b k b' k' :
  good_bucket b -> good_bucket b' -> makeObjectID b k = makeObjectID b' k' -> (b, k) = (b', k').
Proof.
  intros Hb Hb' H. apply (f_equal splitObjectID) in H. rewrite !split_make in H by done.
  congruence.
Qed.

(** ** Lemmas: queues *)

Lemma size_of_nonneg o : 0 <= size_of o.
Proof. apply blen_nonneg. Qed.

#[export] Hint Resolve size_of_nonneg : go.

Lemma q_bytes_nonneg q : 0 <= q_bytes q.
Proof. apply zsum_nonneg. intros; apply size_of_nonneg. Qed.

Lemma q_bytes_del_le k q : q_bytes (q_del k q) <= q_bytes q.
Proof. apply zsum_filter_le. intros; apply size_of_nonneg. Qed.

Lemma q_bytes_app q r : q_bytes (q ++ r) = q_bytes q + q_bytes r.
Proof. apply zsum_app. Qed.

Lemma q_bytes_snoc q k o : q_bytes (q ++ [(k, o)]) = q_bytes q + size_of o.
Proof. rewrite q_bytes_app. unfold q_bytes at 2. simpl. lia. Qed.

Lemma q_take_drop need q : q_take need q ++ q_drop need q = q.
Proof.
  revert need. induction q as [|x q IH]; intros need; simpl; [done|].
  destruct (need <=? 0); simpl; [done|]. by rewrite IH.
Qed.

Lemma q_bytes_take_drop need q : q_bytes (q_take need q) + q_bytes (q_drop need q) = q_bytes q.
Proof. by rewrite <- q_bytes_app, q_take_drop. Qed.

Lemma q_take_enough need q : need <= q_bytes q -> need <= q_bytes (q_take need q).
Proof.
  unfold q_bytes. revert need. induction q as [|x q IH]; intros need; simpl; [done|].
  intros H. destruct (need <=? 0) eqn:E; bool_facts; simpl; [lia|].
  specialize (IH (need - size_of x.2)). lia.
Qed.

Lemma q_del_keys k q : q_keys (q_del k q) = filter (fun k' => k' <> k) (q_keys q).
Proof. unfold q_keys, q_del. by rewrite (fmap_filter_commute _ _ (fun x => x.1 <> k)). Qed.

Lemma q_del_absent k q : k ∉ q_keys q -> q_del k q = q.
Proof.
  intros Hk. apply filter_none. intros x Hx <-. apply Hk. apply list_elem_of_fmap. by exists x.
Qed.

Lemma q_del_comm k k' q : q_del k (q_del k' q) = q_del k' (q_del k q).
Proof.
  unfold q_del. rewrite !list_filter_filter. apply filter_agree. tauto.
Qed.

Lemma elem_of_q_del x k q : x ∈ q_del k q <-> x.1 <> k /\ x ∈ q.
Proof. unfold q_del. by rewrite list_elem_of_filter. Qed.

Definition q_del_all (t q : queue) : queue := fold_left (fun r x => q_del x.1 r) t q.

Lemma q_del_all_comm k t q : q_del k (q_del_all t q) = q_del_all t (q_del k q).
Proof.
  unfold q_del_all. revert q. induction t as [|x t IH]; intros q; simpl; [done|].
  by rewrite IH, q_del_comm.
Qed.

Lemma q_del_all_elem k o t q : k ∉ q_keys t -> (k, o) ∈ q_del_all t q <-> (k, o) ∈ q.
Proof.
  unfold q_del_all. revert q. induction t as [|x t IH]; intros q; [done|].
  unfold q_keys. rewrite fmap_cons, not_elem_of_cons. intros [Hx Ht]. simpl fold_left.
  rewrite IH by done. rewrite elem_of_q_del. simpl. naive_solver.
Qed.

Lemma q_bytes_del_all_le t q : q_bytes (q_del_all t q) <= q_bytes q.
Proof.
  unfold q_del_all. revert q. induction t as [|x t IH]; intros q; simpl; [lia|].
  pose proof (IH (q_del x.1 q)). pose proof (q_bytes_del_le x.1 q). lia.
Qed.

Lemma q_del_all_prefix t d : NoDup (q_keys (t ++ d)) -> q_del_all t (t ++ d) = d.
Proof.
  unfold q_del_all. induction t as [|x t IH]; [done|]. rewrite <- app_comm_cons.
  unfold q_keys. rewrite fmap_cons. intros [Hx Hn]%NoDup_cons. simpl fold_left.
  assert (q_del x.1 (x :: t ++ d) = t ++ d) as ->; [|by apply IH].
  unfold q_del. rewrite filter_cons, decide_False by naive_solver. by apply q_del_absent.
Qed.

Lemma q_bytes_del b k o q :
  NoDup (q_keys q) -> (b, k, o) ∈ q -> q_bytes q = size_of o + q_bytes (q_del (b, k) q).
Proof.
  unfold q_keys, q_bytes, q_del. induction q as [|x q IH]; [by intros _ ?%not_elem_of_nil|].
  rewrite fmap_cons, filter_cons. intros [Hx Hn]%NoDup_cons [<-|Hin]%elem_of_cons.
  - rewrite decide_False by naive_solver. simpl. fold (q_del (b, k) q). by rewrite q_del_absent.
  - rewrite decide_True.
    + simpl. rewrite IH by done. lia.
    + intros Heq. apply Hx. apply list_elem_of_fmap. by exists (b, k, o).
Qed.

(** ** Lemmas: the representation under each operation *)

Lemma rep_id_inj s q x y :
  Rep s q -> x ∈ q -> y ∈ q -> id_of x = id_of y -> x.1 = y.1.
Proof.
  intros HR Hx Hy Hid. destruct x as [[b k] o], y as [[b' k'] o']. simpl.
  apply makeObjectID_inj; [exact (rep_good _ _ HR _ Hx)|exact (rep_good _ _ HR _ Hy)|exact Hid].
Qed.

Lemma rep_elem s q x : Rep s q -> x ∈ q -> exists e, (e, id_of x) ∈ fifoOrder s.
Proof.
  intros HR Hx. assert (Hin : id_of x ∈ snd <$> fifoOrder s).
  { rewrite (rep_ids _ _ HR). apply list_elem_of_fmap. by exists x. }
  apply list_elem_of_fmap in Hin as ([e id] & -> & Hin). by exists e.
Qed.

Lemma rep_order_id s q e id :
  Rep s q -> (e, id) ∈ fifoOrder s -> exists x, x ∈ q /\ id = id_of x.
Proof.
  intros HR Hin. assert (Hid : id ∈ id_of <$> q).
  { rewrite <- (rep_ids _ _ HR). apply list_elem_of_fmap. by exists (e, id). }
  apply list_elem_of_fmap in Hid as (x & -> & Hx). by exists x.
Qed.

Lemma rep_ids_nodup s q : Rep s q -> NoDup (snd <$> fifoOrder s).
Proof.
  intros HR. rewrite (rep_ids _ _ HR).
  assert (Hsub : forall x, x ∈ q -> x ∈ q) by done. revert Hsub.
  generalize (rep_keys _ _ HR). generalize q at 1 2 4 as r.
  induction r as [|x r IH]; intros Hn Hsub; [constructor|].
  unfold q_keys in Hn. rewrite fmap_cons. rewrite fmap_cons in Hn. apply NoDup_cons in Hn as [Hx Hn].
  apply NoDup_cons. split; [|apply IH; [done|intros y Hy; apply Hsub; by right]].
  intros (y & Hid & Hy)%list_elem_of_fmap. apply Hx, list_elem_of_fmap. exists y.
  split; [|done]. apply (rep_id_inj s q); [done|apply Hsub; left|apply Hsub; by right|done].
Qed.

(** Unlinking the element of an id drops that id from the list. *)
Lemma list_Remove_id s q e id :
  Rep s q -> (e, id) ∈ fifoOrder s ->
  list_Remove (fifoOrder s) e = filter (fun x => x.2 <> id) (fifoOrder s).
Proof.
  intros HR Hin. apply filter_agree. intros [e' id'] Hx. simpl. split; intros Hne Heq; apply Hne.
  - subst. cut ((e', id) = (e, id)); [congruence|].
    apply (NoDup_fmap_inj snd (fifoOrder s)); eauto using rep_ids_nodup.
  - subst. cut ((e, id') = (e, id)); [congruence|].
    apply (NoDup_fmap_inj fst (fifoOrder s)); eauto using rep_elems.
Qed.

Lemma remove_rep_present s q b k o :
  Rep s q -> (b, k, o) ∈ q ->
  exists m, buckets s !! b = Some m /\
  Rep (removeObjectLocked s b k).1 (q_del (b, k) q) /\
  removeObjectLocked s b k =
    ((removeObjectLocked s b k).1, true) /\
  buckets (removeObjectLocked s b k).1 = <[b := delete k m]> (buckets s).
Proof.
  intros HR Hin. pose proof (proj2 (rep_get _ _ HR b k o) Hin) as Hget.
  unfold lookup_object in Hget. destruct (buckets s !! b) as [m|] eqn:Hb; [|done].
  exists m. split; [done|]. unfold removeObjectLocked. rewrite Hb, Hget. simpl.
  destruct (rep_elem s q (b, k, o) HR Hin) as [e He]. unfold id_of in He; simpl in He.
  pose proof (proj2 (rep_index _ _ HR _ _) He) as Hix. rewrite Hix. simpl.
  split; [|done]. constructor; simpl.
  - intros b' k' o'. rewrite (lookup_object_del _ _ _ _ _ _ Hb), elem_of_q_del.
    case_decide as Hd; simpl; [split; [done|tauto]|]. rewrite (rep_get _ _ HR). tauto.
  - rewrite q_del_keys. apply NoDup_filter, (rep_keys _ _ HR).
  - intros x [_ Hx]%elem_of_q_del. by apply (rep_good _ _ HR).
  - rewrite (list_Remove_id _ q _ _ HR He).
    rewrite <- (fmap_filter_commute snd (fun id => id <> makeObjectID b k) _ (fifoOrder s)) by done.
    rewrite (rep_ids _ _ HR). apply fmap_filter_commute. intros x Hx. split.
    + intros Hne Heq. apply Hne. destruct x as [[??]?]. simpl in Heq. by simplify_eq.
    + intros Hne Heq. apply Hne. by apply (rep_id_inj s q x (b, k, o)).
  - apply NoDup_fmap_filter, (rep_elems _ _ HR).
  - intros e' (x & -> & [_ Hx]%list_elem_of_filter)%list_elem_of_fmap.
    apply (rep_fresh _ _ HR), list_elem_of_fmap. by exists x.
  - intros id e'. rewrite (list_Remove_id _ q _ _ HR He), list_elem_of_filter; simpl.
    destruct (decide (id = makeObjectID b k)) as [->|Hne].
    + rewrite lookup_delete_eq. split; [done|tauto].
    + rewrite lookup_delete_ne by done. rewrite (rep_index _ _ HR). tauto.
  - rewrite (rep_used _ _ HR).
    assert (Hs : q_bytes q = size_of o + q_bytes (q_del (b, k) q)) by (apply q_bytes_del; [apply (rep_keys _ _ HR)|done]).
    pose proof (q_bytes_nonneg (q_del (b, k) q)). pose proof (size_of_nonneg o).
    pose proof (rep_fits _ _ HR). rewrite i64_id; lia.
  - pose proof (q_bytes_del_le (b, k) q). pose proof (rep_fits _ _ HR). lia.
Qed.

Lemma remove_absent s b k :
  lookup_object (buckets s) b k = None -> removeObjectLocked s b k = (s, false).
Proof.
  unfold lookup_object, removeObjectLocked. intros Hget.
  destruct (buckets s !! b) as [m|]; [|done]. by rewrite Hget.
Qed.

Lemma rep_absent s q b k :
  Rep s q -> (b, k) ∉ q_keys q <-> lookup_object (buckets s) b k = None.
Proof.
  intros HR. split; intros Hn.
  - destruct (lookup_object (buckets s) b k) as [o|] eqn:E; [|done].
    apply (rep_get _ _ HR) in E. destruct Hn. apply list_elem_of_fmap. by exists (b, k, o).
  - intros (x & Hk & Hx)%list_elem_of_fmap. destruct x as [k' o]. simpl in Hk. subst k'.
    apply (rep_get _ _ HR) in Hx. congruence.
Qed.

(** Removal in general: the queue loses the key, no bucket appears or goes. *)
Lemma remove_rep s q b k :
  Rep s q ->
  Rep (removeObjectLocked s b k).1 (q_del (b, k) q) /\
  (removeObjectLocked s b k).2 = bool_decide (is_Some (lookup_object (buckets s) b k)) /\
  dom (buckets (removeObjectLocked s b k).1) = dom (buckets s) /\
  maxBytes (removeObjectLocked s b k).1 = maxBytes s /\
  evictPolicy (removeObjectLocked s b k).1 = evictPolicy s.
Proof.
  intros HR. destruct (lookup_object (buckets s) b k) as [o|] eqn:E.
  - pose proof (proj1 (rep_get _ _ HR b k o) E) as Hin.
    destruct (remove_rep_present s q b k o HR Hin) as (m & Hb & HR' & Heq & Hbs).
    split; [done|]. split; [by rewrite Heq|]. rewrite Hbs, dom_insert_lookup_L by eauto.
    split; [done|]. unfold removeObjectLocked.
    repeat case_match; done.
  - rewrite (remove_absent s b k E); simpl. rewrite q_del_absent; [done|].
    by apply (rep_absent s).
Qed.

Lemma with_bucket_rep s q n :
  Rep s q -> buckets s !! n = None -> Rep (with_buckets s (<[n := ∅]> (buckets s))) q.
Proof.
  intros HR Hn. destruct HR. constructor; simpl; try done.
  intros b k o. by rewrite lookup_object_insert_bucket.
Qed.

Lemma insert_rep s q b k o :
  Rep s q -> good_bucket b -> (b, k) ∉ q_keys q -> q_bytes q + size_of o < 2 ^ 63 ->
  Rep (insertObjectLocked s b k o) (q ++ [(b, k, o)]).
Proof.
  intros HR Hb Hk Hfit. unfold insertObjectLocked.
  assert (Hix : orderIndex s !! makeObjectID b k = None).
  { destruct (orderIndex s !! makeObjectID b k) as [e|] eqn:E; [|done].
    apply (rep_index _ _ HR) in E. destruct (rep_order_id s q _ _ HR E) as (x & Hx & Hid).
    destruct Hk. apply list_elem_of_fmap. exists x. split; [|done].
    destruct x as [[b' k'] o']. simpl.
    apply makeObjectID_inj; [done|by apply (rep_good _ _ HR (b', k', o'))|done]. }
  simpl. rewrite Hix. pose proof (rep_used _ _ HR) as Hu.
  pose proof (q_bytes_nonneg q). pose proof (size_of_nonneg o).
  constructor; simpl.
  - intros b' k' o'. rewrite elem_of_app, list_elem_of_singleton, <- (rep_get _ _ HR).
    assert (Hno : lookup_object (buckets s) b k = None) by (by apply (rep_absent _ q)).
    destruct (buckets s !! b) as [m|] eqn:Em; simpl.
    + rewrite (lookup_object_set _ _ _ _ _ _ _ Em). case_decide as Hd; simplify_eq; [|naive_solver].
      rewrite Hno. naive_solver.
    + rewrite <- (insert_insert_eq (buckets s) b (<[k:=o]> ∅) ∅).
      rewrite (lookup_object_set _ _ _ _ _ _ _ (lookup_insert_eq _ _ _)).
      rewrite lookup_object_insert_bucket by done.
      case_decide as Hd; simplify_eq; [|naive_solver]. rewrite Hno. naive_solver.
  - unfold q_keys. rewrite fmap_app. apply NoDup_app. split; [apply (rep_keys _ _ HR)|].
    split; [|apply NoDup_singleton]. by intros x Hx ->%list_elem_of_singleton.
  - intros x [Hx|Hx]%elem_of_app; [by apply (rep_good _ _ HR)|].
    apply list_elem_of_singleton in Hx as ->. done.
  - rewrite !fmap_app, (rep_ids _ _ HR). done.
  - rewrite fmap_app. apply NoDup_app. split; [apply (rep_elems _ _ HR)|].
    split; [|apply NoDup_singleton]. intros e He ->%list_elem_of_singleton.
    apply (rep_fresh _ _ HR) in He. simpl in He. lia.
  - intros e. rewrite fmap_app, elem_of_app. intros [He|He%list_elem_of_singleton].
    + apply (rep_fresh _ _ HR) in He. lia.
    + simpl in He. lia.
  - intros id e. rewrite elem_of_app, list_elem_of_singleton.
    destruct (decide (id = makeObjectID b k)) as [->|Hne].
    + rewrite lookup_insert_eq. split; [intros [= <-]; by right|].
      intros [He|[= ->]]; [|done]. apply (rep_index _ _ HR) in He. congruence.
    + rewrite lookup_insert_ne by done. rewrite (rep_index _ _ HR). naive_solver.
  - rewrite Hu, q_bytes_snoc. rewrite i64_id; lia.
  - by rewrite q_bytes_snoc.
Qed.

(** ** Lemmas: eviction *)

(** The scan takes, from the part of the queue it walks, the shortest prefix that
    frees [need] bytes, the current key skipped. *)
Lemma evict_scan_spec s q l r hasCur b k need freed acc :
  Rep s q -> good_bucket b -> snd <$> l = id_of <$> r -> (forall x, x ∈ r -> x ∈ q) ->
  (hasCur = false -> (b, k) ∉ q_keys r) ->
  0 <= freed -> freed + q_bytes r < 2 ^ 63 ->
  evict_scan s l hasCur (makeObjectID b k) need freed acc =
  (freed + q_bytes (q_take (need - freed) (q_del (b, k) r)),
   acc ++ (id_of <$> q_take (need - freed) (q_del (b, k) r))).
Proof.
  intros HR Hb. unfold q_bytes. revert r freed acc.
  induction l as [|[e id] l IH]; intros [|x r] freed acc Hl Hsub Hcur H0 Hfit; try done.
  { simpl. by rewrite Z.add_0_r, app_nil_r. }
  rewrite !fmap_cons in Hl. injection Hl as Hid Hl. simpl in Hid. subst id. simpl evict_scan.
  assert (Hx : x ∈ q) by (apply Hsub; left).
  assert (Hsub' : forall y, y ∈ r -> y ∈ q) by (intros y Hy; apply Hsub; by right).
  assert (Hcur' : hasCur = false -> (b, k) ∉ q_keys r).
  { intros Hc Hin. apply (Hcur Hc). unfold q_keys. rewrite fmap_cons. by right. }
  assert (Hlook : lookupObjectByIDLocked s (id_of x) = Some x.2).
  { destruct x as [[b' k'] o']. unfold lookupObjectByIDLocked, id_of. simpl.
    rewrite split_make by exact (rep_good _ _ HR _ Hx). by apply (rep_get _ _ HR). }
  simpl in Hfit. pose proof (size_of_nonneg x.2).
  pose proof (zsum_nonneg (fun x : string * string * Object => size_of x.2) r
                (fun x => size_of_nonneg x.2)).
  destruct (freed <? need) eqn:E; bool_facts.
  - unfold q_del. rewrite filter_cons. fold (q_del (b, k) r).
    destruct (decide (x.1 = (b, k))) as [Heq|Hne].
    + rewrite decide_False by tauto. destruct hasCur.
      * destruct x as [[b' k'] o']; simpl in Heq; simplify_eq. unfold id_of; simpl.
        rewrite String.eqb_refl; simpl. apply IH; (done || lia).
      * destruct (Hcur eq_refl). apply list_elem_of_fmap. exists x. by split; [|left].
    + rewrite decide_True by done. rewrite Hlook.
      destruct (hasCur && String.eqb (id_of x) (makeObjectID b k)) eqn:Ecur; bool_facts.
      { destruct x as [[b' k'] o']. destruct Hne.
        apply makeObjectID_inj; [exact (rep_good _ _ HR _ Hx)|done..]. }
      simpl q_take. rewrite (proj2 (Z.leb_gt _ _)) by lia.
      rewrite i64_id by lia. rewrite (IH r) by (done || lia). rewrite Z.sub_add_distr. simpl zsum. rewrite fmap_cons.
      rewrite <- app_assoc. f_equal. lia.
  - assert (q_take (need - freed) (q_del (b, k) (x :: r)) = []) as ->.
    { destruct (q_del (b, k) (x :: r)); simpl; [done|].
      by rewrite (proj2 (Z.leb_le _ _)) by lia. }
    simpl. by rewrite Z.add_0_r, app_nil_r.
Qed.

Lemma evict_rep s q x :
  Rep s q -> x ∈ q ->
  Rep (evictObjectByIDLocked s (id_of x)) (q_del x.1 q) /\
  dom (buckets (evictObjectByIDLocked s (id_of x))) = dom (buckets s) /\
  maxBytes (evictObjectByIDLocked s (id_of x)) = maxBytes s /\
  evictPolicy (evictObjectByIDLocked s (id_of x)) = evictPolicy s.
Proof.
  intros HR Hx. destruct x as [[b k] o]. unfold evictObjectByIDLocked, id_of. simpl.
  rewrite split_make by exact (rep_good _ _ HR _ Hx).
  destruct (remove_rep s q b k HR) as (? & _ & ? & ? & ?). done.
Qed.

Lemma evict_all_rep s q t :
  Rep s q -> NoDup (q_keys t) -> (forall x, x ∈ t -> x ∈ q) ->
  let s' := fold_left evictObjectByIDLocked (id_of <$> t) s in
  Rep s' (q_del_all t q) /\ dom (buckets s') = dom (buckets s) /\
  maxBytes s' = maxBytes s /\ evictPolicy s' = evictPolicy s.
Proof.
  simpl. revert s q. induction t as [|x t IH]; intros s q HR Hn Hsub; [done|].
  unfold q_keys in Hn. rewrite fmap_cons in Hn. apply NoDup_cons in Hn as [Hx Hn].
  rewrite fmap_cons. simpl fold_left.
  destruct (evict_rep s q x HR) as (HR1 & Hd1 & Hm1 & Hp1); [apply Hsub; left|].
  destruct (IH _ _ HR1 Hn) as (HR2 & Hd2 & Hm2 & Hp2).
  { intros y Hy. apply elem_of_q_del. split; [|apply Hsub; by right].
    intros Heq. apply Hx. rewrite <- Heq. apply list_elem_of_fmap. by exists y. }
  unfold q_del_all. simpl. by rewrite Hd2, Hm2, Hp2.
Qed.

(** [ensureCapacityLocked] against the specification: on success the queue
    without the current key is what [spec_put] keeps. *)
Lemma ensureCapacity_rep s q b k o :
  Rep s q -> good_bucket b -> q_bytes q + size_of o < 2 ^ 63 ->
  let old := lookup_object (buckets s) b k in
  let oldSize := match old with Some o' => size_of o' | None => 0 end in
  match ensureCapacityLocked s (makeObjectID b k) (bool_decide (is_Some old)) oldSize (size_of o) with
  | (s', None) => exists q', Rep s' q' /\
      spec_put (maxBytes s) (evictPolicy s) q (b, k) o = Ok (q_del (b, k) q' ++ [(b, k, o)]) /\
      dom (buckets s') = dom (buckets s) /\
      lookup_object (buckets s') b k = lookup_object (buckets s) b k /\
      q_bytes q' <= q_bytes q /\
      maxBytes s' = maxBytes s /\ evictPolicy s' = evictPolicy s
  | (s', Some e) => s' = s /\ spec_put (maxBytes s) (evictPolicy s) q (b, k) o = Err e
  end.
Proof.
  intros HR Hb Hfit old oldSize. unfold ensureCapacityLocked, spec_put.
  assert (Heff : (if bool_decide (is_Some old) then i64 (usedBytes s - oldSize) else usedBytes s)
                 = q_bytes (q_del (b, k) q)).
  { subst old oldSize. rewrite (rep_used _ _ HR).
    destruct (lookup_object (buckets s) b k) as [o'|] eqn:E.
    - rewrite bool_decide_eq_true_2 by eauto. apply (rep_get _ _ HR) in E.
      pose proof (q_bytes_del b k o' q (rep_keys _ _ HR) E). pose proof (size_of_nonneg o').
      pose proof (q_bytes_nonneg (q_del (b, k) q)). pose proof (rep_fits _ _ HR).
      rewrite i64_id; lia.
    - rewrite bool_decide_eq_false_2 by (by intros [??]).
      rewrite q_del_absent; [done|]. by apply (rep_absent s). }
  rewrite Heff. pose proof (q_bytes_nonneg (q_del (b, k) q)). pose proof (size_of_nonneg o).
  pose proof (q_bytes_del_le (b, k) q).
  rewrite (i64_id (_ + _)) by lia. clear Heff.
  destruct (maxBytes s <=? 0) eqn:Emax; simpl; [exists q; done|].
  destruct (_ <=? maxBytes s) eqn:Etgt; [exists q; done|].
  destruct (String.eqb _ EvictPolicyReject); [done|].
  destruct (String.eqb _ EvictPolicyFIFO); [|done]. bool_facts.
  rewrite (i64_id (_ - _)) by lia.
  set (need := q_bytes (q_del (b, k) q) + size_of o - maxBytes s) in *.
  rewrite (evict_scan_spec s q _ q _ b k need 0 []); try done;
    [|by rewrite (rep_ids _ _ HR)| |pose proof (rep_fits _ _ HR); lia].
  2:{ intros Hn. apply (rep_absent s q); [done|]. subst old.
      apply bool_decide_eq_false in Hn. by apply eq_None_not_Some. }
  rewrite Z.sub_0_r. simpl app. rewrite Z.add_0_l.
  pose proof (q_bytes_take_drop need (q_del (b, k) q)) as Htd.
  pose proof (q_bytes_nonneg (q_drop need (q_del (b, k) q))).
  destruct (size_of o <=? maxBytes s) eqn:Esz; bool_facts.
  2:{ rewrite (proj2 (Z.ltb_lt _ _)) by lia. done. }
  rewrite (proj2 (Z.ltb_ge _ _)) by (apply q_take_enough; lia).
  set (t := q_take need (q_del (b, k) q)) in *.
  pose proof (q_take_drop need (q_del (b, k) q)) as Happ. fold t in Happ.
  assert (Hn : NoDup (q_keys (t ++ q_drop need (q_del (b, k) q)))).
  { rewrite Happ, q_del_keys. apply NoDup_filter, (rep_keys _ _ HR). }
  assert (Hsub : forall x, x ∈ t -> x ∈ q_del (b, k) q).
  { intros x Hx. rewrite <- Happ. apply elem_of_app. by left. }
  destruct (evict_all_rep s q t HR) as (HR' & Hd & Hm & Hp).
  { unfold q_keys in Hn. rewrite fmap_app in Hn. by apply NoDup_app in Hn as [? _]. }
  { intros x Hx. by apply Hsub, elem_of_q_del in Hx as [_ ?]. }
  exists (q_del_all t q). split; [done|]. split.
  { rewrite q_del_all_comm. rewrite <- Happ at 2. by rewrite q_del_all_prefix. }
  split; [done|]. split; [|split; [|done]].
  - apply option_eq. intros o'. rewrite (rep_get _ _ HR'), (rep_get _ _ HR).
    apply q_del_all_elem. intros Hin%list_elem_of_fmap. destruct Hin as (x & Hx & Hin).
    apply Hsub, elem_of_q_del in Hin as [Hne _]. by rewrite <- Hx in Hne.
  - apply q_bytes_del_all_le.
Qed.

(** [PutObject] against [spec_put], with the bucket it creates either way. *)
Lemma put_rep s q b k body now :
  Rep s q -> good_bucket b -> q_bytes q + blen body < 2 ^ 63 ->
  let o := {| Body := body; ETag := etag_of body; LastModified := UTC now |} in
  let s' := (PutObject s b k body now).1 in
  dom (buckets s') = {[b]} ∪ dom (buckets s) /\
  maxBytes s' = maxBytes s /\ evictPolicy s' = evictPolicy s /\
  match spec_put (maxBytes s) (evictPolicy s) q (b, k) o with
  | Ok q' => (PutObject s b k body now).2 = Ok o /\ Rep s' q'
  | Err e => (PutObject s b k body now).2 = Err e /\ Rep s' q
  end.
Proof.
  intros HR Hb Hfit o. unfold PutObject. fold o.
  set (s0 := match buckets s !! b with Some _ => s | None => _ end).
  assert (Hs0 : Rep s0 q /\ dom (buckets s0) = {[b]} ∪ dom (buckets s) /\
                maxBytes s0 = maxBytes s /\ evictPolicy s0 = evictPolicy s).
  { unfold s0. destruct (buckets s !! b) eqn:E.
    - split; [done|]. split; [|done]. apply elem_of_dom_2 in E. set_solver.
    - split; [by apply with_bucket_rep|]. simpl. by rewrite dom_insert_L. }
  clearbody s0. destruct Hs0 as (HR0 & Hd0 & Hm0 & Hp0). rewrite <- Hd0, <- Hm0, <- Hp0.
  change (blen body) with (size_of o) in Hfit.
  pose proof (ensureCapacity_rep s0 q b k o HR0 Hb Hfit) as Hens. simpl in Hens.
  destruct (ensureCapacityLocked _ _ _ _ _) as [s1 [e|]]; simpl.
  { destruct Hens as [-> ->]. done. }
  destruct Hens as (q1 & HR1 & Hspec & Hd1 & Hl1 & Hq1 & Hm1 & Hp1). rewrite Hspec, <- Hd1, <- Hm1, <- Hp1.
  set (s2 := if bool_decide _ then _ else _).
  assert (Hs2 : Rep s2 (q_del (b, k) q1) /\ dom (buckets s2) = dom (buckets s1) /\
                maxBytes s2 = maxBytes s1 /\ evictPolicy s2 = evictPolicy s1).
  { unfold s2. case_bool_decide as Hold.
    - destruct (remove_rep s1 q1 b k HR1) as (? & _ & ? & ? & ?). done.
    - rewrite q_del_absent; [done|]. apply (rep_absent s1); [done|].
      rewrite Hl1. by apply eq_None_not_Some. }
  clearbody s2. destruct Hs2 as (HR2 & Hd2 & Hm2 & Hp2). rewrite <- Hd2, <- Hm2, <- Hp2.
  assert (Hbin : b ∈ dom (buckets s2)) by (rewrite Hd2, Hd1, Hd0; set_solver).
  split; [unfold insertObjectLocked; simpl; rewrite dom_insert_L; set_solver|].
  do 3 (split; [done|]). apply insert_rep; [done|done| |].
  - rewrite q_del_keys, list_elem_of_filter. tauto.
  - pose proof (q_bytes_del_le (b, k) q1). lia.
Qed.

(** Deleting the keys of a bucket, in any order. *)
Lemma remove_keys_rep s q n keys :
  Rep s q ->
  Rep (remove_keys s n keys) (filter (fun x => ~ (x.1.1 = n /\ x.1.2 ∈ keys)) q) /\
  dom (buckets (remove_keys s n keys)) = dom (buckets s) /\
  maxBytes (remove_keys s n keys) = maxBytes s /\
  evictPolicy (remove_keys s n keys) = evictPolicy s.
Proof.
  unfold remove_keys. revert s q. induction keys as [|k keys IH]; intros s q HR; simpl.
  { rewrite filter_none; [done|]. intros x _ [_ Hx%not_elem_of_nil]. done. }
  destruct (remove_rep s q n k HR) as (HR1 & _ & Hd1 & Hm1 & Hp1).
  destruct (IH _ _ HR1) as (HR2 & Hd2 & Hm2 & Hp2).
  rewrite Hd2, Hm2, Hp2. split; [|done].
  unfold q_del in HR2. rewrite list_filter_filter in HR2.
  erewrite filter_agree; [exact HR2|]. intros [[b k'] o] _. simpl. rewrite elem_of_cons.
  split; [intros H; split; [|intros [= -> ->]]; tauto|].
  intros [H1 H2] [-> [->|H3]]; tauto.
Qed.

Lemma delete_bucket_rep s q n :
  Rep s q ->
  let s' := (DeleteBucket s n).1 in
  Rep s' (spec_delete_bucket q n) /\
  (DeleteBucket s n).2 = BucketExists s n /\
  dom (buckets s') = dom (buckets s) ∖ {[n]} /\
  maxBytes s' = maxBytes s /\ evictPolicy s' = evictPolicy s.
Proof.
  intros HR. unfold DeleteBucket, BucketExists.
  destruct (buckets s !! n) as [m|] eqn:E; simpl.
  - destruct (remove_keys_rep s q n (map_to_list m).*1 HR) as (HR' & Hd & Hm & Hp).
    rewrite dom_delete_L, Hd. split; [|done].
    assert (Hq : filter (fun x => ~ (x.1.1 = n /\ x.1.2 ∈ (map_to_list m).*1)) q =
                 spec_delete_bucket q n).
    { apply filter_agree. intros [[b k] o] Hin. simpl. split; [|tauto].
      intros Hn ->. apply Hn. split; [done|]. apply (rep_get _ _ HR) in Hin.
      unfold lookup_object in Hin. rewrite E in Hin.
      apply list_elem_of_fmap. exists (k, o). by rewrite elem_of_map_to_list. }
    rewrite Hq in HR'. destruct HR'. constructor; simpl; try done.
    intros b k o. rewrite lookup_object_del_bucket, <- rep_get0.
    case_decide as Hd'; [subst|done]. split; [done|].
    rewrite rep_get0. unfold spec_delete_bucket. rewrite list_elem_of_filter. simpl. tauto.
  - unfold spec_delete_bucket. rewrite filter_none; [split; [done|split; [done|]]|].
    + split; [|done]. apply not_elem_of_dom in E. set_solver.
    + intros [[b k] o] Hin Hb. simpl in Hb. subst b. apply (rep_get _ _ HR) in Hin.
      unfold lookup_object in Hin. by rewrite E in Hin.
Qed.

(** ** Lemmas: the bucket map under each operation, on any store *)

Lemma remove_lookup s b k b' k' :
  lookup_object (buckets (removeObjectLocked s b k).1) b' k' =
  if decide ((b', k') = (b, k)) then None else lookup_object (buckets s) b' k'.
Proof.
  destruct (buckets s !! b) as [m|] eqn:Hb; [destruct (m !! k) as [o|] eqn:Hk|].
  - rewrite <- (lookup_object_del _ b m k b' k' Hb). unfold removeObjectLocked.
    rewrite Hb, Hk. by destruct (orderIndex _ !! _).
  - unfold removeObjectLocked. rewrite Hb, Hk; simpl. case_decide as Hd; simplify_eq; [|done].
    unfold lookup_object. by rewrite Hb.
  - unfold removeObjectLocked. rewrite Hb; simpl. case_decide as Hd; simplify_eq; [|done].
    unfold lookup_object. by rewrite Hb.
Qed.

Lemma remove_exists s b k n :
  BucketExists (removeObjectLocked s b k).1 n = BucketExists s n.
Proof.
  unfold BucketExists, removeObjectLocked. apply bool_decide_ext.
  destruct (buckets s !! b) as [m|] eqn:Hb; [|done]. destruct (m !! k); [|done].
  destruct (orderIndex _ !! _); simpl; rewrite <- !elem_of_dom, dom_insert_lookup_L; eauto.
Qed.

Lemma remove_result s b k :
  (removeObjectLocked s b k).2 = bool_decide (is_Some (lookup_object (buckets s) b k)).
Proof.
  unfold lookup_object, removeObjectLocked. destruct (buckets s !! b) as [m|]; [|done].
  destruct (m !! k); [|done]. by destruct (orderIndex _ !! _).
Qed.

Lemma remove_keys_lookup s n keys b k :
  b <> n -> lookup_object (buckets (remove_keys s n keys)) b k = lookup_object (buckets s) b k.
Proof.
  intros Hb. unfold remove_keys. revert s. induction keys as [|k' keys IH]; intros s; simpl; [done|].
  rewrite IH, remove_lookup. by rewrite decide_False by congruence.
Qed.

Lemma remove_keys_exists s n keys b :
  BucketExists (remove_keys s n keys) b = BucketExists s b.
Proof.
  unfold remove_keys. revert s. induction keys as [|k' keys IH]; intros s; simpl; [done|].
  by rewrite IH, remove_exists.
Qed.

(** ** The contract of the interface *)

#[export] Instance MemoryStore_store : ObjectStore MemoryStore := {
  st_CreateBucket := CreateBucket;
  st_BucketExists := BucketExists;
  st_DeleteBucket := DeleteBucket;
  st_GetObject := GetObject;
  st_DeleteObject := DeleteObject;
  st_ListObjects := ListObjects;
  st_ListBuckets := ListBuckets;
}.

Lemma create_exists s n b :
  BucketExists (CreateBucket s n) b = bool_decide (b = n) || BucketExists s b.
Proof.
  unfold CreateBucket, BucketExists. destruct (decide (b = n)) as [->|Hb].
  - rewrite (bool_decide_eq_true_2 (n = n)) by done. apply bool_decide_eq_true_2.
    destruct (buckets s !! n) eqn:E; simpl; [eauto|]. rewrite lookup_insert_eq. eauto.
  - rewrite (bool_decide_eq_false_2 (b = n)) by done. simpl.
    destruct (buckets s !! n); simpl; [done|]. by rewrite lookup_insert_ne.
Qed.

Lemma create_get s n b k : GetObject (CreateBucket s n) b k = GetObject s b k.
Proof.
  unfold CreateBucket, GetObject. destruct (buckets s !! n) eqn:E; simpl; [done|].
  by apply lookup_object_insert_bucket.
Qed.

Lemma delete_bucket_facts s n :
  (DeleteBucket s n).2 = BucketExists s n /\ BucketExists (DeleteBucket s n).1 n = false /\
  (forall k, GetObject (DeleteBucket s n).1 n k = None) /\
  (forall b k, b <> n -> GetObject (DeleteBucket s n).1 b k = GetObject s b k) /\
  (forall b, b <> n -> BucketExists (DeleteBucket s n).1 b = BucketExists s b).
Proof.
  unfold DeleteBucket, GetObject. destruct (buckets s !! n) as [m|] eqn:E; simpl.
  - split_and!.
    + symmetry. apply bool_decide_eq_true_2. by rewrite E.
    + apply bool_decide_eq_false_2. simpl. rewrite lookup_delete_eq. by intros [??].
    + intros k. rewrite lookup_object_del_bucket. by rewrite decide_True.
    + intros b k Hb. rewrite lookup_object_del_bucket, decide_False by done.
      by apply remove_keys_lookup.
    + intros b Hb. rewrite <- (remove_keys_exists s n (map_to_list m).*1 b).
      unfold BucketExists. simpl. by rewrite lookup_delete_ne.
  - assert (HE : BucketExists s n = false).
    { apply bool_decide_eq_false_2. rewrite E. by intros [??]. }
    split_and!; [done..|intros k; unfold lookup_object; by rewrite E|done|done].
Qed.

#[export] Instance MemoryStore_laws : ObjectStoreLaws MemoryStore.
Proof.
  constructor; simpl.
  - apply create_get.
  - intros s n _. rewrite create_exists. by rewrite bool_decide_eq_true_2.
  - intros s n b Hb. rewrite create_exists. by rewrite bool_decide_eq_false_2.
  - intros s n b Hb. rewrite create_exists, Hb. apply orb_true_r.
  - intros s n s' ok H. pose proof (delete_bucket_facts s n) as Hf. by rewrite H in Hf.
  - intros s b k s' ok H. unfold DeleteObject in H. unfold GetObject.
    pose proof (remove_result s b k) as H2. pose proof (remove_lookup s b k) as H3.
    pose proof (remove_exists s b k) as H4. rewrite H in H2, H3, H4. simpl in H2, H3, H4.
    split_and!; [done|by rewrite H3, decide_True|intros b' k' Hne; by rewrite H3, decide_False|done].
  - unfold GetObject, lookup_object, BucketExists. intros s b k o H.
    apply bool_decide_eq_true_2. destruct (buckets s !! b); [eauto|done].
  - unfold ListObjects, BucketExists. intros s b p. rewrite bool_decide_eq_false.
    destruct (buckets s !! b); split; (done || (intros H; destruct H; eauto)).
  - unfold ListObjects, GetObject, lookup_object. intros s b p l.
    destruct (buckets s !! b) as [m|]; [|done]. intros [= <-].
    split_and!; [apply sort_by_sorted|apply list_entries_keys_nodup|].
    intros k o. by rewrite elem_of_list_entries, elem_of_map_to_list.
  - intros s. destruct (list_buckets_spec (buckets s)) as (H1 & H2 & H3).
    split_and!; [done..|]. intros b. unfold BucketExists.
    rewrite bool_decide_eq_true. apply H3.
Qed.

(** ** Lemmas: runs *)

Lemma new_rep max policy : Rep (NewMemoryStore max policy) [].
Proof.
  constructor; simpl.
  - intros b k o. unfold lookup_object. rewrite lookup_empty. split; [done|by intros ?%not_elem_of_nil].
  - constructor.
  - by intros x ?%not_elem_of_nil.
  - done.
  - constructor.
  - by intros e ?%not_elem_of_nil.
  - intros id e. rewrite lookup_empty. split; [done|by intros ?%not_elem_of_nil].
  - done.
  - done.
Qed.

Lemma exec_rep s q op :
  Rep s q -> admissible q op ->
  Rep (exec s op) (spec_exec (maxBytes s) (evictPolicy s) q op) /\
  maxBytes (exec s op) = maxBytes s /\ evictPolicy (exec s op) = evictPolicy s.
Proof.
  intros HR Hadm. destruct op as [n|n|b k body now|b k]; simpl in *.
  - unfold CreateBucket. destruct (buckets s !! n) eqn:E; [done|].
    split; [by apply with_bucket_rep|done].
  - destruct (delete_bucket_rep s q n HR) as (? & _ & _ & ? & ?). done.
  - destruct Hadm as [Hb Hfit]. destruct (put_rep s q b k body now HR Hb Hfit) as (_ & ? & ? & H).
    destruct (spec_put _ _ _ _ _); tauto.
  - destruct (remove_rep s q b k HR) as (? & _ & _ & ? & ?). done.
Qed.

Lemma run_rep max policy s q ops :
  Rep s q -> maxBytes s = max -> evictPolicy s = policy -> admissible_run max policy q ops ->
  Rep (run s ops) (spec_run max policy q ops) /\
  maxBytes (run s ops) = max /\ evictPolicy (run s ops) = policy.
Proof.
  revert s q. induction ops as [|op ops IH]; intros s q HR Hm Hp Hadm; simpl in *; [done|].
  destruct Hadm as [Hop Hadm]. destruct (exec_rep s q op HR Hop) as (HR1 & Hm1 & Hp1).
  rewrite Hm, Hp in HR1. apply IH; [done|congruence..|done].
Qed.

Lemma run_new_rep max policy ops :
  admissible_run max policy [] ops ->
  Rep (run (NewMemoryStore max policy) ops) (spec_run max policy [] ops) /\
  maxBytes (run (NewMemoryStore max policy) ops) = max /\
  evictPolicy (run (NewMemoryStore max policy) ops) = policy.
Proof. intros Hadm. by apply run_rep; [apply new_rep| | |]. Qed.

(** The specification keeps the queue within the limit. *)
Lemma q_del_bytes_bound max k q : q_bytes q <= max -> q_bytes (q_del k q) <= max.
Proof. pose proof (q_bytes_del_le k q). lia. Qed.

Lemma spec_put_bound max policy q k o q' :
  0 < max -> q_bytes q <= max -> spec_put max policy q k o = Ok q' -> q_bytes q' <= max.
Proof.
  intros Hm Hq. unfold spec_put. rewrite (proj2 (Z.leb_gt _ _)) by lia. simpl.
  set (r := q_del k q). destruct (_ <=? max) eqn:Et; bool_facts.
  { intros [= <-]. rewrite q_bytes_snoc. lia. }
  destruct (String.eqb _ EvictPolicyReject); [done|].
  destruct (String.eqb _ EvictPolicyFIFO); [|done].
  destruct (size_of o <=? max) eqn:Es; bool_facts; [|done]. intros [= <-].
  rewrite q_bytes_snoc.
  pose proof (q_bytes_take_drop (q_bytes r + size_of o - max) r).
  pose proof (q_take_enough (q_bytes r + size_of o - max) r). lia.
Qed.

Lemma spec_run_bound max policy q ops :
  0 < max -> q_bytes q <= max -> q_bytes (spec_run max policy q ops) <= max.
Proof.
  intros Hm. revert q. induction ops as [|op ops IH]; intros q Hq; simpl; [done|].
  apply IH. destruct op as [n|n|b k body now|b k]; simpl.
  - done.
  - unfold spec_delete_bucket, q_bytes.
    pose proof (zsum_filter_le (fun x : string * string * Object => size_of x.2)
      (fun x => x.1.1 <> n) q (fun x => size_of_nonneg x.2)). unfold q_bytes in Hq. lia.
  - destruct (spec_put _ _ _ _ _) eqn:E; [|done]. by eapply spec_put_bound.
  - by apply q_del_bytes_bound.
Qed.

(** The objects of the bucket map, and their bytes. *)
Definition residents (bs : bucket_map) : queue :=
  '(b, m) ← map_to_list bs; '(k, o) ← map_to_list m; [(b, k, o)].

Lemma elem_of_residents bs b k o : (b, k, o) ∈ residents bs <-> lookup_object bs b k = Some o.
Proof.
  unfold residents, lookup_object. rewrite list_elem_of_bind. split.
  - intros ([b' m] & Hin & Hb). apply list_elem_of_bind in Hin as ([k' o'] & Hin & Hk).
    apply list_elem_of_singleton in Hin. simplify_eq.
    apply elem_of_map_to_list in Hb, Hk. by rewrite Hb.
  - destruct (bs !! b) as [m|] eqn:Hb; [|done]. intros Hk. exists (b, m).
    rewrite elem_of_map_to_list. split; [|done]. apply list_elem_of_bind. exists (k, o).
    by rewrite elem_of_map_to_list, list_elem_of_singleton.
Qed.

Lemma residents_nodup bs : NoDup (residents bs).
Proof.
  unfold residents. apply NoDup_bind; [|intros [b m] _; apply NoDup_bind|apply NoDup_map_to_list].
  - intros [b m] [b' m'] x Hb Hb' Hx Hx'. apply elem_of_map_to_list in Hb, Hb'.
    apply list_elem_of_bind in Hx as ([k o] & ->%list_elem_of_singleton & _).
    apply list_elem_of_bind in Hx' as ([k' o'] & ?%list_elem_of_singleton & _). congruence.
  - intros [k o] [k' o'] x Hk Hk' ->%list_elem_of_singleton ?%list_elem_of_singleton. congruence.
  - intros [k o] _. apply NoDup_singleton.
  - apply NoDup_map_to_list.
Qed.

Lemma rep_residents s q : Rep s q -> residents (buckets s) ≡ₚ q.
Proof.
  intros HR. apply NoDup_Permutation; [apply residents_nodup| |].
  - eapply NoDup_fmap_1, (rep_keys _ _ HR).
  - intros [[b k] o]. rewrite elem_of_residents. apply (rep_get _ _ HR).
Qed.

(** ** Lemmas: the specification's puts *)

Lemma admissible_run_app max policy q ops op :
  admissible_run max policy q (ops ++ [op]) ->
  admissible_run max policy q ops /\ admissible (spec_run max policy q ops) op /\ True.
Proof.
  revert q. induction ops as [|op' ops IH]; intros q; simpl; [done|].
  intros [H1 H2]. destruct (IH _ H2) as (? & ? & _). done.
Qed.

Lemma q_take_minimal need q e x t :
  q_take need q = e ++ x :: t -> q_bytes e < need.
Proof.
  unfold q_bytes. revert need e. induction q as [|y q IH]; intros need e; simpl; [by destruct e|].
  destruct (need <=? 0) eqn:E; bool_facts; [by destruct e|].
  destruct e as [|z e]; simpl; [lia|]. intros [= -> H]. apply IH in H. lia.
Qed.

Lemma spec_put_fifo max q k o :
  0 < max -> size_of o <= max ->
  exists ev kept, q_del k q = ev ++ kept /\
    spec_put max EvictPolicyFIFO q k o = Ok (kept ++ [(k, o)]) /\
    q_bytes kept + size_of o <= max /\
    (forall e x t, ev = e ++ x :: t -> max < q_bytes (x :: t ++ kept) + size_of o).
Proof.
  intros Hm Hs. unfold spec_put. rewrite (proj2 (Z.leb_gt _ _)) by lia. simpl.
  set (r := q_del k q). destruct (_ <=? max) eqn:Et; bool_facts.
  { exists [], r. split_and!; try done. by intros [|??]. }
  rewrite (proj2 (Z.leb_le (size_of o) max)) by done.
  set (need := q_bytes r + size_of o - max).
  pose proof (q_bytes_take_drop need r). pose proof (q_take_enough need r).
  exists (q_take need r), (q_drop need r). split_and!; [by rewrite q_take_drop|done|lia|].
  intros e x t He. pose proof (q_take_minimal need r e x t He).
  rewrite He, q_bytes_app in H.
  rewrite app_comm_cons, q_bytes_app. lia.
Qed.

Lemma spec_put_err max policy q k o e :
  spec_put max policy q k o = Err e ->
  0 < max /\ max < q_bytes (q_del k q) + size_of o /\
  (e = ErrCapacityExceeded (size_of o) (q_bytes (q_del k q)) max \/ e = UnsupportedPolicy policy).
Proof.
  unfold spec_put. destruct (_ || _) eqn:E; [done|]. bool_facts.
  split_tests; intros; simplify_eq; eauto.
Qed.

Lemma rep_del_bytes s q b k :
  Rep s q ->
  q_bytes (q_del (b, k) q) =
  q_bytes q - match lookup_object (buckets s) b k with Some o => size_of o | None => 0 end.
Proof.
  intros HR. destruct (lookup_object (buckets s) b k) as [o|] eqn:E.
  - apply (rep_get _ _ HR) in E. rewrite (q_bytes_del b k o q (rep_keys _ _ HR) E). lia.
  - rewrite q_del_absent by (by apply (rep_absent s)). lia.
Qed.

(** ** Lemmas: removals commute *)

Lemma list_Remove_comm l e e' : list_Remove (list_Remove l e) e' = list_Remove (list_Remove l e') e.
Proof. unfold list_Remove. rewrite !list_filter_filter. apply filter_agree. tauto. Qed.

Lemma append_inj b x y : b +:+ x = b +:+ y -> x = y.
Proof. intros H. by apply (inj (String.append b)). Qed.

Lemma remove_comm n s k k' :
  (removeObjectLocked (removeObjectLocked s n k).1 n k').1 =
  (removeObjectLocked (removeObjectLocked s n k').1 n k).1.
Proof.
  destruct (decide (k = k')) as [->|Hne]; [done|].
  assert (Hid : makeObjectID n k <> makeObjectID n k').
  { unfold makeObjectID. intros H%append_inj. congruence. }
  unfold removeObjectLocked. destruct (buckets s !! n) as [m|] eqn:Hm; simpl; [|by rewrite !Hm].
  destruct (m !! k) as [o|] eqn:Hk, (m !! k') as [o'|] eqn:Hk'; simpl.
  - destruct (orderIndex s !! makeObjectID n k) as [e|] eqn:Ee,
      (orderIndex s !! makeObjectID n k') as [e'|] eqn:Ee'; simpl;
      rewrite !lookup_insert_eq, !lookup_delete_ne, Hk, Hk' by done; simpl;
      rewrite ?lookup_delete_ne, ?Ee, ?Ee' by done;
      unfold with_order, with_used, with_buckets; simpl; f_equal;
      try (rewrite !insert_insert_eq; f_equal; apply delete_delete);
      try (rewrite !i64_sub_i64; f_equal; lia); try apply delete_delete; try apply list_Remove_comm;
      done.
  - destruct (orderIndex s !! makeObjectID n k) as [e|] eqn:Ee; simpl;
      rewrite !lookup_insert_eq, !lookup_delete_ne, Hk' by done; simpl; by rewrite Hm, Hk; simpl; rewrite ?Ee.
  - destruct (orderIndex s !! makeObjectID n k') as [e'|] eqn:Ee'; simpl;
      rewrite !lookup_insert_eq, !lookup_delete_ne, Hk by done; simpl; by rewrite Hm, Hk'; simpl; rewrite ?Ee'.
  - by rewrite Hm, Hk, Hk'.
Qed.

(** ** Properties *)

(** C9: after any sequence of creations, puts and deletions that an object id can
    name, the store represents exactly the queue the specification computes: its
    lookups, its FIFO list, its index and its byte count agree with the queue, and
    the next [PutObject] returns what [spec_put] says. *)
Theorem run_refines_spec max policy ops bucket key body now :
  admissible_run max policy [] (ops ++ [OpPut bucket key body now]) ->
  let s := run (NewMemoryStore max policy) ops in
  let q := spec_run max policy [] ops in
  let o := {| Body := body; ETag := etag_of body; LastModified := UTC now |} in
  Rep s q /\
  match spec_put max policy q (bucket, key) o with
  | Ok q' => (PutObject s bucket key body now).2 = Ok o /\
             Rep (PutObject s bucket key body now).1 q'
  | Err e => (PutObject s bucket key body now).2 = Err e /\
             Rep (PutObject s bucket key body now).1 q
  end.
Proof.
  intros Hadm s q o. destruct (admissible_run_app _ _ _ _ _ Hadm) as [Hops [[Hb Hfit] _]].
  destruct (run_new_rep max policy ops Hops) as (HR & Hm & Hp). fold s in HR, Hm, Hp.
  split; [done|]. destruct (put_rep s q bucket key body now HR Hb Hfit) as (_ & _ & _ & Hput).
  by rewrite Hm, Hp in Hput.
Qed.

(** C10: with a positive limit, after any sequence of operations whose buckets an
    object id can name and whose bytes can be counted in 63 bits ([admissible_run]) the byte counter is the total size of the objects that can be read back and never exceeds the limit. *)
Theorem run_within_capacity max policy ops :
  0 < max -> admissible_run max policy [] ops ->
  let s := run (NewMemoryStore max policy) ops in
  usedBytes s = zsum (fun x => size_of x.2) (residents (buckets s)) /\ usedBytes s <= max.
Proof.
  intros Hmax Hadm s. destruct (run_new_rep max policy ops Hadm) as (HR & _ & _). fold s in HR.
  rewrite (rep_residents _ _ HR). split; [apply (rep_used _ _ HR)|].
  rewrite (rep_used _ _ HR). apply spec_run_bound; [done|]. unfold q_bytes; simpl; lia.
Qed.

(** Under the FIFO policy an object that fits the limit by itself is always
    stored, after the oldest other objects have been evicted: a prefix of the
    insertion order whose removal makes room while no shorter prefix would. *)
Theorem fifo_put_evicts_oldest max ops bucket key body now :
  0 < max -> blen body <= max ->
  admissible_run max EvictPolicyFIFO [] (ops ++ [OpPut bucket key body now]) ->
  let s := run (NewMemoryStore max EvictPolicyFIFO) ops in
  let others := q_del (bucket, key) (spec_run max EvictPolicyFIFO [] ops) in
  exists evicted kept o,
    others = evicted ++ kept /\
    PutObject s bucket key body now = ((PutObject s bucket key body now).1, Ok o) /\
    Body o = body /\
    Rep (PutObject s bucket key body now).1 (kept ++ [((bucket, key), o)]) /\
    q_bytes kept + blen body <= max /\
    (forall e x t, evicted = e ++ x :: t -> max < q_bytes (x :: t ++ kept) + blen body).
Proof.
  intros Hmax Hsz Hadm s others.
  destruct (admissible_run_app _ _ _ _ _ Hadm) as [Hops [[Hb Hfit] _]].
  destruct (run_new_rep max EvictPolicyFIFO ops Hops) as (HR & Hm & Hp). fold s in HR, Hm, Hp.
  destruct (put_rep s _ bucket key body now HR Hb Hfit) as (_ & _ & _ & Hput).
  rewrite Hm, Hp in Hput. destruct (PutObject s bucket key body now) as [s' r] eqn:Es.
  set (o := {| Body := body; ETag := etag_of body; LastModified := UTC now |}) in *.
  simpl in Hput. destruct (spec_put_fifo max (spec_run max EvictPolicyFIFO [] ops) (bucket, key) o Hmax Hsz)
    as (ev & kept & Heq & Hspec & Hroom & Hmin).
  rewrite Hspec in Hput. destruct Hput as [-> HR']. by exists ev, kept, o.
Qed.

(** A refused put changes no object and no count: the store before and after
    answer every lookup alike, and it refuses only under a positive limit that the
    other objects and the new one together exceed, with the numbers of the error. *)
Theorem put_refused max policy ops bucket key body now s' e :
  admissible_run max policy [] (ops ++ [OpPut bucket key body now]) ->
  let s := run (NewMemoryStore max policy) ops in
  PutObject s bucket key body now = (s', Err e) ->
  (forall b k, GetObject s' b k = GetObject s b k) /\
  usedBytes s' = usedBytes s /\ snd <$> fifoOrder s' = snd <$> fifoOrder s /\
  BucketExists s' bucket = true /\
  0 < max /\
  let rest := usedBytes s -
    match GetObject s bucket key with Some o => size_of o | None => 0 end in
  max < rest + blen body /\
  (e = ErrCapacityExceeded (blen body) rest max \/ e = UnsupportedPolicy policy).
Proof.
  intros Hadm s Es. destruct (admissible_run_app _ _ _ _ _ Hadm) as [Hops [[Hb Hfit] _]].
  destruct (run_new_rep max policy ops Hops) as (HR & Hm & Hp). fold s in HR, Hm, Hp.
  destruct (put_rep s _ bucket key body now HR Hb Hfit) as (Hd & _ & _ & Hput).
  rewrite Hm, Hp, Es in Hput. rewrite Es in Hd. simpl in Hput, Hd.
  destruct (spec_put _ _ _ _ _) as [q'|e'] eqn:Espec; [by destruct Hput|].
  destruct Hput as [[= <-] HR']. set (q := spec_run max policy [] ops) in *.
  assert (Hsame : forall b k, GetObject s' b k = GetObject s b k).
  { intros b k. apply option_eq. intros o. unfold GetObject.
    by rewrite (rep_get _ _ HR'), (rep_get _ _ HR). }
  split; [done|]. rewrite (rep_used _ _ HR), (rep_used _ _ HR').
  rewrite (rep_ids _ _ HR), (rep_ids _ _ HR'). do 2 (split; [done|]). split.
  { apply bool_decide_eq_true_2, elem_of_dom. rewrite Hd. set_solver. }
  unfold GetObject. rewrite <- (rep_del_bytes s q bucket key HR).
  apply spec_put_err in Espec as (? & ? & He). done.
Qed.

(** Deleting a bucket gives the same store, to the last field, whatever the
    order in which the map of its keys is iterated. *)
Theorem delete_bucket_iteration_order s name m keys :
  buckets s !! name = Some m -> keys ≡ₚ (map_to_list m).*1 ->
  let s' := remove_keys s name keys in
  DeleteBucket s name = (with_buckets s' (delete name (buckets s')), true).
Proof.
  intros Hm Hp. simpl. unfold DeleteBucket. rewrite Hm. unfold remove_keys.
  rewrite (fold_left_perm _ _ _ _ (remove_comm name) Hp). done.
Qed.

(** ** Witnesses *)

Definition demo_time : Time := {| instant := 1; utc := true |}.
Definition demo_ops : list store_op :=
  [OpPut "b" "k1" (bytes_of_string "aaa") demo_time;
   OpPut "b" "k2" (bytes_of_string "bb") demo_time].

Ltac solve_admissible := vm_compute; split_and!; (done || (intros; discriminate)).

Lemma run_refines_spec_witness :
  Rep (run (NewMemoryStore 5 EvictPolicyFIFO) demo_ops) (spec_run 5 EvictPolicyFIFO [] demo_ops).
Proof.
  refine (proj1 (run_refines_spec 5 EvictPolicyFIFO demo_ops "b" "k3" (bytes_of_string "cc")
    demo_time _)). solve_admissible.
Defined.

Lemma run_within_capacity_witness :
  usedBytes (run (NewMemoryStore 4 EvictPolicyFIFO) demo_ops) = 2 /\
  usedBytes (run (NewMemoryStore 4 EvictPolicyFIFO) demo_ops) <= 4.
Proof.
  split; [vm_compute; reflexivity|].
  refine (proj2 (run_within_capacity 4 EvictPolicyFIFO demo_ops _ _)); [lia|solve_admissible].
Defined.

Lemma fifo_put_evicts_oldest_witness :
  exists evicted kept o,
    q_del ("b", "k3")%string (spec_run 5 EvictPolicyFIFO [] demo_ops) = evicted ++ kept /\
    PutObject (run (NewMemoryStore 5 EvictPolicyFIFO) demo_ops) "b" "k3" (bytes_of_string "cc") demo_time =
      ((PutObject (run (NewMemoryStore 5 EvictPolicyFIFO) demo_ops) "b" "k3"
          (bytes_of_string "cc") demo_time).1, Ok o).
Proof.
  destruct (fifo_put_evicts_oldest 5 demo_ops "b" "k3" (bytes_of_string "cc") demo_time)
    as (ev & kept & o & H1 & H2 & _); [lia|by vm_compute|solve_admissible|].
  exists ev, kept, o. split; [exact H1|exact H2].
Defined.

Lemma put_refused_witness :
  usedBytes (PutObject (run (NewMemoryStore 5 EvictPolicyReject) demo_ops) "b" "k3"
    (bytes_of_string "cc") demo_time).1 = usedBytes (run (NewMemoryStore 5 EvictPolicyReject) demo_ops).
Proof.
  refine (proj1 (proj2 (put_refused 5 EvictPolicyReject demo_ops "b" "k3"
    (bytes_of_string "cc") demo_time _ (ErrCapacityExceeded 2 5 5) _ _))).
  - solve_admissible.
  - vm_compute. reflexivity.
Defined.

Lemma delete_bucket_iteration_order_witness :
  DeleteBucket (run (NewMemoryStore 9 EvictPolicyFIFO) demo_ops) "b" =
    (with_buckets
       (remove_keys (run (NewMemoryStore 9 EvictPolicyFIFO) demo_ops) "b" ["k2"; "k1"]%string)
       (delete "b"%string (buckets
          (remove_keys (run (NewMemoryStore 9 EvictPolicyFIFO) demo_ops) "b" ["k2"; "k1"]%string))),
     true).
Proof.
  eapply delete_bucket_iteration_order; [vm_compute; reflexivity|].
  apply (bool_decide_unpack _). vm_compute. exact I.
Defined.
