(* ===== verification/LoadedStore.v ===== *)
(** * The startup-loaded in-memory store (internal/s3rdmaserver/store/store.go)

    Buckets of objects with no capacity: objects come from the files found when the
    server starts ([PutLoadedObject]); afterwards a client can only create and delete
    buckets and delete objects.  Specification: a set of bucket names and one flat map
    from (bucket, key) to objects ([flat_exec]). *)

From S2P Require Import Prelude Md5 StoreIface.

Record MemoryStore := { buckets : bucket_map }.

Definition NewMemoryStore : MemoryStore := {| buckets := ∅ |}.

(** ** Operations *)

Definition CreateBucket (s : MemoryStore) (name : string) : MemoryStore :=
  if String.eqb (TrimSpace name) EmptyString then s
  else match buckets s !! name with
       | Some _ => s
       | None => {| buckets := <[name := ∅]> (buckets s) |}
       end.

Definition BucketExists (s : MemoryStore) (name : string) : bool :=
  bool_decide (is_Some (buckets s !! name)).

Definition DeleteBucket (s : MemoryStore) (name : string) : MemoryStore * bool :=
  match buckets s !! name with
  | None => (s, false)
  | Some _ => ({| buckets := delete name (buckets s) |}, true)
  end.

Definition quotedMD5 (body : list byte) : string := quoted_hex (md5_sum body).

(** [now] is what [time.Now()] returns, were it called. *)
Definition normalizeModTime (v now : Time) : Time := if IsZero v then UTC now else UTC v.

Definition PutLoadedObject (s : MemoryStore) (bucket key : string) (body : list byte)
    (lastModified now : Time) : MemoryStore * Object :=
  let obj := {| Body := [] ++ body; ETag := quotedMD5 body;
                LastModified := normalizeModTime lastModified now |} in
  let b := default ∅ (buckets s !! bucket) in
  ({| buckets := <[bucket := <[key := obj]> b]> (buckets s) |}, obj).

Definition GetObject (s : MemoryStore) (bucket key : string) : option Object :=
  match buckets s !! bucket with
  | None => None
  | Some b => b !! key
  end.

Definition DeleteObject (s : MemoryStore) (bucket key : string) : MemoryStore * bool :=
  match buckets s !! bucket with
  | None => (s, false)
  | Some b =>
    match b !! key with
    | None => (s, false)
    | Some _ => ({| buckets := <[bucket := delete key b]> (buckets s) |}, true)
    end
  end.

Definition ListObjects (s : MemoryStore) (bucket prefix : string) : option (list ListedObject) :=
  match buckets s !! bucket with
  | None => None
  | Some b => Some (list_entries (map_to_list b) prefix)
  end.

Definition ListBuckets (s : MemoryStore) : list string :=
  sort_by id (fst <$> map_to_list (buckets s)).

(** ** Specification: bucket names and one flat map *)

Inductive store_op :=
| OpCreate (name : string)
| OpDeleteBucket (name : string)
| OpPutLoaded (bucket key : string) (body : list byte) (lastModified now : Time)
| OpDelete (bucket key : string).

Definition exec (s : MemoryStore) (op : store_op) : MemoryStore :=
  match op with
  | OpCreate n => CreateBucket s n
  | OpDeleteBucket n => (DeleteBucket s n).1
  | OpPutLoaded b k body t now => (PutLoadedObject s b k body t now).1
  | OpDelete b k => (DeleteObject s b k).1
  end.

Record Flat := { names : gset string; objects : gmap (string * string) Object }.

Definition flat_exec (f : Flat) (op : store_op) : Flat :=
  match op with
  | OpCreate n =>
    if String.eqb (TrimSpace n) EmptyString then f
    else {| names := {[n]} ∪ names f; objects := objects f |}
  | OpDeleteBucket n =>
    {| names := names f ∖ {[n]}; objects := filter (fun x => x.1.1 <> n) (objects f) |}
  | OpPutLoaded b k body t now =>
    {| names := {[b]} ∪ names f;
       objects := <[(b, k) := {| Body := body; ETag := etag_of body;
                                 LastModified := UTC (if IsZero t then now else t) |}]> (objects f) |}
  | OpDelete b k => {| names := names f; objects := delete (b, k) (objects f) |}
  end.

Record Rep (s : MemoryStore) (f : Flat) : Prop := {
  rep_names : dom (buckets s) = names f;
  rep_objects b k : lookup_object (buckets s) b k = objects f !! (b, k);
}.

(** ** Lemmas *)

Lemma GetObject_lookup s b k : GetObject s b k = lookup_object (buckets s) b k.
Proof. done. Qed.

Lemma put_lookup s b k body t now b' k' :
  lookup_object (buckets (PutLoadedObject s b k body t now).1) b' k' =
  if decide ((b', k') = (b, k)) then Some (PutLoadedObject s b k body t now).2
  else lookup_object (buckets s) b' k'.
Proof.
  simpl. destruct (buckets s !! b) as [m|] eqn:Hb; simpl.
  - apply (lookup_object_set _ _ _ _ _ _ _ Hb).
  - rewrite <- (insert_insert_eq (buckets s) b (<[k := _]> ∅) ∅).
    rewrite (lookup_object_set _ b ∅) by apply lookup_insert_eq.
    case_decide; [done|]. by apply lookup_object_insert_bucket.
Qed.

Lemma delete_lookup s b k b' k' :
  lookup_object (buckets (DeleteObject s b k).1) b' k' =
  if decide ((b', k') = (b, k)) then None else lookup_object (buckets s) b' k'.
Proof.
  unfold DeleteObject. destruct (buckets s !! b) as [m|] eqn:Hb; [destruct (m !! k) eqn:Hk|].
  - apply (lookup_object_del _ _ _ _ _ _ Hb).
  - case_decide; simplify_eq/=; [|done]. unfold lookup_object. by rewrite Hb.
  - case_decide; simplify_eq/=; [|done]. unfold lookup_object. by rewrite Hb.
Qed.

Lemma delete_dom s b k : dom (buckets (DeleteObject s b k).1) = dom (buckets s).
Proof.
  unfold DeleteObject. destruct (buckets s !! b) as [m|] eqn:Hb; [|done].
  destruct (m !! k); [|done]. simpl. apply dom_insert_lookup_L. eauto.
Qed.

Lemma delete_result s b k :
  (DeleteObject s b k).2 = bool_decide (is_Some (lookup_object (buckets s) b k)).
Proof.
  unfold DeleteObject, lookup_object. destruct (buckets s !! b) as [m|]; [|done].
  by destruct (m !! k).
Qed.

Lemma delete_bucket_lookup s n b k :
  lookup_object (buckets (DeleteBucket s n).1) b k =
  if decide (b = n) then None else lookup_object (buckets s) b k.
Proof.
  unfold DeleteBucket. destruct (buckets s !! n) eqn:Hn; simpl; [apply lookup_object_del_bucket|].
  case_decide; [subst|done]. unfold lookup_object. by rewrite Hn.
Qed.

Lemma delete_bucket_dom s n : dom (buckets (DeleteBucket s n).1) = dom (buckets s) ∖ {[n]}.
Proof.
  unfold DeleteBucket. destruct (buckets s !! n) eqn:Hn; simpl; [apply dom_delete_L|].
  apply not_elem_of_dom in Hn. set_solver.
Qed.

Lemma create_lookup s n b k :
  lookup_object (buckets (CreateBucket s n)) b k = lookup_object (buckets s) b k.
Proof.
  unfold CreateBucket. destruct (String.eqb _ _); [done|].
  destruct (buckets s !! n) eqn:Hn; [done|]. by apply lookup_object_insert_bucket.
Qed.

Lemma create_dom s n :
  dom (buckets (CreateBucket s n)) =
  if String.eqb (TrimSpace n) EmptyString then dom (buckets s) else {[n]} ∪ dom (buckets s).
Proof.
  unfold CreateBucket. destruct (String.eqb _ _); [done|].
  destruct (buckets s !! n) eqn:Hn; simpl; [|apply dom_insert_L].
  apply elem_of_dom_2 in Hn. set_solver.
Qed.

Lemma exists_dom s n : BucketExists s n = bool_decide (n ∈ dom (buckets s)).
Proof. apply bool_decide_ext. by rewrite elem_of_dom. Qed.

Lemma loaded_exec_rep s f op : Rep s f -> Rep (exec s op) (flat_exec f op).
Proof.
  intros [Hn Ho]. destruct op as [n|n|b k body t now|b k]; simpl.
  - constructor.
    + rewrite create_dom, Hn. by destruct (String.eqb _ _).
    + intros b k. rewrite create_lookup, Ho. by destruct (String.eqb _ _).
  - constructor; simpl.
    + by rewrite delete_bucket_dom, Hn.
    + intros b k. rewrite delete_bucket_lookup, map_lookup_filter, Ho. simpl.
      destruct (objects f !! (b, k)); simpl; [|by case_decide].
      case_decide; [by rewrite option_guard_False by tauto|by rewrite option_guard_True].
  - constructor; simpl.
    + by rewrite dom_insert_L, Hn.
    + intros b' k'. rewrite (put_lookup s b k body t now). case_decide as Hd.
      * rewrite Hd, lookup_insert_eq. unfold PutLoadedObject, normalizeModTime; simpl.
        by destruct (IsZero t).
      * rewrite lookup_insert_ne by done. apply Ho.
  - constructor; simpl.
    + by rewrite delete_dom.
    + intros b' k'. rewrite delete_lookup. case_decide as Hd.
      * by rewrite Hd, lookup_delete_eq.
      * rewrite lookup_delete_ne by done. apply Ho.
Qed.

(** ** The contract of the interface *)

#[export] Instance MemoryStore_store : ObjectStore MemoryStore := {
  st_CreateBucket := CreateBucket;
  st_BucketExists := BucketExists;
  st_DeleteBucket := DeleteBucket;
  st_GetObject := GetObject;
  st_DeleteObject := DeleteObject;
  st_ListObjects := ListObjects;
  st_ListBuckets := ListBuckets;
}.

#[export] Instance MemoryStore_laws : ObjectStoreLaws MemoryStore.
Proof.
  constructor; simpl.
  - intros s n b k. apply create_lookup.
  - intros s n Hn. rewrite exists_dom, create_dom.
    apply String.eqb_neq in Hn. rewrite Hn. apply bool_decide_eq_true_2. set_solver.
  - intros s n b Hb. rewrite !exists_dom, create_dom. apply bool_decide_ext.
    destruct (String.eqb _ _); set_solver.
  - intros s n b. rewrite !exists_dom, !bool_decide_eq_true, create_dom.
    destruct (String.eqb _ _); set_solver.
  - intros s n s' ok H. rewrite !exists_dom.
    pose proof (delete_bucket_dom s n) as Hd. pose proof (delete_bucket_lookup s n) as Hl.
    assert (Hok : ok = bool_decide (n ∈ dom (buckets s))).
    { rewrite <- exists_dom. unfold DeleteBucket, BucketExists in *.
      destruct (buckets s !! n); by simplify_eq. }
    rewrite H in Hd, Hl. simpl in Hd, Hl. split_and!; [done| | | |].
    + apply bool_decide_eq_false_2. rewrite Hd. set_solver.
    + intros k. rewrite GetObject_lookup, Hl. by rewrite decide_True.
    + intros b k Hb. rewrite !GetObject_lookup, Hl. by rewrite decide_False.
    + intros b Hb. rewrite !exists_dom. apply bool_decide_ext. rewrite Hd. set_solver.
  - intros s b k s' ok H. pose proof (delete_lookup s b k) as Hl.
    pose proof (delete_result s b k) as Hr. pose proof (delete_dom s b k) as Hd.
    rewrite H in Hl, Hr, Hd. simpl in Hl, Hr, Hd. split_and!; [done| | |].
    + rewrite GetObject_lookup, Hl. by rewrite decide_True.
    + intros b' k' Hne. rewrite !GetObject_lookup, Hl. by rewrite decide_False.
    + intros b'. rewrite !exists_dom. by rewrite Hd.
  - unfold GetObject, BucketExists. intros s b k o H.
    apply bool_decide_eq_true_2. destruct (buckets s !! b); [eauto|done].
  - unfold ListObjects, BucketExists. intros s b p. rewrite bool_decide_eq_false.
    destruct (buckets s !! b); split; (done || (intros H; destruct H; eauto)).
  - unfold ListObjects, GetObject. intros s b p l.
    destruct (buckets s !! b) as [m|]; [|done]. intros [= <-].
    split_and!; [apply sort_by_sorted|apply list_entries_keys_nodup|].
    intros k o. by rewrite elem_of_list_entries, elem_of_map_to_list.
  - intros s. destruct (list_buckets_spec (buckets s)) as (H1 & H2 & H3).
    split_and!; [done..|]. intros b. unfold BucketExists.
    rewrite bool_decide_eq_true. apply H3.
Qed.

(** ** Properties *)

(** After any sequence of operations the store is exactly the flat
    specification's state: the buckets that exist, and for every bucket and key the
    object read back, its body, ETag and normalised time included. *)
Theorem loaded_run_refines_flat (ops : list store_op) :
  let s := fold_left exec ops NewMemoryStore in
  let f := fold_left flat_exec ops {| names := ∅; objects := ∅ |} in
  (forall b, BucketExists s b = bool_decide (b ∈ names f)) /\
  (forall b k, GetObject s b k = objects f !! (b, k)).
Proof.
  assert (HR : Rep NewMemoryStore {| names := ∅; objects := ∅ |}).
  { constructor; simpl; [apply dom_empty_L|]. intros b k. unfold lookup_object.
    by rewrite !lookup_empty. }
  revert HR. generalize NewMemoryStore as s, {| names := ∅; objects := ∅ |} as f.
  induction ops as [|op ops IH]; intros s f HR; simpl.
  - split; [intros b; rewrite exists_dom; by rewrite (rep_names _ _ HR)|apply (rep_objects _ _ HR)].
  - apply IH. by apply loaded_exec_rep.
Qed.
