(* ===== verification/TimeFmt.v ===== *)
(** * The two time layouts the HTTP handlers print

    [Format(time.RFC3339)] and [Format(http.TimeFormat)] of a UTC [time.Time], from
    the nanoseconds since January 1, year 1.  Every time the handlers print is UTC:
    the stores normalise the times they keep and the bucket list takes the current
    UTC time. *)

From S2P Require Import Prelude StoreIface.

Record civil := { year : Z; month : Z; day : Z; hour : Z; minute : Z; second : Z; weekday : Z }.

(** The Gregorian date of a day number (day 0 is Monday, 0001-01-01), computed on
    years that begin in March. *)
Definition civil_of_days (days : Z) : Z * Z * Z :=
  let z := days + 306 in
  let era := z / 146097 in
  let doe := z mod 146097 in
  let yoe := (doe - doe / 1460 + doe / 36524 - doe / 146096) / 365 in
  let doy := doe - (365 * yoe + yoe / 4 - yoe / 100) in
  let mp := (5 * doy + 2) / 153 in
  let d := doy - (153 * mp + 2) / 5 + 1 in
  let m := if mp <? 10 then mp + 3 else mp - 9 in
  (yoe + era * 400 + (if m <=? 2 then 1 else 0), m, d).

Definition civil_of (t : Time) : civil :=
  let secs := instant t / 10 ^ 9 in
  let days := secs / 86400 in
  let rest := secs mod 86400 in
  let '(y, m, d) := civil_of_days days in
  {| year := y; month := m; day := d; hour := rest / 3600; minute := rest mod 3600 / 60;
     second := rest mod 60; weekday := (days + 1) mod 7 |}.

Fixpoint zeros (n : nat) : string :=
  match n with O => EmptyString | S n' => String "0" (zeros n') end.

(** Decimal with leading zeros to a width. *)
Definition pad (width : nat) (n : Z) : string :=
  let s := fmt_d (Z.abs n) in
  (if n <? 0 then "-" else EmptyString) +:+ zeros (width - String.length s) +:+ s.

Definition FormatRFC3339 (t : Time) : string :=
  let c := civil_of t in
  pad 4 (year c) +:+ "-" +:+ pad 2 (month c) +:+ "-" +:+ pad 2 (day c) +:+ "T" +:+
  pad 2 (hour c) +:+ ":" +:+ pad 2 (minute c) +:+ ":" +:+ pad 2 (second c) +:+ "Z".

Definition day_names : list string := ["Sun"; "Mon"; "Tue"; "Wed"; "Thu"; "Fri"; "Sat"]%string.
Definition month_names : list string :=
  ["Jan"; "Feb"; "Mar"; "Apr"; "May"; "Jun"; "Jul"; "Aug"; "Sep"; "Oct"; "Nov"; "Dec"]%string.

Definition FormatHTTP (t : Time) : string :=
  let c := civil_of t in
  nth (Z.to_nat (weekday c)) day_names EmptyString +:+ ", " +:+ pad 2 (day c) +:+ " " +:+
  nth (Z.to_nat (month c - 1)) month_names EmptyString +:+ " " +:+ pad 4 (year c) +:+ " " +:+
  pad 2 (hour c) +:+ ":" +:+ pad 2 (minute c) +:+ ":" +:+ pad 2 (second c) +:+ " GMT".

(** The Unix epoch is 719162 days after year 1; RFC 7231's example date. *)
Example format_http_rfc7231 :
  FormatHTTP {| instant := (719162 * 86400 + 784111777) * 10 ^ 9; utc := true |} =
  "Sun, 06 Nov 1994 08:49:37 GMT".
Proof. vm_compute. reflexivity. Qed.

Example format_rfc3339_leap_day :
  FormatRFC3339 {| instant := (719162 * 86400 + 1709251199) * 10 ^ 9 + 5; utc := true |} =
  "2024-02-29T23:59:59Z".
Proof. vm_compute. reflexivity. Qed.
