(* ===== verification/FileTree.v ===== *)
(** * The file system the payload loaders read, and filepath.WalkDir

    A directory tree as the loaders find it: [os.Stat] of a path answers a [node] or
    an error, [os.ReadDir] of a directory node its entries or an error, [os.ReadFile]
    and [DirEntry.Info] of a file what its [leaf] holds.  The tree does not change
    during a load.  [walkDir] is the standard library's recursion with the callback as
    an argument; a callback here never answers SkipDir or SkipAll. *)

From S2P Require Import Prelude StoreIface.

(** An error of the operating system: its text, and whether it is [fs.ErrNotExist]. *)
Record OsErr := { os_text : string; os_not_exist : bool }.

(** What reading a regular file and its [Info] give. *)
Record leaf := { lf_body : res OsErr (list byte); lf_mtime : res OsErr Time }.

(** A directory holds what [os.ReadDir] answers, the entries in its order or an error; a
    symbolic link, a socket or a device is [NOther]. *)
Inductive node :=
| NFile (l : leaf)
| NDir (entries : list (string * node)) (readErr : option OsErr)
| NOther.

Definition IsDir (d : node) : bool := match d with NDir _ _ => true | _ => false end.
Definition IsRegular (d : node) : bool := match d with NFile _ => true | _ => false end.

Definition ReadDir (d : node) : res OsErr (list (string * node)) :=
  match d with
  | NDir es None => Ok es
  | NDir _ (Some e) => Err e
  | _ => Err {| os_text := "not a directory"; os_not_exist := false |}
  end.

(** A path below the directory the walk starts from, as the names that lead to it;
    [filepath.Rel] and [ToSlash] of it are the names separated by slashes. *)
Fixpoint Rel (p : list string) : string :=
  match p with
  | [] => "."
  | [n] => n
  | n :: p' => n +:+ String "/" (Rel p')
  end.

(** ** filepath.WalkDir *)

Section WalkDir.
Context {S E : Type}.
Variable fn : list string -> node -> option OsErr -> S -> S * option E.

Fixpoint walkDir (path : list string) (d : node) (s : S) {struct d} : S * option E :=
  match fn path d None s with
  | (s1, Some e) => (s1, Some e)
  | (s1, None) =>
    match d with
    | NDir es rd =>
      match (match rd with Some e => fn path d (Some e) s1 | None => (s1, None) end) with
      | (s2, Some e) => (s2, Some e)
      | (s2, None) =>
        (fix entries (l : list (string * node)) (s : S) {struct l} : S * option E :=
           match l with
           | [] => (s, None)
           | (n, d1) :: l' =>
             match walkDir (path ++ [n]) d1 s with
             | (s', Some e) => (s', Some e)
             | (s', None) => entries l' s'
             end
           end) es s2
      end
    | _ => (s1, None)
    end
  end.

(** The loop over the entries of one directory. *)
Fixpoint walkEntries (path : list string) (l : list (string * node)) (s : S) : S * option E :=
  match l with
  | [] => (s, None)
  | (n, d1) :: l' =>
    match walkDir (path ++ [n]) d1 s with
    | (s', Some e) => (s', Some e)
    | (s', None) => walkEntries path l' s'
    end
  end.

Lemma walkDir_dir path es rd s :
  walkDir path (NDir es rd) s =
  match fn path (NDir es rd) None s with
  | (s1, Some e) => (s1, Some e)
  | (s1, None) =>
    match (match rd with Some e => fn path (NDir es rd) (Some e) s1 | None => (s1, None) end) with
    | (s2, Some e) => (s2, Some e)
    | (s2, None) => walkEntries path es s2
    end
  end.
Proof.
  simpl. destruct (fn _ _ _ s) as [s1 [e|]]; [done|].
  destruct (match rd with Some _ => _ | None => _ end) as [s2 [e|]]; [done|].
  revert s2. induction es as [|[n d1] l IH]; intros s2; simpl; [done|].
  destruct (walkDir _ d1 s2) as [s3 [e|]]; [done|apply IH].
Qed.
End WalkDir.

(** ** What a tree holds *)

(** The regular files below a node, with their paths, in the order of the walk. *)
Fixpoint files (d : node) : list (list string * leaf) :=
  match d with
  | NFile l => [([], l)]
  | NDir es _ => flat_map (fun x => prod_map (cons x.1) id <$> files x.2) es
  | NOther => []
  end.

(** The entry of a name, and the regular file at a path. *)
Fixpoint entry (es : list (string * node)) (n : string) : option node :=
  match es with
  | [] => None
  | (n', d) :: es' => if String.eqb n n' then Some d else entry es' n
  end.

Fixpoint file_at (d : node) (p : list string) {struct p} : option leaf :=
  match p, d with
  | [], NFile l => Some l
  | n :: p', NDir es _ => match entry es n with Some d' => file_at d' p' | None => None end
  | _, _ => None
  end.

(** The regular file below a directory whose relative path is a key. *)
Fixpoint assoc_path (k : string) (fs : list (list string * leaf)) : option leaf :=
  match fs with
  | [] => None
  | (p, l) :: fs' => if String.eqb (Rel p) k then Some l else assoc_path k fs'
  end.

Definition key_file (d : node) (k : string) : option leaf := assoc_path k (files d).

(** No directory below fails to be read. *)
Fixpoint dirs_readable (d : node) : bool :=
  match d with
  | NDir es rd => match rd with None => forallb (fun x => dirs_readable x.2) es | Some _ => false end
  | _ => true
  end.

(** A file system's names: not empty, without a slash or a NUL byte, and distinct in a
    directory. *)
Definition slash : ascii := "/"%char.
Definition good_name (n : string) : bool :=
  negb (String.eqb n EmptyString) && bool_decide (IndexByte n slash = None) &&
  bool_decide (IndexByte n "000"%char = None).

Fixpoint wf_node (d : node) : bool :=
  match d with
  | NDir es _ => bool_decide (NoDup es.*1) && forallb (fun x => good_name x.1 && wf_node x.2) es
  | _ => true
  end.

(** ** Induction over a tree, its directories' entries included *)

Section node_induction.
Variable P : node -> Prop.
Hypothesis Pfile : forall l, P (NFile l).
Hypothesis Pother : P NOther.
Hypothesis Pdir : forall es rd, Forall (fun x => P x.2) es -> P (NDir es rd).

Fixpoint node_tree_ind (d : node) : P d :=
  match d with
  | NFile l => Pfile l
  | NOther => Pother
  | NDir es rd =>
    Pdir es rd
      ((fix go (l : list (string * node)) : Forall (fun x => P x.2) l :=
          match l with
          | [] => Forall_nil_2 _
          | x :: l' => Forall_cons_2 _ x l' (node_tree_ind x.2) (go l')
          end) es)
  end.
End node_induction.

(** ** Lemmas *)

Lemma wf_dir es rd :
  wf_node (NDir es rd) = true <->
  NoDup es.*1 /\ Forall (fun x => good_name x.1 = true /\ wf_node x.2 = true) es.
Proof.
  simpl. rewrite andb_true_iff, bool_decide_eq_true, forallb_forall, Forall_forall.
  split; intros [Hnd Hall]; (split; [done|]); intros x Hx%list_elem_of_In;
    by apply andb_true_iff, Hall.
Qed.

Lemma entry_elem es n d : NoDup es.*1 -> entry es n = Some d <-> (n, d) ∈ es.
Proof.
  induction es as [|[n' d'] es IH]; simpl; intros Hnd.
  { split; [done|]. by intros Hin%elem_of_nil. }
  apply NoDup_cons in Hnd as [Hn Hnd]. specialize (IH Hnd).
  rewrite elem_of_cons. destruct (String.eqb_spec n n') as [->|Hne].
  - split; [intros [= ->]; by left|]. intros [[= ->]|Hin]; [done|].
    destruct Hn. apply list_elem_of_fmap. by exists (n', d).
  - rewrite IH. split; [by right|]. intros [[= -> ->]|?]; done.
Qed.

Lemma elem_of_files_dir es rd p l :
  (p, l) ∈ files (NDir es rd) <->
  exists n d q, p = n :: q /\ (n, d) ∈ es /\ (q, l) ∈ files d.
Proof.
  simpl. rewrite list_elem_of_In, in_flat_map. setoid_rewrite <- list_elem_of_In. split.
  - intros ([n d] & Hin & ([q l'] & [= -> ->] & Hq)%list_elem_of_fmap). by exists n, d, q.
  - intros (n & d & q & -> & Hin & Hq). exists (n, d). split; [done|].
    apply list_elem_of_fmap. by exists (q, l).
Qed.

(** The walk's files are the files found by descending along a path. *)
Lemma files_file_at d p l : wf_node d = true -> (p, l) ∈ files d <-> file_at d p = Some l.
Proof.
  revert p l. induction d as [l'| |es rd IH] using node_tree_ind; intros p l Hwf.
  - simpl. rewrite list_elem_of_singleton. destruct p; simpl; naive_solver.
  - simpl. destruct p; simpl; split; try done; by intros Hin%elem_of_nil.
  - rewrite elem_of_files_dir. apply wf_dir in Hwf as [Hnd Hwf].
    rewrite Forall_forall in IH, Hwf. split.
    + intros (n & d & q & -> & Hin & Hq). simpl. rewrite (proj2 (entry_elem es n d Hnd) Hin).
      apply (IH (n, d) Hin q l); [by apply (Hwf (n, d))|done].
    + destruct p as [|n q]; simpl; [done|]. destruct (entry es n) as [d|] eqn:He; [|done].
      apply entry_elem in He; [|done]. intros Hl. exists n, d, q. split_and!; [done..|].
      apply (IH (n, d) He q l); [by apply (Hwf (n, d))|done].
Qed.

Lemma elem_of_files_good d p l :
  wf_node d = true -> (p, l) ∈ files d -> Forall (fun n => good_name n = true) p.
Proof.
  revert p l. induction d as [l'| |es rd IH] using node_tree_ind; intros p l Hwf.
  - simpl. rewrite list_elem_of_singleton. intros [= -> _]. constructor.
  - by intros Hin%elem_of_nil.
  - rewrite elem_of_files_dir. apply wf_dir in Hwf as [_ Hwf].
    rewrite Forall_forall in IH, Hwf. intros (n & d & q & -> & Hin & Hq).
    destruct (Hwf _ Hin) as [Hn Hd]. constructor; [done|]. by apply (IH _ Hin q l).
Qed.

Lemma files_dir_nonempty d p l : IsDir d = true -> (p, l) ∈ files d -> p <> [].
Proof. destruct d; try done. intros _ (n & d & q & -> & _)%elem_of_files_dir. done. Qed.

Lemma files_paths_nodup d : wf_node d = true -> NoDup (files d).*1.
Proof.
  induction d as [l| |es rd IH] using node_tree_ind; intros Hwf.
  - apply NoDup_singleton.
  - constructor.
  - apply wf_dir in Hwf as [Hnd Hwf]. simpl.
    induction es as [|[n d] es IHes]; simpl; [constructor|].
    apply NoDup_cons in Hnd as [Hn Hnd]. apply Forall_cons in Hwf as [[_ Hd] Hwf].
    apply Forall_cons in IH as [IHd IH]. rewrite fmap_app. apply NoDup_app. split_and!.
    + rewrite <- list_fmap_compose.
      apply (NoDup_fmap_2 (cons n)) in IHd; [|done]. rewrite <- list_fmap_compose in IHd.
      erewrite list_fmap_ext; [exact IHd|]. by intros i [q l] _.
    + intros p ([q l] & -> & Hq)%list_elem_of_fmap ([q' l'] & Heq & Hq')%list_elem_of_fmap.
      apply list_elem_of_fmap in Hq as ([q1 l1] & [= -> ->] & _).
      apply (elem_of_files_dir es rd) in Hq' as (n' & d' & q2 & -> & Hin & _).
      simplify_eq/=. apply Hn, list_elem_of_fmap. by exists (n', d').
    + by apply IHes.
Qed.

Lemma good_name_slash n : good_name n = true -> IndexByte n slash = None.
Proof. unfold good_name. rewrite !andb_true_iff, !bool_decide_eq_true. tauto. Qed.

Lemma Rel_inj p q :
  p <> [] -> q <> [] -> Forall (fun n => good_name n = true) p ->
  Forall (fun n => good_name n = true) q -> Rel p = Rel q -> p = q.
Proof.
  intros Hp Hq Gp Gq. revert q Hq Gq. induction p as [|n p IH]; [done|]; clear Hp.
  intros [|m q] Hq Gq; [done|]. apply Forall_cons in Gp as [Gn Gp].
  apply Forall_cons in Gq as [Gm Gq]. apply good_name_slash in Gn, Gm.
  destruct p as [|n' p], q as [|m' q]; simpl; intros Heq.
  - by rewrite Heq.
  - rewrite Heq, IndexByte_app in Gn by done. done.
  - rewrite <- Heq, IndexByte_app in Gm by done. done.
  - pose proof (f_equal (fun s => IndexByte s slash) Heq) as Hi. simpl in Hi.
    rewrite !IndexByte_app in Hi by done. injection Hi as Hlen.
    assert (n = m) as <-.
    { apply (f_equal (str_take (String.length n))) in Heq. rewrite str_take_app in Heq.
      by rewrite Hlen, str_take_app in Heq. }
    apply (f_equal (str_drop (S (String.length n)))) in Heq. rewrite !str_drop_S_app in Heq.
    f_equal. by apply IH.
Qed.

Lemma files_keys_nodup d :
  wf_node d = true -> IsDir d = true -> NoDup ((fun x => Rel x.1) <$> files d).
Proof.
  intros Hwf Hdir. change (NoDup (Rel ∘ fst <$> files d)). rewrite list_fmap_compose.
  apply NoDup_fmap_2_strong; [|by apply files_paths_nodup].
  intros p q ([p' l] & -> & Hp)%list_elem_of_fmap ([q' l'] & -> & Hq)%list_elem_of_fmap.
  apply Rel_inj; eauto using files_dir_nonempty, elem_of_files_good.
Qed.

Lemma assoc_path_elem k fs l :
  NoDup ((fun x : list string * leaf => Rel x.1) <$> fs) ->
  assoc_path k fs = Some l <-> exists p, Rel p = k /\ (p, l) ∈ fs.
Proof.
  induction fs as [|[p' l'] fs IH]; simpl; intros Hnd.
  { split; [done|]. by intros (p & _ & Hin%elem_of_nil). }
  apply NoDup_cons in Hnd as [Hp Hnd]. specialize (IH Hnd).
  destruct (String.eqb_spec (Rel p') k) as [<-|Hne].
  - split.
    + intros [= ->]. exists p'. split; [done|by left].
    + intros (p & Heq & [[= -> ->]|Hin]%elem_of_cons); [done|].
      destruct Hp. apply list_elem_of_fmap. by exists (p, l).
  - rewrite IH. split; intros (p & Heq & Hin); exists p; (split; [done|]); [by right|].
    apply elem_of_cons in Hin as [[= -> ->]|]; done.
Qed.

(** A key's file is found by descending along the path whose names the key joins. *)
Lemma key_file_path d k l :
  wf_node d = true -> IsDir d = true ->
  key_file d k = Some l <-> exists p, Rel p = k /\ file_at d p = Some l.
Proof.
  intros Hwf Hdir. unfold key_file. rewrite assoc_path_elem by by apply files_keys_nodup.
  by setoid_rewrite (files_file_at _ _ _ Hwf).
Qed.

(** ** What a walk does, for a callback that stops at errors and collects files *)

Section collects.
Context {S E P : Type}.
Variable fn : list string -> node -> option OsErr -> S -> S * option E.
Variable out : S -> list P.
Variable item : list string -> leaf -> option P.
Hypothesis fn_file : forall p l s s',
  fn p (NFile l) None s = (s', None) -> exists x, item p l = Some x /\ out s' = out s ++ [x].
Hypothesis fn_skip : forall p d s s',
  IsRegular d = false -> fn p d None s = (s', None) -> out s' = out s.
Hypothesis fn_err : forall p d e s s', fn p d (Some e) s <> (s', None).

Lemma walk_collects d path s s' :
  walkDir fn path d s = (s', None) ->
  exists xs, out s' = out s ++ xs /\ dirs_readable d = true /\
    (fun x => item (path ++ x.1) x.2) <$> files d = Some <$> xs.
Proof.
  revert path s s'. induction d as [l| |es rd IH] using node_tree_ind; intros path s s'.
  - simpl. destruct (fn _ _ None s) as [s1 [e|]] eqn:Hf; [done|]. intros [= ->].
    destruct (fn_file _ _ _ _ Hf) as (x & Hx & Ho). exists [x].
    rewrite app_nil_r. simpl. by rewrite Hx.
  - simpl. destruct (fn _ _ None s) as [s1 [e|]] eqn:Hf; [done|]. intros [= ->].
    exists []. by rewrite (fn_skip _ NOther _ _ eq_refl Hf), app_nil_r.
  - rewrite walkDir_dir. destruct (fn _ _ None s) as [s1 [e|]] eqn:Hf; [done|].
    destruct rd as [e|].
    { destruct (fn _ _ (Some e) s1) as [s2 [e2|]] eqn:Hf2; [done|]. by apply fn_err in Hf2. }
    rewrite <- (fn_skip _ (NDir _ _) _ _ eq_refl Hf). clear s Hf. revert s1 s'.
    simpl. induction es as [|[n d] es IHes]; intros s s'; simpl.
    { intros [= ->]. exists []. by rewrite app_nil_r. }
    apply Forall_cons in IH as [IHd IH]. simpl in IHd.
    destruct (walkDir fn (path ++ [n]) d s) as [s1 [e|]] eqn:Hw; [done|]. intros He.
    destruct (IHd _ _ _ Hw) as (xs & Hx & Hr & Hm).
    destruct (IHes IH _ _ He) as (ys & Hy & Hr' & Hm').
    exists (xs ++ ys). rewrite Hy, Hx, Hr, app_assoc. split_and!; [done..|].
    rewrite !fmap_app, <- Hm, Hm', <- list_fmap_compose. f_equal.
    apply list_fmap_ext. intros i [q l] _. simpl. by rewrite <- app_assoc.
Qed.

Hypothesis fn_reads : forall p l s, item p l <> None -> (fn p (NFile l) None s).2 = None.
Hypothesis fn_passes : forall p d s, IsRegular d = false -> (fn p d None s).2 = None.

Lemma walk_succeeds d path s :
  dirs_readable d = true -> Forall (fun x => item (path ++ x.1) x.2 <> None) (files d) ->
  (walkDir fn path d s).2 = None.
Proof.
  revert path s. induction d as [l| |es rd IH] using node_tree_ind; intros path s Hr Hf.
  - simpl. apply Forall_cons in Hf as [Hf _]. simpl in Hf. rewrite app_nil_r in Hf.
    specialize (fn_reads path l s Hf). by destruct (fn path (NFile l) None s) as [s' [e|]].
  - simpl. specialize (fn_passes path NOther s eq_refl).
    by destruct (fn path NOther None s) as [s' [e|]].
  - rewrite walkDir_dir. specialize (fn_passes path (NDir es rd) s eq_refl).
    destruct (fn path (NDir es rd) None s) as [s1 [e|]]; [done|].
    destruct rd as [e|]; [done|]. simpl in Hr, Hf. clear s fn_passes.
    revert s1. induction es as [|[n d] es IHes]; intros s; simpl; [done|].
    simpl in Hr, Hf. apply andb_true_iff in Hr as [Hrd Hr]. apply Forall_app in Hf as [Hfd Hf].
    apply Forall_cons in IH as [IHd IH].
    assert (Hd : (walkDir fn (path ++ [n]) d s).2 = None).
    { apply IHd; [done|]. rewrite Forall_forall in Hfd |- *. intros [p l] Hx. simpl.
      rewrite <- app_assoc. apply (Hfd (n :: p, l)), list_elem_of_fmap. by exists (p, l). }
    destruct (walkDir fn (path ++ [n]) d s) as [s1 [e|]]; [done|]. by apply IHes.
Qed.
End collects.

(** What is collected has one item per key, that of the key's file. *)
Lemma collected_keys {P} (item : list string -> leaf -> option P) (keyof : P -> string) d xs objs :
  wf_node d = true -> IsDir d = true ->
  (forall p l x, item p l = Some x -> keyof x = Rel p) ->
  (fun x => item x.1 x.2) <$> files d = Some <$> xs -> objs ≡ₚ xs ->
  NoDup (keyof <$> objs) /\
  forall k, match key_file d k with
            | Some l => exists p x, x ∈ objs /\ keyof x = k /\ item p l = Some x
            | None => k ∉ keyof <$> objs
            end.
Proof.
  intros Hwf Hdir Hkey Hxs Hp. pose proof (files_keys_nodup d Hwf Hdir) as Hnd.
  assert (Hks : keyof <$> xs = (fun x => Rel x.1) <$> files d).
  { clear Hnd Hp. revert xs Hxs. induction (files d) as [|[p l] fs IH]; intros [|x xs] Hxs; try done.
    rewrite !fmap_cons in *. injection Hxs as Hx Hxs. simpl. by rewrite (Hkey _ _ _ Hx), (IH xs). }
  assert (Hko : keyof <$> objs ≡ₚ (fun x => Rel x.1) <$> files d) by by rewrite Hp, Hks.
  split; [by rewrite Hko|]. intros k. destruct (key_file d k) as [l|] eqn:Hk.
  - apply assoc_path_elem in Hk as (p & Hpk & Hin); [|done].
    assert (Hi : item p l ∈ Some <$> xs).
    { rewrite <- Hxs. apply list_elem_of_fmap. by exists (p, l). }
    apply list_elem_of_fmap in Hi as (x & Hx & Hin'). exists p, x.
    split_and!; [by rewrite Hp| |done]. by rewrite (Hkey _ _ _ Hx).
  - rewrite Hko. intros ([p l] & -> & Hin)%list_elem_of_fmap.
    assert (Hs : key_file d (Rel p) = Some l) by (apply assoc_path_elem; eauto).
    simpl in Hk. by rewrite Hk in Hs.
Qed.
