(* ===== verification/Loader.v ===== *)
(** * The payload loaders (internal/s3rdmaserver/store/loader.go, internal/inmems3/payload/loader.go)

    Both import a directory: every subdirectory becomes a bucket under its trimmed name,
    every regular file below it an object whose key is the file's relative path.
    [RootLoader] fills the startup-loaded store, [FolderLoader] replaces buckets of the
    bounded store and checks a context on the way.  The specification is [loaded_file]:
    the file a bucket and key come from, the last directory of a name winning. *)

From S2P Require Import Prelude Md5 StoreIface FileTree.
From S2P Require MemStore LoadedStore.

(** The errors: their texts matter to the control server, see Control.v. *)
Inductive LoadErr :=
| EmptyRoot
| RootNotDirectory (root : string)
| OsError (e : OsErr)
| CtxError (text : string)
| LoadBucketErr (bucket : string) (e : LoadErr)
| StoreObjectErr (bucket key : string) (e : MemStore.StoreErr).

Definition lift_os {A} (r : res OsErr A) : res LoadErr A :=
  match r with Ok a => Ok a | Err e => Err (OsError e) end.

(** [LoadResult] and [AddFolderResult] have the same fields. *)
Record LoadResult := {
  Buckets : list string;
  BucketsLoaded : Z;
  ObjectsLoaded : Z;
  BytesLoaded : Z;
}.

Definition no_result : LoadResult :=
  {| Buckets := []; BucketsLoaded := 0; ObjectsLoaded := 0; BytesLoaded := 0 |}.

Definition count_object (r : LoadResult) (body : list byte) : LoadResult :=
  {| Buckets := Buckets r; BucketsLoaded := BucketsLoaded r;
     ObjectsLoaded := i64 (ObjectsLoaded r + 1); BytesLoaded := i64 (BytesLoaded r + blen body) |}.

Definition count_bucket (r : LoadResult) (bucket : string) : LoadResult :=
  {| Buckets := Buckets r ++ [bucket]; BucketsLoaded := i64 (BucketsLoaded r + 1);
     ObjectsLoaded := ObjectsLoaded r; BytesLoaded := BytesLoaded r |}.

(** [os.Stat] and [os.ReadDir] of the root. *)
Definition open_root (fs : string -> res OsErr node) (root : string)
    : res LoadErr (list (string * node)) :=
  if String.eqb root EmptyString then Err EmptyRoot
  else
    match fs root with
    | Err e => Err (OsError e)
    | Ok info => if IsDir info then lift_os (ReadDir info) else Err (RootNotDirectory root)
    end.

(** ** The loader of the startup-loaded store *)

Module RootLoader.

Record pendingObject := { key : string; body : list byte; lastModified : Time }.

(** The callback of the walk; its state is the slice [objects]. *)
Definition visit (path : list string) (d : node) (walkErr : option OsErr)
    (objects : list pendingObject) : list pendingObject * option LoadErr :=
  match walkErr with
  | Some e => (objects, Some (OsError e))
  | None =>
    match d with
    | NFile l =>
      match lf_body l with
      | Err e => (objects, Some (OsError e))
      | Ok b =>
        match lf_mtime l with
        | Err e => (objects, Some (OsError e))
        | Ok t => (objects ++ [{| key := Rel path; body := b; lastModified := t |}], None)
        end
      end
    | _ => (objects, None)
    end
  end.

Definition loadBucketObjects (bucketDir : node) : res LoadErr (list pendingObject) :=
  match walkDir visit [] bucketDir [] with
  | (_, Some e) => Err e
  | (objects, None) => Ok (sort_by key objects)
  end.

(** [now i] is the clock when the [i]-th object is stored. *)
Definition put_object (now : Z -> Time) (bucket : string)
    (st : LoadedStore.MemoryStore * LoadResult) (obj : pendingObject)
    : LoadedStore.MemoryStore * LoadResult :=
  ((LoadedStore.PutLoadedObject st.1 bucket (key obj) (body obj) (lastModified obj)
      (now (ObjectsLoaded st.2))).1,
   count_object st.2 (body obj)).

Fixpoint load_entries (now : Z -> Time) (entries : list (string * node))
    (s : LoadedStore.MemoryStore) (result : LoadResult)
    : LoadedStore.MemoryStore * LoadResult * option LoadErr :=
  match entries with
  | [] => (s, result, None)
  | (name, d) :: rest =>
    let bucket := TrimSpace name in
    if negb (IsDir d) then load_entries now rest s result
    else if String.eqb bucket EmptyString then load_entries now rest s result
    else
      match loadBucketObjects d with
      | Err e => (s, result, Some (LoadBucketErr bucket e))
      | Ok objects =>
        let st := fold_left (put_object now bucket) objects
                    (LoadedStore.CreateBucket s bucket, result) in
        load_entries now rest st.1 (count_bucket st.2 bucket)
      end
  end.

Definition LoadRoot (fs : string -> res OsErr node) (now : Z -> Time) (root : string)
    (s : LoadedStore.MemoryStore) : LoadedStore.MemoryStore * LoadResult * option LoadErr :=
  let root := TrimSpace root in
  match open_root fs root with
  | Err e => (s, no_result, Some e)
  | Ok entries => load_entries now (sort_by fst entries) s no_result
  end.

End RootLoader.

(** ** The loader of the bounded store *)

Module FolderLoader.

Record pendingObject := { key : string; body : list byte }.

(** [ctx i] is what the [i]-th call of [ctx.Err()] answers; the walk's state is the number
    of calls made and the slice [objects]. *)
Definition visit (ctx : nat -> option string) (path : list string) (d : node)
    (walkErr : option OsErr) (st : nat * list pendingObject)
    : (nat * list pendingObject) * option LoadErr :=
  match walkErr with
  | Some e => (st, Some (OsError e))
  | None =>
    let '(calls, objects) := st in
    match ctx calls with
    | Some e => ((S calls, objects), Some (CtxError e))
    | None =>
      match d with
      | NFile l =>
        match lf_body l with
        | Err e => ((S calls, objects), Some (OsError e))
        | Ok b => ((S calls, objects ++ [{| key := Rel path; body := b |}]), None)
        end
      | _ => ((S calls, objects), None)
      end
    end
  end.

Definition loadBucketObjects (ctx : nat -> option string) (bucketDir : node) (calls : nat)
    : nat * res LoadErr (list pendingObject) :=
  match walkDir (visit ctx) [] bucketDir (calls, []) with
  | ((calls', _), Some e) => (calls', Err e)
  | ((calls', objects), None) => (calls', Ok (sort_by key objects))
  end.

(** [now i] is the clock when the [i]-th object is stored. *)
Fixpoint put_objects (now : Z -> Time) (bucket : string) (objects : list pendingObject)
    (s : MemStore.MemoryStore) (result : LoadResult)
    : MemStore.MemoryStore * LoadResult * option LoadErr :=
  match objects with
  | [] => (s, result, None)
  | obj :: rest =>
    match MemStore.PutObject s bucket (key obj) (body obj) (now (ObjectsLoaded result)) with
    | (s', Err e) => (s', result, Some (StoreObjectErr bucket (key obj) e))
    | (s', Ok _) => put_objects now bucket rest s' (count_object result (body obj))
    end
  end.

Fixpoint load_entries (ctx : nat -> option string) (now : Z -> Time)
    (entries : list (string * node)) (calls : nat)
    (s : MemStore.MemoryStore) (result : LoadResult)
    : MemStore.MemoryStore * LoadResult * option LoadErr :=
  match entries with
  | [] => (s, result, None)
  | (name, d) :: rest =>
    match ctx calls with
    | Some e => (s, result, Some (CtxError e))
    | None =>
      let bucket := TrimSpace name in
      if negb (IsDir d) then load_entries ctx now rest (S calls) s result
      else if String.eqb bucket EmptyString then load_entries ctx now rest (S calls) s result
      else
        match loadBucketObjects ctx d (S calls) with
        | (_, Err e) => (s, result, Some (LoadBucketErr bucket e))
        | (calls', Ok objects) =>
          let s1 := (MemStore.DeleteBucket s bucket).1 in
          let s2 := MemStore.CreateBucket s1 bucket in
          match put_objects now bucket objects s2 result with
          | (s3, r, Some e) => (s3, r, Some e)
          | (s3, r, None) => load_entries ctx now rest calls' s3 (count_bucket r bucket)
          end
        end
    end
  end.

Definition sort_buckets (r : LoadResult) : LoadResult :=
  {| Buckets := sort_by id (Buckets r); BucketsLoaded := BucketsLoaded r;
     ObjectsLoaded := ObjectsLoaded r; BytesLoaded := BytesLoaded r |}.

Definition AddFolder (fs : string -> res OsErr node) (ctx : nat -> option string)
    (now : Z -> Time) (root : string) (s : MemStore.MemoryStore)
    : MemStore.MemoryStore * LoadResult * option LoadErr :=
  let root := TrimSpace root in
  match open_root fs root with
  | Err e => (s, no_result, Some e)
  | Ok entries =>
    match load_entries ctx now entries O s no_result with
    | (s', r, Some e) => (s', r, Some e)
    | (s', r, None) => (s', sort_buckets r, None)
    end
  end.

Definition DeleteBucket (s : MemStore.MemoryStore) (name : string) : MemStore.MemoryStore * bool :=
  MemStore.DeleteBucket s (TrimSpace name).

Definition delete_one (st : MemStore.MemoryStore * Z) (bucket : string) : MemStore.MemoryStore * Z :=
  match MemStore.DeleteBucket st.1 bucket with
  | (s', true) => (s', i64 (st.2 + 1))
  | (s', false) => (s', st.2)
  end.

Definition ClearAll (s : MemStore.MemoryStore) : MemStore.MemoryStore * Z :=
  fold_left delete_one (MemStore.ListBuckets s) (s, 0).

Definition ListBuckets (s : MemStore.MemoryStore) : list string := MemStore.ListBuckets s.

End FolderLoader.

(** ** Specification: the file behind a bucket and key *)

(** An entry of the root is loaded as a bucket. *)
Definition loads (bucket : string) (e : string * node) : bool :=
  IsDir e.2 && String.eqb (TrimSpace e.1) bucket && negb (String.eqb bucket EmptyString).

(** Several directories may have one trimmed name: the last one with the key counts. *)
Fixpoint loaded_file (es : list (string * node)) (bucket k : string) : option leaf :=
  match es with
  | [] => None
  | e :: es' =>
    match loaded_file es' bucket k with
    | Some l => Some l
    | None => if loads bucket e then key_file e.2 k else None
    end
  end.

(** The last one of that name. *)
Fixpoint last_dir (es : list (string * node)) (bucket : string) : option node :=
  match es with
  | [] => None
  | e :: es' =>
    match last_dir es' bucket with
    | Some d => Some d
    | None => if loads bucket e then Some e.2 else None
    end
  end.

Definition loaded_dirs (es : list (string * node)) : list (string * node) :=
  filter (fun e => IsDir e.2 = true /\ TrimSpace e.1 <> EmptyString) es.

Definition loaded_names (es : list (string * node)) : list string :=
  (fun e => TrimSpace e.1) <$> loaded_dirs es.

(** An object made from a file, its modification time included when it has one. *)
Definition made_from (l : leaf) (o : Object) : Prop :=
  lf_body l = Ok (Body o) /\ ETag o = etag_of (Body o) /\ utc (LastModified o) = true /\
  forall t, lf_mtime l = Ok t -> IsZero t = false -> instant (LastModified o) = instant t.

Definition total_files (es : list (string * node)) : Z := zsum (fun e => blen (files e.2)) (loaded_dirs es).

Definition leaf_size (l : leaf) : Z := match lf_body l with Ok b => blen b | Err _ => 0 end.

Definition total_bytes (es : list (string * node)) : Z :=
  zsum (fun e => zsum (fun x => leaf_size x.2) (files e.2)) (loaded_dirs es).

Lemma loaded_dirs_cons name d es :
  loaded_dirs ((name, d) :: es) =
  if IsDir d && negb (String.eqb (TrimSpace name) EmptyString) then (name, d) :: loaded_dirs es
  else loaded_dirs es.
Proof.
  unfold loaded_dirs. rewrite filter_cons. simpl.
  destruct (IsDir d), (String.eqb_spec (TrimSpace name) EmptyString); simpl;
    by rewrite ?decide_True, ?decide_False by naive_solver.
Qed.

(** ** Lemmas: counting *)

(** The counts are 64-bit values, and [r'] counts so much more than [r]. *)
Definition counted (r : LoadResult) : Prop :=
  i64 (BucketsLoaded r) = BucketsLoaded r /\ i64 (ObjectsLoaded r) = ObjectsLoaded r /\
  i64 (BytesLoaded r) = BytesLoaded r.

Definition adds (r r' : LoadResult) (names : list string) (objs bytes : Z) : Prop :=
  counted r -> counted r' /\ Buckets r' = Buckets r ++ names /\
    BucketsLoaded r' = i64 (BucketsLoaded r + blen names) /\
    ObjectsLoaded r' = i64 (ObjectsLoaded r + objs) /\
    BytesLoaded r' = i64 (BytesLoaded r + bytes).

Lemma i64_idem z : i64 (i64 z) = i64 z.
Proof. apply i64_id, i64_range. Qed.

Lemma adds_refl r : adds r r [] 0 0.
Proof. intros (H1 & H2 & H3). unfold counted, blen. simpl. rewrite !Z.add_0_r, app_nil_r. auto. Qed.

Lemma adds_trans r r1 r2 n1 o1 b1 n2 o2 b2 :
  adds r r1 n1 o1 b1 -> adds r1 r2 n2 o2 b2 -> adds r r2 (n1 ++ n2) (o1 + o2) (b1 + b2).
Proof.
  intros H1 H2 Hc. destruct (H1 Hc) as (Hc1 & E0 & E1 & E2 & E3).
  destruct (H2 Hc1) as (Hc2 & F0 & F1 & F2 & F3).
  rewrite F0, F1, F2, F3, E0, E1, E2, E3, !i64_add_i64, blen_app, app_assoc, !Z.add_assoc. auto.
Qed.

Lemma adds_object r body : adds r (count_object r body) [] 1 (blen body).
Proof.
  intros (H1 & H2 & H3). unfold counted. simpl. rewrite !i64_idem, app_nil_r.
  unfold blen at 2. simpl. rewrite Z.add_0_r. auto.
Qed.

Lemma adds_bucket r bucket : adds r (count_bucket r bucket) [bucket] 0 0.
Proof.
  intros (H1 & H2 & H3). unfold counted. simpl. rewrite !i64_idem, !Z.add_0_r. auto.
Qed.

(** ** Lemmas: the startup loader *)

Module RootFacts.
Import LoadedStore RootLoader.

Definition item (p : list string) (l : leaf) : option pendingObject :=
  match lf_body l, lf_mtime l with
  | Ok b, Ok t => Some {| key := Rel p; body := b; lastModified := t |}
  | _, _ => None
  end.

Lemma item_Some p l x :
  item p l = Some x ->
  key x = Rel p /\ lf_body l = Ok (body x) /\ lf_mtime l = Ok (lastModified x).
Proof. unfold item. destruct (lf_body l), (lf_mtime l); naive_solver. Qed.

Lemma load_dir d objs :
  loadBucketObjects d = Ok objs ->
  exists xs, objs ≡ₚ xs /\ (fun x => item x.1 x.2) <$> files d = Some <$> xs.
Proof.
  unfold loadBucketObjects.
  destruct (walkDir visit [] d []) as [xs [e|]] eqn:Hw; [done|]. intros [= <-].
  apply (walk_collects visit id item) in Hw as (ys & Hys & _ & Hm).
  - simpl in Hys. subst xs. exists ys. split; [apply sort_by_perm|done].
  - intros p l s s' Hv. unfold visit in Hv. unfold item.
    destruct (lf_body l), (lf_mtime l); simplify_eq/=. eauto.
  - intros p d' s s' Hr Hv. by destruct d'; simplify_eq/=.
  - done.
Qed.

(** A directory every part of which can be read. *)
Definition readable (d : node) : bool :=
  dirs_readable d && forallb (fun x => is_ok (lf_body x.2) && is_ok (lf_mtime x.2)) (files d).

Lemma load_dir_ok d : is_ok (loadBucketObjects d) = readable d.
Proof.
  apply eq_true_iff_eq. unfold readable. rewrite andb_true_iff, forallb_forall.
  unfold loadBucketObjects. split.
  - destruct (walkDir visit [] d []) as [xs [e|]] eqn:Hw; [done|]. intros _.
    apply (walk_collects visit id item) in Hw as (ys & _ & Hr & Hm).
    + split; [done|]. intros [p l] Hin%list_elem_of_In.
      assert (Hx : item p l ∈ Some <$> ys).
      { rewrite <- Hm. apply list_elem_of_fmap. by exists (p, l). }
      apply list_elem_of_fmap in Hx as (x & (_ & Hb & Ht)%item_Some & _). simpl. by rewrite Hb, Ht.
    + intros p l s s' Hv. unfold visit in Hv. unfold item.
      destruct (lf_body l), (lf_mtime l); simplify_eq/=. eauto.
    + intros p d' s s' Hr Hv. by destruct d'; simplify_eq/=.
    + done.
  - intros [Hr Hf].
    pose proof (walk_succeeds visit item) as Hs.
    specialize (Hs ltac:(intros p l s; unfold item, visit; by destruct (lf_body l), (lf_mtime l))).
    specialize (Hs ltac:(by intros p [] s)). specialize (Hs d [] [] Hr).
    destruct (walkDir visit [] d []) as [xs [e|]]; [|done]. exfalso.
    discriminate Hs. apply Forall_forall. intros [p l] Hin%list_elem_of_In%Hf.
    apply andb_true_iff in Hin as [Hb Ht]. simpl in *. unfold item.
    by destruct (lf_body l), (lf_mtime l).
Qed.

Lemma put_object_lookup now bucket st x b k :
  lookup_object (buckets (put_object now bucket st x).1) b k =
  if decide ((b, k) = (bucket, key x)) then
    Some {| Body := body x; ETag := etag_of (body x);
            LastModified := normalizeModTime (lastModified x) (now (ObjectsLoaded st.2)) |}
  else lookup_object (buckets st.1) b k.
Proof. apply put_lookup. Qed.

Lemma put_object_dom now bucket st x :
  dom (buckets (put_object now bucket st x).1) = {[bucket]} ∪ dom (buckets st.1).
Proof. apply dom_insert_L. Qed.

Lemma put_objects_spec now bucket objs st :
  NoDup (key <$> objs) ->
  let st' := fold_left (put_object now bucket) objs st in
  (forall x, x ∈ objs -> exists t,
     lookup_object (buckets st'.1) bucket (key x) =
       Some {| Body := body x; ETag := etag_of (body x); LastModified := normalizeModTime (lastModified x) t |}) /\
  (forall b k, b <> bucket \/ k ∉ key <$> objs ->
     lookup_object (buckets st'.1) b k = lookup_object (buckets st.1) b k) /\
  (bucket ∈ dom (buckets st.1) -> dom (buckets st'.1) = dom (buckets st.1)).
Proof.
  revert st. induction objs as [|x objs IH]; intros st Hnd.
  { split_and!; [by intros x Hx%elem_of_nil|done..]. }
  apply NoDup_cons in Hnd as [Hx Hnd]. rewrite fmap_cons. simpl fold_left.
  destruct (IH (put_object now bucket st x) Hnd) as (H1 & H2 & H3).
  split_and!.
  - intros y [->|Hy]%elem_of_cons; [|by apply H1].
    exists (now (ObjectsLoaded st.2)). rewrite H2 by by right.
    by rewrite put_object_lookup, decide_True.
  - intros b k Hbk. rewrite H2.
    + rewrite put_object_lookup, decide_False; [done|]. intros [= -> ->].
      destruct Hbk as [|Hk]; [done|]. apply Hk. by left.
    + destruct Hbk as [|Hk]; [by left|]. right. intros ?. apply Hk. by right.
  - intros Hb. rewrite H3, put_object_dom; set_solver.
Qed.

Lemma put_objects_adds now bucket objs st :
  adds st.2 (fold_left (put_object now bucket) objs st).2 [] (blen objs)
    (zsum (fun x => blen (body x)) objs).
Proof.
  revert st. induction objs as [|x objs IH]; intros st; simpl; [apply adds_refl|].
  replace (blen (x :: objs)) with (1 + blen objs) by (unfold blen; simpl; lia).
  apply (adds_trans _ _ _ [] _ _ [] _ _ (adds_object st.2 (body x))).
  apply (IH (put_object now bucket st x)).
Qed.

Lemma load_dir_sizes d objs :
  loadBucketObjects d = Ok objs ->
  blen objs = blen (files d) /\ zsum (fun x => blen (body x)) objs = zsum (fun x => leaf_size x.2) (files d).
Proof.
  intros (xs & Hp & Hm)%load_dir. rewrite Hp. clear Hp. revert xs Hm. induction (files d) as [|[p l] fs IH]; intros [|x xs] Hm; try done.
  rewrite !fmap_cons in Hm. injection Hm as Hx Hm. destruct (IH _ Hm) as [H1 H2].
  apply item_Some in Hx as (_ & Hb & _). simpl. unfold leaf_size at 1. rewrite Hb, H2. unfold blen in *. simpl. lia.
Qed.

Lemma load_bucket_spec now bucket d objs s r :
  wf_node d = true -> IsDir d = true -> bucket <> EmptyString -> TrimSpace bucket <> EmptyString ->
  loadBucketObjects d = Ok objs ->
  let st := fold_left (put_object now bucket) objs (CreateBucket s bucket, r) in
  (forall b k, match (if String.eqb bucket b then key_file d k else None) with
               | Some l => exists o, lookup_object (buckets st.1) b k = Some o /\ made_from l o
               | None => lookup_object (buckets st.1) b k = lookup_object (buckets s) b k
               end) /\
  dom (buckets st.1) = {[bucket]} ∪ dom (buckets s).
Proof.
  intros Hwf Hdir Hne Htr Hl. destruct (load_dir d objs Hl) as (xs & Hp & Hm).
  destruct (collected_keys item key d xs objs Hwf Hdir) as [Hnd Hk]; [|done..|].
  { intros p l x Hx. by apply item_Some in Hx as (? & _). }
  destruct (put_objects_spec now bucket objs (CreateBucket s bucket, r) Hnd) as (H1 & H2 & H3).
  assert (Hd : dom (buckets (CreateBucket s bucket)) = {[bucket]} ∪ dom (buckets s)).
  { rewrite create_dom. apply String.eqb_neq in Htr. by rewrite Htr. }
  split.
  - intros b k. destruct (String.eqb_spec bucket b) as [<-|Hb].
    + specialize (Hk k). destruct (key_file d k) as [l|].
      * destruct Hk as (p & x & Hx & <- & (_ & Hb & Ht)%item_Some).
        destruct (H1 x Hx) as (t & ->). eexists. split; [done|]. split_and!; try done.
        -- simpl. unfold normalizeModTime. by destruct (IsZero _).
        -- simpl. intros t' Ht' Hz. unfold normalizeModTime. rewrite Ht in Ht'.
           injection Ht' as <-. by rewrite Hz.
      * rewrite H2 by by right. apply create_lookup.
    + rewrite H2 by by left. apply create_lookup.
  - rewrite H3; simpl; [done|]. rewrite Hd. set_solver.
Qed.

(** What a load makes of a store, for the entries read. *)
Definition load_post (es : list (string * node)) (s s' : MemoryStore) : Prop :=
  (forall b k, match loaded_file es b k with
               | Some l => exists o, lookup_object (buckets s') b k = Some o /\ made_from l o
               | None => lookup_object (buckets s') b k = lookup_object (buckets s) b k
               end) /\
  dom (buckets s') = list_to_set (loaded_names es) ∪ dom (buckets s).

Lemma load_entries_spec now es s r s' r' :
  Forall (fun e => wf_node e.2 = true) es ->
  load_entries now es s r = (s', r', None) ->
  load_post es s s' /\ adds r r' (loaded_names es) (total_files es) (total_bytes es).
Proof.
  unfold load_post, total_files, total_bytes, loaded_names.
  revert s r. induction es as [|[name d] es IH]; intros s r Hwf; simpl.
  { intros [= -> ->]. split; [split; [done|set_solver]|apply adds_refl]. }
  apply Forall_cons in Hwf as [Hd Hwf]. simpl in Hd. rewrite loaded_dirs_cons.
  unfold loads. simpl. destruct (IsDir d) eqn:Hdir; simpl.
  2: { intros Hl. destruct (IH _ _ Hwf Hl) as [[H1 H2] H3].
       split; [split|]; [|done..]. intros b k. specialize (H1 b k). by destruct (loaded_file es b k). }
  destruct (String.eqb_spec (TrimSpace name) EmptyString) as [Hn|Hn].
  { intros Hl. destruct (IH _ _ Hwf Hl) as [[H1 H2] H3]. split; [split|]; [|done..]. intros b k. specialize (H1 b k). destruct (loaded_file es b k); [done|].
    rewrite Hn. destruct (String.eqb_spec EmptyString b) as [<-|]; [|done]. done. }
  destruct (loadBucketObjects d) as [objs|e] eqn:Ho; [|done].
  destruct (load_bucket_spec now (TrimSpace name) d objs s r Hd Hdir Hn (TrimSpace_TrimSpace _ Hn) Ho)
    as [G1 G2].
  pose proof (put_objects_adds now (TrimSpace name) objs (CreateBucket s (TrimSpace name), r)) as G3.
  destruct (load_dir_sizes d objs Ho) as [G4 G5]. rewrite G4, G5 in G3.
  destruct (fold_left _ objs _) as [s1 r1]. simpl in G1, G2, G3 |- *.
  intros Hl. destruct (IH _ _ Hwf Hl) as [[H1 H2] H3]. split; [split|].
  - intros b k. specialize (H1 b k). specialize (G1 b k). destruct (loaded_file es b k); [done|].
    rewrite H1. destruct (String.eqb_spec (TrimSpace name) b) as [<-|]; [|done].
    apply String.eqb_neq in Hn. by rewrite Hn.
  - rewrite H2, G2. unfold loaded_names. set_solver.
  - pose proof (adds_trans _ _ _ _ _ _ _ _ _ G3
      (adds_trans _ _ _ _ _ _ _ _ _ (adds_bucket r1 (TrimSpace name)) H3)) as Ha.
    simpl in Ha. by rewrite !Z.add_0_l in Ha.
Qed.

Lemma load_entries_ok now es s r :
  (load_entries now es s r).2 = None <-> forallb (fun e => readable e.2) (loaded_dirs es) = true.
Proof.
  revert s r. induction es as [|[name d] es IH]; intros s r; simpl; [done|].
  rewrite loaded_dirs_cons. destruct (IsDir d); simpl; [|apply IH].
  destruct (String.eqb _ _); simpl; [apply IH|]. rewrite <- load_dir_ok.
  destruct (loadBucketObjects d); simpl; [apply IH|done].
Qed.
End RootFacts.

(** ** Properties: the startup loader *)

(** C30: a payload root that loads fills the empty store with exactly its regular files:
    the buckets are the trimmed names of the root's directories; a bucket and key hold the
    content, digest and modification time of the file whose path below a directory of that
    name is the key; nothing else is stored; and the counts are those of the files. *)
Theorem load_root_stores_files fs now root es s r :
  fs (TrimSpace root) = Ok (NDir es None) -> wf_node (NDir es None) = true ->
  RootLoader.LoadRoot fs now root LoadedStore.NewMemoryStore = (s, r, None) ->
  let es' := sort_by fst es in
  (forall b, LoadedStore.BucketExists s b = bool_decide (b ∈ loaded_names es')) /\
  (forall b k, match loaded_file es' b k with
               | Some l => exists o, LoadedStore.GetObject s b k = Some o /\ made_from l o
               | None => LoadedStore.GetObject s b k = None
               end) /\
  r = {| Buckets := loaded_names es'; BucketsLoaded := i64 (blen (loaded_names es'));
         ObjectsLoaded := i64 (total_files es); BytesLoaded := i64 (total_bytes es) |}.
Proof.
  intros Hfs Hwf Hl es'. unfold RootLoader.LoadRoot, open_root in Hl.
  destruct (String.eqb _ _); [done|]. rewrite Hfs in Hl. simpl in Hl.
  apply wf_dir in Hwf as [_ Hwf].
  assert (Hp : es' ≡ₚ es) by apply sort_by_perm.
  apply RootFacts.load_entries_spec in Hl as [[H1 H2] H3].
  - split_and!.
    + intros b. rewrite LoadedStore.exists_dom, H2. apply bool_decide_ext. set_solver.
    + intros b k. specialize (H1 b k). destruct (loaded_file _ b k); [done|].
      rewrite LoadedStore.GetObject_lookup, H1. done.
    + destruct (H3 ltac:(done)) as (_ & E1 & E2 & E3 & E4).
      assert (Ht : total_files es' = total_files es) by (unfold total_files, loaded_dirs; by rewrite Hp).
      assert (Hb : total_bytes es' = total_bytes es) by (unfold total_bytes, loaded_dirs; by rewrite Hp).
      fold es' in E1, E2, E3, E4. rewrite Ht in E3. rewrite Hb in E4.
      destruct r; simpl in *. by subst.
  - fold es'. rewrite Hp. eapply Forall_impl; [exact Hwf|]. by intros e [_ He].
Qed.

(** A load fails exactly when the root cannot be opened as a directory or a part of a
    directory it imports cannot be read: the walk then always ends, and without an error. *)
Theorem load_root_succeeds fs now root s :
  (RootLoader.LoadRoot fs now root s).2 = None <->
  exists es, open_root fs (TrimSpace root) = Ok es /\
    forallb (fun e => RootFacts.readable e.2) (loaded_dirs (sort_by fst es)) = true.
Proof.
  unfold RootLoader.LoadRoot. destruct (open_root fs (TrimSpace root)) as [es|e]; simpl.
  - rewrite RootFacts.load_entries_ok. naive_solver.
  - split; [done|]. by intros (es & ? & _).
Qed.

(** *** A payload root with two directories of one trimmed name, and files beside them *)

Definition txt (s : string) : node :=
  NFile {| lf_body := Ok (bytes_of_string s); lf_mtime := Ok {| instant := 7; utc := false |} |}.

Definition demo_root : list (string * node) :=
  [("a", NDir [("k", txt "one"); ("sub", NDir [("x", txt "deep")] None)] None);
   ("a ", NDir [("k", txt "two")] None);
   ("b", NDir [("link", NOther); ("m", txt "three")] None);
   ("c.txt", txt "no")].

Definition demo_fs (path : string) : res OsErr node :=
  if String.eqb path "/data" then Ok (NDir demo_root None)
  else Err {| os_text := "no such file or directory"; os_not_exist := true |}.

Definition demo_now (i : Z) : Time := {| instant := 100 + i; utc := false |}.

Lemma load_root_stores_files_witness :
  let s := (RootLoader.LoadRoot demo_fs demo_now " /data" LoadedStore.NewMemoryStore).1.1 in
  option_map Body (LoadedStore.GetObject s "a" "k") = Some (bytes_of_string "two") /\
  LoadedStore.BucketExists s "c.txt" = false.
Proof.
  destruct (RootLoader.LoadRoot demo_fs demo_now " /data" LoadedStore.NewMemoryStore)
    as [[s r] err] eqn:Hl. simpl.
  assert (err = None) as -> by (vm_compute in Hl; congruence).
  destruct (load_root_stores_files demo_fs demo_now " /data" demo_root s r
              eq_refl ltac:(by vm_compute) Hl) as (Hb & Hk & _). split.
  - specialize (Hk "a" "k").
    assert (E : loaded_file (sort_by fst demo_root) "a" "k" =
      Some {| lf_body := Ok (bytes_of_string "two"); lf_mtime := Ok {| instant := 7; utc := false |} |})
      by by vm_compute.
    rewrite E in Hk. destruct Hk as (o & Ho & [= Hm] & _). rewrite Ho. simpl. by rewrite <- Hm.
  - rewrite Hb. by vm_compute.
Defined.

(** ** Lemmas: the loader of the bounded store *)

Module FolderFacts.
Import MemStore FolderLoader.

Definition item (p : list string) (l : leaf) : option pendingObject :=
  match lf_body l with
  | Ok b => Some {| key := Rel p; body := b |}
  | Err _ => None
  end.

Lemma file_item_Some p l x : item p l = Some x -> key x = Rel p /\ lf_body l = Ok (body x).
Proof. unfold item. destruct (lf_body l); naive_solver. Qed.

Lemma load_folder ctx d n n' objs :
  loadBucketObjects ctx d n = (n', Ok objs) ->
  exists xs, objs ≡ₚ xs /\ (fun x => item x.1 x.2) <$> files d = Some <$> xs.
Proof.
  unfold loadBucketObjects.
  destruct (walkDir (visit ctx) [] d (n, [])) as [[n1 xs] [e|]] eqn:Hw; [done|]. intros [= <- <-].
  apply (walk_collects (visit ctx) snd item) in Hw as (ys & Hys & _ & Hm).
  - simpl in Hys. subst xs. exists ys. split; [apply sort_by_perm|done].
  - intros p l [i os] [i' os'] Hv. unfold visit in Hv. unfold item.
    destruct (ctx i); [done|]. destruct (lf_body l); simplify_eq/=. eauto.
  - intros p d' [i os] [i' os'] Hr Hv. unfold visit in Hv. destruct (ctx i); [done|].
    by destruct d'; simplify_eq/=.
  - intros p d' e [i os] s'. done.
Qed.

Lemma load_folder_sizes ctx d n n' objs :
  loadBucketObjects ctx d n = (n', Ok objs) ->
  blen objs = blen (files d) /\ zsum (fun x => blen (body x)) objs = zsum (fun x => leaf_size x.2) (files d).
Proof.
  intros (xs & Hp & Hm)%load_folder. rewrite Hp. clear Hp.
  revert xs Hm. induction (files d) as [|[p l] fs IH]; intros [|x xs] Hm; try done.
  rewrite !fmap_cons in Hm. injection Hm as Hx Hm. destruct (IH _ Hm) as [H1 H2].
  apply file_item_Some in Hx as [_ Hb]. simpl. unfold leaf_size at 1. rewrite Hb, H2. unfold blen in *. simpl. lia.
Qed.

(** *** Puts, whatever the policy *)

Definition object_of (body : list byte) (now : Time) : Object :=
  {| Body := body; ETag := etag_of body; LastModified := UTC now |}.

Lemma insert_lookup s b k o b' k' :
  lookup_object (buckets (insertObjectLocked s b k o)) b' k' =
  if decide ((b', k') = (b, k)) then Some o else lookup_object (buckets s) b' k'.
Proof.
  unfold insertObjectLocked. simpl. destruct (buckets s !! b) as [m|] eqn:Hb; simpl.
  - by apply lookup_object_set.
  - rewrite <- (insert_insert_eq (buckets s) b (<[k := o]> ∅) ∅).
    rewrite (lookup_object_set _ b ∅) by apply lookup_insert_eq.
    case_decide; [done|]. by apply lookup_object_insert_bucket.
Qed.

Lemma evict_all_lookup ids s b k o :
  lookup_object (buckets (fold_left evictObjectByIDLocked ids s)) b k = Some o ->
  lookup_object (buckets s) b k = Some o.
Proof.
  revert s. induction ids as [|id ids IH]; intros s; simpl; [done|]. intros Hl%IH.
  unfold evictObjectByIDLocked in Hl. destruct (splitObjectID id) as [[b' k']|]; [|done].
  rewrite remove_lookup in Hl. by case_decide.
Qed.

Lemma ensure_lookup s id cur csz sz b k o :
  lookup_object (buckets (ensureCapacityLocked s id cur csz sz).1) b k = Some o ->
  lookup_object (buckets s) b k = Some o.
Proof.
  unfold ensureCapacityLocked. repeat case_match; simpl; try done; apply evict_all_lookup.
Qed.

Lemma put_sound s b k body now s' res b' k' o :
  PutObject s b k body now = (s', res) -> GetObject s' b' k' = Some o ->
  GetObject s b' k' = Some o \/ ((b', k') = (b, k) /\ o = object_of body now).
Proof.
  unfold PutObject, GetObject. set (s0 := match buckets s !! b with Some _ => _ | None => _ end).
  assert (H0 : forall b k, lookup_object (buckets s0) b k = lookup_object (buckets s) b k).
  { intros b1 k1. subst s0. destruct (buckets s !! b) eqn:Hb; [done|].
    by apply lookup_object_insert_bucket. }
  clearbody s0.
  destruct (ensureCapacityLocked s0 _ _ _ _) as [s1 [e|]] eqn:He; intros [= <- <-] Hl.
  - left. rewrite <- H0. eapply ensure_lookup. by rewrite He.
  - rewrite insert_lookup in Hl. case_decide as Hd; [right; split; [done|]; by injection Hl as <-|]. left.
    rewrite <- H0. eapply ensure_lookup. rewrite He. simpl.
    destruct (bool_decide _); [|done]. rewrite remove_lookup in Hl. by case_decide.
Qed.

Lemma put_ok s b k body now s' o :
  PutObject s b k body now = (s', Ok o) -> o = object_of body now.
Proof.
  unfold PutObject. destruct (ensureCapacityLocked _ _ _ _ _) as [s1 [e|]]; [done|]. by intros [= _ <-].
Qed.

(** *** Puts into a store without a bound *)

Lemma put_unbounded s b k body now :
  maxBytes s <= 0 ->
  let '(s', res) := PutObject s b k body now in
  res = Ok (object_of body now) /\ maxBytes s' = maxBytes s /\
  forall b' k', GetObject s' b' k' =
    if decide ((b', k') = (b, k)) then Some (object_of body now) else GetObject s b' k'.
Proof.
  intros Hmax. unfold PutObject, GetObject.
  set (s0 := match buckets s !! b with Some _ => _ | None => _ end).
  assert (H0 : (forall b k, lookup_object (buckets s0) b k = lookup_object (buckets s) b k) /\
               maxBytes s0 = maxBytes s).
  { subst s0. destruct (buckets s !! b) eqn:Hb; [done|]. split; [|done].
    intros b1 k1. by apply lookup_object_insert_bucket. }
  clearbody s0. destruct H0 as [H0 Hm].
  unfold ensureCapacityLocked. rewrite Hm. destruct (Z.leb_spec (maxBytes s) 0) as [_|]; [|lia].
  split_and!; [done| |].
  - destruct (bool_decide _); [|done]. simpl. unfold removeObjectLocked. by repeat case_match.
  - intros b' k'. rewrite insert_lookup. case_decide; [done|]. rewrite <- H0.
    destruct (bool_decide _); [|done]. rewrite remove_lookup. by rewrite decide_False.
Qed.

Lemma remove_max s b k : maxBytes (removeObjectLocked s b k).1 = maxBytes s.
Proof. unfold removeObjectLocked. by repeat case_match. Qed.

Lemma delete_bucket_max s n : maxBytes (MemStore.DeleteBucket s n).1 = maxBytes s.
Proof.
  unfold MemStore.DeleteBucket. destruct (buckets s !! n) as [m|]; [|done]. simpl. unfold remove_keys.
  generalize (map_to_list m).*1. intros ks. revert s.
  induction ks as [|k ks IH]; intros s; simpl; [done|]. by rewrite IH, remove_max.
Qed.

Lemma create_max s n : maxBytes (CreateBucket s n) = maxBytes s.
Proof. unfold CreateBucket. by case_match. Qed.

Lemma put_exists s b k body now s' o n :
  PutObject s b k body now = (s', Ok o) -> BucketExists s b = true -> maxBytes s <= 0 ->
  BucketExists s' n = BucketExists s n.
Proof.
  intros Hp Hb Hmax. revert Hp. unfold PutObject.
  apply bool_decide_eq_true in Hb. destruct (buckets s !! b) as [m|] eqn:Hm; [|by destruct Hb].
  unfold ensureCapacityLocked. destruct (Z.leb_spec (maxBytes s) 0) as [_|]; [|lia].
  intros [= <- _]. set (s1 := if bool_decide _ then _ else s).
  assert (E : forall n, BucketExists s1 n = BucketExists s n).
  { intros n'. subst s1. destruct (bool_decide _); [apply remove_exists|done]. }
  rewrite <- E. unfold BucketExists, insertObjectLocked. simpl. apply bool_decide_ext.
  rewrite <- !elem_of_dom, dom_insert_L.
  assert (Hin : b ∈ dom (buckets s1)).
  { apply elem_of_dom. specialize (E b). unfold BucketExists in E. rewrite Hm in E.
    by apply bool_decide_eq_true in E. }
  set_solver.
Qed.

(** *** One bucket *)

Definition file_object (l : leaf) (o : Object) : Prop :=
  lf_body l = Ok (Body o) /\ ETag o = etag_of (Body o).

Lemma store_objects_adds now bucket objs s r s' r' :
  put_objects now bucket objs s r = (s', r', None) ->
  adds r r' [] (blen objs) (zsum (fun x => blen (body x)) objs).
Proof.
  revert s r. induction objs as [|x objs IH]; intros s r; simpl.
  { intros [= _ ->]. apply adds_refl. }
  destruct (PutObject _ _ _ _ _) as [s1 [o|e]]; [|done]. intros Hl%IH.
  replace (blen (x :: objs)) with (1 + blen objs) by (unfold blen; simpl; lia).
  apply (adds_trans _ _ _ [] _ _ [] _ _ (adds_object r (body x)) Hl).
Qed.

Lemma put_objects_sound now bucket objs s r s' r' e b k o :
  put_objects now bucket objs s r = (s', r', e) -> GetObject s' b k = Some o ->
  GetObject s b k = Some o \/
  (b = bucket /\ exists x t, x ∈ objs /\ key x = k /\ o = object_of (body x) t).
Proof.
  revert s r. induction objs as [|x objs IH]; intros s r; simpl; [intros [= <- _ _]; by left|].
  destruct (PutObject _ _ _ _ _) as [s1 [o1|e1]] eqn:Hp; intros Hl Ho.
  - destruct (IH _ _ Hl Ho) as [Hs|(-> & y & t & Hy & Hk & ->)].
    + destruct (put_sound _ _ _ _ _ _ _ _ _ _ Hp Hs) as [|[[= -> ->] ->]]; [by left|].
      right. split; [done|]. exists x, (now (ObjectsLoaded r)). split_and!; [by left|done..].
    + right. split; [done|]. exists y, t. split_and!; [by right|done..].
  - injection Hl as <- _ _.
    destruct (put_sound _ _ _ _ _ _ _ _ _ _ Hp Ho) as [|[[= -> ->] ->]]; [by left|].
    right. split; [done|]. exists x, (now (ObjectsLoaded r)). split_and!; [by left|done..].
Qed.

Lemma put_objects_unbounded now bucket objs s r :
  maxBytes s <= 0 -> BucketExists s bucket = true -> NoDup (key <$> objs) ->
  let '(s', r', e) := put_objects now bucket objs s r in
  e = None /\ maxBytes s' = maxBytes s /\ (forall n, BucketExists s' n = BucketExists s n) /\
  (forall x, x ∈ objs -> exists t, GetObject s' bucket (key x) = Some (object_of (body x) t)) /\
  (forall b k, b <> bucket \/ k ∉ key <$> objs -> GetObject s' b k = GetObject s b k).
Proof.
  revert s r. induction objs as [|x objs IH]; intros s r Hmax Hb Hnd; simpl.
  { split_and!; [done..|by intros x Hx%elem_of_nil|done]. }
  apply NoDup_cons in Hnd as [Hx Hnd].
  pose proof (put_unbounded s bucket (key x) (body x) (now (ObjectsLoaded r)) Hmax) as Hp.
  destruct (PutObject s bucket (key x) (body x) (now (ObjectsLoaded r))) as [s1 res] eqn:Hpe.
  destruct Hp as (-> & Hm1 & Hg1).
  pose proof (fun n => put_exists _ _ _ _ _ _ _ n Hpe Hb Hmax) as He1.
  specialize (IH s1 (count_object r (body x)) ltac:(lia) ltac:(by rewrite He1) Hnd).
  destruct (put_objects now bucket objs s1 _) as [[s' r'] e].
  destruct IH as (-> & Hm & He & Hin & Hout). split_and!; [done|lia|congruence| |].
  - intros y [->|Hy]%elem_of_cons; [|by apply Hin].
    exists (now (ObjectsLoaded r)). rewrite Hout by by right. by rewrite Hg1, decide_True.
  - intros b k Hbk. rewrite Hout.
    + rewrite Hg1, decide_False; [done|]. intros [= -> ->].
      destruct Hbk as [|Hk]; [done|]. apply Hk. by left.
    + destruct Hbk as [|Hk]; [by left|]. right. intros ?. apply Hk. by right.
Qed.

Lemma load_keys ctx d n n' objs :
  wf_node d = true -> IsDir d = true -> loadBucketObjects ctx d n = (n', Ok objs) ->
  NoDup (key <$> objs) /\
  (forall k, match key_file d k with
             | Some l => exists x, x ∈ objs /\ key x = k /\ lf_body l = Ok (body x)
             | None => k ∉ key <$> objs
             end) /\
  (forall x, x ∈ objs -> exists l, key_file d (key x) = Some l /\ lf_body l = Ok (body x)).
Proof.
  intros Hwf Hdir (xs & Hp & Hm)%load_folder.
  destruct (collected_keys item key d xs objs Hwf Hdir) as [Hnd Hk]; [|done..|].
  { intros p l x Hx. by apply file_item_Some in Hx as [? _]. }
  split_and!; [done| |].
  - intros k. specialize (Hk k). destruct (key_file d k) as [l|]; [|done].
    destruct Hk as (p & x & Hx & Hkx & [_ Hb]%file_item_Some). by exists x.
  - intros x Hx. specialize (Hk (key x)). destruct (key_file d (key x)) as [l|].
    + destruct Hk as (p & y & Hy & Hkx & [_ Hb]%file_item_Some). exists l. split; [done|].
      by rewrite (NoDup_fmap_inj key objs x y Hnd Hx Hy (eq_sym Hkx)).
    + destruct Hk. apply list_elem_of_fmap. by exists x.
Qed.

(** *** All the entries *)

Lemma load_entries_adds ctx now es n s r s' r' :
  load_entries ctx now es n s r = (s', r', None) ->
  adds r r' (loaded_names es) (total_files es) (total_bytes es).
Proof.
  unfold total_files, total_bytes, loaded_names.
  revert n s r. induction es as [|[name d] es IH]; intros n s r; simpl.
  { intros [= _ ->]. apply adds_refl. }
  destruct (ctx n); [done|]. rewrite loaded_dirs_cons.
  destruct (IsDir d); simpl; [|apply IH]. destruct (String.eqb _ _); simpl; [apply IH|].
  destruct (loadBucketObjects ctx d (S n)) as [n' [objs|e]] eqn:Ho; [|done].
  destruct (put_objects now _ objs _ r) as [[s1 r1] [e|]] eqn:Hp; [done|].
  apply store_objects_adds in Hp. apply load_folder_sizes in Ho as [H4 H5]. rewrite H4, H5 in Hp.
  intros Hl%IH.
  pose proof (adds_trans _ _ _ _ _ _ _ _ _ Hp
    (adds_trans _ _ _ _ _ _ _ _ _ (adds_bucket r1 (TrimSpace name)) Hl)) as Ha.
  simpl in Ha. by rewrite !Z.add_0_l in Ha.
Qed.

Lemma fresh_bucket_get s n b k :
  GetObject (CreateBucket (MemStore.DeleteBucket s n).1 n) b k =
  if decide (b = n) then None else GetObject s b k.
Proof.
  rewrite create_get. destruct (delete_bucket_facts s n) as (_ & _ & H1 & H2 & _).
  case_decide as Hd; [subst; apply H1|by apply H2].
Qed.

Lemma fresh_bucket_exists s n b :
  BucketExists (CreateBucket (MemStore.DeleteBucket s n).1 n) b = bool_decide (b = n) || BucketExists s b.
Proof.
  rewrite create_exists. destruct (delete_bucket_facts s n) as (_ & _ & _ & _ & H1).
  destruct (decide (b = n)) as [->|Hb]; [by rewrite bool_decide_eq_true_2|]. by rewrite H1.
Qed.

(** Whatever happens, an object found afterwards was there or is made from a file. *)
Lemma load_entries_sound ctx now es n s r s' r' e b k o :
  Forall (fun x => wf_node x.2 = true) es ->
  load_entries ctx now es n s r = (s', r', e) -> GetObject s' b k = Some o ->
  GetObject s b k = Some o \/
  exists x l, x ∈ es /\ loads b x = true /\ key_file x.2 k = Some l /\ file_object l o.
Proof.
  revert n s r. induction es as [|[name d] es IH]; intros n s r Hwf; simpl; [intros [= <- _ _]; by left|].
  apply Forall_cons in Hwf as [Hd Hwf]. simpl in Hd.
  assert (Hlift : forall P : Prop,
    (GetObject s' b k = Some o -> P \/ exists x l, x ∈ es /\ loads b x = true /\
       key_file x.2 k = Some l /\ file_object l o) ->
    GetObject s' b k = Some o -> P \/ exists x l, x ∈ (name, d) :: es /\ loads b x = true /\
       key_file x.2 k = Some l /\ file_object l o).
  { intros P HP Ho. destruct (HP Ho) as [|(x & l & Hx & Hr)]; [by left|]. right.
    exists x, l. split; [by right|done]. }
  destruct (ctx n); [intros [= <- _ _]; by left|].
  destruct (IsDir d) eqn:Hdir; simpl; [|intros Hl; apply Hlift, (IH _ _ _ Hwf Hl)].
  destruct (String.eqb_spec (TrimSpace name) EmptyString) as [Hn|Hn];
    [intros Hl; apply Hlift, (IH _ _ _ Hwf Hl)|].
  destruct (loadBucketObjects ctx d (S n)) as [n' [objs|e1]] eqn:Ho; [|intros [= <- _ _]; by left].
  destruct (load_keys _ _ _ _ _ Hd Hdir Ho) as (_ & _ & Hk).
  assert (Hput : forall s1 r1 e1,
    put_objects now (TrimSpace name) objs (CreateBucket (MemStore.DeleteBucket s (TrimSpace name)).1 (TrimSpace name)) r = (s1, r1, e1) ->
    GetObject s1 b k = Some o ->
    GetObject s b k = Some o \/ exists x l, x ∈ (name, d) :: es /\ loads b x = true /\
       key_file x.2 k = Some l /\ file_object l o).
  { intros s1 r1 e1 Hp Hg. destruct (put_objects_sound _ _ _ _ _ _ _ _ _ _ _ Hp Hg) as [Hs|Hs].
    - rewrite fresh_bucket_get in Hs. case_decide; [done|by left].
    - destruct Hs as (-> & x & t & Hx & <- & ->). right. destruct (Hk x Hx) as (l & Hl & Hb).
      exists (name, d), l. split_and!; [by left| |done|done].
      unfold loads. simpl. rewrite Hdir, String.eqb_refl. apply String.eqb_neq in Hn. by rewrite Hn. }
  destruct (put_objects now _ objs _ r) as [[s1 r1] [e1|]] eqn:Hp.
  - intros [= <- _ _]. by apply (Hput _ _ _ eq_refl).
  - intros Hl Hg. destruct (IH _ _ _ Hwf Hl Hg) as [Hs|(x & l & Hx & Hr)].
    + by apply (Hput _ _ _ eq_refl).
    + right. exists x, l. split; [by right|done].
Qed.

(** Into a store without a bound, a load that succeeds replaces the buckets it names. *)
Lemma load_entries_unbounded ctx now es n s r s' r' :
  Forall (fun x => wf_node x.2 = true) es -> maxBytes s <= 0 ->
  load_entries ctx now es n s r = (s', r', None) ->
  (forall b, BucketExists s' b = bool_decide (b ∈ loaded_names es) || BucketExists s b) /\
  (forall b k, match last_dir es b with
               | Some d => match key_file d k with
                           | Some l => exists o, GetObject s' b k = Some o /\ file_object l o
                           | None => GetObject s' b k = None
                           end
               | None => GetObject s' b k = GetObject s b k
               end).
Proof.
  unfold loaded_names.
  revert n s r. induction es as [|[name d] es IH]; intros n s r Hwf Hmax; simpl.
  { intros [= <- _]. done. }
  apply Forall_cons in Hwf as [Hd Hwf]. simpl in Hd. rewrite loaded_dirs_cons. unfold loads. simpl.
  destruct (ctx n); [done|]. destruct (IsDir d) eqn:Hdir; simpl.
  2: { intros Hl. destruct (IH _ _ _ Hwf Hmax Hl) as [H1 H2]. split; [done|].
       intros b k. specialize (H2 b k). by destruct (last_dir es b). }
  destruct (String.eqb_spec (TrimSpace name) EmptyString) as [Hn|Hn]; simpl.
  { intros Hl. destruct (IH _ _ _ Hwf Hmax Hl) as [H1 H2]. split; [done|].
    intros b k. specialize (H2 b k). destruct (last_dir es b); [done|].
    rewrite Hn. destruct (String.eqb_spec EmptyString b) as [<-|]; done. }
  destruct (loadBucketObjects ctx d (S n)) as [n' [objs|e1]] eqn:Ho; [|done].
  destruct (load_keys _ _ _ _ _ Hd Hdir Ho) as (Hnd & Hk & _).
  set (bucket := TrimSpace name) in *. set (s1 := CreateBucket (MemStore.DeleteBucket s bucket).1 bucket).
  assert (Hm1 : maxBytes s1 <= 0) by (subst s1; by rewrite create_max, delete_bucket_max).
  assert (Hb1 : BucketExists s1 bucket = true).
  { subst s1. rewrite fresh_bucket_exists. by rewrite (bool_decide_eq_true_2 (bucket = bucket)). }
  pose proof (put_objects_unbounded now bucket objs s1 r Hm1 Hb1 Hnd) as Hp.
  destruct (put_objects now bucket objs s1 r) as [[s2 r2] e]. destruct Hp as (-> & Hm2 & He2 & Hin & Hout).
  rewrite <- Hm2 in Hm1. intros Hl. destruct (IH _ _ _ Hwf Hm1 Hl) as [H1 H2]. split.
  - intros b. rewrite H1, He2. subst s1. rewrite fresh_bucket_exists. simpl.
    apply eq_true_iff_eq. rewrite !orb_true_iff, !bool_decide_eq_true, elem_of_cons. simpl. tauto.
  - intros b k. specialize (H2 b k). destruct (last_dir es b); [done|]. rewrite H2.
    destruct (String.eqb_spec bucket b) as [<-|Hb]; simpl.
    + apply String.eqb_neq in Hn. rewrite Hn. simpl. specialize (Hk k).
      destruct (key_file d k) as [l|].
      * destruct Hk as (x & Hx & <- & Hbody). destruct (Hin x Hx) as (t & ->). eexists. by split.
      * rewrite Hout by by right. subst s1. by rewrite fresh_bucket_get, decide_True.
    + rewrite Hout by by left. subst s1. by rewrite fresh_bucket_get, decide_False.
Qed.
End FolderFacts.

(** ** Properties: the loader of the bounded store *)

(** C28: adding a folder to a store without a bound replaces every bucket it names: the
    bucket then holds exactly the files of the last directory of that name, each under its
    relative path with its content and digest; the other buckets keep every object; the
    counts returned are those of the files, and the bucket list is sorted. *)
Theorem add_folder_replaces_buckets fs ctx now root es s s' r :
  fs (TrimSpace root) = Ok (NDir es None) -> wf_node (NDir es None) = true ->
  MemStore.maxBytes s <= 0 ->
  FolderLoader.AddFolder fs ctx now root s = (s', r, None) ->
  (forall b, MemStore.BucketExists s' b = bool_decide (b ∈ loaded_names es) || MemStore.BucketExists s b) /\
  (forall b k, match last_dir es b with
               | Some d => match key_file d k with
                           | Some l => exists o, MemStore.GetObject s' b k = Some o /\ FolderFacts.file_object l o
                           | None => MemStore.GetObject s' b k = None
                           end
               | None => MemStore.GetObject s' b k = MemStore.GetObject s b k
               end) /\
  r = {| Buckets := sort_by id (loaded_names es); BucketsLoaded := i64 (blen (loaded_names es));
         ObjectsLoaded := i64 (total_files es); BytesLoaded := i64 (total_bytes es) |}.
Proof.
  intros Hfs [_ Hwf]%wf_dir Hmax. unfold FolderLoader.AddFolder, open_root.
  destruct (String.eqb _ _); [done|]. rewrite Hfs. simpl.
  destruct (FolderLoader.load_entries _ _ _ _ _ _) as [[s1 r1] [e|]] eqn:Hl; [done|].
  intros [= <- <-].
  destruct (FolderFacts.load_entries_adds _ _ _ _ _ _ _ _ Hl ltac:(done)) as (_ & E1 & E2 & E3 & E4).
  apply FolderFacts.load_entries_unbounded in Hl as [H1 H2]; [|by eapply Forall_impl; [exact Hwf|intros x [_ Hx]]|done].
  split_and!; [done..|]. unfold FolderLoader.sort_buckets. by rewrite E1, E2, E3, E4.
Qed.

(** Whatever the store's bound and policy and however the load ends, with an error
    included, every object found afterwards was there before or has the content and digest
    of a file of a directory of its bucket's name. *)
Theorem add_folder_invents_nothing fs ctx now root es s s' r e b k o :
  open_root fs (TrimSpace root) = Ok es -> wf_node (NDir es None) = true ->
  FolderLoader.AddFolder fs ctx now root s = (s', r, e) -> MemStore.GetObject s' b k = Some o ->
  MemStore.GetObject s b k = Some o \/
  exists x l, x ∈ es /\ loads b x = true /\ key_file x.2 k = Some l /\ FolderFacts.file_object l o.
Proof.
  intros Hr [_ Hwf]%wf_dir. unfold FolderLoader.AddFolder. rewrite Hr.
  destruct (FolderLoader.load_entries _ _ _ _ _ _) as [[s1 r1] e1] eqn:Hl. intros Ha Hg.
  assert (s1 = s') as -> by (destruct e1; congruence).
  eapply FolderFacts.load_entries_sound; [|exact Hl|exact Hg].
  eapply Forall_impl; [exact Hwf|]. by intros x [_ Hx].
Qed.

#[local] Existing Instances MemStore.MemoryStore_store MemStore.MemoryStore_laws.

(** Clearing deletes every bucket and counts them; no object is left. *)
Theorem clear_all_empties s :
  let '(s', deleted) := FolderLoader.ClearAll s in
  FolderLoader.ListBuckets s' = [] /\ deleted = i64 (blen (FolderLoader.ListBuckets s)) /\
  forall b k, MemStore.GetObject s' b k = None.
Proof.
  unfold FolderLoader.ClearAll, FolderLoader.ListBuckets.
  destruct (law_list_buckets s) as (_ & Hnd & Hall). simpl in Hnd, Hall.
  assert (Hfold : forall l st, NoDup l -> (forall b, b ∈ l -> MemStore.BucketExists st.1 b = true) ->
    i64 st.2 = st.2 ->
    let st' := fold_left FolderLoader.delete_one l st in
    st'.2 = i64 (st.2 + blen l) /\
    forall b, MemStore.BucketExists st'.1 b = MemStore.BucketExists st.1 b && negb (bool_decide (b ∈ l))).
  { clear s Hnd Hall. induction l as [|n l IH]; intros [s c] Hnd Hin Hc; simpl in Hc.
    { simpl. rewrite Z.add_0_r. split; [done|]. intros b. by rewrite andb_true_r. }
    apply NoDup_cons in Hnd as [Hn Hnd]. simpl.
    assert (Hs : FolderLoader.delete_one (s, c) n = ((MemStore.DeleteBucket s n).1, i64 (c + 1))).
    { unfold FolderLoader.delete_one. simpl.
      destruct (MemStore.delete_bucket_facts s n) as (Hd & _). 
      specialize (Hin n). simpl in Hin. rewrite Hin in Hd by by left.
      by destruct (MemStore.DeleteBucket s n) as [s1 [|]]. }
    rewrite Hs. destruct (MemStore.delete_bucket_facts s n) as (_ & Hf & _ & _ & He).
    destruct (IH ((MemStore.DeleteBucket s n).1, i64 (c + 1)) Hnd) as [H1 H2].
    - intros b Hb. simpl. rewrite He; [by apply Hin; right|]. by intros ->.
    - apply i64_idem.
    - split.
      + rewrite H1. simpl. rewrite i64_add_i64. unfold blen. simpl. f_equal. lia.
      + intros b. rewrite H2. simpl. destruct (decide (b = n)) as [->|Hb].
        * rewrite Hf. rewrite (bool_decide_eq_true_2 (n ∈ n :: l)) by by left. simpl.
          by rewrite andb_false_r.
        * rewrite He by done. f_equal. f_equal. apply bool_decide_ext. rewrite elem_of_cons. tauto. }
  specialize (Hfold (MemStore.ListBuckets s) (s, 0) Hnd).
  destruct Hfold as [H1 H2]; [intros b Hb; by apply Hall|done|].
  destruct (fold_left _ _ (s, 0)) as [s' n]. simpl in H1, H2.
  assert (Hno : forall b, MemStore.BucketExists s' b = false).
  { intros b. rewrite H2. destruct (MemStore.BucketExists s b) eqn:Hb; [|done]. apply Hall in Hb.
    by rewrite bool_decide_eq_true_2. }
  split_and!.
  - destruct (law_list_buckets s') as (_ & _ & Hall'). simpl in Hall'.
    apply elem_of_nil_inv. intros b Hb. apply Hall' in Hb. by rewrite Hno in Hb.
  - by rewrite Z.add_0_l in H1.
  - intros b k. destruct (MemStore.GetObject s' b k) as [o|] eqn:Ho; [|done].
    pose proof (law_get_bucket s' b k o Ho) as Hb. simpl in Hb. by rewrite Hno in Hb.
Qed.

(** *** Loads on concrete trees *)

Definition no_ctx (i : nat) : option string := None.

Lemma add_folder_replaces_buckets_witness :
  let s0 := (MemStore.PutObject (MemStore.NewMemoryStore 0 "reject") "b" "old" [] (demo_now 0)).1 in
  let s := (FolderLoader.AddFolder demo_fs no_ctx demo_now "/data" s0).1.1 in
  MemStore.GetObject s "b" "old" = None /\ MemStore.BucketExists s "a" = true.
Proof.
  intros s0. destruct (FolderLoader.AddFolder demo_fs no_ctx demo_now "/data" s0) as [[s r] err] eqn:Hl.
  simpl. assert (err = None) as -> by (vm_compute in Hl; congruence).
  destruct (add_folder_replaces_buckets demo_fs no_ctx demo_now "/data" demo_root s0 s r
              eq_refl ltac:(by vm_compute) ltac:(done) Hl) as (Hb & Hk & _). split.
  - exact (Hk "b" "old").
  - rewrite Hb. by vm_compute.
Defined.

Lemma add_folder_invents_nothing_witness :
  let s := (FolderLoader.AddFolder demo_fs no_ctx demo_now "/data" (MemStore.NewMemoryStore 0 "reject")).1.1 in
  exists o x l, MemStore.GetObject s "a" "k" = Some o /\ loads "a" x = true /\
    key_file x.2 "k" = Some l /\ FolderFacts.file_object l o.
Proof.
  destruct (FolderLoader.AddFolder demo_fs no_ctx demo_now "/data" (MemStore.NewMemoryStore 0 "reject"))
    as [[s r] e] eqn:Hl. simpl.
  destruct (MemStore.GetObject s "a" "k") as [o|] eqn:Ho.
  - destruct (add_folder_invents_nothing demo_fs no_ctx demo_now "/data" demo_root _ s r e "a" "k" o
                eq_refl ltac:(by vm_compute) Hl Ho) as [Hn|(x & l & _ & Hx)]; [by vm_compute in Hn|].
    exists o, x, l. by split.
  - exfalso. apply (f_equal (fun x => bool_decide (is_Some (MemStore.GetObject x.1.1 "a" "k")))) in Hl.
    simpl in Hl. rewrite Ho in Hl. by vm_compute in Hl.
Defined.

(** A refused put in the middle of a load leaves the bucket half replaced: the object
    it held before is gone, one of the folder's two objects is there, and the request fails. *)
Theorem failed_load_loses_old_objects :
  let put s k v := (MemStore.PutObject s "a" k (bytes_of_string v) (demo_now 0)).1 in
  let s0 := put (MemStore.NewMemoryStore 6 "reject") "old" "kept?" in
  let fs path := Ok (NDir [("a", NDir [("k1", txt "1234"); ("k2", txt "5678")] None)] None) in
  let '(s, r, e) := FolderLoader.AddFolder fs no_ctx demo_now "/d" s0 in
  is_Some (MemStore.GetObject s0 "a" "old") /\ e <> None /\
  MemStore.GetObject s "a" "old" = None /\ is_Some (MemStore.GetObject s "a" "k1") /\
  MemStore.GetObject s "a" "k2" = None.
Proof. vm_compute. split_and!; eauto. discriminate. Qed.

(** Two directories whose names differ in outer white space are one bucket: the second
    replaces the first, and the counts returned include the lost object and the bucket twice. *)
Theorem merged_directories_lose_files :
  let '(s, r, e) := FolderLoader.AddFolder demo_fs no_ctx demo_now "/data" (MemStore.NewMemoryStore 0 "reject") in
  e = None /\ MemStore.GetObject s "a" "sub/x" = None /\
  r = {| Buckets := ["a"; "a"; "b"]; BucketsLoaded := 3; ObjectsLoaded := 4; BytesLoaded := 15 |} /\
  MemStore.ListBuckets s = ["a"; "b"].
Proof. vm_compute. by split_and!. Qed.
