(* ===== verification/Control.v ===== *)
(** * The control service of the in-memory server (internal/inmems3/control/server.go)

    The four gRPC methods over the loader of Loader.v, with the status a caller gets for
    each failure.  The status of a failed load is chosen from the error's chain and from
    its text, so the texts of the loader's errors are here. *)

From S2P Require Import Prelude Md5 StoreIface FileTree Loader.
From S2P Require MemStore.

(** ** Error texts *)

(** [strconv.Quote], the verb %q: the escapes of ASCII characters.  Bytes from 128 on are
    kept, as Go keeps a printable rune; its \x and \u escapes of invalid or unprintable ones
    are not modelled.  The one test made on such a text looks for ASCII words, which those
    escapes neither make nor hide. *)
Definition quote_char (c : ascii) : string :=
  let n := Z.of_nat (nat_of_ascii c) in
  let esc a := String "\" (String a EmptyString) in
  if n =? 34 then esc c else if n =? 92 then esc c
  else if n =? 7 then esc "a"%char else if n =? 8 then esc "b"%char
  else if n =? 12 then esc "f"%char else if n =? 10 then esc "n"%char
  else if n =? 13 then esc "r"%char else if n =? 9 then esc "t"%char
  else if n =? 11 then esc "v"%char
  else if (n <? 32) || (n =? 127) then
    "\x" +:+ String (hex_digit (n / 16)) (String (hex_digit (n mod 16)) EmptyString)
  else String c EmptyString.

Fixpoint quote_body (s : string) : string :=
  match s with EmptyString => EmptyString | String c s' => quote_char c +:+ quote_body s' end.

Definition Quote (s : string) : string := dquote +:+ quote_body s +:+ dquote.

Definition store_error_text (e : MemStore.StoreErr) : string :=
  match e with
  | MemStore.ErrCapacityExceeded need used limit =>
    "store capacity exceeded: need=" +:+ fmt_d need +:+ " used=" +:+ fmt_d used +:+
    " limit=" +:+ fmt_d limit
  | MemStore.UnsupportedPolicy v => "unsupported eviction policy " +:+ Quote v
  end.

Fixpoint error_text (e : LoadErr) : string :=
  match e with
  | EmptyRoot => "payload root must not be empty"
  | RootNotDirectory root => "payload root " +:+ Quote root +:+ " is not a directory"
  | OsError e => os_text e
  | CtxError text => text
  | LoadBucketErr bucket e => "load bucket " +:+ Quote bucket +:+ ": " +:+ error_text e
  | StoreObjectErr bucket key e =>
    "store bucket " +:+ Quote bucket +:+ " key " +:+ Quote key +:+ ": " +:+ store_error_text e
  end.

(** [errors.Is(err, fs.ErrNotExist)] follows the wrapped errors. *)
Fixpoint is_not_exist (e : LoadErr) : bool :=
  match e with
  | OsError e => os_not_exist e
  | LoadBucketErr _ e => is_not_exist e
  | _ => false
  end.

(** ** The service *)

Inductive Code := InvalidArgument | NotFound | Internal.

Record Status := { code : Code; message : string }.

Record AddFolderResponse := {
  BucketsLoaded : Z;
  ObjectsLoaded : Z;
  BytesLoaded : Z;
  Buckets : list string;
}.

Definition toStatusError (err : LoadErr) : Status :=
  if is_not_exist err then {| code := NotFound; message := error_text err |}
  else if Contains (error_text err) "is not a directory" then
    {| code := InvalidArgument; message := error_text err |}
  else {| code := Internal; message := error_text err |}.

Definition AddFolder (fs : string -> res OsErr node) (ctx : nat -> option string) (now : Z -> Time)
    (path : string) (s : MemStore.MemoryStore)
    : MemStore.MemoryStore * res Status AddFolderResponse :=
  if String.eqb (TrimSpace path) EmptyString then
    (s, Err {| code := InvalidArgument; message := "path must not be empty" |})
  else
    match FolderLoader.AddFolder fs ctx now path s with
    | (s', _, Some err) => (s', Err (toStatusError err))
    | (s', r, None) =>
      (s', Ok {| BucketsLoaded := u32 (Loader.BucketsLoaded r);
                 ObjectsLoaded := u32 (Loader.ObjectsLoaded r);
                 BytesLoaded := u64 (Loader.BytesLoaded r); Buckets := Loader.Buckets r |})
    end.

Definition DeleteBucket (bucket : string) (s : MemStore.MemoryStore)
    : MemStore.MemoryStore * res Status bool :=
  let bucket := TrimSpace bucket in
  if String.eqb bucket EmptyString then
    (s, Err {| code := InvalidArgument; message := "bucket must not be empty" |})
  else let '(s', deleted) := FolderLoader.DeleteBucket s bucket in (s', Ok deleted).

Definition ClearAll (s : MemStore.MemoryStore) : MemStore.MemoryStore * res Status Z :=
  let '(s', n) := FolderLoader.ClearAll s in (s', Ok (u32 n)).

Definition ListBuckets (s : MemStore.MemoryStore) : res Status (list string) :=
  Ok (FolderLoader.ListBuckets s).

(** ** Properties *)

Lemma not_directory_text root :
  Contains (error_text (RootNotDirectory root)) "is not a directory" = true.
Proof.
  apply (Contains_app "payload root "), (Contains_app (Quote root) " is not a directory").
  by vm_compute.
Qed.

(** The status of a request to load a folder: a blank path, a path that is missing and
    one that is not a directory are answered InvalidArgument, NotFound and InvalidArgument,
    and none of them changes the store. *)
Theorem add_folder_bad_path fs ctx now path s :
  (TrimSpace path = EmptyString ->
   exists m, AddFolder fs ctx now path s = (s, Err {| code := InvalidArgument; message := m |})) /\
  (TrimSpace path <> EmptyString -> forall e, fs (TrimSpace path) = Err e -> os_not_exist e = true ->
   AddFolder fs ctx now path s = (s, Err {| code := NotFound; message := os_text e |})) /\
  (TrimSpace path <> EmptyString -> forall d, fs (TrimSpace path) = Ok d -> IsDir d = false ->
   exists m, AddFolder fs ctx now path s = (s, Err {| code := InvalidArgument; message := m |})).
Proof.
  unfold AddFolder, FolderLoader.AddFolder, open_root. split_and!.
  - intros ->. simpl. eauto.
  - intros Hp e He Hn. apply String.eqb_neq in Hp. rewrite Hp, He. unfold toStatusError. simpl. by rewrite Hn.
  - intros Hp d Hd Hdir. apply String.eqb_neq in Hp. rewrite Hp, Hd, Hdir. unfold toStatusError. simpl.
    pose proof (not_directory_text (TrimSpace path)) as Ht. simpl in Ht. rewrite Ht. eauto.
Qed.

(** A folder that loads is answered with the counts of its files, exact as long as they
    fit the message's 32 and 64 bits, and the sorted bucket names. *)
Theorem add_folder_reports_counts fs ctx now path es s s' resp :
  fs (TrimSpace path) = Ok (NDir es None) ->
  blen (loaded_names es) < 2 ^ 32 -> total_files es < 2 ^ 32 -> total_bytes es < 2 ^ 63 ->
  AddFolder fs ctx now path s = (s', Ok resp) ->
  resp = {| BucketsLoaded := blen (loaded_names es); ObjectsLoaded := total_files es;
            BytesLoaded := total_bytes es; Buckets := sort_by id (loaded_names es) |}.
Proof.
  intros Hfs Hn Hf Hb. unfold AddFolder, FolderLoader.AddFolder, open_root.
  destruct (String.eqb _ _); [done|]. rewrite Hfs. simpl.
  destruct (FolderLoader.load_entries _ _ _ _ _ _) as [[s1 r1] [e|]] eqn:Hl; [done|]. intros [= _ <-].
  destruct (FolderFacts.load_entries_adds _ _ _ _ _ _ _ _ Hl ltac:(done)) as (_ & E1 & E2 & E3 & E4).
  simpl in E1, E2, E3, E4. rewrite E1, E2, E3, E4.
  assert (0 <= total_files es) by (apply zsum_nonneg; intros e; apply blen_nonneg).
  assert (0 <= total_bytes es).
  { apply zsum_nonneg. intros e. apply zsum_nonneg. intros [p l]. unfold leaf_size. simpl.
    destruct (lf_body l); [apply blen_nonneg|done]. }
  pose proof (blen_nonneg (loaded_names es)).
  rewrite !i64_id by lia. by rewrite !u32_id, u64_id by lia.
Qed.

(** Deleting a bucket names it without outer white space, reports whether it existed,
    and leaves no object in it and every other bucket as it was. *)
Theorem control_delete_bucket bucket s :
  TrimSpace bucket <> EmptyString ->
  let '(s', r) := DeleteBucket bucket s in
  r = Ok (MemStore.BucketExists s (TrimSpace bucket)) /\
  MemStore.BucketExists s' (TrimSpace bucket) = false /\
  forall b k, b <> TrimSpace bucket -> MemStore.GetObject s' b k = MemStore.GetObject s b k.
Proof.
  intros Hb. unfold DeleteBucket, FolderLoader.DeleteBucket. apply String.eqb_neq in Hb. rewrite Hb.
  rewrite TrimSpace_idem.
  destruct (MemStore.delete_bucket_facts s (TrimSpace bucket)) as (H1 & H2 & _ & H3 & _).
  destruct (MemStore.DeleteBucket s (TrimSpace bucket)) as [s' ok]. simpl in *. by rewrite H1.
Qed.

(** *** On concrete requests *)

Lemma add_folder_reports_counts_witness :
  let r := (AddFolder demo_fs no_ctx demo_now "/data" (MemStore.NewMemoryStore 0 "reject")).2 in
  r = Ok {| BucketsLoaded := 3; ObjectsLoaded := 4; BytesLoaded := 15; Buckets := ["a"; "a"; "b"] |}.
Proof.
  destruct (AddFolder demo_fs no_ctx demo_now "/data" (MemStore.NewMemoryStore 0 "reject"))
    as [s' [resp|st]] eqn:Hl; [|by vm_compute in Hl]. simpl.
  by rewrite (add_folder_reports_counts demo_fs no_ctx demo_now "/data" demo_root _ s' resp
              eq_refl ltac:(by vm_compute) ltac:(by vm_compute) ltac:(by vm_compute) Hl).
Defined.

Lemma control_delete_bucket_witness :
  (DeleteBucket " a " (MemStore.NewMemoryStore 0 "reject")).2 = Ok false.
Proof.
  pose proof (control_delete_bucket " a " (MemStore.NewMemoryStore 0 "reject") ltac:(by vm_compute)) as Hd.
  destruct (DeleteBucket " a " _) as [s' r]. by destruct Hd as [-> _].
Defined.

(** An unreadable file is an internal error, but not when its bucket's name holds the
    words the status is chosen by: the caller is then told its argument is invalid. *)
Theorem bucket_name_changes_status :
  let bad := NFile {| lf_body := Err {| os_text := "permission denied"; os_not_exist := false |};
                      lf_mtime := Ok (demo_now 0) |} in
  let load name := (AddFolder (fun _ => Ok (NDir [(name, NDir [("f", bad)] None)] None)) no_ctx demo_now
                      "/data" (MemStore.NewMemoryStore 0 "reject")).2 in
  (exists m, load "plain" = Err {| code := Internal; message := m |}) /\
  (exists m, load "x is not a directory" = Err {| code := InvalidArgument; message := m |}).
Proof. split; eexists; vm_compute; reflexivity. Qed.
