(* ===== verification/Ingest.v ===== *)
(** * Reading an upload body (internal/inmems3/ingest/put.go, s3rdmaserver/s3api consumeBody)

    Both servers discard an uploaded body after digesting it.  An [io.ReadCloser] is
    the script of what its successive [Read] calls return, [(n bytes, error)]; when
    the script is over it returns [(0, io.EOF)].  The theorems show that the outcome
    depends on the bytes only, not on how the reader cuts them. *)

From S2P Require Import Prelude Md5.

Definition digestBufferSize : Z := 128 * 1024.

(** ** Readers *)

Inductive ReadErr :=
| EOF
| ReadFailure (msg : string).

Record Reader := { script : list (list byte * option ReadErr); closed : bool }.

(** A reader that fits its buffer: no [Read] returns more than it was offered. *)
Definition reader_ok (r : Reader) : Prop :=
  Forall (fun e => blen e.1 <= digestBufferSize) (script r).

Definition Read (r : Reader) : list byte * option ReadErr * Reader :=
  match script r with
  | [] => ([], Some EOF, r)
  | (p, err) :: rest => (p, err, {| script := rest; closed := closed r |})
  end.

Definition Close (r : Reader) : Reader := {| script := script r; closed := true |}.

(** ** Results and errors *)

Record Result := { r_ETag : string; r_Size : Z }.

Inductive IngestErr :=
| ObjectTooLarge (size maxObjectSize : Z)
| BodyReadErr (msg : string).

(** The text of the error, as [err.Error()] gives it. *)
Definition ingest_error_text (e : IngestErr) : string :=
  match e with
  | ObjectTooLarge size max => "object too large: " +:+ fmt_d size +:+ " > " +:+ fmt_d max
  | BodyReadErr msg => msg
  end.

(** ** The loop *)

Definition resultForSum (hasher : Hasher) (size : Z) : Result :=
  {| r_ETag := quoted_hex (hasher_sum hasher); r_Size := size |}.

Definition ResultForBytes (payload : list byte) : Result :=
  {| r_ETag := quoted_hex (md5_sum payload); r_Size := blen payload |}.

(** One turn of the loop per script entry, and one more for the final EOF:
    [consume_fuel] turns are enough. *)
Fixpoint consume_loop (fuel : nat) (r : Reader) (maxObjectSize : Z) (hasher : Hasher) (size : Z)
    : option (Reader * res IngestErr Result) :=
  match fuel with
  | O => None
  | S fuel' =>
    let '(p, err, r') := Read r in
    let n := blen p in
    let size' := if 0 <? n then i64 (size + n) else size in
    if (0 <? n) && ((0 <? maxObjectSize) && (maxObjectSize <? size')) then
      Some (r', Err (ObjectTooLarge size' maxObjectSize))
    else
      let hasher' := if 0 <? n then hasher_write hasher p else hasher in
      match err with
      | Some EOF => Some (r', Ok (resultForSum hasher' size'))
      | Some (ReadFailure msg) => Some (r', Err (BodyReadErr msg))
      | None => consume_loop fuel' r' maxObjectSize hasher' size'
      end
  end.

Definition consume_fuel (r : Reader) : nat := S (length (script r)).

Definition ConsumeReader (body : Reader) (maxObjectSize : Z)
    : option (Reader * res IngestErr Result) :=
  '(r, out) ← consume_loop (consume_fuel body) body maxObjectSize hasher_new 0;
  Some (Close r, out).

(** s3rdmaserver's copy of the loop. *)
Definition quotedHash (hasher : Hasher) : string := quoted_hex (hasher_sum hasher).

Fixpoint consumeBody_loop (fuel : nat) (r : Reader) (maxObjectSize : Z) (hasher : Hasher) (size : Z)
    : option (Reader * res IngestErr Result) :=
  match fuel with
  | O => None
  | S fuel' =>
    let '(p, err, r') := Read r in
    let n := blen p in
    let size' := if 0 <? n then i64 (size + n) else size in
    if (0 <? n) && ((0 <? maxObjectSize) && (maxObjectSize <? size')) then
      Some (r', Err (ObjectTooLarge size' maxObjectSize))
    else
      let hasher' := if 0 <? n then hasher_write hasher p else hasher in
      match err with
      | Some EOF => Some (r', Ok {| r_ETag := quotedHash hasher'; r_Size := size' |})
      | Some (ReadFailure msg) => Some (r', Err (BodyReadErr msg))
      | None => consumeBody_loop fuel' r' maxObjectSize hasher' size'
      end
  end.

Definition consumeBody (body : Reader) (maxObjectSize : Z)
    : option (Reader * res IngestErr Result) :=
  '(r, out) ← consumeBody_loop (consume_fuel body) body maxObjectSize hasher_new 0;
  Some (Close r, out).

(** ** Specification: the bytes of a body and how it ends

    [stream r]: everything the reader delivers until its first error, and the
    message of that error unless it is EOF. *)
Fixpoint stream (l : list (list byte * option ReadErr)) : list byte * option string :=
  match l with
  | [] => ([], None)
  | (p, Some EOF) :: _ => (p, None)
  | (p, Some (ReadFailure msg)) :: _ => (p, Some msg)
  | (p, None) :: l' => let '(m, e) := stream l' in (p ++ m, e)
  end.

Definition within (maxObjectSize n : Z) : bool := (maxObjectSize <=? 0) || (n <=? maxObjectSize).

(** ** Lemmas *)

Lemma stream_nonneg l : 0 <= blen (stream l).1.
Proof. apply blen_nonneg. Qed.

Lemma blen_positive (p : list byte) : (0 <? blen p) = false -> p = [].
Proof. intros H. bool_facts. apply blen_zero. pose proof (blen_nonneg p). lia. Qed.

(** A turn of the loop that is neither too large nor the last one. *)
Lemma consume_loop_spec r max h fuel :
  (length (script r) < fuel)%nat ->
  blen (written h) + blen (stream (script r)).1 < 2 ^ 63 ->
  within max (blen (written h)) = true ->
  exists r' out, consume_loop fuel r max h (blen (written h)) = Some (r', out) /\
  closed r' = closed r /\
  let '(m, e) := stream (script r) in
  let all := written h ++ m in
  if within max (blen all) then
    out = match e with
          | None => Ok (ResultForBytes all)
          | Some msg => Err (BodyReadErr msg)
          end
  else exists p q, all = p ++ q /\ out = Err (ObjectTooLarge (blen p) max) /\ max < blen p.
Proof.
  revert r h. induction fuel as [|fuel IH]; intros [l c] h Hf Hfit Hw; simpl in *; [lia|].
  unfold Read; simpl. destruct l as [|[p err] l].
  { eexists _, _. split; [reflexivity|]. split; [done|]. simpl. rewrite app_nil_r, Hw.
    unfold resultForSum, ResultForBytes, hasher_sum. done. }
  assert (Hp : 0 <= blen p) by apply blen_nonneg.
  assert (Hm : blen p <= blen (stream ((p, err) :: l)).1).
  { simpl. destruct err as [[|msg]|]; simpl; try lia. pose proof (stream_nonneg l).
    destruct (stream l) as [m e]; simpl in *. rewrite blen_app. lia. }
  pose proof (blen_nonneg (written h)) as Hh.
  set (h' := if 0 <? blen p then hasher_write h p else h).
  assert (Hwr : written h' = written h ++ p).
  { unfold h'. destruct (0 <? blen p) eqn:E; [done|]. apply blen_positive in E as ->.
    by rewrite app_nil_r. }
  assert (Hsz : (if 0 <? blen p then i64 (blen (written h) + blen p) else blen (written h))
                = blen (written h')).
  { rewrite Hwr, blen_app. destruct (0 <? blen p) eqn:E; [rewrite i64_id; lia|].
    apply blen_positive in E as ->. unfold blen; simpl; lia. }
  rewrite Hsz. destruct (_ && _) eqn:Ebig.
  - bool_facts. eexists _, _. split; [reflexivity|]. split; [done|].
    assert (Hsplit : exists m e, stream ((p, err) :: l) = (p ++ m, e)).
    { simpl. destruct err as [[|msg]|]; [by exists [], None; rewrite app_nil_r|
        by exists [], (Some msg); rewrite app_nil_r|]. destruct (stream l) as [m e]. by exists m, e. }
    destruct Hsplit as (m & e & ->). rewrite (app_assoc (written h)), <- Hwr.
    unfold within. rewrite (proj2 (Z.leb_gt max 0)), (proj2 (Z.leb_gt _ max)); simpl.
    + exists (written h'), m. done.
    + rewrite blen_app. pose proof (blen_nonneg m). lia.
    + done.
  - assert (Hw' : within max (blen (written h')) = true).
    { unfold within in *. destruct (max <=? 0) eqn:E0; [done|]; simpl in *.
      destruct (0 <? blen p) eqn:E1; simpl in Ebig.
      - rewrite (proj2 (Z.ltb_lt 0 max)) in Ebig by (bool_facts; lia). simpl in Ebig.
        bool_facts. by apply Z.leb_le.
      - apply blen_positive in E1 as ->. by rewrite Hwr, app_nil_r. }
    destruct err as [[|msg]|]; simpl.
    + eexists _, _. split; [reflexivity|]. split; [done|]. rewrite <- Hwr, Hw'.
      unfold resultForSum, ResultForBytes, hasher_sum. done.
    + eexists _, _. split; [reflexivity|]. split; [done|]. by rewrite <- Hwr, Hw'.
    + simpl in Hfit, Hf. destruct (stream l) as [m e] eqn:Es. simpl in Hfit.
      destruct (IH {| script := l; closed := c |} h') as (r' & out & Hc & Hcl & Hout); simpl.
      * lia.
      * rewrite Es, Hwr. rewrite !blen_app in *. simpl. lia.
      * done.
      * exists r', out. split; [done|]. split; [done|]. simpl in Hout.
        rewrite Es, Hwr, <- app_assoc in Hout. done.
Qed.

Lemma consumeBody_loop_eq fuel r max h size :
  consumeBody_loop fuel r max h size = consume_loop fuel r max h size.
Proof.
  revert r h size. induction fuel as [|fuel IH]; intros r h size; simpl; [done|].
  destruct (Read r) as [[p err] r']. case_match; [done|]. by destruct err as [[]|].
Qed.

Lemma consumeBody_eq r max : consumeBody r max = ConsumeReader r max.
Proof. unfold consumeBody, ConsumeReader. by rewrite consumeBody_loop_eq. Qed.

Lemma ConsumeReader_spec r max :
  blen (stream (script r)).1 < 2 ^ 63 ->
  exists r' out, ConsumeReader r max = Some (r', out) /\ closed r' = true /\
  let '(m, e) := stream (script r) in
  if within max (blen m) then
    out = match e with
          | None => Ok (ResultForBytes m)
          | Some msg => Err (BodyReadErr msg)
          end
  else exists p q, m = p ++ q /\ out = Err (ObjectTooLarge (blen p) max) /\ max < blen p.
Proof.
  intros Hfit. unfold ConsumeReader, consume_fuel.
  destruct (consume_loop_spec r max hasher_new (S (length (script r)))) as (r' & out & Hc & _ & Ho).
  - lia.
  - done.
  - unfold within. change (blen (written hasher_new)) with 0. destruct (max <=? 0) eqn:E; [done|].
    bool_facts. apply Z.leb_le. lia.
  - change (blen (written hasher_new)) with 0 in Hc. rewrite Hc. simpl. by exists (Close r'), out.
Qed.

(** The loop always ends: one turn per script entry and the final EOF. *)
Lemma consume_loop_total fuel r max h size :
  (length (script r) < fuel)%nat -> is_Some (consume_loop fuel r max h size).
Proof.
  revert r h size. induction fuel as [|fuel IH]; intros [l c] h size Hf; simpl in *; [lia|].
  unfold Read; simpl. destruct l as [|[p err] l]; simpl; [eauto|].
  destruct (_ && _); [eauto|]. destruct err as [[]|]; [eauto..|].
  apply IH. simpl in *. lia.
Qed.

Lemma ConsumeReader_total r max : is_Some (ConsumeReader r max).
Proof.
  unfold ConsumeReader.
  destruct (consume_loop_total (consume_fuel r) r max hasher_new 0) as [[r' out] E].
  { unfold consume_fuel. lia. }
  rewrite E. simpl. eauto.
Qed.

(** ** Properties *)

(** C38: consuming an upload always ends, closes the body, and its outcome depends
    only on the bytes delivered: within the limit, the quoted MD5 and length of the
    whole body (or the reader's own error); beyond the limit, the size error, whatever
    the chunks.  Both servers' copies of the loop agree. *)
Theorem consume_chunking_independent r max :
  blen (stream (script r)).1 < 2 ^ 63 ->
  consumeBody r max = ConsumeReader r max /\
  exists r' out, ConsumeReader r max = Some (r', out) /\ closed r' = true /\
  let '(m, e) := stream (script r) in
  if within max (blen m) then
    out = match e with
          | None => Ok (ResultForBytes m)
          | Some msg => Err (BodyReadErr msg)
          end
  else exists p q, m = p ++ q /\ out = Err (ObjectTooLarge (blen p) max) /\ max < blen p.
Proof. intros Hfit. split; [apply consumeBody_eq|by apply ConsumeReader_spec]. Qed.

(** ** Witnesses *)

Definition demo_reader : Reader :=
  {| script := [(bytes_of_string "message ", None); ([], None); (bytes_of_string "digest", Some EOF)];
     closed := false |}.

Lemma consume_chunking_independent_witness :
  consumeBody demo_reader 14 = ConsumeReader demo_reader 14 /\
  ConsumeReader demo_reader 14 =
    Some ({| script := []; closed := true |},
          Ok {| r_ETag := quoted_hex (md5_sum (bytes_of_string "message digest")); r_Size := 14 |}).
Proof.
  split; [|vm_compute; reflexivity].
  refine (proj1 (consume_chunking_independent demo_reader 14 _)). vm_compute. reflexivity.
Defined.
