(* ===== verification/S3Api.v ===== *)
(** * The S3 HTTP handlers (internal/inmems3/s3api, internal/s3rdmaserver/s3api)

    The two handlers are one program up to the name they sign with and the body
    consumer they call: the Section below is that program over any [ObjectStore];
    the [inmem_] and [std_] definitions after it are the two handlers.  A request
    goes through the code's own path: the three headers, the root path, the split of
    the path into bucket and key, then the method.  An XML document is kept as the
    record the code hands to the encoder.  The theorems use the store's contract
    [ObjectStoreLaws] only. *)

From S2P Require Import Prelude Md5 StoreIface TimeFmt Ingest.
From S2P Require MemStore LoadedStore.

(** ** net/http, net/url and strconv, as far as the handlers use them *)

(** [r.Method], the decoded [r.URL.Path], the decoded query pairs and the body. *)
Record Request := {
  Method : string;
  Path : string;
  Query : list (string * string);
  ReqBody : Reader;
}.

(** [r.URL.Query().Get(name)]: the first value, or the empty string. *)
Fixpoint QueryGet (q : list (string * string)) (name : string) : string :=
  match q with
  | [] => EmptyString
  | (n, v) :: q' => if String.eqb n name then v else QueryGet q' name
  end.

Definition is_hex (a : ascii) : bool :=
  let n := nat_of_ascii a in
  ((48 <=? n) && (n <=? 57) || (97 <=? n) && (n <=? 102) || (65 <=? n) && (n <=? 70))%nat.

Definition unhex (a : ascii) : nat :=
  let n := nat_of_ascii a in
  if ((48 <=? n) && (n <=? 57))%nat then (n - 48)%nat
  else if ((97 <=? n) && (n <=? 102))%nat then (n - 97 + 10)%nat
  else (n - 65 + 10)%nat.

(** [url.PathUnescape]; the error carries the offending escape. *)
Fixpoint PathUnescape (s : string) : res string string :=
  match s with
  | EmptyString => Ok EmptyString
  | String c r =>
    if Ascii.eqb c "%" then
      match r with
      | String a (String b r') =>
        if is_hex a && is_hex b then
          match PathUnescape r' with
          | Ok t => Ok (String (ascii_of_nat (unhex a * 16 + unhex b)) t)
          | Err e => Err e
          end
        else Err (String c (String a (String b EmptyString)))
      | _ => Err s
      end
    else match PathUnescape r with Ok t => Ok (String c t) | Err e => Err e end
  end.

(** ** Documents and responses *)

Inductive UriErr :=
| MissingBucketName
| InvalidBucketPath (escape : string)
| InvalidKeyPath (escape : string).

(** The [Message] of an error document: a fixed text or [err.Error()]. *)
Inductive ErrMessage :=
| Text (s : string)
| UriMsg (e : UriErr)
| BodyMsg (e : IngestErr).

Record s3ErrorResponse := {
  e_Code : string; e_Message : ErrMessage; e_Bucket : string; e_Key : string; e_RequestID : string }.
Record createBucketResult := { c_XMLNS : string; c_Location : string }.
Record listContent := {
  l_Key : string; l_LastModified : string; l_ETag : string; l_Size : Z; l_StorageClass : string }.
Record listBucketResult := {
  lb_XMLNS : string; lb_Name : string; lb_Prefix : string; lb_KeyCount : Z; lb_MaxKeys : Z;
  lb_IsTruncated : bool; lb_Contents : list listContent }.
Record ownerInfo := { o_ID : string; o_DisplayName : string }.
Record bucketInfo := { b_Name : string; b_CreationDate : string }.
Definition bucketsList : Type := list bucketInfo.
Record listAllMyBucketsResult := {
  la_XMLNS : string; la_Owner : ownerInfo; la_Buckets : bucketsList }.

Inductive Doc :=
| DError (d : s3ErrorResponse)
| DCreate (d : createBucketResult)
| DList (d : listBucketResult)
| DListAll (d : listAllMyBucketsResult).

(** What is written to a response: bytes, or the XML header and a document. *)
Inductive Chunk :=
| Bytes (b : list byte)
| XmlHeader
| XmlDoc (d : Doc).

(** [http.ResponseWriter]: the headers under construction, the status and headers
    sent by the first [WriteHeader], and the body written. *)
Record Writer := {
  w_header : gmap string string;
  w_sent : option (Z * gmap string string);
  w_body : list Chunk;
}.

Definition new_writer : Writer := {| w_header := ∅; w_sent := None; w_body := [] |}.

Definition Header_Set (w : Writer) (k v : string) : Writer :=
  {| w_header := <[k := v]> (w_header w); w_sent := w_sent w; w_body := w_body w |}.

Definition WriteHeader (w : Writer) (status : Z) : Writer :=
  match w_sent w with
  | Some _ => w
  | None => {| w_header := w_header w; w_sent := Some (status, w_header w); w_body := w_body w |}
  end.

(** [w.Write]: the first write sends status 200 if none was sent. *)
Definition Write (w : Writer) (c : Chunk) : Writer :=
  let w' := WriteHeader w 200 in
  {| w_header := w_header w'; w_sent := w_sent w'; w_body := w_body w' ++ [c] |}.

Definition StatusOK : Z := 200.
Definition StatusNoContent : Z := 204.
Definition StatusBadRequest : Z := 400.
Definition StatusNotFound : Z := 404.
Definition StatusMethodNotAllowed : Z := 405.

(** ** Shared helpers of the handlers *)

Definition xmlNamespace : string := "http://s3.amazonaws.com/doc/2006-03-01/".

Definition SplitBucketAndKey (path : string) : res UriErr (string * string) :=
  let trimmed := TrimPrefix path "/" in
  match trimmed with
  | EmptyString => Err MissingBucketName
  | _ =>
    let '(part0, rest) := match IndexByte trimmed "/" with
                          | Some i => (str_take i trimmed, Some (str_drop (S i) trimmed))
                          | None => (trimmed, None)
                          end in
    match PathUnescape part0 with
    | Err esc => Err (InvalidBucketPath esc)
    | Ok EmptyString => Err MissingBucketName
    | Ok bucket =>
      match rest with
      | None => Ok (bucket, EmptyString)
      | Some part1 =>
        match PathUnescape part1 with
        | Err esc => Err (InvalidKeyPath esc)
        | Ok key => Ok (bucket, key)
        end
      end
    end
  end.

Definition writeXML (w : Writer) (status : Z) (v : Doc) : Writer :=
  let w1 := Header_Set w "Content-Type" "application/xml" in
  let w2 := WriteHeader w1 status in
  Write (Write w2 XmlHeader) (XmlDoc v).

Definition writeS3Error (w : Writer) (status : Z) (reqID code : string) (message : ErrMessage)
    (bucket key : string) : Writer :=
  writeXML w status (DError {| e_Code := code; e_Message := message; e_Bucket := bucket;
                               e_Key := key; e_RequestID := reqID |}).

Definition list_content (obj : ListedObject) : listContent :=
  {| l_Key := Key obj;
     l_LastModified := FormatRFC3339 (LastModified (ObjectOf obj));
     l_ETag := ETag (ObjectOf obj);
     l_Size := i64 (size_of (ObjectOf obj));
     l_StorageClass := "STANDARD" |}.

(** The [max-keys] parameter: 1000 unless it is a positive integer. *)
Definition max_keys (q : list (string * string)) : Z :=
  let v := QueryGet q "max-keys" in
  if String.eqb v EmptyString then 1000
  else match Atoi v with
       | Some n => if 0 <? n then n else 1000
       | None => 1000
       end.

(** ** The handler *)

Section Handler.
Context {St : Type} `{ObjectStore St}.
(** What distinguishes the two handlers. *)
Variable server_id : string.
Variable consume : Reader -> Z -> option (Reader * res IngestErr Result).

Record Handler := {
  store : St;
  region : string;
  maxObjectSize : Z;
  requestID : Z;
}.

Definition NewHandler (s : St) (rg : string) (max : Z) : Handler :=
  {| store := s; region := rg; maxObjectSize := max; requestID := 0 |}.

Definition with_store (h : Handler) (s : St) : Handler :=
  {| store := s; region := region h; maxObjectSize := maxObjectSize h; requestID := requestID h |}.

Definition writeListBuckets (h : Handler) (w : Writer) (now : Time) : Writer :=
  let names := st_ListBuckets (store h) in
  let date := FormatRFC3339 (UTC now) in
  let items := (fun name => {| b_Name := name; b_CreationDate := date |}) <$> names in
  writeXML w StatusOK (DListAll {|
    la_XMLNS := xmlNamespace;
    la_Owner := {| o_ID := server_id; o_DisplayName := server_id |};
    la_Buckets := items |}).

Definition handleBucket (h : Handler) (w : Writer) (r : Request) (reqID bucket : string)
    : Handler * Writer :=
  if String.eqb (Method r) "PUT" then
    (with_store h (st_CreateBucket (store h) bucket),
     writeXML w StatusOK (DCreate {| c_XMLNS := xmlNamespace; c_Location := "/" +:+ bucket |}))
  else if String.eqb (Method r) "HEAD" then
    if negb (st_BucketExists (store h) bucket) then
      (h, writeS3Error w StatusNotFound reqID "NoSuchBucket" (Text "bucket not found") bucket "")
    else (h, WriteHeader w StatusOK)
  else if String.eqb (Method r) "GET" then
    let prefix := QueryGet (Query r) "prefix" in
    match st_ListObjects (store h) bucket prefix with
    | None =>
      (h, writeS3Error w StatusNotFound reqID "NoSuchBucket" (Text "bucket not found") bucket "")
    | Some objects =>
      let maxKeys := max_keys (Query r) in
      let '(shown, truncated) :=
        if maxKeys <? blen objects then (take (Z.to_nat maxKeys) objects, true)
        else (objects, false) in
      let contents := list_content <$> shown in
      (h, writeXML w StatusOK (DList {|
        lb_XMLNS := xmlNamespace;
        lb_Name := bucket;
        lb_Prefix := prefix;
        lb_KeyCount := blen contents;
        lb_MaxKeys := maxKeys;
        lb_IsTruncated := truncated;
        lb_Contents := contents |}))
    end
  else if String.eqb (Method r) "DELETE" then
    match st_DeleteBucket (store h) bucket with
    | (s', false) =>
      (with_store h s',
       writeS3Error w StatusNotFound reqID "NoSuchBucket" (Text "bucket not found") bucket "")
    | (s', true) => (with_store h s', WriteHeader w StatusNoContent)
    end
  else
    (h, writeS3Error w StatusMethodNotAllowed reqID "MethodNotAllowed" (Text "unsupported method")
          bucket "").

(** The headers of an object that was found. *)
Definition object_headers (w : Writer) (obj : Object) : Writer :=
  let w1 := Header_Set w "ETag" (ETag obj) in
  let w2 := Header_Set w1 "Content-Length" (fmt_d (size_of obj)) in
  let w3 := Header_Set w2 "Last-Modified" (FormatHTTP (LastModified obj)) in
  WriteHeader w3 StatusOK.

Definition handleObject (h : Handler) (w : Writer) (r : Request) (reqID bucket key : string)
    : option (Handler * Writer) :=
  if String.eqb (Method r) "PUT" then
    '(_, out) ← consume (ReqBody r) (maxObjectSize h);
    match out with
    | Err err => Some (h, writeS3Error w StatusBadRequest reqID "InvalidRequest" (BodyMsg err) bucket key)
    | Ok result =>
      let s' := st_CreateBucket (store h) bucket in
      Some (with_store h s', WriteHeader (Header_Set w "ETag" (r_ETag result)) StatusOK)
    end
  else if String.eqb (Method r) "GET" then
    match st_GetObject (store h) bucket key with
    | None => Some (h, writeS3Error w StatusNotFound reqID "NoSuchKey" (Text "key not found") bucket key)
    | Some obj => Some (h, Write (object_headers w obj) (Bytes (Body obj)))
    end
  else if String.eqb (Method r) "HEAD" then
    match st_GetObject (store h) bucket key with
    | None => Some (h, writeS3Error w StatusNotFound reqID "NoSuchKey" (Text "key not found") bucket key)
    | Some obj => Some (h, object_headers w obj)
    end
  else if String.eqb (Method r) "DELETE" then
    Some (with_store h (st_DeleteObject (store h) bucket key).1, WriteHeader w StatusNoContent)
  else
    Some (h, writeS3Error w StatusMethodNotAllowed reqID "MethodNotAllowed"
               (Text "unsupported method") bucket key).

Definition ServeHTTP (h : Handler) (r : Request) (now : Time) : option (Handler * Writer) :=
  let id := u64 (requestID h + 1) in
  let h1 := {| store := store h; region := region h; maxObjectSize := maxObjectSize h;
               requestID := id |} in
  let reqID := fmt_d id in
  let w1 := Header_Set new_writer "x-amz-request-id" reqID in
  let w2 := Header_Set w1 "x-amz-id-2" server_id in
  let w3 := Header_Set w2 "x-amz-bucket-region" (region h1) in
  if String.eqb (Path r) "/" then
    if String.eqb (Method r) "GET" then Some (h1, writeListBuckets h1 w3 now)
    else Some (h1, writeS3Error w3 StatusMethodNotAllowed reqID "MethodNotAllowed"
                     (Text "unsupported method") "" "")
  else
    match SplitBucketAndKey (Path r) with
    | Err err => Some (h1, writeS3Error w3 StatusBadRequest reqID "InvalidURI" (UriMsg err) "" "")
    | Ok (bucket, key) =>
      if String.eqb key EmptyString then Some (handleBucket h1 w3 r reqID bucket)
      else handleObject h1 w3 r reqID bucket key
    end.

End Handler.
Arguments Handler St : clear implicits.

(** ** The two handlers *)

Section Instances.
Context {St : Type} `{ObjectStore St}.

Definition inmem_id : string := "rdma-demo".
Definition inmem_NewHandler : St -> string -> Z -> Handler St := NewHandler.
Definition inmem_SplitBucketAndKey : string -> _ := SplitBucketAndKey.
Definition inmem_writeXML : Writer -> Z -> _ := writeXML.
Definition inmem_writeS3Error : Writer -> Z -> _ := writeS3Error.
Definition inmem_writeListBuckets (h : Handler St) := writeListBuckets inmem_id h.
Definition inmem_handleBucket : Handler St -> _ := handleBucket.
Definition inmem_handleObject : Handler St -> _ := handleObject ConsumeReader.
Definition inmem_ServeHTTP : Handler St -> _ := ServeHTTP inmem_id ConsumeReader.

Definition std_id : string := "s3-rdma-server".
Definition std_writeListBuckets (h : Handler St) := writeListBuckets std_id h.
Definition std_handleBucket : Handler St -> _ := handleBucket.
Definition std_handleObject : Handler St -> _ := handleObject consumeBody.
Definition std_ServeHTTP : Handler St -> _ := ServeHTTP std_id consumeBody.
End Instances.

Inductive server := Inmem | Std.

Definition server_name (v : server) : string :=
  match v with Inmem => inmem_id | Std => std_id end.
Definition consumer (v : server) : Reader -> Z -> option (Reader * res IngestErr Result) :=
  match v with Inmem => ConsumeReader | Std => consumeBody end.
Definition serve {St} `{ObjectStore St} (v : server) : Handler St -> Request -> Time -> option (Handler St * Writer) :=
  match v with Inmem => inmem_ServeHTTP | Std => std_ServeHTTP end.

(** ** Specification: what a request may remove, and the answer to a request *)

Definition target (r : Request) : option (string * string) :=
  if String.eqb (Path r) "/" then None
  else match SplitBucketAndKey (Path r) with Ok bk => Some bk | Err _ => None end.

Definition deletes (r : Request) (b k : string) : bool :=
  String.eqb (Method r) "DELETE" &&
  match target r with
  | Some (bucket, key) => String.eqb b bucket && (String.eqb key "" || String.eqb k key)
  | None => false
  end.

Definition status_of (w : Writer) : option Z := fst <$> w_sent w.
Definition sent_header (w : Writer) (name : string) : option string :=
  '(_, h) ← w_sent w; h !! name.
Definition documents (w : Writer) : list Doc :=
  omap (fun c => match c with XmlDoc d => Some d | _ => None end) (w_body w).
Definition body_bytes (w : Writer) : list byte :=
  w_body w ≫= (fun c => match c with Bytes b => b | _ => [] end).

(** The status of an answer, from the store as it was before the request. *)
Definition expected_status {St} `{ObjectStore St} (v : server) (h : Handler St) (r : Request) : Z :=
  if String.eqb (Path r) "/" then (if String.eqb (Method r) "GET" then 200 else 405)
  else match SplitBucketAndKey (Path r) with
  | Err _ => 400
  | Ok (b, k) =>
    let known := if String.eqb k "" then st_BucketExists (store h) b
                 else bool_decide (is_Some (st_GetObject (store h) b k)) in
    if String.eqb (Method r) "PUT" then
      if String.eqb k "" then 200
      else match consumer v (ReqBody r) (maxObjectSize h) with
           | Some (_, Ok _) => 200
           | _ => 400
           end
    else if String.eqb (Method r) "GET" || String.eqb (Method r) "HEAD" then
      (if known then 200 else 404)
    else if String.eqb (Method r) "DELETE" then
      (if String.eqb k "" && negb known then 404 else 204)
    else 405
  end.

(** ** Lemmas *)

Lemma consumer_total v r max : is_Some (consumer v r max).
Proof. destruct v; simpl; [|rewrite consumeBody_eq]; apply ConsumeReader_total. Qed.

Lemma serve_eq {St} `{ObjectStore St} v (h : Handler St) r now :
  serve v h r now = ServeHTTP (server_name v) (consumer v) h r now.
Proof. by destruct v. Qed.

(** An answer that has been sent keeps its status and headers. *)
Lemma Write_sent w c st : w_sent w = Some st -> w_sent (Write w c) = Some st.
Proof. intros Hw. unfold Write, WriteHeader. simpl. by rewrite Hw. Qed.

Lemma WriteHeader_sent w status :
  w_sent w = None -> w_sent (WriteHeader w status) = Some (status, w_header w).
Proof. intros Hw. unfold WriteHeader. by rewrite Hw. Qed.

Lemma writeXML_sent w status d :
  w_sent w = None ->
  w_sent (writeXML w status d) =
  Some (status, <["Content-Type"%string := "application/xml"%string]> (w_header w)).
Proof. intros Hw. unfold writeXML. apply Write_sent, Write_sent. by apply WriteHeader_sent. Qed.

Lemma WriteHeader_body w status : w_body (WriteHeader w status) = w_body w.
Proof. unfold WriteHeader. by destruct (w_sent w). Qed.

Lemma Write_body w c : w_body (Write w c) = w_body w ++ [c].
Proof. unfold Write. simpl. by rewrite WriteHeader_body. Qed.

Lemma writeXML_body w status d : w_body (writeXML w status d) = w_body w ++ [XmlHeader; XmlDoc d].
Proof. unfold writeXML. rewrite !Write_body, WriteHeader_body, <- app_assoc. done. Qed.

Lemma writeXML_documents w status d : w_body w = [] -> documents (writeXML w status d) = [d].
Proof. intros Hw. unfold documents. by rewrite writeXML_body, Hw. Qed.

#[export] Hint Rewrite writeXML_sent WriteHeader_sent using done : go_rw.

Section Facts.
Context {St : Type} `{ObjectStoreLaws St}.
Implicit Types (h : Handler St) (r : Request) (w : Writer).

Lemma get_after_delete_bucket s n b k :
  st_GetObject (st_DeleteBucket s n).1 b k =
  if String.eqb b n then None else st_GetObject s b k.
Proof.
  destruct (st_DeleteBucket s n) as [s' ok] eqn:E.
  destruct (law_delete_bucket s n s' ok E) as (_ & _ & Hn & Ho & _). simpl.
  destruct (String.eqb_spec b n) as [->|Hne]; [apply Hn|by apply Ho].
Qed.

Lemma get_after_delete_object s b k b' k' :
  st_GetObject (st_DeleteObject s b k).1 b' k' =
  if String.eqb b' b && String.eqb k' k then None else st_GetObject s b' k'.
Proof.
  destruct (st_DeleteObject s b k) as [s' ok] eqn:E.
  destruct (law_delete_object s b k s' ok E) as (_ & Hn & Ho & _). simpl.
  destruct (String.eqb_spec b' b) as [->|Hne]; simpl; [|apply Ho; congruence].
  destruct (String.eqb_spec k' k) as [->|Hne]; [done|apply Ho; congruence].
Qed.

Lemma delete_bucket_result s n : (st_DeleteBucket s n).2 = st_BucketExists s n.
Proof.
  destruct (st_DeleteBucket s n) as [s' ok] eqn:E.
  by destruct (law_delete_bucket s n s' ok E) as [-> _].
Qed.

(** What a handler for buckets and one for objects do to the readable objects. *)
Lemma handleBucket_objects h w r reqID bucket b k :
  st_GetObject (store (handleBucket h w r reqID bucket).1) b k =
  if String.eqb (Method r) "DELETE" && String.eqb b bucket then None
  else st_GetObject (store h) b k.
Proof.
  unfold handleBucket. destruct (String.eqb_spec (Method r) "PUT") as [Hm|_].
  { simpl. rewrite Hm. simpl. apply law_get_create. }
  destruct (String.eqb_spec (Method r) "HEAD") as [Hm|_]; [rewrite Hm; simpl; by case_match|].
  destruct (String.eqb_spec (Method r) "GET") as [Hm|_].
  { rewrite Hm. simpl. case_match; [|done]. by case_match. }
  destruct (String.eqb_spec (Method r) "DELETE") as [Hm|_]; simpl; [|done].
  pose proof (get_after_delete_bucket (store h) bucket b k) as Hd.
  destruct (st_DeleteBucket _ _) as [s' []]; done.
Qed.

Lemma handleObject_objects consume h w r reqID bucket key h' w' b k :
  handleObject consume h w r reqID bucket key = Some (h', w') ->
  st_GetObject (store h') b k =
  if String.eqb (Method r) "DELETE" && (String.eqb b bucket && String.eqb k key) then None
  else st_GetObject (store h) b k.
Proof.
  unfold handleObject. destruct (String.eqb_spec (Method r) "PUT") as [Hm|_].
  { rewrite Hm. simpl. destruct (consume _ _) as [[rd [res|e]]|]; simpl; intros; simplify_eq; [|done].
    apply law_get_create. }
  destruct (String.eqb_spec (Method r) "GET") as [Hm|_].
  { rewrite Hm. simpl. case_match; intros; by simplify_eq. }
  destruct (String.eqb_spec (Method r) "HEAD") as [Hm|_].
  { rewrite Hm. simpl. case_match; intros; by simplify_eq. }
  destruct (String.eqb_spec (Method r) "DELETE") as [Hm|_]; simpl; intros; simplify_eq; [|done].
  apply get_after_delete_object.
Qed.

(** The headers every answer starts from. *)
Definition base_writer (v : server) (h : Handler St) : Writer :=
  Header_Set (Header_Set (Header_Set new_writer "x-amz-request-id" (fmt_d (u64 (requestID h + 1))))
    "x-amz-id-2" (server_name v)) "x-amz-bucket-region" (region h).

Definition numbered (h : Handler St) : Handler St :=
  {| store := store h; region := region h; maxObjectSize := maxObjectSize h;
     requestID := u64 (requestID h + 1) |}.

(** An answer keeps the three first headers: nothing sets them again. *)
Definition keeps_base (w w' : Writer) : Prop :=
  forall n, n ∈ ["x-amz-request-id"; "x-amz-id-2"; "x-amz-bucket-region"]%string ->
  sent_header w' n = w_header w !! n.

Lemma keeps_base_send w status :
  w_sent w = None -> keeps_base w (WriteHeader w status).
Proof. intros Hw n _. unfold sent_header. by rewrite WriteHeader_sent. Qed.

Lemma keeps_base_xml w status d : w_sent w = None -> keeps_base w (writeXML w status d).
Proof.
  intros Hw n Hn. unfold sent_header. rewrite writeXML_sent by done. simpl.
  apply lookup_insert_ne. set_solver.
Qed.

Lemma keeps_base_set w k v status :
  w_sent w = None -> k ∉ ["x-amz-request-id"; "x-amz-id-2"; "x-amz-bucket-region"]%string ->
  keeps_base w (WriteHeader (Header_Set w k v) status).
Proof.
  intros Hw Hk n Hn. unfold sent_header. rewrite WriteHeader_sent by done. simpl.
  apply lookup_insert_ne. set_solver.
Qed.

Lemma object_headers_sent w obj :
  w_sent w = None ->
  w_sent (object_headers w obj) =
  Some (200, <["Last-Modified"%string := FormatHTTP (LastModified obj)]>
    (<["Content-Length"%string := fmt_d (size_of obj)]>
      (<["ETag"%string := ETag obj]> (w_header w)))).
Proof. intros Hw. unfold object_headers. by rewrite WriteHeader_sent. Qed.

Lemma keeps_base_object w obj : w_sent w = None -> keeps_base w (object_headers w obj).
Proof.
  intros Hw n Hn. unfold sent_header. rewrite object_headers_sent by done. simpl.
  rewrite !lookup_insert_ne by set_solver. done.
Qed.

Lemma keeps_base_write w w' c :
  is_Some (w_sent w') -> keeps_base w w' -> keeps_base w (Write w' c).
Proof.
  intros [st Hst] Hk n Hn. rewrite <- Hk by done. unfold sent_header.
  by rewrite (Write_sent _ _ _ Hst), Hst.
Qed.

Lemma status_send w status : w_sent w = None -> status_of (WriteHeader w status) = Some status.
Proof. intros Hw. unfold status_of. by rewrite WriteHeader_sent. Qed.

Lemma status_xml w status d : w_sent w = None -> status_of (writeXML w status d) = Some status.
Proof. intros Hw. unfold status_of. by rewrite writeXML_sent. Qed.

Lemma status_object w obj : w_sent w = None -> status_of (object_headers w obj) = Some 200.
Proof. intros Hw. unfold status_of. by rewrite object_headers_sent. Qed.

Lemma status_write w c st : status_of w = Some st -> status_of (Write w c) = Some st.
Proof.
  unfold status_of. destruct (w_sent w) as [p|] eqn:E; [|done]. by rewrite (Write_sent _ _ _ E).
Qed.

Lemma handleBucket_answer h w r reqID bucket :
  w_sent w = None ->
  let '(h', w') := handleBucket h w r reqID bucket in
  keeps_base w w' /\ requestID h' = requestID h /\
  status_of w' = Some
    (if String.eqb (Method r) "PUT" then 200
     else if String.eqb (Method r) "GET" || String.eqb (Method r) "HEAD" then
       (if st_BucketExists (store h) bucket then 200 else 404)
     else if String.eqb (Method r) "DELETE" then
       (if st_BucketExists (store h) bucket then 204 else 404)
     else 405).
Proof.
  intros Hw. unfold handleBucket, writeS3Error.
  destruct (String.eqb_spec (Method r) "PUT") as [Hm|_].
  { eauto using keeps_base_xml, status_xml. }
  destruct (String.eqb_spec (Method r) "HEAD") as [Hm|_].
  { rewrite Hm; simpl. destruct (st_BucketExists _ _); simpl;
      eauto using keeps_base_xml, status_xml, keeps_base_send, status_send. }
  destruct (String.eqb_spec (Method r) "GET") as [Hm|_]; simpl.
  { destruct (st_ListObjects _ _ _) as [objs|] eqn:E.
    - destruct (st_BucketExists (store h) bucket) eqn:Eb.
      + destruct (max_keys _ <? _); eauto using keeps_base_xml, status_xml.
      + apply (law_list_none _ _ (QueryGet (Query r) "prefix")) in Eb. congruence.
    - apply law_list_none in E. rewrite E. eauto using keeps_base_xml, status_xml. }
  destruct (String.eqb_spec (Method r) "DELETE") as [Hm|_].
  { pose proof (delete_bucket_result (store h) bucket) as Hd.
    destruct (st_DeleteBucket _ _) as [s' ok]; simpl in Hd. rewrite <- Hd.
    destruct ok; eauto using keeps_base_xml, status_xml, keeps_base_send, status_send. }
  eauto using keeps_base_xml, status_xml.
Qed.

Lemma handleObject_answer v h w r reqID bucket key :
  w_sent w = None ->
  exists h' w', handleObject (consumer v) h w r reqID bucket key = Some (h', w') /\
  keeps_base w w' /\ requestID h' = requestID h /\
  status_of w' = Some
    (if String.eqb (Method r) "PUT" then
       match consumer v (ReqBody r) (maxObjectSize h) with Some (_, Ok _) => 200 | _ => 400 end
     else if String.eqb (Method r) "GET" || String.eqb (Method r) "HEAD" then
       (if bool_decide (is_Some (st_GetObject (store h) bucket key)) then 200 else 404)
     else if String.eqb (Method r) "DELETE" then 204 else 405).
Proof.
  intros Hw. unfold handleObject, writeS3Error.
  destruct (String.eqb_spec (Method r) "PUT") as [Hm|_].
  { destruct (consumer_total v (ReqBody r) (maxObjectSize h)) as [[rd out] ->]. simpl.
    destruct out as [res|e]; eexists _, _; (split; [done|]).
    - split; [|split; [done|by apply status_send]]. apply keeps_base_set; [done|]. set_solver.
    - eauto using keeps_base_xml, status_xml. }
  destruct (String.eqb_spec (Method r) "GET") as [Hm|_]; simpl.
  { destruct (st_GetObject _ _ _) as [o|] eqn:E; simpl; eexists _, _; (split; [done|]).
    - split; [|split; [done|]]; [|by apply status_write, status_object].
      apply keeps_base_write; [|by apply keeps_base_object].
      rewrite object_headers_sent by done. eauto.
    - eauto using keeps_base_xml, status_xml. }
  destruct (String.eqb_spec (Method r) "HEAD") as [Hm|_]; simpl.
  { destruct (st_GetObject _ _ _) as [o|] eqn:E; simpl; eexists _, _; (split; [done|]);
      eauto using keeps_base_object, status_object, keeps_base_xml, status_xml. }
  destruct (String.eqb_spec (Method r) "DELETE") as [Hm|_]; eexists _, _; (split; [done|]);
    eauto using keeps_base_xml, status_xml, keeps_base_send, status_send.
Qed.

(** A request is the root listing, a refusal, or goes to one of the two handlers. *)
Lemma serve_cases v h r now :
  serve v h r now =
  if String.eqb (Path r) "/" then
    Some (numbered h,
      if String.eqb (Method r) "GET"
      then writeListBuckets (server_name v) (numbered h) (base_writer v h) now
      else writeS3Error (base_writer v h) StatusMethodNotAllowed (fmt_d (u64 (requestID h + 1)))
             "MethodNotAllowed" (Text "unsupported method") "" "")
  else match SplitBucketAndKey (Path r) with
  | Err e => Some (numbered h, writeS3Error (base_writer v h) StatusBadRequest
                     (fmt_d (u64 (requestID h + 1))) "InvalidURI" (UriMsg e) "" "")
  | Ok (b, k) =>
    if String.eqb k "" then
      Some (handleBucket (numbered h) (base_writer v h) r (fmt_d (u64 (requestID h + 1))) b)
    else handleObject (consumer v) (numbered h) (base_writer v h) r
           (fmt_d (u64 (requestID h + 1))) b k
  end.
Proof.
  rewrite serve_eq. unfold ServeHTTP. fold (numbered h). fold (base_writer v h).
  by destruct (String.eqb (Path r) "/"), (String.eqb (Method r) "GET").
Qed.
End Facts.

(** ** Lemmas: paths *)

Fixpoint no_char (c : ascii) (s : string) : bool :=
  match s with EmptyString => true | String a r => negb (Ascii.eqb a c) && no_char c r end.

Lemma PathUnescape_literal s : no_char "%" s = true -> PathUnescape s = Ok s.
Proof.
  induction s as [|a s IH]; simpl; [done|]. intros H. apply andb_true_iff in H as [Ha Hs].
  apply negb_true_iff in Ha. rewrite Ha, IH by done. done.
Qed.

Lemma no_char_IndexByte c s : no_char c s = true -> IndexByte s c = None.
Proof.
  induction s as [|a s IH]; simpl; [done|]. intros H. apply andb_true_iff in H as [Ha Hs].
  apply negb_true_iff in Ha. by rewrite Ha, IH.
Qed.

Lemma TrimPrefix_app p s : TrimPrefix (p +:+ s) p = s.
Proof. unfold TrimPrefix. by rewrite strip_prefix_app. Qed.

Lemma split_literal_bucket b :
  b <> EmptyString -> no_char "/" b = true -> no_char "%" b = true ->
  SplitBucketAndKey ("/" +:+ b) = Ok (b, EmptyString).
Proof.
  intros Hne Hs Hp. unfold SplitBucketAndKey. rewrite TrimPrefix_app.
  destruct b as [|a b]; [done|]. rewrite no_char_IndexByte by done.
  by rewrite PathUnescape_literal.
Qed.

Lemma split_literal_key b k :
  b <> EmptyString -> no_char "/" b = true -> no_char "%" b = true -> no_char "%" k = true ->
  SplitBucketAndKey ("/" +:+ (b +:+ "/" +:+ k)) = Ok (b, k).
Proof.
  intros Hne Hs Hp Hk. unfold SplitBucketAndKey. rewrite TrimPrefix_app.
  change (b +:+ "/" +:+ k) with (b +:+ String "/" k).
  destruct (b +:+ String "/" k) as [|a0 r0] eqn:E; [by destruct b|]. rewrite <- E.
  rewrite IndexByte_app by (by apply no_char_IndexByte).
  rewrite str_take_app, str_drop_S_app, !PathUnescape_literal by done. by destruct b.
Qed.

Section Properties.
Context {St : Type} `{ObjectStoreLaws St}.

(** ** Properties *)

(** Every request is answered, by either server and over any store that keeps
    the contract: exactly one status, the one the specification gives; the three
    identification headers, the request id being the number of requests served
    modulo 2^64. *)
Theorem serve_answers v (h : Handler St) r now :
  exists h' w, serve v h r now = Some (h', w) /\
  status_of w = Some (expected_status v h r) /\
  requestID h' = u64 (requestID h + 1) /\
  sent_header w "x-amz-request-id" = Some (fmt_d (u64 (requestID h + 1))) /\
  sent_header w "x-amz-id-2" = Some (server_name v) /\
  sent_header w "x-amz-bucket-region" = Some (region h).
Proof.
  assert (Hk : forall w, keeps_base (base_writer v h) w ->
    sent_header w "x-amz-request-id" = Some (fmt_d (u64 (requestID h + 1))) /\
    sent_header w "x-amz-id-2" = Some (server_name v) /\
    sent_header w "x-amz-bucket-region" = Some (region h)).
  { intros w Hw. rewrite !Hw by set_solver. done. }
  rewrite serve_cases. unfold expected_status, writeS3Error.
  destruct (String.eqb (Path r) "/").
  { eexists _, _. split; [done|]. destruct (String.eqb (Method r) "GET").
    - unfold writeListBuckets. rewrite status_xml by done. eauto using keeps_base_xml.
    - rewrite status_xml by done. eauto using keeps_base_xml. }
  destruct (SplitBucketAndKey (Path r)) as [[b k]|e].
  2:{ eexists _, _. split; [done|]. rewrite status_xml by done. eauto using keeps_base_xml. }
  destruct (String.eqb k "").
  - pose proof (handleBucket_answer (numbered h) (base_writer v h) r
      (fmt_d (u64 (requestID h + 1))) b eq_refl) as Ha.
    destruct (handleBucket _ _ _ _ _) as [h' w']. destruct Ha as (Hb & Hid & Hst).
    exists h', w'. rewrite Hst. simpl. split; [done|]. split; [|split; [done|by apply Hk]].
    destruct (String.eqb (Method r) "PUT"); [done|]. destruct (_ || _); [done|].
    destruct (String.eqb (Method r) "DELETE"); [|done]. by destruct (st_BucketExists (store h) b).
  - destruct (handleObject_answer v (numbered h) (base_writer v h) r
      (fmt_d (u64 (requestID h + 1))) b k eq_refl) as (h' & w' & Heq & Hb & Hid & Hst).
    exists h', w'. rewrite Hst. split; [done|]. split; [|split; [done|by apply Hk]].
    simpl. destruct (String.eqb (Method r) "PUT"); done.
Qed.

(** The only requests that change what can be read are DELETE requests, and
    they remove exactly their target: the object, or every object of the bucket.  A
    PUT object in particular stores nothing. *)
Theorem serve_only_delete_removes v (h : Handler St) r now h' w b k :
  serve v h r now = Some (h', w) ->
  st_GetObject (store h') b k = if deletes r b k then None else st_GetObject (store h) b k.
Proof.
  rewrite serve_cases. unfold deletes, target. destruct (String.eqb (Path r) "/").
  { rewrite andb_false_r. intros; by simplify_eq. }
  destruct (SplitBucketAndKey (Path r)) as [[bk key]|e].
  2:{ rewrite andb_false_r. intros; by simplify_eq. }
  destruct (String.eqb key "") eqn:Ek; simpl.
  - rewrite andb_true_r. intros Heq. injection Heq as Heq.
    pose proof (handleBucket_objects (numbered h) (base_writer v h) r
      (fmt_d (u64 (requestID h + 1))) bk b k) as Ho. by rewrite Heq in Ho.
  - intros Heq. by rewrite (handleObject_objects _ _ _ _ _ _ _ _ _ b k Heq).
Qed.

(** C27: GET and HEAD of an object that can be read answer 200 with its ETag, its
    length and its time, the same for both, and GET's body is the object's bytes. *)
Theorem get_returns_object v (h : Handler St) r now b k o :
  target r = Some (b, k) -> k <> EmptyString -> st_GetObject (store h) b k = Some o ->
  Method r = "GET" \/ Method r = "HEAD" ->
  exists w, serve v h r now = Some (numbered h, w) /\
  status_of w = Some 200 /\
  sent_header w "ETag" = Some (ETag o) /\
  sent_header w "Content-Length" = Some (fmt_d (size_of o)) /\
  sent_header w "Last-Modified" = Some (FormatHTTP (LastModified o)) /\
  body_bytes w = if String.eqb (Method r) "GET" then Body o else [].
Proof.
  unfold target. rewrite serve_cases. destruct (String.eqb (Path r) "/"); [done|].
  destruct (SplitBucketAndKey (Path r)) as [[b0 k0]|]; [|done]. intros [= -> ->] Hk Ho Hm.
  apply String.eqb_neq in Hk. rewrite Hk. unfold handleObject.
  assert (Hs : w_sent (object_headers (base_writer v h) o) = Some (200,
    <["Last-Modified"%string := FormatHTTP (LastModified o)]>
    (<["Content-Length"%string := fmt_d (size_of o)]>
      (<["ETag"%string := ETag o]> (w_header (base_writer v h)))))) by done.
  destruct Hm as [-> | ->]; simpl; rewrite Ho; eexists; (split; [done|]).
  - unfold status_of, sent_header. rewrite (Write_sent _ _ _ Hs). simpl.
    split_and!; try by simplify_map_eq. unfold body_bytes. rewrite Write_body. simpl.
    apply app_nil_r.
  - unfold status_of, sent_header. rewrite Hs. simpl. split_and!; by simplify_map_eq.
Qed.

(** A bucket listing shows, in byte order of the keys and without duplicates,
    the first [max-keys] objects of the bucket whose key has the prefix, every object
    with its size and ETag; it says it is truncated exactly when some are left out, and
    names the bucket and the prefix. *)
Theorem list_bucket_spec v (h : Handler St) r now b :
  target r = Some (b, EmptyString) -> Method r = "GET" -> st_BucketExists (store h) b = true ->
  exists w all d, serve v h r now = Some (numbered h, w) /\
  documents w = [DList d] /\
  StronglySorted (key_le Key) all /\ NoDup (Key <$> all) /\
  (forall k o, {| Key := k; ObjectOf := o |} ∈ all <->
     st_GetObject (store h) b k = Some o /\ HasPrefix k (QueryGet (Query r) "prefix") = true) /\
  lb_Contents d = list_content <$> take (Z.to_nat (max_keys (Query r))) all /\
  lb_KeyCount d = Z.min (max_keys (Query r)) (blen all) /\
  (lb_IsTruncated d = true <-> lb_KeyCount d < blen all) /\
  lb_XMLNS d = xmlNamespace /\ lb_Name d = b /\ lb_Prefix d = QueryGet (Query r) "prefix" /\ status_of w = Some 200.
Proof.
  unfold target. rewrite serve_cases. destruct (String.eqb (Path r) "/"); [done|].
  destruct (SplitBucketAndKey (Path r)) as [[b0 k0]|]; [|done]. intros [= -> ->] Hm Hb.
  simpl. unfold handleBucket. rewrite Hm. simpl.
  destruct (st_ListObjects _ _ _) as [all|] eqn:El; [|apply law_list_none in El; congruence].
  destruct (law_list_spec _ _ _ _ El) as (Hs & Hn & Hin).
  assert (Hmax : 0 < max_keys (Query r)).
  { unfold max_keys. destruct (String.eqb _ _); [lia|]. destruct (Atoi _) as [n|]; [|lia].
    destruct (0 <? n) eqn:E; bool_facts; lia. }
  destruct (max_keys (Query r) <? blen all) eqn:Et; bool_facts;
    eexists _, all, _; (split; [done|]); (split; [by apply writeXML_documents|]);
    (split; [done|]); (split; [done|]); (split; [done|]); simpl; unfold blen in *;
    rewrite length_fmap.
  - rewrite length_take. split_and!; [done|lia| |done..|by apply status_xml]. split; [lia|done].
  - rewrite take_ge by lia. split_and!; [done|lia| |done..|by apply status_xml]. split; [done|lia].
Qed.

(** C29: PUT of an object answers 200 with the quoted MD5 of the bytes of its body
    when they are within the limit and no read fails, and 400 otherwise; afterwards the
    bucket exists if the upload was accepted (and its name is not blank). *)
Theorem put_object_digest v (h : Handler St) r now b k m e :
  target r = Some (b, k) -> k <> EmptyString -> Method r = "PUT" ->
  stream (script (ReqBody r)) = (m, e) -> blen m < 2 ^ 63 ->
  exists h' w, serve v h r now = Some (h', w) /\
  if within (maxObjectSize h) (blen m) && bool_decide (e = None) then
    status_of w = Some 200 /\ sent_header w "ETag" = Some (etag_of m) /\
    store h' = st_CreateBucket (store h) b /\
    (TrimSpace b <> EmptyString -> st_BucketExists (store h') b = true)
  else status_of w = Some 400 /\ store h' = store h.
Proof.
  unfold target. rewrite serve_cases. destruct (String.eqb (Path r) "/"); [done|].
  destruct (SplitBucketAndKey (Path r)) as [[b0 k0]|]; [|done]. intros [= -> ->] Hk Hm Hs Hfit.
  apply String.eqb_neq in Hk. rewrite Hk. unfold handleObject, writeS3Error. rewrite Hm. simpl.
  assert (Hc : consumer v (ReqBody r) (maxObjectSize h) = ConsumeReader (ReqBody r) (maxObjectSize h)).
  { destruct v; simpl; [done|apply consumeBody_eq]. }
  rewrite Hc. destruct (ConsumeReader_spec (ReqBody r) (maxObjectSize h))
    as (r' & out & -> & _ & Hout); [by rewrite Hs|]. rewrite Hs in Hout. simpl.
  destruct (within _ _); simpl.
  - rewrite Hout. destruct e as [msg|]; simpl; eexists _, _; (split; [done|]).
    + split; [by apply status_xml|done].
    + split; [done|]. split; [|split; [done|apply law_exists_create]].
      unfold sent_header. simpl. by rewrite lookup_insert_eq.
  - destruct Hout as (p & q & _ & -> & _). eexists _, _. split; [done|].
    split; [by apply status_xml|done].
Qed.

(** Once a bucket is deleted, HEAD and GET of the bucket answer 404, and so does
    GET of any of its keys. *)
Theorem deleted_bucket_is_gone v (h : Handler St) r r' now now' b h' w :
  target r = Some (b, EmptyString) -> Method r = "DELETE" ->
  serve v h r now = Some (h', w) ->
  (exists k, target r' = Some (b, k)) -> Method r' = "GET" \/ Method r' = "HEAD" ->
  exists h'' w', serve v h' r' now' = Some (h'', w') /\ status_of w' = Some 404.
Proof.
  intros Ht Hm Hserve [k Ht'] Hm'.
  destruct (serve_answers v h' r' now') as (h'' & w' & Heq & Hst & _).
  exists h'', w'. split; [done|]. rewrite Hst. f_equal. unfold expected_status.
  assert (Hgone : st_BucketExists (store h') b = false /\ forall k, st_GetObject (store h') b k = None).
  { rewrite serve_cases in Hserve. unfold target in Ht. destruct (String.eqb (Path r) "/"); [done|].
    destruct (SplitBucketAndKey (Path r)) as [[b0 k0]|]; [|done]. injection Ht as -> ->.
    simpl in Hserve. unfold handleBucket in Hserve. rewrite Hm in Hserve. simpl in Hserve.
    destruct (st_DeleteBucket (store h) b) as [s' ok] eqn:E.
    destruct (law_delete_bucket _ _ _ _ E) as (_ & He & Hg & _).
    destruct ok; simplify_eq/=; done. }
  destruct Hgone as [Hb Hg]. unfold target in Ht'. destruct (String.eqb (Path r') "/"); [done|].
  destruct (SplitBucketAndKey (Path r')) as [[b0 k0]|]; [|done]. injection Ht' as -> ->.
  rewrite Hb, Hg. rewrite (bool_decide_eq_false_2 (is_Some None)) by (by intros [??]).
  destruct Hm' as [-> | ->]; simpl; by destruct (String.eqb k "").
Qed.
End Properties.

(** A path that names a bucket and a key without a percent sign is split into
    them, the key keeping its slashes. *)
Theorem split_literal_path b k :
  b <> EmptyString -> no_char "/" b = true -> no_char "%" b = true -> no_char "%" k = true ->
  SplitBucketAndKey ("/" +:+ b) = Ok (b, EmptyString) /\
  SplitBucketAndKey ("/" +:+ (b +:+ "/" +:+ k)) = Ok (b, k).
Proof. intros. split; [by apply split_literal_bucket|by apply split_literal_key]. Qed.

(** The path handed to the split is already decoded, and the split decodes it
    again: the literal key [100%] is refused, and the distinct keys [a%41] and [aA]
    are the same object. *)
Theorem split_decodes_twice :
  SplitBucketAndKey "/b/100%" = Err (InvalidKeyPath "%") /\
  SplitBucketAndKey "/b/a%41" = SplitBucketAndKey "/b/aA" /\
  SplitBucketAndKey "/b/aA" = Ok ("b", "aA")%string.
Proof. vm_compute. done. Qed.

(** ** Witnesses: the two handlers over their own stores *)

#[local] Existing Instances MemStore.MemoryStore_store MemStore.MemoryStore_laws
  LoadedStore.MemoryStore_store LoadedStore.MemoryStore_laws.

Definition demo_time : Time := {| instant := 10 ^ 9; utc := true |}.
Definition demo_body : list byte := bytes_of_string "hello".

Definition demo_loaded : Handler LoadedStore.MemoryStore :=
  NewHandler (LoadedStore.PutLoadedObject LoadedStore.NewMemoryStore "b" "k" demo_body
    demo_time demo_time).1 "us-east-1" 10.
Definition demo_mem : Handler MemStore.MemoryStore :=
  NewHandler (MemStore.PutObject (MemStore.NewMemoryStore 0 MemStore.EvictPolicyFIFO) "b" "k" demo_body
    demo_time).1 "us-east-1" 4.

Definition demo_request (method path : string) : Request :=
  {| Method := method; Path := path; Query := [("max-keys", "1")]%string;
     ReqBody := {| script := [(demo_body, None)]; closed := false |} |}.

Lemma serve_answers_witness :
  exists h' w, serve Inmem demo_mem (demo_request "PUT" "/b/k") demo_time = Some (h', w) /\
  status_of w = Some 400.
Proof.
  destruct (serve_answers Inmem demo_mem (demo_request "PUT" "/b/k") demo_time)
    as (h' & w & H1 & H2 & _).
  exists h', w. split; [exact H1|]. rewrite H2. vm_compute. reflexivity.
Defined.

Lemma serve_only_delete_removes_witness :
  exists h' w, serve Std demo_loaded (demo_request "DELETE" "/b/k") demo_time = Some (h', w) /\
  st_GetObject (store h') "b" "k" = None.
Proof.
  destruct (serve Std demo_loaded (demo_request "DELETE" "/b/k") demo_time) as [[h' w]|] eqn:E.
  - exists h', w. split; [reflexivity|].
    rewrite (serve_only_delete_removes Std demo_loaded (demo_request "DELETE" "/b/k") demo_time
      h' w "b" "k" E). vm_compute. reflexivity.
  - exfalso. revert E. vm_compute. discriminate.
Defined.

Lemma get_returns_object_witness :
  exists w, serve Std demo_loaded (demo_request "GET" "/b/k") demo_time =
    Some (numbered demo_loaded, w) /\ body_bytes w = demo_body.
Proof.
  destruct (get_returns_object Std demo_loaded (demo_request "GET" "/b/k") demo_time "b" "k"
    {| Body := demo_body; ETag := etag_of demo_body; LastModified := demo_time |})
    as (w & H1 & _ & _ & _ & _ & H2); [reflexivity|discriminate|vm_compute; reflexivity|by left|].
  exists w. split; [exact H1|exact H2].
Defined.

Lemma list_bucket_spec_witness :
  exists w d, serve Inmem demo_mem (demo_request "GET" "/b") demo_time =
    Some (numbered demo_mem, w) /\ documents w = [DList d].
Proof.
  destruct (list_bucket_spec Inmem demo_mem (demo_request "GET" "/b") demo_time "b")
    as (w & all & d & H1 & H2 & _); [reflexivity|reflexivity|vm_compute; reflexivity|].
  exists w, d. split; [exact H1|exact H2].
Defined.

Lemma put_object_digest_witness :
  exists h' w, serve Std demo_loaded (demo_request "PUT" "/new/k") demo_time = Some (h', w) /\
  status_of w = Some 200 /\ sent_header w "ETag" = Some (etag_of demo_body).
Proof.
  destruct (put_object_digest Std demo_loaded (demo_request "PUT" "/new/k") demo_time "new" "k"
    demo_body None) as (h' & w & H1 & H2 & H3 & _);
    [reflexivity|discriminate|reflexivity|reflexivity|reflexivity|].
  exists h', w. split; [exact H1|split; [exact H2|exact H3]].
Defined.

Lemma deleted_bucket_is_gone_witness :
  exists h' w h'' w', serve Inmem demo_mem (demo_request "DELETE" "/b") demo_time = Some (h', w) /\
  serve Inmem h' (demo_request "GET" "/b/k") demo_time = Some (h'', w') /\ status_of w' = Some 404.
Proof.
  destruct (serve Inmem demo_mem (demo_request "DELETE" "/b") demo_time) as [[h' w]|] eqn:E.
  - destruct (deleted_bucket_is_gone Inmem demo_mem (demo_request "DELETE" "/b")
      (demo_request "GET" "/b/k") demo_time demo_time "b" h' w)
      as (h'' & w' & H1 & H2); [reflexivity|reflexivity|exact E|exists "k"; reflexivity|by left|].
    exists h', w, h'', w'. split; [reflexivity|split; [exact H1|exact H2]].
  - exfalso. revert E. vm_compute. discriminate.
Defined.

Lemma split_literal_path_witness :
  SplitBucketAndKey "/b/x/y" = Ok ("b", "x/y")%string.
Proof. refine (proj2 (split_literal_path "b" "x/y" _ _ _ _)); (discriminate || reflexivity). Defined.
