(* ===== verification/Json.v ===== *)
(** * encoding/json, as far as the control protocol uses it

    [Marshal] of a flat struct with [omitempty] fields and [Unmarshal] into it: the
    escaping of strings (HTML characters, control characters, U+2028/9, invalid
    UTF-8), a lexer and a one-pass parser with an explicit stack and the decoder's
    nesting limit, and the matching of member names to fields.  Strings are byte
    strings; what is not valid UTF-8 becomes U+FFFD both ways, as in the library. *)

From S2P Require Import Prelude.

(** ** UTF-8 *)

Definition code (a : ascii) : Z := Z.of_nat (nat_of_ascii a).
Definition chr (z : Z) : ascii := ascii_of_nat (Z.to_nat z).
Definition between (lo hi : Z) (a : ascii) : bool := (lo <=? code a) && (code a <=? hi).
Definition is_ascii (a : ascii) : bool := code a <? 128.
Definition cont (a : ascii) : bool := between 128 191 a.

(** The well-formed sequences of two, three and four bytes. *)
Definition two (a b : ascii) : bool := between 194 223 a && cont b.
Definition three (a b c : ascii) : bool :=
  ((between 224 224 a && between 160 191 b) || (between 225 236 a && cont b) ||
   (between 237 237 a && between 128 159 b) || (between 238 239 a && cont b)) && cont c.
Definition four (a b c d : ascii) : bool :=
  ((between 240 240 a && between 144 191 b) || (between 241 243 a && cont b) ||
   (between 244 244 a && between 128 143 b)) && cont c && cont d.

Inductive utf8 : string -> Prop :=
| utf8_nil : utf8 EmptyString
| utf8_1 a s : is_ascii a = true -> utf8 s -> utf8 (String a s)
| utf8_2 a b s : two a b = true -> utf8 s -> utf8 (String a (String b s))
| utf8_3 a b c s : three a b c = true -> utf8 s -> utf8 (String a (String b (String c s)))
| utf8_4 a b c d s : four a b c d = true -> utf8 s ->
    utf8 (String a (String b (String c (String d s)))).

(** ** Marshal: strings *)

Definition backslash : ascii := "092"%char.
Definition quote : ascii := "034"%char.

Definition hex4 (z : Z) : string :=
  String (hex_digit (z / 4096 mod 16)) (String (hex_digit (z / 256 mod 16))
    (String (hex_digit (z / 16 mod 16)) (String (hex_digit (z mod 16)) EmptyString))).

Definition u_escape (z : Z) : string := String backslash (String "u" (hex4 z)).

(** An ASCII byte: safe as it is, or escaped. *)
Definition escape_ascii (a : ascii) : string :=
  let n := code a in
  if (n =? 92) || (n =? 34) then String backslash (String a EmptyString)
  else if n =? 8 then String backslash (String "b" EmptyString)
  else if n =? 12 then String backslash (String "f" EmptyString)
  else if n =? 10 then String backslash (String "n" EmptyString)
  else if n =? 13 then String backslash (String "r" EmptyString)
  else if n =? 9 then String backslash (String "t" EmptyString)
  else if (n <? 32) || (n =? 60) || (n =? 62) || (n =? 38) then u_escape n
  else String a EmptyString.

(** U+2028 and U+2029 are escaped, every other rune of three bytes is copied. *)
Definition escape_three (a b c : ascii) : string :=
  if (code a =? 226) && (code b =? 128) && ((code c =? 168) || (code c =? 169)) then
    u_escape (8192 + (code c - 128))
  else String a (String b (String c EmptyString)).

Fixpoint escape (s : string) : string :=
  match s with
  | EmptyString => EmptyString
  | String a r =>
    if is_ascii a then escape_ascii a +:+ escape r
    else match r with
    | String b r2 =>
      if two a b then String a (String b (escape r2))
      else match r2 with
      | String c r3 =>
        if three a b c then escape_three a b c +:+ escape r3
        else match r3 with
        | String d r4 =>
          if four a b c d then String a (String b (String c (String d (escape r4))))
          else u_escape 65533 +:+ escape r
        | _ => u_escape 65533 +:+ escape r
        end
      | _ => u_escape 65533 +:+ escape r
      end
    | _ => u_escape 65533 +:+ escape r
    end
  end.

Definition marshal_string (s : string) : string :=
  String quote (escape s +:+ String quote EmptyString).

(** ** Unmarshal: strings *)

(** One character of a literal: a byte, or a \u escape's code unit. *)
Inductive item := Raw (a : ascii) | Unit (u : Z).

(** The UTF-8 of a rune that is not a surrogate. *)
Definition utf8_encode (r : Z) : string :=
  if r <? 128 then String (chr r) EmptyString
  else if r <? 2048 then String (chr (192 + r / 64)) (String (chr (128 + r mod 64)) EmptyString)
  else if r <? 65536 then
    String (chr (224 + r / 4096)) (String (chr (128 + r / 64 mod 64))
      (String (chr (128 + r mod 64)) EmptyString))
  else
    String (chr (240 + r / 262144)) (String (chr (128 + r / 4096 mod 64))
      (String (chr (128 + r / 64 mod 64)) (String (chr (128 + r mod 64)) EmptyString))).

Definition is_high (u : Z) : bool := (55296 <=? u) && (u <=? 56319).
Definition is_low (u : Z) : bool := (56320 <=? u) && (u <=? 57343).
Definition replacement : string := utf8_encode 65533.

Fixpoint unquote (l : list item) : string :=
  match l with
  | [] => EmptyString
  | Unit u :: r =>
    if is_high u then
      match r with
      | Unit v :: r2 =>
        if is_low v then utf8_encode (65536 + (u - 55296) * 1024 + (v - 56320)) +:+ unquote r2
        else replacement +:+ unquote r
      | _ => replacement +:+ unquote r
      end
    else if is_low u then replacement +:+ unquote r
    else utf8_encode u +:+ unquote r
  | Raw a :: r =>
    if is_ascii a then String a (unquote r)
    else match r with
    | Raw b :: r2 =>
      if two a b then String a (String b (unquote r2))
      else match r2 with
      | Raw c :: r3 =>
        if three a b c then String a (String b (String c (unquote r3)))
        else match r3 with
        | Raw d :: r4 =>
          if four a b c d then String a (String b (String c (String d (unquote r4))))
          else replacement +:+ unquote r
        | _ => replacement +:+ unquote r
        end
      | _ => replacement +:+ unquote r
      end
    | _ => replacement +:+ unquote r
    end
  end.

(** ** Unmarshal: the lexer *)

Inductive tok :=
| TLBrace | TRBrace | TLBracket | TRBracket | TColon | TComma
| TStr (s : string) | TNum (raw : string) | TTrue | TFalse | TNull.

Inductive mode :=
| Base
| InStr (acc : list item)
| InEsc (acc : list item)
| InU (acc : list item) (n : nat) (v : Z)
| InNum (raw : string)
| InWord (w : string).

Definition is_hexc (a : ascii) : bool := between 48 57 a || between 97 102 a || between 65 70 a.
Definition unhexc (a : ascii) : Z :=
  if between 48 57 a then code a - 48
  else if between 97 102 a then code a - 97 + 10 else code a - 65 + 10.

Definition simple_escape (a : ascii) : option ascii :=
  match a with
  | "034" => Some "034" | "\" => Some "092" | "/" => Some "/"
  | "b" => Some "008" | "f" => Some "012" | "n" => Some "010" | "r" => Some "013"
  | "t" => Some "009" | _ => None
  end%char.

Definition is_space (a : ascii) : bool :=
  (code a =? 32) || (code a =? 9) || (code a =? 10) || (code a =? 13).
Definition num_char (a : ascii) : bool :=
  is_digit a || (code a =? 45) || (code a =? 43) || (code a =? 46) || (code a =? 101) || (code a =? 69).
Definition num_start (a : ascii) : bool := is_digit a || (code a =? 45).
Definition is_letter (a : ascii) : bool := between 97 122 a.

(** A number: [-? int frac? exp?], [int] without leading zeros. *)
Fixpoint skip_digits (s : string) : string :=
  match s with String a r => if is_digit a then skip_digits r else s | _ => s end.

Definition valid_exp (s : string) : bool :=
  match s with
  | EmptyString => true
  | String a r =>
    if (code a =? 101) || (code a =? 69) then
      let r' := match r with
                | String b q => if (code b =? 43) || (code b =? 45) then q else r
                | _ => r
                end in
      match r' with
      | String d q => is_digit d && match skip_digits q with EmptyString => true | _ => false end
      | _ => false
      end
    else false
  end.

Definition valid_frac (s : string) : bool :=
  match s with
  | String a (String d q) =>
    if code a =? 46 then is_digit d && valid_exp (skip_digits q) else valid_exp s
  | _ => valid_exp s
  end.

Definition valid_int (s : string) : bool :=
  match s with
  | String a r =>
    if code a =? 48 then valid_frac r
    else is_digit a && valid_frac (skip_digits r)
  | _ => false
  end.

Definition valid_number (s : string) : bool :=
  match s with
  | String a r => if code a =? 45 then valid_int r else valid_int s
  | _ => false
  end.

Definition num_tok (raw : string) : option tok :=
  if valid_number raw then Some (TNum raw) else None.

Definition word_tok (w : string) : option tok :=
  if String.eqb w "true" then Some TTrue
  else if String.eqb w "false" then Some TFalse
  else if String.eqb w "null" then Some TNull
  else None.

Definition punct (a : ascii) : option tok :=
  match a with
  | "{" => Some TLBrace | "}" => Some TRBrace | "[" => Some TLBracket | "]" => Some TRBracket
  | ":" => Some TColon | "," => Some TComma | _ => None
  end%char.

(** What a character does between tokens: the token it is, and the next mode. *)
Definition start (a : ascii) : option (list tok * mode) :=
  if is_space a then Some ([], Base)
  else match punct a with
  | Some t => Some ([t], Base)
  | None =>
    if code a =? 34 then Some ([], InStr [])
    else if num_start a then Some ([], InNum (String a EmptyString))
    else if is_letter a then Some ([], InWord (String a EmptyString))
    else None
  end.

Definition snoc (s : string) (a : ascii) : string := s +:+ String a EmptyString.

(** One character: the tokens it completes and the next mode. *)
Definition lex_step (m : mode) (a : ascii) : option (list tok * mode) :=
  match m with
  | Base => start a
  | InStr acc =>
    if code a =? 34 then Some ([TStr (unquote acc)], Base)
    else if code a =? 92 then Some ([], InEsc acc)
    else if code a <? 32 then None
    else Some ([], InStr (acc ++ [Raw a]))
  | InEsc acc =>
    match simple_escape a with
    | Some x => Some ([], InStr (acc ++ [Raw x]))
    | None => if code a =? 117 then Some ([], InU acc 0 0) else None
    end
  | InU acc n v =>
    if is_hexc a then
      let v' := 16 * v + unhexc a in
      if (n =? 3)%nat then Some ([], InStr (acc ++ [Unit v'])) else Some ([], InU acc (S n) v')
    else None
  | InNum raw =>
    if num_char a then Some ([], InNum (snoc raw a))
    else t ← num_tok raw; '(ts, m') ← start a; Some (t :: ts, m')
  | InWord w =>
    if is_letter a then Some ([], InWord (snoc w a))
    else t ← word_tok w; '(ts, m') ← start a; Some (t :: ts, m')
  end.

Fixpoint lex (s : string) (m : mode) : option (list tok) :=
  match s with
  | EmptyString =>
    match m with
    | Base => Some []
    | InNum raw => t ← num_tok raw; Some [t]
    | InWord w => t ← word_tok w; Some [t]
    | _ => None
    end
  | String a r =>
    '(ts, m') ← lex_step m a;
    rest ← lex r m';
    Some (ts ++ rest)
  end.

(** ** Unmarshal: the parser *)

#[local] Set Warnings "-register-all".

Inductive json :=
| JNull | JBool (b : bool) | JNum (raw : string) | JStr (s : string)
| JArr (vs : list json) | JObj (ms : list (string * json)).

(** An open array or object, with what it holds so far. *)
Inductive frame := FArr (vs : list json) | FObj (ms : list (string * json)) (key : string).

Inductive expect :=
| EValue                                        (* a value *)
| EValueOrEnd                                   (* after [ *)
| EKeyOrEnd                                     (* after { *)
| EKey (ms : list (string * json))              (* after , in an object *)
| EColon (ms : list (string * json)) (key : string)
| EAfter (v : json).                            (* a value is complete *)

Definition maxNestingDepth : Z := 10000.

Definition parse_state : Type := list frame * expect.

Definition begin_value (st : list frame) (t : tok) : option parse_state :=
  match t with
  | TStr s => Some (st, EAfter (JStr s))
  | TNum raw => Some (st, EAfter (JNum raw))
  | TTrue => Some (st, EAfter (JBool true))
  | TFalse => Some (st, EAfter (JBool false))
  | TNull => Some (st, EAfter JNull)
  | TLBracket => if blen st <? maxNestingDepth then Some (FArr [] :: st, EValueOrEnd) else None
  | TLBrace => if blen st <? maxNestingDepth then Some (FObj [] EmptyString :: st, EKeyOrEnd) else None
  | _ => None
  end.

Definition parse_step (p : parse_state) (t : tok) : option parse_state :=
  let '(st, e) := p in
  match e with
  | EValue => begin_value st t
  | EValueOrEnd =>
    match t, st with
    | TRBracket, FArr vs :: st' => Some (st', EAfter (JArr vs))
    | _, _ => begin_value st t
    end
  | EKeyOrEnd =>
    match t, st with
    | TRBrace, FObj ms _ :: st' => Some (st', EAfter (JObj ms))
    | TStr k, FObj ms _ :: st' => Some (st', EColon ms k)
    | _, _ => None
    end
  | EKey ms => match t with TStr k => Some (st, EColon ms k) | _ => None end
  | EColon ms k => match t with TColon => Some (FObj ms k :: st, EValue) | _ => None end
  | EAfter v =>
    match st, t with
    | FArr vs :: st', TComma => Some (FArr (vs ++ [v]) :: st', EValue)
    | FArr vs :: st', TRBracket => Some (st', EAfter (JArr (vs ++ [v])))
    | FObj ms k :: st', TComma => Some (st', EKey (ms ++ [(k, v)]))
    | FObj ms k :: st', TRBrace => Some (st', EAfter (JObj (ms ++ [(k, v)])))
    | _, _ => None
    end
  end.

Fixpoint parse_run (p : parse_state) (ts : list tok) : option parse_state :=
  match ts with
  | [] => Some p
  | t :: ts' => p' ← parse_step p t; parse_run p' ts'
  end.

Definition parse (s : string) : option json :=
  ts ← lex s Base;
  match parse_run ([], EValue) ts with
  | Some ([], EAfter v) => Some v
  | _ => None
  end.

(** ** Numbers of a struct's integer fields *)

Definition ParseInt (raw : string) : option Z :=
  match raw with
  | String "-" r =>
    match r with
    | EmptyString => None
    | _ => n ← digits_value r 0; if n <=? 2 ^ 63 then Some (- n) else None
    end
  | EmptyString => None
  | _ => n ← digits_value raw 0; if n <? 2 ^ 63 then Some n else None
  end.

Definition ParseUint (raw : string) : option Z :=
  match raw with
  | EmptyString => None
  | _ => n ← digits_value raw 0; if n <? 2 ^ 64 then Some n else None
  end.

(** ** Member names: the case folding under which a name matches a field *)

Fixpoint fold_name (s : string) : string :=
  match s with
  | String "197" (String "191" r) => String "S" (fold_name r)
  | String "226" (String "132" (String "170" r)) => String "K" (fold_name r)
  | String a r => String (if between 97 122 a then chr (code a - 32) else a) (fold_name r)
  | EmptyString => EmptyString
  end.

(** ** Lemmas: running the lexer on a prefix *)

Fixpoint lex_run (s : string) (m : mode) : option (list tok * mode) :=
  match s with
  | EmptyString => Some ([], m)
  | String a r => '(ts, m1) ← lex_step m a; '(ts', m2) ← lex_run r m1; Some (ts ++ ts', m2)
  end.

Lemma lex_run_app s1 s2 m ts1 m1 ts2 m2 :
  lex_run s1 m = Some (ts1, m1) -> lex_run s2 m1 = Some (ts2, m2) ->
  lex_run (s1 +:+ s2) m = Some (ts1 ++ ts2, m2).
Proof.
  revert m ts1. induction s1 as [|a s1 IH]; intros m ts1; simpl; [by intros [= <- <-]|].
  destruct (lex_step m a) as [[ts m']|]; simpl; [|done].
  destruct (lex_run s1 m') as [[ts' m'']|] eqn:E; simpl; [|done]. intros [= <- <-] H2.
  rewrite (IH _ _ E H2). simpl. by rewrite app_assoc.
Qed.

Lemma lex_of_run s m ts : lex_run s m = Some (ts, Base) -> lex s m = Some ts.
Proof.
  revert m ts. induction s as [|a s IH]; intros m ts; simpl; [by intros [= <- ->]|].
  destruct (lex_step m a) as [[ts1 m1]|]; simpl; [|done].
  destruct (lex_run s m1) as [[ts2 m2]|] eqn:E; simpl; [|done]. intros [= <- ->].
  by rewrite (IH _ _ E).
Qed.

#[local] Arguments lex_step : simpl never.

(** ** Lemmas: string literals *)

Definition item_of (a : ascii) : item :=
  let n := code a in
  if (n =? 8) || (n =? 12) || (n =? 10) || (n =? 13) || (n =? 9) then Raw a
  else if (n <? 32) || (n =? 60) || (n =? 62) || (n =? 38) then Unit n
  else Raw a.

Lemma lex_escape_ascii a acc :
  is_ascii a = true -> lex_run (escape_ascii a) (InStr acc) = Some ([], InStr (acc ++ [item_of a])).
Proof. destruct a as [[] [] [] [] [] [] [] []]; (discriminate || reflexivity). Qed.

Lemma unquote_item_of a k : is_ascii a = true -> unquote (item_of a :: k) = String a (unquote k).
Proof. destruct a as [[] [] [] [] [] [] [] []]; (discriminate || reflexivity). Qed.

Lemma lex_raw a acc :
  is_ascii a = false -> lex_step (InStr acc) a = Some ([], InStr (acc ++ [Raw a])).
Proof. destruct a as [[] [] [] [] [] [] [] []]; (discriminate || reflexivity). Qed.

Lemma cont_not_ascii a : cont a = true -> is_ascii a = false.
Proof. unfold cont, between, is_ascii. lia. Qed.

Lemma two_facts a b : two a b = true -> is_ascii a = false /\ is_ascii b = false.
Proof. unfold two, cont, between, is_ascii. lia. Qed.

Lemma three_facts a b c :
  three a b c = true ->
  is_ascii a = false /\ is_ascii b = false /\ is_ascii c = false /\ two a b = false.
Proof. unfold three, two, cont, between, is_ascii. lia. Qed.

Lemma four_facts a b c d :
  four a b c d = true ->
  is_ascii a = false /\ is_ascii b = false /\ is_ascii c = false /\ is_ascii d = false /\
  two a b = false /\ three a b c = false.
Proof. unfold four, three, two, cont, between, is_ascii. lia. Qed.

Definition items_three (a b c : ascii) : list item :=
  if (code a =? 226) && (code b =? 128) && ((code c =? 168) || (code c =? 169)) then
    [Unit (8192 + (code c - 128))]
  else [Raw a; Raw b; Raw c].

Lemma code_chr a n : code a = Z.of_nat n -> a = ascii_of_nat n.
Proof. unfold code. intros H. rewrite <- (ascii_nat_embedding a). f_equal. lia. Qed.

Lemma escape_three_items a b c :
  three a b c = true ->
  (forall acc, lex_run (escape_three a b c) (InStr acc) = Some ([], InStr (acc ++ items_three a b c))) /\
  forall k, unquote (items_three a b c ++ k) = String a (String b (String c (unquote k))).
Proof.
  intros H. destruct (three_facts a b c H) as (Ha & Hb & Hc & H2).
  unfold escape_three, items_three. destruct (_ && _) eqn:E.
  - rewrite !andb_true_iff, orb_true_iff, !Z.eqb_eq in E. destruct E as [[Ea Eb] Ec].
    apply (code_chr a 226) in Ea. apply (code_chr b 128) in Eb. subst a b.
    destruct Ec as [Ec|Ec]; [apply (code_chr c 168) in Ec|apply (code_chr c 169) in Ec]; subst c;
      (split; [intros acc; reflexivity|intros k; reflexivity]).
  - split.
    + intros acc. simpl. rewrite lex_raw by done. simpl. rewrite lex_raw by done. simpl.
      rewrite lex_raw by done. simpl. by rewrite <- !app_assoc.
    + intros k. simpl. by rewrite Ha, H2, H.
Qed.

Lemma escape_items s :
  utf8 s -> exists l, (forall acc, lex_run (escape s) (InStr acc) = Some ([], InStr (acc ++ l))) /\
  forall k, unquote (l ++ k) = s +:+ unquote k.
Proof.
  induction 1 as [|a s Ha _ (l & Hl & Hu)|a b s H _ (l & Hl & Hu)|a b c s H _ (l & Hl & Hu)
    |a b c d s H _ (l & Hl & Hu)].
  - exists []. split; [intros acc; by rewrite app_nil_r|done].
  - exists (item_of a :: l). split.
    + intros acc. simpl. rewrite Ha.
      rewrite (lex_run_app _ _ _ _ _ _ _ (lex_escape_ascii a acc Ha) (Hl _)).
      simpl. by rewrite <- app_assoc.
    + intros k. rewrite <- app_comm_cons, unquote_item_of by done. simpl. by rewrite Hu.
  - destruct (two_facts a b H) as [Ha Hb]. exists (Raw a :: Raw b :: l). split.
    + intros acc. simpl. rewrite Ha, H. simpl. rewrite lex_raw by done. simpl.
      rewrite lex_raw by done. simpl. rewrite Hl. simpl. by rewrite <- !app_assoc.
    + intros k. simpl. by rewrite Ha, H, Hu.
  - destruct (three_facts a b c H) as (Ha & Hb & Hc & H2).
    destruct (escape_three_items a b c H) as [Hl3 Hu3].
    exists (items_three a b c ++ l). split.
    + intros acc. simpl. rewrite Ha, H2, H.
      rewrite (lex_run_app _ _ _ _ _ _ _ (Hl3 acc) (Hl _)). simpl. by rewrite <- app_assoc.
    + intros k. rewrite <- app_assoc, Hu3, Hu. done.
  - destruct (four_facts a b c d H) as (Ha & Hb & Hc & Hd & H2 & H3).
    exists (Raw a :: Raw b :: Raw c :: Raw d :: l). split.
    + intros acc. simpl. rewrite Ha, H2, H3, H. simpl. rewrite lex_raw by done. simpl.
      rewrite lex_raw by done. simpl. rewrite lex_raw by done. simpl. rewrite lex_raw by done.
      simpl. rewrite Hl. simpl. by rewrite <- !app_assoc.
    + intros k. simpl. by rewrite Ha, H2, H3, H, Hu.
Qed.

(** A marshalled string is one token, the string itself. *)
Lemma lex_marshal_string s :
  utf8 s -> lex_run (marshal_string s) Base = Some ([TStr s], Base).
Proof.
  intros Hs. destruct (escape_items s Hs) as (l & Hl & Hu). unfold marshal_string.
  change (String quote (escape s +:+ String quote EmptyString))
    with (String quote EmptyString +:+ (escape s +:+ String quote EmptyString)).
  eapply (lex_run_app _ _ _ []); [reflexivity|]. eapply (lex_run_app _ _ _ []); [apply Hl|].
  simpl. change (lex_step (InStr l) quote) with (Some ([TStr (unquote l)], Base)). simpl.
  assert (Hq : unquote l = s).
  { specialize (Hu []). rewrite app_nil_r in Hu. rewrite Hu. simpl. apply string_app_nil_r. }
  by rewrite Hq.
Qed.

(** ** Lemmas: numbers *)

Lemma lex_digits s raw :
  all_chars is_digit s = true -> lex_run s (InNum raw) = Some ([], InNum (raw +:+ s)).
Proof.
  revert raw. induction s as [|a s IH]; intros raw; [by rewrite string_app_nil_r|].
  simpl. intros H. apply andb_true_iff in H as [Ha Hs].
  assert (Hstep : lex_step (InNum raw) a = Some ([], InNum (snoc raw a))).
  { unfold lex_step, num_char. by rewrite Ha. }
  rewrite Hstep. simpl. rewrite IH by done. simpl. unfold snoc. do 3 f_equal.
  induction raw as [|b raw IHr]; [done|].
  change (String b ((raw +:+ String a EmptyString) +:+ s) = String b (raw +:+ String a s)).
  f_equal. apply IHr. unfold lex_step, num_char. by rewrite Ha.
Qed.

Lemma start_digit a :
  num_start a = true -> lex_step Base a = Some ([], InNum (String a EmptyString)).
Proof. destruct a as [[] [] [] [] [] [] [] []]; (discriminate || reflexivity). Qed.

Lemma skip_all_digits s : all_chars is_digit s = true -> skip_digits s = EmptyString.
Proof.
  induction s as [|a s IH]; simpl; [done|]. intros H. apply andb_true_iff in H as [-> Hs]. by apply IH.
Qed.

Lemma valid_int_digits a r :
  is_digit a = true -> a <> "0"%char -> all_chars is_digit r = true -> valid_int (String a r) = true.
Proof.
  intros Ha Hne Hr. unfold valid_int. rewrite Ha, skip_all_digits by done. simpl.
  destruct (code a =? 48) eqn:E; [|done]. bool_facts. by apply (code_chr a 48) in E.
Qed.

Lemma pretty_N_number (n : N) :
  valid_int (pretty n) = true /\ all_chars is_digit (pretty n) = true /\
  exists a r, pretty n = String a r /\ is_digit a = true /\ all_chars is_digit r = true.
Proof.
  destruct (pretty_N_facts n) as (_ & Hd & [H0|(a & r & Hp & Ha & Hne)]).
  - rewrite H0. split; [done|]. split; [done|]. by exists "0"%char, EmptyString.
  - rewrite Hp in *. simpl in Hd. apply andb_true_iff in Hd as [_ Hr].
    split; [by apply valid_int_digits|]. split; [simpl; by rewrite Ha|]. by exists a, r.
Qed.

Lemma digit_not_minus a : is_digit a = true -> (code a =? 45) = false.
Proof. unfold is_digit, code. lia. Qed.

(** A printed integer is lexed as one number. *)
Lemma lex_number z :
  lex_run (fmt_d z) Base = Some ([], InNum (fmt_d z)) /\ valid_number (fmt_d z) = true.
Proof.
  destruct (decide (z < 0)) as [Hz|Hz].
  - rewrite fmt_d_neg by done. destruct (pretty_N_number (Z.to_N (- z))) as (Hv & Hd & _).
    split; [|done]. simpl. change (lex_step Base "-") with (Some (@nil tok, InNum "-")).
    simpl. rewrite lex_digits by done. done.
  - rewrite fmt_d_nonneg by lia.
    destruct (pretty_N_number (Z.to_N z)) as (Hv & Hd & a & r & Hp & Ha & Hr).
    rewrite Hp in *. split.
    + simpl. rewrite start_digit by (unfold num_start; by rewrite Ha). simpl.
      rewrite lex_digits by done. done.
    + unfold valid_number. by rewrite digit_not_minus.
Qed.

Lemma ParseInt_digits a r :
  is_digit a = true -> ParseInt (String a r) =
  (n ← digits_value (String a r) 0; if n <? 2 ^ 63 then Some n else None).
Proof. destruct a as [[] [] [] [] [] [] [] []]; (discriminate || reflexivity). Qed.

Lemma ParseInt_fmt z : - 2 ^ 63 <= z < 2 ^ 63 -> ParseInt (fmt_d z) = Some z.
Proof.
  intros Hz. destruct (decide (z < 0)) as [Hn|Hn].
  - rewrite fmt_d_neg by done. pose proof (pretty_N_facts (Z.to_N (- z))) as (Hv & _ & _).
    destruct (pretty_N_number (Z.to_N (- z))) as (_ & _ & a & r & Hp & _).
    unfold ParseInt. rewrite Hp in *. rewrite Hv. simpl. rewrite Z2N.id by lia.
    rewrite (proj2 (Z.leb_le _ _)) by lia. f_equal. lia.
  - rewrite fmt_d_nonneg by lia. pose proof (pretty_N_facts (Z.to_N z)) as (Hv & _ & _).
    destruct (pretty_N_number (Z.to_N z)) as (_ & _ & a & r & Hp & Ha & _).
    rewrite Hp in *. rewrite ParseInt_digits by done. rewrite Hv. simpl.
    rewrite Z2N.id by lia. by rewrite (proj2 (Z.ltb_lt _ _)) by lia.
Qed.

Lemma ParseUint_fmt z : 0 <= z < 2 ^ 64 -> ParseUint (fmt_d z) = Some z.
Proof.
  intros Hz. rewrite fmt_d_nonneg by lia. pose proof (pretty_N_facts (Z.to_N z)) as (Hv & _ & _).
  destruct (pretty_N_number (Z.to_N z)) as (_ & _ & a & r & Hp & Ha & _).
  unfold ParseUint. rewrite Hp in *. rewrite Hv. simpl.
  rewrite Z2N.id by lia. by rewrite (proj2 (Z.ltb_lt _ _)) by lia.
Qed.

(** ** Lemmas: a flat object *)

(** The values of a flat object: a string or an integer. *)
Inductive jval := VStr (s : string) | VInt (z : Z).

Definition marshal_val (v : jval) : string :=
  match v with VStr s => marshal_string s | VInt z => fmt_d z end.
Definition json_of (v : jval) : json :=
  match v with VStr s => JStr s | VInt z => JNum (fmt_d z) end.
Definition tok_of (v : jval) : tok :=
  match v with VStr s => TStr s | VInt z => TNum (fmt_d z) end.
Definition val_ok (v : jval) : Prop := match v with VStr s => utf8 s | VInt _ => True end.

Definition marshal_member (m : string * jval) : string :=
  marshal_string m.1 +:+ String ":" (marshal_val m.2).

Fixpoint marshal_more (ms : list (string * jval)) : string :=
  match ms with
  | [] => String "}" EmptyString
  | m :: ms' => String "," (marshal_member m +:+ marshal_more ms')
  end.

(** [{"k":v,...}] *)
Definition marshal_object (ms : list (string * jval)) : string :=
  match ms with
  | [] => "{}"
  | m :: ms' => String "{" (marshal_member m +:+ marshal_more ms')
  end.

Fixpoint toks_more (ms : list (string * jval)) : list tok :=
  match ms with
  | [] => [TRBrace]
  | m :: ms' => TComma :: TStr m.1 :: TColon :: tok_of m.2 :: toks_more ms'
  end.

Lemma append_assoc (a b c : string) : (a +:+ b) +:+ c = a +:+ (b +:+ c).
Proof.
  induction a as [|x a IH]; [done|].
  change (String x ((a +:+ b) +:+ c) = String x (a +:+ (b +:+ c))). by rewrite IH.
Qed.

(** A value and the character that ends it. *)
Lemma lex_val_end v c t s ts m :
  val_ok v -> (c = ","%char /\ t = TComma \/ c = "}"%char /\ t = TRBrace) ->
  lex_run s Base = Some (ts, m) ->
  lex_run (marshal_val v +:+ String c s) Base = Some (tok_of v :: t :: ts, m).
Proof.
  intros Hv Hc Hs. assert (Hd : lex_step Base c = Some ([t], Base)) by (destruct Hc as [[-> ->]|[-> ->]]; done).
  destruct v as [x|z]; cbn [marshal_val tok_of].
  - eapply (lex_run_app _ _ _ [TStr x]); [by apply lex_marshal_string|]. simpl. rewrite Hd. simpl.
    by rewrite Hs.
  - destruct (lex_number z) as [Hl Hn]. eapply (lex_run_app _ _ _ []); [apply Hl|].
    assert (Hd' : lex_step (InNum (fmt_d z)) c = Some ([TNum (fmt_d z); t], Base)).
    { unfold lex_step, num_tok. rewrite Hn. destruct Hc as [[-> ->]|[-> ->]]; done. }
    simpl. rewrite Hd'. simpl. by rewrite Hs.
Qed.

Definition member_ok (m : string * jval) : Prop := utf8 m.1 /\ val_ok m.2.

Lemma lex_members m ms :
  member_ok m -> Forall member_ok ms ->
  lex_run (marshal_member m +:+ marshal_more ms) Base =
  Some (TStr m.1 :: TColon :: tok_of m.2 :: toks_more ms, Base).
Proof.
  revert m. induction ms as [|m' ms IH]; intros m [Hk Hv] Hms;
    unfold marshal_member; rewrite append_assoc;
    (eapply (lex_run_app _ _ _ [TStr m.1]); [by apply lex_marshal_string|]);
    match goal with |- lex_run (String ?c ?s +:+ ?r) _ = _ =>
      change (String c s +:+ r) with (String c (s +:+ r)) end;
    simpl; change (lex_step Base ":") with (Some ([TColon], Base)); simpl.
  - rewrite (lex_val_end _ _ TRBrace _ [] Base) by auto. done.
  - apply Forall_cons in Hms as [Hm' Hms].
    rewrite (lex_val_end _ _ TComma _ _ _ Hv ltac:(auto) (IH m' Hm' Hms)). done.
Qed.

Lemma parse_members m ms acc :
  parse_run ([FObj acc m.1], EAfter (json_of m.2)) (toks_more ms) =
  Some ([], EAfter (JObj (acc ++ ((fun x => (x.1, json_of x.2)) <$> m :: ms)))).
Proof.
  revert m acc. induction ms as [|m' ms IH]; intros m acc; simpl; [done|].
  assert (Hv : begin_value [FObj (acc ++ [(m.1, json_of m.2)]) m'.1] (tok_of m'.2) =
    Some ([FObj (acc ++ [(m.1, json_of m.2)]) m'.1], EAfter (json_of m'.2))) by (by destruct m'.2).
  rewrite Hv. simpl. rewrite IH. simpl. by rewrite <- app_assoc.
Qed.

(** Parsing what [Marshal] prints gives back the members, in order. *)
Lemma parse_marshal_object m ms :
  Forall member_ok (m :: ms) ->
  parse (marshal_object (m :: ms)) = Some (JObj ((fun x => (x.1, json_of x.2)) <$> m :: ms)).
Proof.
  intros [Hm Hms]%Forall_cons. unfold parse.
  assert (Hl : lex (marshal_object (m :: ms)) Base =
    Some (TLBrace :: TStr m.1 :: TColon :: tok_of m.2 :: toks_more ms)).
  { apply lex_of_run. cbn [marshal_object lex_run].
    change (lex_step Base "{") with (Some ([TLBrace], Base)). cbn [mbind option_bind].
    by rewrite lex_members. }
  rewrite Hl. simpl.
  assert (Hv : begin_value [FObj [] m.1] (tok_of m.2) =
    Some ([FObj [] m.1], EAfter (json_of m.2))) by (by destruct m.2).
  rewrite Hv. simpl. by rewrite (parse_members m ms []).
Qed.

(** ** Lemmas: ASCII strings are UTF-8 *)

Lemma utf8_all_ascii s : all_chars is_ascii s = true -> utf8 s.
Proof.
  induction s as [|a s IH]; simpl; [constructor|]. intros Hs. apply andb_true_iff in Hs as [Ha Hs].
  apply utf8_1; auto.
Qed.

Lemma all_chars_app f s1 s2 : all_chars f (s1 +:+ s2) = all_chars f s1 && all_chars f s2.
Proof.
  induction s1 as [|a s1 IH]; [done|].
  change (f a && all_chars f (s1 +:+ s2) = f a && all_chars f s1 && all_chars f s2).
  by rewrite IH, andb_assoc.
Qed.

Lemma digits_ascii s : all_chars is_digit s = true -> all_chars is_ascii s = true.
Proof.
  induction s as [|a s IH]; simpl; [done|]. intros Hs. apply andb_true_iff in Hs as [Ha Hs].
  rewrite IH by done. unfold is_digit in Ha. unfold is_ascii, code. lia.
Qed.

Lemma fmt_d_ascii z : all_chars is_ascii (fmt_d z) = true.
Proof.
  destruct (decide (z < 0)).
  - rewrite fmt_d_neg by done. simpl. apply digits_ascii, pretty_N_number.
  - rewrite fmt_d_nonneg by lia. apply digits_ascii, pretty_N_number.
Qed.
