(* ===== verification/Xml.v ===== *)
(** * The XML answers as text (s3api/handler.go of both servers)

    S3Api.v keeps an answer's document as its record; here is the text that encoding/xml
    makes of it by the struct's tags, and what a client that reads the text gets.  The
    parser below is not the code's: it stands for the client. *)

From S2P Require Import Prelude StoreIface TimeFmt Json Ingest S3Api.
From S2P Require MemStore.

#[local] Open Scope go_scope.

(** ** xml.EscapeText *)

Definition replacement_char : string := String (chr 239) (String (chr 191) (String (chr 189) EmptyString)).

(** A character of the XML range; the others are replaced by U+FFFD. *)
Definition legal_ascii (a : ascii) : bool :=
  let n := code a in (n =? 9) || (n =? 10) || (n =? 13) || ((32 <=? n) && (n <? 128)).
Definition legal_three (a b c : ascii) : bool :=
  three a b c && negb ((code a =? 239) && (code b =? 191) && (190 <=? code c)).

Definition xml_escape_ascii (a : ascii) : string :=
  let n := code a in
  if n =? 34 then "&#34;"
  else if n =? 39 then "&#39;"
  else if n =? 38 then "&amp;"
  else if n =? 60 then "&lt;"
  else if n =? 62 then "&gt;"
  else if n =? 9 then "&#x9;"
  else if n =? 10 then "&#xA;"
  else if n =? 13 then "&#xD;"
  else if legal_ascii a then String a EmptyString
  else replacement_char.

Fixpoint xml_escape (s : string) : string :=
  match s with
  | EmptyString => EmptyString
  | String a r =>
    if is_ascii a then xml_escape_ascii a +:+ xml_escape r
    else match r with
    | String b r2 =>
      if two a b then String a (String b (xml_escape r2))
      else match r2 with
      | String c r3 =>
        if three a b c then
          (if legal_three a b c then String a (String b (String c EmptyString)) else replacement_char) +:+ xml_escape r3
        else match r3 with
        | String d r4 =>
          if four a b c d then String a (String b (String c (String d (xml_escape r4))))
          else replacement_char +:+ xml_escape r
        | _ => replacement_char +:+ xml_escape r
        end
      | _ => replacement_char +:+ xml_escape r
      end
    | _ => replacement_char +:+ xml_escape r
    end
  end.

(** A string that XML can write: well-formed UTF-8 of legal characters. *)
Inductive legal : string -> Prop :=
| legal_nil : legal EmptyString
| legal_1 a s : legal_ascii a = true -> legal s -> legal (String a s)
| legal_2 a b s : two a b = true -> legal s -> legal (String a (String b s))
| legal_3 a b c s : legal_three a b c = true -> legal s -> legal (String a (String b (String c s)))
| legal_4 a b c d s : four a b c d = true -> legal s -> legal (String a (String b (String c (String d s)))).

(** ** Elements *)

(** An element with at most one attribute; its content is elements, or text. *)
Inductive xml := Elem (name : string) (attr : option (string * string)) (content : list xml) | Chars (s : string).

Inductive token := TStart (name : string) (attr : option (string * string)) | TText (s : string) | TEnd (name : string).

Fixpoint tokens (t : xml) : list token :=
  match t with
  | Chars s => [TText s]
  | Elem n a c => TStart n a :: flat_map tokens c ++ [TEnd n]
  end.

Definition dquote : ascii := "034"%char.

Definition token_text (t : token) : string :=
  match t with
  | TStart n None => String "<" (n +:+ ">")
  | TStart n (Some (a, v)) => String "<" (n +:+ String " " (a +:+ String "=" (String dquote (xml_escape v +:+ String dquote ">"))))
  | TText s => xml_escape s
  | TEnd n => String "<" (String "/" (n +:+ ">"))
  end.

Fixpoint text_of (ts : list token) : string :=
  match ts with [] => EmptyString | t :: ts' => token_text t +:+ text_of ts' end.

Definition xml_text (t : xml) : string := text_of (tokens t).

(** ** The documents *)

Definition leaf (name s : string) : xml := Elem name None (if String.eqb s "" then [] else [Chars s]).
Definition node (name : string) (content : list xml) : xml := Elem name None content.
(** A field with omitempty. *)
Definition optional (name s : string) : list xml := if String.eqb s "" then [] else [leaf name s].
Definition bool_text (b : bool) : string := if b then "true" else "false".

Section documents.
(** [err.Error()] of the errors that a document quotes. *)
Context (message_text : ErrMessage -> string).

Definition error_xml (d : s3ErrorResponse) : xml :=
  node "Error" ([leaf "Code" (e_Code d); leaf "Message" (message_text (e_Message d))] ++
    optional "BucketName" (e_Bucket d) ++ optional "Key" (e_Key d) ++ optional "RequestId" (e_RequestID d)).

Definition create_xml (d : createBucketResult) : xml :=
  Elem "CreateBucketResult" (Some ("xmlns"%string, c_XMLNS d)) [leaf "Location" (c_Location d)].

Definition content_xml (c : listContent) : xml :=
  node "Contents" [leaf "Key" (l_Key c); leaf "LastModified" (l_LastModified c); leaf "ETag" (l_ETag c);
    leaf "Size" (fmt_d (l_Size c)); leaf "StorageClass" (l_StorageClass c)].

Definition list_xml (d : listBucketResult) : xml :=
  Elem "ListBucketResult" (Some ("xmlns"%string, lb_XMLNS d))
    ([leaf "Name" (lb_Name d); leaf "Prefix" (lb_Prefix d); leaf "KeyCount" (fmt_d (lb_KeyCount d));
      leaf "MaxKeys" (fmt_d (lb_MaxKeys d)); leaf "IsTruncated" (bool_text (lb_IsTruncated d))] ++
     (content_xml <$> lb_Contents d)).

Definition owner_xml (o : ownerInfo) : xml := node "Owner" [leaf "ID" (o_ID o); leaf "DisplayName" (o_DisplayName o)].
Definition bucket_xml (b : bucketInfo) : xml :=
  node "Bucket" [leaf "Name" (b_Name b); leaf "CreationDate" (b_CreationDate b)].

Definition list_all_xml (d : listAllMyBucketsResult) : xml :=
  Elem "ListAllMyBucketsResult" (Some ("xmlns"%string, la_XMLNS d))
    [owner_xml (la_Owner d); node "Buckets" (bucket_xml <$> la_Buckets d)].

Definition doc_xml (d : Doc) : xml :=
  match d with
  | DError e => error_xml e
  | DCreate c => create_xml c
  | DList l => list_xml l
  | DListAll l => list_all_xml l
  end.

(** xml.Header, and the body that writeXML sends. *)
Definition Header : string :=
  "<?xml version=" +:+ String dquote ("1.0" +:+ String dquote (" encoding=" +:+ String dquote ("UTF-8" +:+
    String dquote ("?>" +:+ String "010" EmptyString)))).
Definition body_text (d : Doc) : string := Header +:+ xml_text (doc_xml d).
End documents.

(** ** A client's reading *)

(** The string before the first [c], and the string after it. *)
Fixpoint cut_at (c : ascii) (s : string) : option (string * string) :=
  match s with
  | EmptyString => None
  | String a r =>
    if Ascii.eqb a c then Some (EmptyString, r)
    else '(x, y) ← cut_at c r; Some (String a x, y)
  end.

Fixpoint unescape (s : string) : option string :=
  match s with
  | EmptyString => Some EmptyString
  | String "&" (String "a" (String "m" (String "p" (String ";" r)))) => String "&" <$> unescape r
  | String "&" (String "l" (String "t" (String ";" r))) => String "<" <$> unescape r
  | String "&" (String "g" (String "t" (String ";" r))) => String ">" <$> unescape r
  | String "&" (String "#" (String "3" (String "4" (String ";" r)))) => String dquote <$> unescape r
  | String "&" (String "#" (String "3" (String "9" (String ";" r)))) => String "'" <$> unescape r
  | String "&" (String "#" (String "x" (String "9" (String ";" r)))) => String "009" <$> unescape r
  | String "&" (String "#" (String "x" (String "A" (String ";" r)))) => String "010" <$> unescape r
  | String "&" (String "#" (String "x" (String "D" (String ";" r)))) => String "013" <$> unescape r
  | String "&" _ => None
  | String a r => String a <$> unescape r
  end.

(** What stands between the angle brackets of a start tag. *)
Definition read_tag (body : string) : option token :=
  match cut_at " " body with
  | None => Some (TStart body None)
  | Some (n, rest) =>
    '(a, quoted) ← cut_at "=" rest;
    match quoted with
    | String q v =>
      if Ascii.eqb q dquote then
        '(value, tail) ← cut_at dquote v;
        if String.eqb tail "" then v' ← unescape value; Some (TStart n (Some (a, v'))) else None
      else None
    | EmptyString => None
    end
  end.

(** The text up to the next tag. *)
Fixpoint cut_text (s : string) : string * string :=
  match s with
  | EmptyString => (EmptyString, EmptyString)
  | String "<" _ => (EmptyString, s)
  | String a r => let '(x, y) := cut_text r in (String a x, y)
  end.

Fixpoint lex (fuel : nat) (s : string) : option (list token) :=
  match s, fuel with
  | EmptyString, _ => Some []
  | _, O => None
  | String "<" (String "/" r), S fuel' =>
    '(n, rest) ← cut_at ">" r; cons (TEnd n) <$> lex fuel' rest
  | String "<" r, S fuel' =>
    '(body, rest) ← cut_at ">" r; t ← read_tag body; cons t <$> lex fuel' rest
  | _, S fuel' =>
    let '(raw, rest) := cut_text s in v ← unescape raw; cons (TText v) <$> lex fuel' rest
  end.

(** The open elements, each with its content read so far in reverse. *)
Definition open_elem : Type := string * option (string * string) * list xml.

Fixpoint build (ts : list token) (st : list open_elem) : option xml :=
  match ts with
  | [] => None
  | TStart n a :: ts' => build ts' ((n, a, []) :: st)
  | TText s :: ts' =>
    match st with (n, a, c) :: st' => build ts' ((n, a, Chars s :: c) :: st') | [] => None end
  | TEnd n :: ts' =>
    match st with
    | (m, a, c) :: st' =>
      if String.eqb n m then
        let t := Elem m a (rev c) in
        match st' with
        | (m', a', c') :: st'' => build ts' ((m', a', t :: c') :: st'')
        | [] => match ts' with [] => Some t | _ => None end
        end
      else None
    | [] => None
    end
  end.

Definition read_xml (s : string) : option xml := ts ← lex (String.length s) s; build ts [].

(** The parts of a listing. *)
Definition text_in (name : string) (t : xml) : list string :=
  match t with
  | Elem _ _ c => flat_map (fun x => match x with
      | Elem n _ [Chars s] => if String.eqb n name then [s] else []
      | Elem n _ [] => if String.eqb n name then [""%string] else []
      | _ => [] end) c
  | Chars _ => []
  end.
Definition elements_in (name : string) (t : xml) : list xml :=
  match t with
  | Elem _ _ c => List.filter (fun x => match x with Elem n _ _ => String.eqb n name | Chars _ => false end) c
  | Chars _ => []
  end.
Definition listed_keys (t : xml) : list string := flat_map (text_in "Key") (elements_in "Contents" t).

(** ** Lemmas: characters *)

(** A byte that stands for itself between and inside tags. *)
Definition plain (a : ascii) : bool := negb ((code a =? 34) || (code a =? 60) || (code a =? 62)).

Lemma legal_ascii_facts a : legal_ascii a = true ->
  is_ascii a = true /\ all_chars plain (xml_escape_ascii a) = true /\
  forall r, unescape (xml_escape_ascii a +:+ r) = String a <$> unescape r.
Proof.
  intros H. destruct a as [[] [] [] [] [] [] [] []]; vm_compute in H; try discriminate H;
    (split; [reflexivity|split; [reflexivity|intros r; reflexivity]]).
Qed.

Lemma wide_facts a : is_ascii a = false -> plain a = true /\ forall r, unescape (String a r) = String a <$> unescape r.
Proof.
  intros H. destruct a as [[] [] [] [] [] [] [] []]; vm_compute in H; try discriminate H;
    (split; [reflexivity|intros r; reflexivity]).
Qed.

Lemma unescape_wide s x : all_chars (fun a => negb (is_ascii a)) s = true -> unescape x = Some x -> unescape (s +:+ x) = Some (s +:+ x).
Proof.
  intros Hs Hx. induction s as [|a s IH]; [done|]. cbn [all_chars] in Hs. apply andb_prop in Hs as [Ha Hs].
  apply negb_true_iff in Ha. change (unescape (String a (s +:+ x)) = Some (String a (s +:+ x))).
  rewrite (proj2 (wide_facts a Ha)), IH by done. done.
Qed.

(** A legal string is written with no bracket and no quote, and read back. *)
Lemma escape_legal s : legal s -> all_chars plain (xml_escape s) = true /\ unescape (xml_escape s) = Some s.
Proof.
  induction 1 as [|a s Ha _ [IH1 IH2]|a b s H _ [IH1 IH2]|a b c s H _ [IH1 IH2]|a b c d s H _ [IH1 IH2]]; [done|..].
  - destruct (legal_ascii_facts a Ha) as (H1 & H2 & H3). cbn [xml_escape]. rewrite H1.
    rewrite all_chars_app, H2, IH1, H3, IH2. done.
  - destruct (two_facts a b H) as [Ha Hb]. cbn [xml_escape]. rewrite Ha, H.
    destruct (wide_facts a Ha) as [P1 U1], (wide_facts b Hb) as [P2 U2].
    cbn [all_chars]. rewrite P1, P2, IH1, U1, U2, IH2. done.
  - pose proof H as H'. unfold legal_three in H'. apply andb_prop in H' as [H3 _].
    destruct (three_facts a b c H3) as (Ha & Hb & Hc & H2). cbn [xml_escape]. rewrite Ha, H2, H3, H.
    destruct (wide_facts a Ha) as [P1 U1], (wide_facts b Hb) as [P2 U2], (wide_facts c Hc) as [P3 U3].
    change (all_chars plain (String a (String b (String c (xml_escape s)))) = true /\
            unescape (String a (String b (String c (xml_escape s)))) = Some (String a (String b (String c s)))).
    cbn [all_chars]. rewrite P1, P2, P3, IH1, U1, U2, U3, IH2. done.
  - destruct (four_facts a b c d H) as (Ha & Hb & Hc & Hd & H2 & H3). cbn [xml_escape]. rewrite Ha, H2, H3, H.
    destruct (wide_facts a Ha) as [P1 U1], (wide_facts b Hb) as [P2 U2], (wide_facts c Hc) as [P3 U3],
      (wide_facts d Hd) as [P4 U4].
    cbn [all_chars]. rewrite P1, P2, P3, P4, IH1, U1, U2, U3, U4, IH2. done.
Qed.

(** ** Lemmas: tags *)

(** Names of letters. *)
Definition good_char (a : ascii) : bool := (65 <=? code a) && (code a <=? 122).
Definition good_name (n : string) : bool := all_chars good_char n && negb (String.eqb n "").

Definition attr_ok (a : option (string * string)) : Prop :=
  match a with Some (n, v) => good_name n = true /\ legal v | None => True end.

Lemma cut_at_spec c s r : all_chars (fun a => negb (Ascii.eqb a c)) s = true -> cut_at c (s +:+ String c r) = Some (s, r).
Proof.
  induction s as [|a s IH]; [intros _; change (cut_at c (String c r) = Some (EmptyString, r)); simpl; by rewrite Ascii.eqb_refl|]. cbn [all_chars].
  intros [Ha%negb_true_iff Hs]%andb_prop. change (cut_at c (String a (s +:+ String c r)) = Some (String a s, r)).
  cbn [cut_at]. by rewrite Ha, IH.
Qed.

Lemma cut_at_none c s : all_chars (fun a => negb (Ascii.eqb a c)) s = true -> cut_at c s = None.
Proof.
  induction s as [|a s IH]; [done|]. cbn [all_chars]. intros [Ha%negb_true_iff Hs]%andb_prop. cbn [cut_at].
  by rewrite Ha, IH.
Qed.

(** The text of a token begins with an angle bracket, or the string is over. *)
Definition at_tag (s : string) : Prop := match s with EmptyString => True | String a _ => a = "<"%char end.

Lemma cut_text_spec s r :
  all_chars (fun a => negb (Ascii.eqb a "<")) s = true -> at_tag r -> cut_text (s +:+ r) = (s, r).
Proof.
  intros Hs Hr. induction s as [|a s IH].
  { change (cut_text r = (EmptyString, r)). destruct r as [|b r]; [done|]. simpl in Hr. by subst b. }
  cbn [all_chars] in Hs. apply andb_prop in Hs as [Ha Hs].
  change (cut_text (String a (s +:+ r)) = (String a s, r)).
  assert (E : forall x, cut_text (String a x) = let '(y, z) := cut_text x in (String a y, z)).
  { intros x. destruct a as [[] [] [] [] [] [] [] []]; vm_compute in Ha; try discriminate Ha; reflexivity. }
  by rewrite E, IH.
Qed.

Lemma all_chars_impl (f g : ascii -> bool) s : (forall a, f a = true -> g a = true) -> all_chars f s = true -> all_chars g s = true.
Proof. intros Hfg. induction s as [|a s IH]; [done|]. cbn [all_chars]. intros [Ha Hs]%andb_prop. by rewrite Hfg, IH. Qed.

Lemma code_neq a c : code a <> code c -> negb (Ascii.eqb a c) = true.
Proof. intros H. apply negb_true_iff, Ascii.eqb_neq. by intros ->. Qed.

Lemma good_chars c n : good_name n = true -> (code c < 65 \/ 122 < code c) -> all_chars (fun a => negb (Ascii.eqb a c)) n = true.
Proof.
  intros [Hn _]%andb_prop Hc. eapply all_chars_impl; [|exact Hn]. intros a Ha. apply code_neq. unfold good_char in Ha. lia.
Qed.

Lemma plain_chars c s : (code c = 34 \/ code c = 60 \/ code c = 62) -> all_chars plain s = true -> all_chars (fun a => negb (Ascii.eqb a c)) s = true.
Proof. intros Hc. apply all_chars_impl. intros a Ha. apply code_neq. unfold plain in Ha. lia. Qed.

Definition tag_body (n : string) (a : option (string * string)) : string :=
  match a with
  | None => n
  | Some (m, v) => n +:+ String " " (m +:+ String "=" (String dquote (xml_escape v +:+ String dquote "")))
  end.

Lemma cons_app a (s t : string) : String a s +:+ t = String a (s +:+ t).
Proof. done. Qed.
Lemma nil_app (s : string) : "" +:+ s = s.
Proof. done. Qed.
#[local] Ltac flatten_text := repeat first [rewrite append_assoc | rewrite cons_app | rewrite nil_app].

Lemma tag_text n a rest : token_text (TStart n a) +:+ rest = String "<" (tag_body n a +:+ String ">" rest).
Proof. destruct a as [[m v]|]; unfold token_text, tag_body; flatten_text; done. Qed.

Lemma read_tag_body n a : good_name n = true -> attr_ok a -> read_tag (tag_body n a) = Some (TStart n a).
Proof.
  intros Hn Ha. unfold read_tag, tag_body. destruct a as [[m v]|].
  - destruct Ha as [Hm Hv]. destruct (escape_legal v Hv) as [Hp Hu].
    rewrite cut_at_spec by (by apply good_chars; [|left; vm_compute]). cbn [mbind option_bind].
    rewrite cut_at_spec by (by apply good_chars; [|left; vm_compute]). cbn [mbind option_bind].
    rewrite Ascii.eqb_refl, cut_at_spec by (by apply plain_chars; [left; vm_compute|]). cbn [mbind option_bind].
    rewrite String.eqb_refl, Hu. done.
  - by rewrite cut_at_none by (by apply good_chars; [|left; vm_compute]).
Qed.

Lemma body_no_bracket n a : good_name n = true -> attr_ok a -> all_chars (fun x => negb (Ascii.eqb x ">")) (tag_body n a) = true.
Proof.
  intros Hn Ha. unfold tag_body. pose proof (good_chars ">" n Hn ltac:(by left; vm_compute)) as H1.
  destruct a as [[m v]|]; [|done]. destruct Ha as [Hm Hv]. destruct (escape_legal v Hv) as [Hp _].
  rewrite all_chars_app, H1. cbn [all_chars]. rewrite all_chars_app, (good_chars ">" m Hm) by (by left; vm_compute).
  cbn [all_chars]. rewrite all_chars_app, (plain_chars ">" _ ltac:(by right; right; vm_compute) Hp). done.
Qed.

(** ** Lemmas: the lexer *)

Definition token_ok (t : token) : Prop :=
  match t with
  | TStart n a => good_name n = true /\ attr_ok a
  | TText s => s <> ""%string /\ legal s
  | TEnd n => good_name n = true
  end.

(** No two texts side by side. *)
Fixpoint apart (ts : list token) : Prop :=
  match ts with
  | TText _ :: ((TText _ :: _) as ts') => False
  | _ :: ts' => apart ts'
  | [] => True
  end.

Lemma good_head n : good_name n = true -> exists a r, n = String a r /\ good_char a = true.
Proof.
  unfold good_name. destruct n as [|a r]; [done|]. cbn [all_chars]. intros [[Ha _]%andb_prop _]%andb_prop. by exists a, r.
Qed.

Lemma lex_start k a r : good_char a = true ->
  lex (S k) (String "<" (String a r)) =
  ('(body, rest) ← cut_at ">" (String a r); t ← read_tag body; cons t <$> lex k rest).
Proof.
  intros H. destruct a as [[] [] [] [] [] [] [] []]; vm_compute in H; try discriminate H; reflexivity.
Qed.

Lemma lex_text k a r : negb (Ascii.eqb a "<") = true ->
  lex (S k) (String a r) =
  (let '(raw, rest) := cut_text (String a r) in v ← unescape raw; cons (TText v) <$> lex k rest).
Proof.
  intros H. destruct a as [[] [] [] [] [] [] [] []]; vm_compute in H; try discriminate H; reflexivity.
Qed.

Lemma tag_head n a : good_name n = true -> exists b r, tag_body n a = String b r /\ good_char b = true.
Proof.
  intros (b & r & -> & Hb)%good_head. unfold tag_body. destruct a as [[m v]|]; [|by exists b, r].
  eexists b, _. by split; [rewrite cons_app|].
Qed.

Lemma token_text_nonempty t : token_ok t -> exists a r, token_text t = String a r /\
  (match t with TText _ => negb (Ascii.eqb a "<") = true | _ => a = "<"%char end).
Proof.
  destruct t as [n [[m v]|]|s|n]; simpl; [by eexists _, _|by eexists _, _| |by eexists _, _].
  intros [Hne Hl]. destruct (escape_legal s Hl) as [Hp Hu]. destruct (xml_escape s) as [|a r]; [by destruct s|].
  cbn [all_chars] in Hp. apply andb_prop in Hp as [Ha _]. exists a, r. split; [done|]. apply code_neq.
  unfold plain in Ha. vm_compute (code "<"). lia.
Qed.

Lemma text_at_tag t ts : Forall token_ok ts -> apart (TText t :: ts) -> at_tag (text_of ts).
Proof.
  intros Hok Hap. destruct ts as [|[n a|s|n] ts]; [done| |done|done]. by destruct a as [[m v]|].
Qed.

Lemma lex_tokens ts k : Forall token_ok ts -> apart ts -> (length ts <= k)%nat -> lex k (text_of ts) = Some ts.
Proof.
  intros Hok. revert k. induction Hok as [|t ts Ht Hok IH]; intros k Hap Hk; [by destruct k|]. destruct k as [|k]; [simpl in Hk; lia|].
  assert (Hap' : apart ts) by (destruct t; [done|by destruct ts as [|[] ts]|done]).
  assert (IHk : lex k (text_of ts) = Some ts) by (apply IH; [done|simpl in Hk; lia]). cbn [text_of]. destruct t as [n a|s|n].
  - destruct Ht as [Hn Ha]. rewrite tag_text. destruct (tag_head n a Hn) as (b & r & E & Hb).
    pose proof (body_no_bracket n a Hn Ha) as Hbr. pose proof (read_tag_body n a Hn Ha) as Hr. rewrite E in *. rewrite cons_app.
    rewrite lex_start by done. rewrite <- cons_app, cut_at_spec by done. cbn [mbind option_bind]. rewrite Hr. cbn [mbind option_bind].
    by rewrite IHk.
  - destruct (token_text_nonempty (TText s) Ht) as (a & r & E & Ha). destruct Ht as [Hne Hl].
    destruct (escape_legal s Hl) as [Hp Hu]. change (token_text (TText s)) with (xml_escape s) in *. rewrite E in *. rewrite cons_app.
    rewrite lex_text by done. rewrite <- cons_app, cut_text_spec; [|apply plain_chars; [right; left; by vm_compute|done]|by eapply text_at_tag].
    rewrite Hu. cbn [mbind option_bind]. by rewrite IHk.
  - change (token_text (TEnd n)) with (String "<" (String "/" (n +:+ ">"))). flatten_text.
    change (lex (S k) (String "<" (String "/" (n +:+ String ">" (text_of ts))))) with
      ('(n', rest) ← cut_at ">" (n +:+ String ">" (text_of ts)); cons (TEnd n') <$> lex k rest).
    rewrite cut_at_spec by (apply good_chars; [done|by left; vm_compute]). cbn [mbind option_bind]. by rewrite IHk.
Qed.

Lemma text_long ts : Forall token_ok ts -> (length ts <= String.length (text_of ts))%nat.
Proof.
  induction 1 as [|t ts Ht _ IH]; [done|]. cbn [text_of length]. destruct (token_text_nonempty t Ht) as (a & r & -> & _).
  rewrite cons_app. cbn [String.length].
  assert (Hl : forall x y, String.length (x +:+ y) = (String.length x + String.length y)%nat).
  { clear. intros x y. induction x as [|a x IH]; [done|]. rewrite cons_app. cbn [String.length]. lia. }
  rewrite Hl. lia.
Qed.

(** ** Lemmas: trees *)

Inductive xml_ok : xml -> Prop :=
| ok_elem n a c : good_name n = true -> attr_ok a -> Forall xml_ok c -> xml_ok (Elem n a c)
| ok_text n a s : good_name n = true -> attr_ok a -> s <> ""%string -> legal s -> xml_ok (Elem n a [Chars s]).

Section xml_induction.
Context (P : xml -> Prop).
Hypothesis H_elem : forall n a c, good_name n = true -> attr_ok a -> Forall xml_ok c -> Forall P c -> P (Elem n a c).
Hypothesis H_text : forall n a s, good_name n = true -> attr_ok a -> s <> ""%string -> legal s -> P (Elem n a [Chars s]).

Fixpoint xml_ok_nested t (H : xml_ok t) {struct H} : P t :=
  match H with
  | ok_elem n a c Hn Ha Hc =>
    H_elem n a c Hn Ha Hc
      ((fix go l (Hl : Forall xml_ok l) : Forall P l :=
          match Hl with
          | @List.Forall_nil _ _ => List.Forall_nil P
          | @List.Forall_cons _ _ x l' Hx Hl' => @List.Forall_cons _ P x l' (xml_ok_nested x Hx) (go l' Hl')
          end) c Hc)
  | ok_text n a s Hn Ha Hs Hl => H_text n a s Hn Ha Hs Hl
  end.
End xml_induction.

Lemma apart_text_end s n ts : apart ts -> apart (TText s :: TEnd n :: ts).
Proof. done. Qed.

(** The tokens of a tree are those that the lexer gives back. *)
Lemma tokens_ok t : xml_ok t -> Forall token_ok (tokens t) /\ forall ts, apart ts -> apart (tokens t ++ ts).
Proof.
  revert t. apply xml_ok_nested.
  - intros n a c Hn Ha _ IH. cbn [tokens].
    assert (Hc : Forall token_ok (flat_map tokens c) /\ forall ts, apart ts -> apart (flat_map tokens c ++ ts)).
    { induction IH as [|x c [H1 H2] _ [IH1 IH2]]; [done|]. cbn [flat_map]. split; [by apply Forall_app|].
      intros ts Hts. rewrite <- app_assoc. by apply H2, IH2. }
    destruct Hc as [H1 H2]. split.
    + constructor; [done|]. apply Forall_app. split; [done|]. by constructor.
    + intros ts Hts. simpl. rewrite <- app_assoc. apply H2. done.
  - intros n a s Hn Ha Hs Hl. split; [by repeat constructor|]. done.
Qed.

(** Reading the tokens of a tree inside an open element adds it to its content. *)
Lemma build_tokens t : xml_ok t -> forall ts m b acc st,
  build (tokens t ++ ts) ((m, b, acc) :: st) = build ts ((m, b, t :: acc) :: st).
Proof.
  revert t. apply (xml_ok_nested (fun t => forall ts m b acc st,
    build (tokens t ++ ts) ((m, b, acc) :: st) = build ts ((m, b, t :: acc) :: st))).
  - intros n a c Hn Ha _ IH ts m b acc st. cbn [tokens app build]. rewrite <- app_assoc.
    assert (Hc : forall l ts', build (flat_map tokens c ++ ts') ((n, a, l) :: (m, b, acc) :: st) =
      build ts' ((n, a, rev c ++ l) :: (m, b, acc) :: st)).
    { induction IH as [|x c Hx _ IH]; intros l ts'; [done|]. cbn [flat_map rev]. by rewrite <- app_assoc, Hx, IH, <- app_assoc. }
    rewrite Hc, app_nil_r. cbn [app build]. by rewrite String.eqb_refl, rev_involutive.
  - intros n a s Hn Ha Hs Hl ts m b acc st. simpl. by rewrite String.eqb_refl.
Qed.

Lemma build_tree t : xml_ok t -> build (tokens t) [] = Some t.
Proof.
  destruct 1 as [n a c Hn Ha Hc|n a s Hn Ha Hs Hl]; [|simpl; by rewrite String.eqb_refl].
  cbn [tokens build].
  assert (Hl : forall l ts', build (flat_map tokens c ++ ts') ((n, a, l) :: []) = build ts' ((n, a, rev c ++ l) :: [])).
  { clear Hn Ha. induction Hc as [|x c Hx _ IH]; intros l ts'; [done|]. cbn [flat_map rev].
    by rewrite <- app_assoc, build_tokens, IH, <- app_assoc by done. }
  rewrite Hl, app_nil_r. cbn [build]. by rewrite String.eqb_refl, rev_involutive.
Qed.

Lemma read_xml_text t : xml_ok t -> read_xml (xml_text t) = Some t.
Proof.
  intros Ht. destruct (tokens_ok t Ht) as [H1 H2]. unfold read_xml, xml_text.
  specialize (H2 [] I). rewrite app_nil_r in H2.
  rewrite lex_tokens by (try done; by apply text_long). cbn [mbind option_bind]. by apply build_tree.
Qed.

(** ** Lemmas: the documents *)

Lemma legal_all_ascii s : all_chars legal_ascii s = true -> legal s.
Proof. induction s as [|a s IH]; [constructor|]. cbn [all_chars]. intros [Ha Hs]%andb_prop. constructor; auto. Qed.

Lemma legal_fmt_d z : legal (fmt_d z).
Proof.
  apply legal_all_ascii.
  assert (Hd : forall s, all_chars is_digit s = true -> all_chars legal_ascii s = true).
  { intros s. apply all_chars_impl. intros a Ha.
    destruct a as [[] [] [] [] [] [] [] []]; vm_compute in Ha; try discriminate Ha; reflexivity. }
  destruct (Z.le_gt_cases 0 z) as [Hz|Hz].
  - rewrite fmt_d_nonneg by done. by apply Hd, pretty_N_facts.
  - rewrite fmt_d_neg by done. cbn [all_chars]. rewrite Hd by apply pretty_N_facts. done.
Qed.

Lemma leaf_ok n s : good_name n = true -> legal s -> xml_ok (leaf n s).
Proof.
  intros Hn Hs. unfold leaf. destruct (String.eqb_spec s ""); [apply ok_elem|by apply ok_text]; [done|done|constructor].
Qed.

#[local] Ltac leaves := repeat first [apply Forall_nil_2 | apply Forall_cons_2; [apply leaf_ok|]]; try done.

(** What a listing document quotes from the requests and the stores. *)
Definition content_legal (c : listContent) : Prop :=
  legal (l_Key c) /\ legal (l_LastModified c) /\ legal (l_ETag c) /\ legal (l_StorageClass c).
Definition list_legal (d : listBucketResult) : Prop :=
  legal (lb_XMLNS d) /\ legal (lb_Name d) /\ legal (lb_Prefix d) /\ Forall content_legal (lb_Contents d).

Lemma list_ok d : list_legal d -> xml_ok (list_xml d).
Proof.
  intros (Hx & Hn & Hp & Hc). apply ok_elem; [done|done|]. apply Forall_app. split.
  { leaves; try apply legal_fmt_d. apply legal_all_ascii. by destruct (lb_IsTruncated d). }
  apply Forall_fmap. eapply Forall_impl; [exact Hc|]. intros c (H1 & H2 & H3 & H4). simpl.
  apply ok_elem; [done|done|]. leaves. apply legal_fmt_d.
Qed.

Lemma list_contents d : elements_in "Contents" (list_xml d) = content_xml <$> lb_Contents d.
Proof.
  assert (H : forall cs, elements_in "Contents" (node "" (content_xml <$> cs)) = content_xml <$> cs).
  { induction cs as [|c cs IH]; [done|]. rewrite fmap_cons.
    change (content_xml c :: elements_in "Contents" (node "" (content_xml <$> cs)) = content_xml c :: (content_xml <$> cs)).
    by rewrite IH. }
  exact (H (lb_Contents d)).
Qed.

Lemma content_key c : text_in "Key" (content_xml c) = [l_Key c].
Proof.
  unfold content_xml, node, text_in, leaf. cbn [flat_map].
  destruct (String.eqb_spec (l_Key c) "") as [->|]; simpl;
  by destruct (String.eqb (l_LastModified c) ""), (String.eqb (l_ETag c) ""), (String.eqb (fmt_d (l_Size c)) ""),
    (String.eqb (l_StorageClass c) "").
Qed.

Lemma list_keys d : listed_keys (list_xml d) = l_Key <$> lb_Contents d.
Proof.
  unfold listed_keys. rewrite list_contents. induction (lb_Contents d) as [|c cs IH]; [done|].
  rewrite !fmap_cons. cbn [flat_map]. by rewrite IH, content_key.
Qed.

(** ** Properties *)

(** The text of a listing, whatever it quotes as long as XML can write it: a client that
    reads it gets the document that was listed, and in it exactly the keys, in order. *)
Theorem listing_reads_back message_text d :
  list_legal d ->
  read_xml (xml_text (doc_xml message_text (DList d))) = Some (list_xml d) /\
  listed_keys (list_xml d) = l_Key <$> lb_Contents d.
Proof. intros Hd. split; [by apply read_xml_text, list_ok|apply list_keys]. Qed.

(** And of any other document of the handlers. *)
Definition doc_legal (message_text : ErrMessage -> string) (d : Doc) : Prop :=
  match d with
  | DError e => legal (e_Code e) /\ legal (message_text (e_Message e)) /\ legal (e_Bucket e) /\ legal (e_Key e) /\
                legal (e_RequestID e)
  | DCreate c => legal (c_XMLNS c) /\ legal (c_Location c)
  | DList l => list_legal l
  | DListAll l => legal (la_XMLNS l) /\ legal (o_ID (la_Owner l)) /\ legal (o_DisplayName (la_Owner l)) /\
                  Forall (fun b => legal (b_Name b) /\ legal (b_CreationDate b)) (la_Buckets l)
  end.

Lemma optional_ok n s : good_name n = true -> legal s -> Forall xml_ok (optional n s).
Proof. intros Hn Hs. unfold optional. destruct (String.eqb s ""); [constructor|]. constructor; [by apply leaf_ok|constructor]. Qed.

Lemma doc_ok message_text d : doc_legal message_text d -> xml_ok (doc_xml message_text d).
Proof.
  destruct d as [e|c|l|l]; simpl; [..|by apply list_ok|].
  - intros (H1 & H2 & H3 & H4 & H5). apply ok_elem; [done|done|]. apply Forall_app. split; [leaves|].
    repeat (apply Forall_app; split); by apply optional_ok.
  - intros [H1 H2]. apply ok_elem; [done|done|]. leaves.
  - intros (H1 & H2 & H3 & H4). apply ok_elem; [done|done|]. apply Forall_cons_2.
    { apply ok_elem; [done|done|]. leaves. }
    apply Forall_cons_2; [|apply Forall_nil_2]. apply ok_elem; [done|done|]. apply Forall_fmap.
    eapply Forall_impl; [exact H4|]. intros b [Hb1 Hb2]. apply ok_elem; [done|done|]. leaves.
Qed.

Theorem documents_read_back message_text d :
  doc_legal message_text d -> read_xml (xml_text (doc_xml message_text d)) = Some (doc_xml message_text d).
Proof. intros Hd. by apply read_xml_text, doc_ok. Qed.

(** ** A listing, from the request to the keys a client reads *)

Lemma legal_app s t : legal s -> legal t -> legal (s +:+ t).
Proof.
  induction 1; intros Ht; [done|..]; rewrite ?cons_app;
    [apply legal_1|apply legal_2|apply legal_3|apply legal_4]; auto.
Qed.

Lemma legal_pad w n : legal (pad w n).
Proof.
  unfold pad. apply legal_app; [destruct (n <? 0); by apply legal_all_ascii|]. apply legal_app; [|apply legal_fmt_d].
  apply legal_all_ascii. induction (w - _)%nat as [|k IH]; [done|]. cbn [TimeFmt.zeros all_chars]. by rewrite IH.
Qed.

Lemma legal_rfc3339 t : legal (FormatRFC3339 t).
Proof. unfold FormatRFC3339. repeat (apply legal_app; [first [apply legal_pad | by apply legal_all_ascii]|]). by apply legal_all_ascii. Qed.

Lemma keys_of_list (objs : list ListedObject) : l_Key <$> (list_content <$> objs) = Key <$> objs.
Proof. by rewrite <- list_fmap_compose. Qed.

Section client.
Context {St : Type} `{ObjectStoreLaws St}.

(** C28: A client that lists a bucket reads, in the text of the answer, exactly the keys of
    the objects that are in the bucket and have the prefix: in byte order, each once, and
    no more of them than max-keys.  It is so for either server and whatever the keys
    contain, as long as XML can write it: markup characters are escaped, and read back. *)
Theorem client_reads_sorted_keys v (h : Handler St) r now b message_text :
  target r = Some (b, EmptyString) -> Method r = "GET"%string -> st_BucketExists (store h) b = true ->
  legal b -> legal (QueryGet (Query r) "prefix") ->
  (forall k o, st_GetObject (store h) b k = Some o -> legal k /\ legal (ETag o)) ->
  exists w d t keys, serve v h r now = Some (numbered h, w) /\ status_of w = Some 200 /\ documents w = [d] /\
    read_xml (xml_text (doc_xml message_text d)) = Some t /\
    listed_keys t = take (Z.to_nat (max_keys (Query r))) keys /\
    StronglySorted (key_le id) keys /\ NoDup keys /\
    forall k, k ∈ keys <-> is_Some (st_GetObject (store h) b k) /\ HasPrefix k (QueryGet (Query r) "prefix") = true.
Proof.
  intros Ht Hm Hb Lb Lp Lo.
  destruct (list_bucket_spec v h r now b Ht Hm Hb) as (w & all & d & Hs & Hd & Hsort & Hnd & Hin & Hc & _ & _ & Hx & Hn & Hp & Hst).
  assert (Hlegal : list_legal d).
  { split_and!; [rewrite Hx; by apply legal_all_ascii; vm_compute|by rewrite Hn|by rewrite Hp|].
    rewrite Hc. apply Forall_fmap, Forall_take, Forall_forall. intros [k o] [Hk _]%Hin. destruct (Lo k o Hk) as [Lk Le].
    split_and!; [done|apply legal_rfc3339|done|by apply legal_all_ascii]. }
  exists w, (DList d), (list_xml d), (Key <$> all). split_and!; try done.
  - by apply read_xml_text, list_ok.
  - by rewrite list_keys, Hc, keys_of_list, fmap_take.
  - clear -Hsort. induction Hsort as [|x l Hl IH Hx]; [constructor|]. rewrite fmap_cons. constructor; [done|].
    apply Forall_fmap. eapply Forall_impl; [exact Hx|]. done.
  - intros k. rewrite list_elem_of_fmap. split.
    + intros ([k' o] & -> & [H1 H2]%Hin). split; [by exists o|done].
    + intros [[o Ho] Hpre]. exists {| Key := k; ObjectOf := o |}. split; [done|]. by apply Hin.
Qed.
End client.

(** So two listings with one text have the same keys. *)
Theorem listing_text_determines_keys d d' :
  list_legal d -> list_legal d' -> xml_text (list_xml d) = xml_text (list_xml d') ->
  l_Key <$> lb_Contents d = l_Key <$> lb_Contents d'.
Proof.
  intros Hd Hd' E. pose proof (read_xml_text _ (list_ok d Hd)) as H. rewrite E, (read_xml_text _ (list_ok d' Hd')) in H.
  assert (E2 : list_xml d = list_xml d') by congruence. by rewrite <- !list_keys, E2.
Qed.

(** Keys that XML cannot write are listed alike: of two objects whose keys differ in a
    control character, which PUT accepts, the listing has the same text. *)
Definition key_with (n : nat) : string := String "k" (String (ascii_of_nat n) EmptyString).
Definition listing_of (keys : list string) : listBucketResult :=
  {| lb_XMLNS := xmlNamespace; lb_Name := "b"; lb_Prefix := ""; lb_KeyCount := blen keys; lb_MaxKeys := 1000;
     lb_IsTruncated := false;
     lb_Contents := (fun k => {| l_Key := k; l_LastModified := "2025-01-01T00:00:00Z"; l_ETag := "e"; l_Size := 1;
                                 l_StorageClass := "STANDARD" |}) <$> keys |}.

Theorem control_characters_are_lost :
  xml_text (list_xml (listing_of [key_with 1])) = xml_text (list_xml (listing_of [key_with 2])) /\
  key_with 1 <> key_with 2 /\
  listed_keys <$> read_xml (xml_text (list_xml (listing_of [key_with 1]))) = Some ["k" +:+ replacement_char].
Proof. split; [by vm_compute|]. split; [done|]. by vm_compute. Qed.

(** ** Runs *)

Lemma listing_reads_back_witness :
  let d := listing_of ["a<b>&'c'"; "x y"; ""]%string in
  listed_keys <$> read_xml (xml_text (doc_xml (fun _ => "") (DList d))) = Some ["a<b>&'c'"; "x y"; ""]%string.
Proof.
  cbv zeta. destruct (listing_reads_back (fun _ => ""%string) (listing_of ["a<b>&'c'"; "x y"; ""]%string)) as [-> H].
  { split_and!; [by apply legal_all_ascii; vm_compute..|]. repeat constructor; by apply legal_all_ascii; vm_compute. }
  simpl. by rewrite H.
Defined.

#[local] Existing Instances MemStore.MemoryStore_store MemStore.MemoryStore_laws.

(** A store with a key full of markup, one with another prefix and two plain ones. *)
Definition markup_store : Handler MemStore.MemoryStore :=
  NewHandler (fold_left (fun st k => (MemStore.PutObject st "b" k demo_body demo_time).1)
    ["a/<x>&'y'"; "b/z"; "a/2"; "a/1"]%string (MemStore.NewMemoryStore 0 MemStore.EvictPolicyFIFO)) "us-east-1" 10.
Definition list_request : Request :=
  {| Method := "GET"; Path := "/b"; Query := [("prefix", "a/"); ("max-keys", "2")]%string;
     ReqBody := {| script := []; closed := false |} |}.

Lemma client_reads_sorted_keys_witness :
  exists w d t, serve Inmem markup_store list_request demo_time = Some (numbered markup_store, w) /\
    documents w = [d] /\ read_xml (xml_text (doc_xml (fun _ => ""%string) d)) = Some t /\
    listed_keys t = ["a/1"; "a/2"]%string.
Proof.
  assert (Hl : exists l, st_ListObjects (store markup_store) "b" "" = Some l /\
    l = default [] (st_ListObjects (store markup_store) "b" "")) by (eexists; split; [vm_compute; reflexivity|reflexivity]).
  destruct Hl as (l & Hl & El).
  destruct (client_reads_sorted_keys Inmem markup_store list_request demo_time "b" (fun _ => ""%string))
    as (w & d & t & keys & H1 & H2 & H3 & H4 & H5 & H6 & H7 & H8);
    [by vm_compute|done|by vm_compute|by apply legal_all_ascii|by apply legal_all_ascii| |].
  { intros k o Hk. destruct (law_list_spec _ _ _ _ Hl) as (_ & _ & Hin).
    pose proof (proj2 (Hin k o) (conj Hk eq_refl)) as Hko. rewrite El in Hko.
    assert (HF : Forall (fun x => all_chars legal_ascii (Key x) = true /\ all_chars legal_ascii (ETag (ObjectOf x)) = true)
      (default [] (st_ListObjects (store markup_store) "b" ""))) by (vm_compute; repeat constructor).
    rewrite Forall_forall in HF. destruct (HF _ Hko) as [K1 K2]. split; by apply legal_all_ascii. }
  exists w, d, t. split; [exact H1|]. split; [exact H3|]. split; [exact H4|]. rewrite H5.
  assert (E : documents w = documents (snd (default (markup_store, base_writer Inmem markup_store)
    (serve Inmem markup_store list_request demo_time)))) by (by rewrite H1).
  rewrite H3 in E. vm_compute in E. injection E as ->. vm_compute in H4. injection H4 as <-. rewrite <- H5. by vm_compute.
Defined.

Example create_text :
  body_text (fun _ => "") (DCreate {| c_XMLNS := xmlNamespace; c_Location := "/b" |}) =
  Header +:+ "<CreateBucketResult xmlns=" +:+ String dquote (xmlNamespace +:+ String dquote
    "><Location>/b</Location></CreateBucketResult>").
Proof. by vm_compute. Qed.
