(* ===== verification/ZcopyProto.v ===== *)
(** * The zcopy control protocol (pkg/rdma/zcopyproto/protocol.go)

    A control message is one JSON object; the object payloads travel as separate
    data messages.  [Encode] and [Decode] are the package's, over the JSON of Json.v;
    the round trip shows that two ends built from this package understand each other. *)

From S2P Require Import Prelude Json.

Definition OpHelloReq : string := "hello_req".
Definition OpHelloResp : string := "hello_resp".
Definition OpEnsureBucketReq : string := "ensure_bucket_req".
Definition OpPutReq : string := "put_req".
Definition OpGetReq : string := "get_req".
Definition OpAck : string := "ack".
Definition OpRespOK : string := "resp_ok".
Definition OpRespErr : string := "resp_err".
Definition OpGetMeta : string := "get_meta".

(** [ReqID] is a uint64, the other numbers are ints, [DataOffset] is a pointer. *)
Record Message := {
  Op : string;
  ReqID : Z;
  Credits : Z;
  Ack : Z;
  Bucket : string;
  Key : string;
  Size : Z;
  Max : Z;
  DataOffset : option Z;
  ErrText : string;
}.

Definition zero_message : Message :=
  {| Op := ""; ReqID := 0; Credits := 0; Ack := 0; Bucket := ""; Key := ""; Size := 0; Max := 0;
     DataOffset := None; ErrText := "" |}.

#[export] Instance Message_eq_dec : EqDecision Message.
Proof. solve_decision. Defined.

(** ** Encode *)

Inductive ProtoErr := ErrEmptyOp | ErrDecode | ErrMissingOp.

Definition opt_int (name : string) (z : Z) : list (string * jval) :=
  if z =? 0 then [] else [(name, VInt z)].
Definition opt_str (name s : string) : list (string * jval) :=
  if String.eqb s "" then [] else [(name, VStr s)].
Definition opt_ptr (name : string) (o : option Z) : list (string * jval) :=
  match o with None => [] | Some z => [(name, VInt z)] end.

Definition members (m : Message) : list (string * jval) :=
  ("op"%string, VStr (Op m)) ::
  opt_int "req_id" (ReqID m) ++ opt_int "credits" (Credits m) ++ opt_int "ack" (Ack m) ++
  opt_str "bucket" (Bucket m) ++ opt_str "key" (Key m) ++ opt_int "size" (Size m) ++
  opt_int "max" (Max m) ++ opt_ptr "data_offset" (DataOffset m) ++ opt_str "err" (ErrText m).

Definition Encode (m : Message) : res ProtoErr (list byte) :=
  if String.eqb (Op m) "" then Err ErrEmptyOp
  else Ok (bytes_of_string (marshal_object (members m))).

(** ** Decode *)

Inductive field := FOp | FReqID | FCredits | FAck | FBucket | FKey | FSize | FMax | FDataOffset | FErr.

Definition field_names : list (string * field) :=
  [("op", FOp); ("req_id", FReqID); ("credits", FCredits); ("ack", FAck); ("bucket", FBucket);
   ("key", FKey); ("size", FSize); ("max", FMax); ("data_offset", FDataOffset); ("err", FErr)]%string.

Fixpoint find_field (l : list (string * field)) (name : string) : option field :=
  match l with
  | [] => None
  | (n, f) :: l' => if String.eqb (fold_name n) (fold_name name) then Some f else find_field l' name
  end.

(** A value stored in a field: null leaves it, a value of another type is an error. *)
Definition get_str (v : json) (old : string) : option string :=
  match v with JNull => Some old | JStr s => Some s | _ => None end.
Definition get_int (v : json) (old : Z) : option Z :=
  match v with JNull => Some old | JNum raw => ParseInt raw | _ => None end.
Definition get_uint (v : json) (old : Z) : option Z :=
  match v with JNull => Some old | JNum raw => ParseUint raw | _ => None end.
Definition get_ptr (v : json) : option (option Z) :=
  match v with JNull => Some None | JNum raw => Some <$> ParseInt raw | _ => None end.

Definition set_field (m : Message) (f : field) (v : json) : option Message :=
  let '{| Op := op; ReqID := rq; Credits := cr; Ack := ak; Bucket := bk; Key := ky; Size := sz;
          Max := mx; DataOffset := off; ErrText := er |} := m in
  match f with
  | FOp => (fun x => Build_Message x rq cr ak bk ky sz mx off er) <$> get_str v op
  | FReqID => (fun x => Build_Message op x cr ak bk ky sz mx off er) <$> get_uint v rq
  | FCredits => (fun x => Build_Message op rq x ak bk ky sz mx off er) <$> get_int v cr
  | FAck => (fun x => Build_Message op rq cr x bk ky sz mx off er) <$> get_int v ak
  | FBucket => (fun x => Build_Message op rq cr ak x ky sz mx off er) <$> get_str v bk
  | FKey => (fun x => Build_Message op rq cr ak bk x sz mx off er) <$> get_str v ky
  | FSize => (fun x => Build_Message op rq cr ak bk ky x mx off er) <$> get_int v sz
  | FMax => (fun x => Build_Message op rq cr ak bk ky sz x off er) <$> get_int v mx
  | FDataOffset => (fun x => Build_Message op rq cr ak bk ky sz mx x er) <$> get_ptr v
  | FErr => (fun x => Build_Message op rq cr ak bk ky sz mx off x) <$> get_str v er
  end.

(** The members in order; unknown names are skipped, later ones win. *)
Fixpoint set_members (m : Message) (ms : list (string * json)) : option Message :=
  match ms with
  | [] => Some m
  | (name, v) :: ms' =>
    match find_field field_names name with
    | None => set_members m ms'
    | Some f => m' ← set_field m f v; set_members m' ms'
    end
  end.

Definition Decode (payload : list byte) : res ProtoErr Message :=
  match parse (string_of_bytes payload) with
  | None => Err ErrDecode
  | Some v =>
    match (match v with
           | JObj ms => set_members zero_message ms
           | JNull => Some zero_message
           | _ => None
           end) with
    | None => Err ErrDecode
    | Some m => if String.eqb (Op m) "" then Err ErrMissingOp else Ok m
    end
  end.

#[local] Arguments find_field : simpl never.

(** ** Lemmas *)

(** What the types of the Go struct guarantee, and strings that are UTF-8. *)
Record well_formed (m : Message) : Prop := {
  wf_op : utf8 (Op m);
  wf_bucket : utf8 (Bucket m);
  wf_key : utf8 (Key m);
  wf_err : utf8 (ErrText m);
  wf_req : 0 <= ReqID m < 2 ^ 64;
  wf_ints : Forall (fun z => - 2 ^ 63 <= z < 2 ^ 63)
    [Credits m; Ack m; Size m; Max m; default 0 (DataOffset m)];
}.

Lemma utf8_names : Forall (fun nf => utf8 nf.1) field_names.
Proof.
  repeat (apply Forall_cons; split; [simpl; repeat (apply utf8_1; [reflexivity|]); constructor|]).
  constructor.
Qed.

Lemma utf8_name n f : (n, f) ∈ field_names -> utf8 n.
Proof. pose proof utf8_names as H. rewrite Forall_forall in H. apply (H (n, f)). Qed.

Lemma members_ok m : well_formed m -> Forall member_ok (members m).
Proof.
  intros [Ho Hb Hk He _ _]. unfold members, opt_int, opt_str, opt_ptr.
  assert (Hn : forall n f v, (n, f) ∈ field_names -> val_ok v -> member_ok (n, v))
    by (intros n f v Hin Hv; split; [by apply (utf8_name n f)|done]).
  constructor; [apply (Hn _ FOp); [set_solver|done]|].
  rewrite !Forall_app; split_and!; case_match; try constructor; try constructor;
    (eapply Hn; [unfold field_names; rewrite !elem_of_cons; naive_solver|done]).
Qed.

Lemma set_members_app m ms1 ms2 :
  set_members m (ms1 ++ ms2) = (m' ← set_members m ms1; set_members m' ms2).
Proof.
  revert m. induction ms1 as [|[n v] ms1 IH]; intros m; simpl; [done|].
  destruct (find_field field_names n); [|apply IH].
  destruct (set_field m f v); simpl; [apply IH|done].
Qed.

Abbreviation jm := (fmap (M := list) (fun x : string * jval => (x.1, json_of x.2))).

(** One optional field: printed or left out, its value arrives. *)
Lemma set_opt_int m n f z m' :
  find_field field_names n = Some f -> set_field m f (JNum (fmt_d z)) = Some m' ->
  (z = 0 -> m = m') -> set_members m (jm (opt_int n z)) = Some m'.
Proof.
  intros Hf Hs H0. unfold opt_int. destruct (z =? 0) eqn:E; bool_facts; simpl.
  - by rewrite H0.
  - by rewrite Hf, Hs.
Qed.

Lemma set_opt_str m n f s m' :
  find_field field_names n = Some f -> set_field m f (JStr s) = Some m' ->
  (s = EmptyString -> m = m') -> set_members m (jm (opt_str n s)) = Some m'.
Proof.
  intros Hf Hs H0. unfold opt_str. destruct (String.eqb s "") eqn:E; bool_facts; simpl.
  - by rewrite H0.
  - by rewrite Hf, Hs.
Qed.

(** The next optional field of the message, an integer or a string. *)
Ltac int_field f z :=
  erewrite (set_opt_int _ _ f z);
  [|reflexivity|simpl; first [by rewrite ParseUint_fmt|by rewrite ParseInt_fmt]|by intros ->];
  cbn [mbind option_bind ReqID Credits Ack Bucket Key Size Max DataOffset ErrText];
  rewrite ?set_members_app.
Ltac str_field f s :=
  erewrite (set_opt_str _ _ f s); [|reflexivity|reflexivity|by intros ->];
  cbn [mbind option_bind ReqID Credits Ack Bucket Key Size Max DataOffset ErrText];
  rewrite ?set_members_app.

Lemma set_members_members m :
  well_formed m -> set_members zero_message (jm (members m)) = Some m.
Proof.
  intros [_ _ _ _ Hr Hi]. destruct m as [op rq cr ak bk ky sz mx off er]. simpl in Hr, Hi.
  rewrite !Forall_cons in Hi. destruct Hi as (Hc & Ha & Hs & Hm & Ho & _).
  unfold members. cbn [ReqID Credits Ack Bucket Key Size Max DataOffset ErrText Op].
  rewrite fmap_cons. cbn [set_members fst snd json_of].
  change (find_field field_names "op") with (Some FOp).
  cbn [set_field zero_message get_str fmap option_fmap option_map mbind option_bind].
  rewrite !fmap_app, !set_members_app. cbn [ReqID].
  int_field FReqID rq. int_field FCredits cr. int_field FAck ak. str_field FBucket bk.
  str_field FKey ky. int_field FSize sz. int_field FMax mx.
  assert (Hoff : set_members (Build_Message op rq cr ak bk ky sz mx None "")
    (jm (opt_ptr "data_offset" off)) = Some (Build_Message op rq cr ak bk ky sz mx off "")).
  { destruct off as [z|]; [|done]. simpl in Ho. cbn [opt_ptr fmap list_fmap set_members fst snd].
    change (find_field field_names "data_offset") with (Some FDataOffset). simpl.
    by rewrite ParseInt_fmt. }
  rewrite Hoff. cbn [mbind option_bind].
  by erewrite (set_opt_str _ _ FErr er); [|reflexivity|reflexivity|by intros ->].
Qed.

Lemma string_of_bytes_of_string s : string_of_bytes (bytes_of_string s) = s.
Proof. apply String.string_of_list_byte_of_string. Qed.

Lemma Decode_Encode m :
  well_formed m -> Op m <> EmptyString ->
  exists b, Encode m = Ok b /\ Decode b = Ok m.
Proof.
  intros Hm Hop. unfold Encode. apply String.eqb_neq in Hop. rewrite Hop.
  eexists. split; [done|]. unfold Decode. rewrite string_of_bytes_of_string.
  pose proof (members_ok m Hm) as Hok. pose proof (set_members_members m Hm) as Hset.
  unfold members in *. rewrite parse_marshal_object by done. rewrite Hset. by rewrite Hop.
Qed.

(** ** Properties *)

(** C35: every message with a non-empty op whose strings are UTF-8 and whose numbers
    fit their Go types is encoded, and decoding the bytes gives the message back:
    every escape, every number, every field left out by omitempty and the absence of
    the data offset included. *)
Theorem decode_encode m :
  well_formed m -> Op m <> EmptyString ->
  exists b, Encode m = Ok b /\ Decode b = Ok m.
Proof.
  apply Decode_Encode.
Qed.

(** Only a JSON object that sets a non-empty op is a control message: an empty
    op is not encoded, and a message that is decoded has one. *)
Theorem op_is_mandatory :
  (forall m, Op m = EmptyString -> Encode m = Err ErrEmptyOp) /\
  (forall b m, Decode b = Ok m -> Op m <> EmptyString).
Proof.
  split.
  - intros m Hop. unfold Encode. by rewrite Hop.
  - intros b m. unfold Decode. destruct (parse _) as [v|]; [|done].
    destruct (match v with JNull => _ | _ => _ end) as [m'|]; [|done].
    destruct (String.eqb (Op m') "") eqn:E; [done|]. intros [= ->]. by apply String.eqb_neq.
Qed.

(** ** Witnesses *)

Definition demo_message : Message :=
  {| Op := OpGetReq; ReqID := 2 ^ 64 - 1; Credits := 0; Ack := - 2 ^ 63; Bucket := "a<b>&c";
     Key := String "010" (String "195" (String "169" dquote)); Size := 7; Max := 0;
     DataOffset := Some 0; ErrText := "" |}.

Lemma decode_encode_witness :
  exists b, Encode demo_message = Ok b /\ Decode b = Ok demo_message.
Proof.
  apply decode_encode; [|discriminate]. constructor.
  - simpl. repeat (apply utf8_1; [reflexivity|]). constructor.
  - simpl. repeat (apply utf8_1; [reflexivity|]). constructor.
  - simpl. apply utf8_1; [reflexivity|]. apply utf8_2; [reflexivity|].
    apply utf8_1; [reflexivity|]. constructor.
  - constructor.
  - simpl. lia.
  - simpl. repeat (apply Forall_cons; split; [lia|]). constructor.
Defined.

(** The decoder on forms [Encode] does not print: spaces, folded names, unknown
    members, escapes, null, a fraction. *)
Example decode_liberal :
  Decode (bytes_of_string (" { " +:+ dquote +:+ "OP" +:+ dquote +:+ " : " +:+ dquote +:+ "a\u0063k" +:+
    dquote +:+ ", " +:+ dquote +:+ "x" +:+ dquote +:+ ":[1,{},null], " +:+ dquote +:+ "ack" +:+
    dquote +:+ ":3}")) =
  Ok {| Op := OpAck; ReqID := 0; Credits := 0; Ack := 3; Bucket := ""; Key := ""; Size := 0;
        Max := 0; DataOffset := None; ErrText := "" |}.
Proof. vm_compute. reflexivity. Qed.

Example decode_fraction :
  Decode (bytes_of_string ("{" +:+ dquote +:+ "op" +:+ dquote +:+ ":" +:+ dquote +:+ "ack" +:+
    dquote +:+ "," +:+ dquote +:+ "ack" +:+ dquote +:+ ":1.0}")) = Err ErrDecode.
Proof. vm_compute. reflexivity. Qed.
