(* ===== verification/ZcopyServer.v ===== *)
(** * The zcopy services (internal/s3rdmaserver/zcopy, internal/inmems3/zcopy)

    One connection of the service: the loop of [serveConn] and the goroutines that
    [handleGetAsync] starts, over the transport of the connection.  The state keeps the
    flow-control credits, what has been sent, where the loop stands and where each GET
    goroutine stands.  A [label] names one atomic step and carries what the environment
    decides: the frame (or error) a receive returns, whether a send succeeds, which
    goroutine moves.  Steps that hold [sendMu] throughout are one step.  [exec] is the
    step; a run is a list of labels.

    The two services differ in [waitCredit] once the connection is closed, which the
    parameter [server] selects.  A frame is released in the step that borrowed it. *)

From S2P Require Import Prelude StoreIface Ingest Json ZcopyProto.
From S2P Require LoadedStore.

(** ** The transport of a connection *)

(** A received message and its offset in the shared region. *)
Record frame := { f_Payload : list byte; f_SharedOffset : Z }.

(** A sent message: [SendMessage], or [SendMessageAt] an offset. *)
Inductive outmsg :=
| OutCtl (payload : list byte)
| OutData (payload : list byte) (sharedOffset : Z).

Inductive server := Inmem | Std.

(** ** Timeouts of the standalone service, in nanoseconds *)

Definition defaultControlTimeout : Z := 30 * 10 ^ 9.
Definition defaultDataTimeout : Z := 2 * 60 * 10 ^ 9.
Definition defaultIdleTimeout : Z := 5 * 60 * 10 ^ 9.

Record Timeouts := { t_Control : Z; t_Data : Z; t_Idle : Z }.

Definition normalized (t : Timeouts) : Timeouts :=
  {| t_Control := if t_Control t <=? 0 then defaultControlTimeout else t_Control t;
     t_Data := if t_Data t <=? 0 then defaultDataTimeout else t_Data t;
     t_Idle := if t_Idle t <=? 0 then defaultIdleTimeout else t_Idle t |}.

Section Service.
Context {St : Type} `{ObjectStore St}.

(** ** State *)

(** Where [serveConn] stands: at the head of the loop, in [recvPayloadAt] for a PUT,
    in the deferred function waiting for the goroutines, or returned. *)
Inductive main_pc := Looping | AwaitPayload (msg : Message) | Closing | ConnClosed.

(** Where a GET goroutine stands: before [handleGet], in [waitCredit], with a credit
    before taking [sendMu], or finished. *)
Inductive get_pc :=
| GetStart (msg : Message)
| GetCredit (reqID : Z) (payload : list byte) (dataOffset : Z)
| GetSend (reqID : Z) (payload : list byte) (dataOffset : Z)
| GetDone.

Record zcopyConn := {
  store : St;
  maxObjectSize : Z;
  credits : Z;
  closed : bool;
  out : list outmsg;
  main : main_pc;
  gets : list get_pc;
}.

Definition newZCopyConn (s : St) (max : Z) : zcopyConn :=
  {| store := s; maxObjectSize := max; credits := 0; closed := false; out := [];
     main := Looping; gets := [] |}.

Definition with_store (c : zcopyConn) (s : St) : zcopyConn :=
  {| store := s; maxObjectSize := maxObjectSize c; credits := credits c; closed := closed c;
     out := out c; main := main c; gets := gets c |}.
Definition with_credits (c : zcopyConn) (n : Z) : zcopyConn :=
  {| store := store c; maxObjectSize := maxObjectSize c; credits := n; closed := closed c;
     out := out c; main := main c; gets := gets c |}.
Definition with_out (c : zcopyConn) (o : list outmsg) : zcopyConn :=
  {| store := store c; maxObjectSize := maxObjectSize c; credits := credits c; closed := closed c;
     out := o; main := main c; gets := gets c |}.
Definition with_main (c : zcopyConn) (m : main_pc) : zcopyConn :=
  {| store := store c; maxObjectSize := maxObjectSize c; credits := credits c; closed := closed c;
     out := out c; main := m; gets := gets c |}.
Definition with_gets (c : zcopyConn) (g : list get_pc) : zcopyConn :=
  {| store := store c; maxObjectSize := maxObjectSize c; credits := credits c; closed := closed c;
     out := out c; main := main c; gets := g |}.

(** [zc.close()], called by the deferred function when [serveConn] returns. *)
Definition close (c : zcopyConn) : zcopyConn :=
  {| store := store c; maxObjectSize := maxObjectSize c; credits := credits c; closed := true;
     out := out c; main := main c; gets := gets c |}.

Definition addCredits (c : zcopyConn) (n : Z) : zcopyConn :=
  if n <=? 0 then c else with_credits c (i64 (credits c + n)).

Definition setCredits (c : zcopyConn) (n : Z) : zcopyConn :=
  with_credits c (if n <? 1 then 1 else n).

(** [waitCredit]: [None] while it blocks; true when a credit was taken, false for
    [net.ErrClosed]. *)
Definition waitCredit (v : server) (c : zcopyConn) : option (zcopyConn * bool) :=
  if (credits c <=? 0) && negb (closed c) then None
  else match v with
  | Std =>
    if 0 <? credits c then Some (with_credits c (credits c - 1), true) else Some (c, false)
  | Inmem =>
    if closed c then Some (c, false) else Some (with_credits c (credits c - 1), true)
  end.

(** ** Sending: [ok] is whether the transport accepts the message *)

Definition sendControl (c : zcopyConn) (msg : Message) (ok : bool) : zcopyConn * bool :=
  match Encode msg with
  | Err _ => (c, false)
  | Ok payload => if ok then (with_out c (out c ++ [OutCtl payload]), true) else (c, false)
  end.

Definition sendControlLocked := sendControl.

Definition reply (op : string) (reqID cr : Z) (err : string) : Message :=
  {| Op := op; ReqID := reqID; Credits := cr; Ack := 0; Bucket := ""; Key := ""; Size := 0;
     Max := 0; DataOffset := None; ErrText := err |}.

Definition sendRespOK (c : zcopyConn) (reqID : Z) (ok : bool) : zcopyConn * bool :=
  sendControlLocked c (reply OpRespOK reqID 0 "") ok.

Definition sendRespErr (c : zcopyConn) (reqID : Z) (errMsg : string) (ok : bool) : zcopyConn * bool :=
  sendControlLocked c (reply OpRespErr reqID 0 errMsg) ok.

Definition get_meta (reqID size dataOffset : Z) : Message :=
  {| Op := OpGetMeta; ReqID := reqID; Credits := 0; Ack := 0; Bucket := ""; Key := "";
     Size := size; Max := 0; DataOffset := Some dataOffset; ErrText := "" |}.

(** [sendGetPayload] after its credit: the meta message and its data under one lock. *)
Definition sendGetPayload (c : zcopyConn) (reqID : Z) (payload : list byte) (dataOffset : Z)
    (ok1 ok2 : bool) : zcopyConn * bool :=
  if dataOffset <? 0 then (c, false)
  else match sendControl c (get_meta reqID (i64 (blen payload)) dataOffset) ok1 with
  | (c1, false) => (c1, false)
  | (c1, true) =>
    if ok2 then (with_out c1 (out c1 ++ [OutData payload dataOffset]), true) else (c1, false)
  end.

(** ** Receiving *)

(** [recvControl]: a frame, or the transport's error. *)
Definition recvControl (r : option frame) : option Message :=
  match r with
  | None => None
  | Some f => match Decode (f_Payload f) with Ok msg => Some msg | Err _ => None end
  end.

(** [recvPayloadAt], before it receives: refused, or done without a frame, or waiting. *)
Inductive payload_wait := PayloadErr | PayloadNone | PayloadWait.

Definition recvPayloadAt_begin (size sharedOffset : Z) : payload_wait :=
  if size <? 0 then PayloadErr
  else if sharedOffset <? 0 then PayloadErr
  else if size =? 0 then PayloadNone
  else PayloadWait.

(** ... and after: true when the frame is the expected one. *)
Definition recvPayloadAt_end (size sharedOffset : Z) (r : option frame) : bool :=
  match r with
  | None => false
  | Some f =>
    if negb (f_SharedOffset f =? sharedOffset) then false
    else if negb (blen (f_Payload f) =? size) then false
    else true
  end.

(** ** Handlers *)

(** The end of a handler in [serveConn]: go on, or return and close. *)
Definition continue_if (r : zcopyConn * bool) : zcopyConn :=
  let '(c, nil_err) := r in
  if nil_err then with_main c Looping else with_main (close c) Closing.

Definition continue_always (r : zcopyConn * bool) : zcopyConn := with_main r.1 Looping.

(** [handlePut]'s last two lines. *)
Definition finishPut (c : zcopyConn) (msg : Message) (ok : bool) : zcopyConn * bool :=
  sendRespOK (with_store c (st_CreateBucket (store c) (TrimSpace (Bucket msg)))) (ReqID msg) ok.

Definition handlePut (c : zcopyConn) (msg : Message) (ok : bool) : zcopyConn :=
  if ReqID msg =? 0 then continue_if (sendRespErr c 0 "missing req_id" ok)
  else
    let bucket := TrimSpace (Bucket msg) in
    let key := TrimSpace (Key msg) in
    if String.eqb bucket "" || String.eqb key "" then
      continue_if (sendRespErr c (ReqID msg) "bucket/key must not be empty" ok)
    else if Size msg <? 0 then continue_if (sendRespErr c (ReqID msg) "invalid put size" ok)
    else match DataOffset msg with
    | None => continue_if (sendRespErr c (ReqID msg) "missing data_offset" ok)
    | Some off =>
      if (0 <? maxObjectSize c) && (maxObjectSize c <? Size msg) then
        continue_if (sendRespErr c (ReqID msg)
          ("object too large: " +:+ fmt_d (Size msg) +:+ " > " +:+ fmt_d (maxObjectSize c)) ok)
      else match recvPayloadAt_begin (Size msg) off with
      | PayloadErr => with_main (close c) Closing
      | PayloadNone => continue_if (finishPut c msg ok)
      | PayloadWait => with_main c (AwaitPayload msg)
      end
    end.

(** [handlePut] from the return of the receive on. *)
Definition handlePut_payload (c : zcopyConn) (msg : Message) (r : option frame) (ok : bool) : zcopyConn :=
  if recvPayloadAt_end (Size msg) (default 0 (DataOffset msg)) r then continue_if (finishPut c msg ok)
  else with_main (close c) Closing.

Definition handleGetAsync (c : zcopyConn) (msg : Message) (ok : bool) : zcopyConn :=
  if ReqID msg =? 0 then continue_if (sendRespErr c 0 "missing req_id" ok)
  else with_main (with_gets c (gets c ++ [GetStart msg])) Looping.

(** [handleGet] up to [waitCredit]: where the goroutine goes next. *)
Definition handleGet (c : zcopyConn) (msg : Message) (ok : bool) : zcopyConn * get_pc :=
  let bucket := TrimSpace (Bucket msg) in
  let key := TrimSpace (Key msg) in
  if String.eqb bucket "" || String.eqb key "" then
    ((sendRespErr c (ReqID msg) "bucket/key must not be empty" ok).1, GetDone)
  else if Max msg <? 0 then ((sendRespErr c (ReqID msg) "invalid max size" ok).1, GetDone)
  else match DataOffset msg with
  | None => ((sendRespErr c (ReqID msg) "missing data_offset" ok).1, GetDone)
  | Some off =>
    match st_GetObject (store c) bucket key with
    | None => ((sendRespErr c (ReqID msg) "key not found" ok).1, GetDone)
    | Some obj =>
      if (0 <? Max msg) && (Max msg <? size_of obj) then
        ((sendRespErr c (ReqID msg)
            ("object exceeds max=" +:+ fmt_d (Max msg) +:+ " size=" +:+ fmt_d (size_of obj)) ok).1,
         GetDone)
      else (c, GetCredit (ReqID msg) (Body obj) off)
    end
  end.

(** The switch of [serveConn] on a decoded message. *)
Definition dispatch (c : zcopyConn) (msg : Message) (ok : bool) : zcopyConn :=
  if String.eqb (Op msg) OpHelloReq then
    if ReqID msg =? 0 then continue_always (sendRespErr c 0 "missing req_id" ok)
    else if Credits msg <=? 0 then
      continue_always (sendControlLocked c (reply OpHelloResp (ReqID msg) 0 "invalid credits") ok)
    else
      continue_if (sendControlLocked (setCredits c (Credits msg))
                     (reply OpHelloResp (ReqID msg) (Credits msg) "") ok)
  else if String.eqb (Op msg) OpAck then with_main (addCredits c (Ack msg)) Looping
  else if String.eqb (Op msg) OpEnsureBucketReq then
    if ReqID msg =? 0 then continue_always (sendRespErr c 0 "missing req_id" ok)
    else
      let bucket := TrimSpace (Bucket msg) in
      if String.eqb bucket "" then
        continue_always (sendRespErr c (ReqID msg) "bucket must not be empty" ok)
      else
        continue_if (sendRespOK (with_store c (st_CreateBucket (store c) bucket)) (ReqID msg) ok)
  else if String.eqb (Op msg) OpPutReq then handlePut c msg ok
  else if String.eqb (Op msg) OpGetReq then handleGetAsync c msg ok
  else if negb (ReqID msg =? 0) then continue_if (sendRespErr c (ReqID msg) "unsupported op" ok)
  else with_main c Looping.

(** One turn of the loop of [serveConn]. *)
Definition serveConn (c : zcopyConn) (r : option frame) (ok : bool) : zcopyConn :=
  match recvControl r with
  | None => with_main (close c) Closing
  | Some msg => dispatch c msg ok
  end.

(** ** Steps *)

Inductive label :=
| LRecv (r : option frame) (ok : bool)          (* the loop: receive and handle *)
| LPayload (r : option frame) (ok : bool)       (* the loop, in recvPayloadAt *)
| LBegin (i : nat) (ok : bool)                  (* goroutine i: handleGet *)
| LCredit (i : nat)                             (* goroutine i: waitCredit returns *)
| LSend (i : nat) (ok1 ok2 : bool)              (* goroutine i: meta and data *)
| LFinish                                       (* wg.Wait and conn.Close *)
| LStore (s : St).                              (* other connections change the store *)

Definition set_get (c : zcopyConn) (i : nat) (g : get_pc) : zcopyConn :=
  with_gets c (<[i := g]> (gets c)).

Definition exec (v : server) (c : zcopyConn) (l : label) : option zcopyConn :=
  match l with
  | LRecv r ok => match main c with Looping => Some (serveConn c r ok) | _ => None end
  | LPayload r ok =>
    match main c with AwaitPayload msg => Some (handlePut_payload c msg r ok) | _ => None end
  | LBegin i ok =>
    match gets c !! i with
    | Some (GetStart msg) => let '(c', g) := handleGet c msg ok in Some (set_get c' i g)
    | _ => None
    end
  | LCredit i =>
    match gets c !! i with
    | Some (GetCredit reqID payload off) =>
      '(c', taken) ← waitCredit v c;
      Some (set_get c' i (if taken : bool then GetSend reqID payload off else GetDone))
    | _ => None
    end
  | LSend i ok1 ok2 =>
    match gets c !! i with
    | Some (GetSend reqID payload off) =>
      Some (set_get (sendGetPayload c reqID payload off ok1 ok2).1 i GetDone)
    | _ => None
    end
  | LFinish =>
    match main c with
    | Closing =>
      if forallb (fun g => match g with GetDone => true | _ => false end) (gets c)
      then Some (with_main c ConnClosed) else None
    | _ => None
    end
  | LStore s => Some (with_store c s)
  end.

Fixpoint exec_all (v : server) (c : zcopyConn) (ls : list label) : option zcopyConn :=
  match ls with
  | [] => Some c
  | l :: ls' => c' ← exec v c l; exec_all v c' ls'
  end.

(** ** internal/inmems3/zcopy: the same handlers, and a PUT that digests its payload *)

Definition inmem_newZCopyConn : St -> Z -> zcopyConn := newZCopyConn.
Definition inmem_close : zcopyConn -> zcopyConn := close.
Definition inmem_addCredits : zcopyConn -> Z -> zcopyConn := addCredits.
Definition inmem_setCredits : zcopyConn -> Z -> zcopyConn := setCredits.
Definition inmem_waitCredit : zcopyConn -> _ := waitCredit Inmem.
Definition inmem_sendControl : zcopyConn -> _ := sendControl.
Definition inmem_sendControlLocked : zcopyConn -> _ := sendControlLocked.
Definition inmem_sendRespOK : zcopyConn -> _ := sendRespOK.
Definition inmem_sendRespErr : zcopyConn -> _ := sendRespErr.
Definition inmem_recvControl : option frame -> option Message := recvControl.
Definition inmem_sendGetPayload : zcopyConn -> _ := sendGetPayload.

(** [recvPayloadReceiptAt], once the frame is there: its digest, which the caller drops. *)
Definition recvPayloadReceiptAt (size sharedOffset : Z) (r : option frame) : option Result :=
  match recvPayloadAt_begin size sharedOffset with
  | PayloadErr => None
  | PayloadNone => Some (ResultForBytes [])
  | PayloadWait =>
    match r with
    | None => None
    | Some f =>
      if negb (f_SharedOffset f =? sharedOffset) then None
      else if negb (blen (f_Payload f) =? size) then None
      else Some (ResultForBytes (f_Payload f))
    end
  end.

Definition inmem_handlePut : zcopyConn -> _ := handlePut.

(** [handlePut] of this service from the return of the receive on. *)
Definition inmem_handlePut_payload (c : zcopyConn) (msg : Message) (r : option frame) (ok : bool)
    : zcopyConn :=
  match recvPayloadReceiptAt (Size msg) (default 0 (DataOffset msg)) r with
  | Some _ => continue_if (finishPut c msg ok)
  | None => with_main (close c) Closing
  end.

Definition inmem_handleGetAsync : zcopyConn -> _ := handleGetAsync.
Definition inmem_handleGet : zcopyConn -> _ := handleGet.
Definition inmem_serveConn : zcopyConn -> _ := serveConn.

End Service.
Arguments zcopyConn St : clear implicits.
Arguments label St : clear implicits.

(** ** Specification: what the client grants, what the server owes *)

Definition is_data (o : outmsg) : Z := match o with OutData _ _ => 1 | _ => 0 end.
Definition is_sending (g : get_pc) : Z := match g with GetSend _ _ _ => 1 | _ => 0 end.

(** The credits a step's message grants: those of an accepted hello, or an ack. *)
Definition grant {St} (l : label St) : Z :=
  match l with
  | LRecv (Some f) _ =>
    match Decode (f_Payload f) with
    | Ok msg =>
      if String.eqb (Op msg) OpHelloReq then (if ReqID msg =? 0 then 0 else Z.max 0 (Credits msg))
      else if String.eqb (Op msg) OpAck then Z.max 0 (Ack msg) else 0
    | Err _ => 0
    end
  | _ => 0
  end.

(** What is sent is control messages and pairs of a get_meta and its data, the meta
    carrying the length of the data and its offset. *)
Inductive paired : list outmsg -> Prop :=
| paired_nil : paired []
| paired_ctl l p : paired l -> paired (l ++ [OutCtl p])
| paired_data l p reqID payload off :
    paired l -> Encode (get_meta reqID (i64 (blen payload)) off) = Ok p ->
    paired (l ++ [OutCtl p; OutData payload off]).

(** How many steps the goroutines have left. *)
Definition steps_left (g : get_pc) : Z :=
  match g with GetStart _ => 3 | GetCredit _ _ _ => 2 | GetSend _ _ _ => 1 | GetDone => 0 end.

(** ** Lemmas: the effect of the loop's steps *)

Definition is_ctl (o : outmsg) : Prop := match o with OutCtl _ => True | _ => False end.

Lemma zsum_insert {A} (f : A -> Z) l i x y :
  l !! i = Some x -> zsum f (<[i := y]> l) = zsum f l - f x + f y.
Proof.
  revert i. induction l as [|z l IH]; intros [|i] Hi; simplify_eq/=; [lia|]. rewrite (IH i Hi). lia.
Qed.

Lemma zsum_ctl o : Forall is_ctl o -> zsum is_data o = 0.
Proof. induction 1 as [|[p|p off] o Hx _ IH]; simpl in *; [done|done|done]. Qed.

Lemma paired_app_ctl l o : paired l -> Forall is_ctl o -> paired (l ++ o).
Proof.
  intros Hl Ho. revert l Hl. induction Ho as [|[p|] o Hp _ IH]; intros l Hl; [by rewrite app_nil_r| |done].
  change (OutCtl p :: o) with ([OutCtl p] ++ o). rewrite app_assoc. apply IH. by constructor.
Qed.

Create HintDb quiet.

Section Facts.
Context {St : Type} `{ObjectStoreLaws St}.
Implicit Types (c : zcopyConn St) (msg : Message).

(** What a step of the loop may do: create a bucket, send control messages, start a
    goroutine; the readable objects and what has been sent stay. *)
Record quiet c c' : Prop := {
  quiet_store : store c' = store c \/ exists b, store c' = st_CreateBucket (store c) b;
  quiet_out : exists o, out c' = out c ++ o /\ Forall is_ctl o;
  quiet_gets : gets c' = gets c \/ exists m, gets c' = gets c ++ [GetStart m];
}.

Lemma quiet_refl c c' :
  store c' = store c -> out c' = out c -> gets c' = gets c -> quiet c c'.
Proof. constructor; [by left|exists []; by rewrite app_nil_r|by left]. Qed.

Lemma quiet_send c c1 msg ok : quiet c c1 -> quiet c (sendControl c1 msg ok).1.
Proof.
  intros [Hs (o & Ho & Hf) Hg]. unfold sendControl. destruct (Encode msg) as [p|]; [|by constructor; eauto].
  destruct ok; simpl; [|by constructor; eauto]. constructor; simpl; [done| |done].
  exists (o ++ [OutCtl p]). rewrite Ho, app_assoc. split; [done|]. apply Forall_app. split; [done|].
  by constructor.
Qed.

Lemma quiet_continue c r : quiet c r.1 -> quiet c (continue_if r).
Proof. destruct r as [c' b]. intros [Hs Ho Hg]. destruct b; by constructor. Qed.

Lemma quiet_always c r : quiet c r.1 -> quiet c (continue_always r).
Proof. destruct r as [c' b]. intros [Hs Ho Hg]. by constructor. Qed.

Lemma quiet_create c b : quiet c (with_store c (st_CreateBucket (store c) b)).
Proof. constructor; simpl; [eauto|exists []; by rewrite app_nil_r|by left]. Qed.

Lemma quiet_set c n : quiet c (setCredits c n).
Proof. by apply quiet_refl. Qed.

Lemma quiet_id c : quiet c c.
Proof. by apply quiet_refl. Qed.

#[local] Hint Resolve quiet_send quiet_continue quiet_always quiet_create quiet_set quiet_id : quiet.

Lemma quiet_closing c : quiet c (with_main (close c) Closing).
Proof. by apply quiet_refl. Qed.

#[local] Hint Resolve quiet_closing : quiet.

Lemma handlePut_quiet c msg ok : quiet c (handlePut c msg ok).
Proof.
  unfold handlePut, finishPut, sendRespErr, sendRespOK, sendControlLocked.
  destruct (ReqID msg =? 0); [auto with quiet|]. destruct (_ || _); [auto with quiet|].
  destruct (Size msg <? 0); [auto with quiet|]. destruct (DataOffset msg) as [off|]; [|auto with quiet].
  destruct (_ && _); [auto with quiet|]. destruct (recvPayloadAt_begin _ _); auto with quiet.
  by apply quiet_refl.
Qed.

Lemma payload_quiet c msg r ok : quiet c (handlePut_payload c msg r ok).
Proof.
  unfold handlePut_payload, finishPut, sendRespOK, sendControlLocked.
  destruct (recvPayloadAt_end _ _ _); auto with quiet.
Qed.

Lemma dispatch_quiet c msg ok : quiet c (dispatch c msg ok).
Proof.
  unfold dispatch, sendRespErr, sendRespOK, sendControlLocked.
  destruct (String.eqb _ OpHelloReq).
  { destruct (ReqID msg =? 0); [auto with quiet|]. destruct (Credits msg <=? 0); auto with quiet. }
  destruct (String.eqb _ OpAck).
  { unfold addCredits. destruct (Ack msg <=? 0); by apply quiet_refl. }
  destruct (String.eqb _ OpEnsureBucketReq).
  { destruct (ReqID msg =? 0); [auto with quiet|]. destruct (String.eqb _ ""); auto with quiet. }
  destruct (String.eqb _ OpPutReq); [apply handlePut_quiet|].
  destruct (String.eqb _ OpGetReq).
  { unfold handleGetAsync, sendRespErr, sendControlLocked. destruct (ReqID msg =? 0); [auto with quiet|].
    constructor; simpl; [by left|exists []; by rewrite app_nil_r|by eauto]. }
  destruct (negb _); auto with quiet. by apply quiet_refl.
Qed.

Lemma serveConn_quiet c r ok : quiet c (serveConn c r ok).
Proof. unfold serveConn. destruct (recvControl r); [apply dispatch_quiet|auto with quiet]. Qed.

(** A goroutine in [handleGet] sends at most one control message. *)
Lemma handleGet_quiet c msg ok c' g :
  handleGet c msg ok = (c', g) ->
  store c' = store c /\ gets c' = gets c /\ credits c' = credits c /\
  main c' = main c /\ closed c' = closed c /\
  (exists o, out c' = out c ++ o /\ Forall is_ctl o) /\
  (g = GetDone \/ exists off obj, g = GetCredit (ReqID msg) (Body obj) off /\
     st_GetObject (store c) (TrimSpace (Bucket msg)) (TrimSpace (Key msg)) = Some obj).
Proof.
  assert (Hsend : forall m, store (sendControl c m ok).1 = store c /\ gets (sendControl c m ok).1 = gets c /\
    credits (sendControl c m ok).1 = credits c /\ main (sendControl c m ok).1 = main c /\
    closed (sendControl c m ok).1 = closed c /\
    exists o, out (sendControl c m ok).1 = out c ++ o /\ Forall is_ctl o).
  { intros m. pose proof (quiet_out _ _ (quiet_send c c m ok (quiet_id c))) as Ho.
    unfold sendControl in *. destruct (Encode m); [destruct ok|]; done. }
  assert (Hend : forall m, ((sendControl c m ok).1, GetDone) = (c', g) ->
    store c' = store c /\ gets c' = gets c /\ credits c' = credits c /\
    main c' = main c /\ closed c' = closed c /\
    (exists o, out c' = out c ++ o /\ Forall is_ctl o) /\
    (g = GetDone \/ exists off obj, g = GetCredit (ReqID msg) (Body obj) off /\
       st_GetObject (store c) (TrimSpace (Bucket msg)) (TrimSpace (Key msg)) = Some obj)).
  { intros m [= <- <-]. destruct (Hsend m) as (? & ? & ? & ? & ? & ?). split_and!; auto. }
  unfold handleGet, sendRespErr, sendControlLocked.
  destruct (_ || _); [apply Hend|]. destruct (Max msg <? 0); [apply Hend|].
  destruct (DataOffset msg) as [off|]; [|apply Hend].
  destruct (st_GetObject _ _ _) as [obj|] eqn:Eo; [|apply Hend].
  destruct (_ && _); [apply Hend|]. intros [= <- <-].
  split_and!; try done; [exists []; by rewrite app_nil_r|]. right. by exists off, obj.
Qed.

(** The data step: nothing, the meta alone, or the meta and its data. *)
Lemma sendGetPayload_out c reqID payload off ok1 ok2 :
  let c' := (sendGetPayload c reqID payload off ok1 ok2).1 in
  store c' = store c /\ gets c' = gets c /\ credits c' = credits c /\ main c' = main c /\
  closed c' = closed c /\
  exists p, (out c' = out c \/ out c' = out c ++ [OutCtl p] \/
    out c' = out c ++ [OutCtl p; OutData payload off] /\ 0 <= off /\
    Encode (get_meta reqID (i64 (blen payload)) off) = Ok p).
Proof.
  unfold sendGetPayload, sendControl. destruct (off <? 0) eqn:Eo; bool_facts.
  { split_and!; try done. exists []. by left. }
  destruct (Encode _) as [p|]; [|split_and!; try done; exists []; by left].
  destruct ok1; [|split_and!; try done; exists []; by left].
  destruct ok2; simpl; split_and!; try done; exists p.
  - right; right. by rewrite <- app_assoc.
  - right; by left.
Qed.

(** ** Lemmas: credits *)

Lemma credits_send c msg ok : credits (sendControl c msg ok).1 = credits c.
Proof. unfold sendControl. destruct (Encode msg); [destruct ok|]; done. Qed.

Lemma credits_continue (r : zcopyConn St * bool) : credits (continue_if r) = credits r.1.
Proof. destruct r as [c []]; done. Qed.

Lemma credits_handlePut c msg ok : credits (handlePut c msg ok) = credits c.
Proof.
  unfold handlePut, finishPut, sendRespErr, sendRespOK, sendControlLocked.
  repeat case_match; rewrite ?credits_continue, ?credits_send; done.
Qed.

Lemma credits_dispatch c msg ok :
  credits (dispatch c msg ok) =
  if String.eqb (Op msg) OpHelloReq then
    (if (ReqID msg =? 0) || (Credits msg <=? 0) then credits c else Credits msg)
  else if String.eqb (Op msg) OpAck then
    (if Ack msg <=? 0 then credits c else i64 (credits c + Ack msg))
  else credits c.
Proof.
  unfold dispatch, sendRespErr, sendRespOK, sendControlLocked, continue_always.
  destruct (String.eqb _ OpHelloReq).
  { destruct (ReqID msg =? 0); simpl; [by rewrite credits_send|].
    destruct (Credits msg <=? 0) eqn:E; simpl; [by rewrite credits_send|].
    rewrite credits_continue, credits_send. unfold setCredits. simpl.
    bool_facts. by rewrite (proj2 (Z.ltb_ge _ _)) by lia. }
  destruct (String.eqb _ OpAck).
  { unfold addCredits. by destruct (Ack msg <=? 0). }
  destruct (String.eqb _ OpEnsureBucketReq).
  { destruct (ReqID msg =? 0); simpl; [by rewrite credits_send|].
    destruct (String.eqb _ ""); simpl; rewrite ?credits_continue, ?credits_send; done. }
  destruct (String.eqb _ OpPutReq); [apply credits_handlePut|].
  destruct (String.eqb _ OpGetReq).
  { unfold handleGetAsync, sendRespErr, sendControlLocked.
    destruct (ReqID msg =? 0); simpl; rewrite ?credits_continue, ?credits_send; done. }
  destruct (negb _); simpl; rewrite ?credits_continue, ?credits_send; done.
Qed.

Lemma serveConn_credits c r ok :
  0 <= credits c -> credits c + grant (LRecv (St := St) r ok) < 2 ^ 63 ->
  0 <= credits (serveConn c r ok) <= credits c + grant (LRecv (St := St) r ok).
Proof.
  unfold serveConn, recvControl, grant. destruct r as [f|]; [|simpl; lia].
  destruct (Decode (f_Payload f)) as [msg|]; [|simpl; lia]. rewrite credits_dispatch.
  destruct (String.eqb _ OpHelloReq).
  { destruct (ReqID msg =? 0); simpl; [lia|]. destruct (Credits msg <=? 0) eqn:E; bool_facts; lia. }
  destruct (String.eqb _ OpAck); [|lia].
  destruct (Ack msg <=? 0) eqn:E; bool_facts; [lia|]. intros. rewrite i64_id; lia.
Qed.

Lemma serveConn_sending c r ok :
  zsum is_sending (gets (serveConn c r ok)) = zsum is_sending (gets c) /\
  zsum is_data (out (serveConn c r ok)) = zsum is_data (out c).
Proof.
  destruct (serveConn_quiet c r ok) as [_ (o & -> & Ho) Hg]. rewrite zsum_app, (zsum_ctl o Ho).
  split; [|lia]. destruct Hg as [-> | [m ->]]; [done|]. rewrite zsum_app. simpl. lia.
Qed.

Lemma payload_facts c msg r ok :
  credits (handlePut_payload c msg r ok) = credits c /\
  zsum is_sending (gets (handlePut_payload c msg r ok)) = zsum is_sending (gets c) /\
  zsum is_data (out (handlePut_payload c msg r ok)) = zsum is_data (out c).
Proof.
  destruct (payload_quiet c msg r ok) as [_ (o & -> & Ho) Hg]. rewrite zsum_app, (zsum_ctl o Ho).
  split; [|split; [|lia]].
  - unfold handlePut_payload, finishPut, sendRespOK, sendControlLocked.
    destruct (recvPayloadAt_end _ _ _); [|done]. by rewrite credits_continue, credits_send.
  - destruct Hg as [-> | [m ->]]; [done|]. rewrite zsum_app. simpl. lia.
Qed.

(** The invariant of flow control: credits left, goroutines that hold one and data
    sent are within what was granted. *)
Definition flow c (g : Z) : Prop :=
  0 <= credits c /\
  credits c + zsum is_sending (gets c) + zsum is_data (out c) <= g.

Lemma grant_nonneg (l : label St) : 0 <= grant l.
Proof. unfold grant. repeat case_match; lia. Qed.

Lemma sending_nonneg (l : list get_pc) : 0 <= zsum is_sending l.
Proof. apply zsum_nonneg. intros []; simpl; lia. Qed.

Lemma data_nonneg (l : list outmsg) : 0 <= zsum is_data l.
Proof. apply zsum_nonneg. intros []; simpl; lia. Qed.

Lemma exec_flow v c l c' g :
  exec v c l = Some c' -> flow c g -> g + grant l < 2 ^ 63 -> flow c' (g + grant l).
Proof.
  intros Hex [Hc0 Hg] Hfit. pose proof (sending_nonneg (gets c)). pose proof (data_nonneg (out c)).
  destruct l as [r ok|r ok|i ok|i|i ok1 ok2| |s]; simpl in Hex.
  - destruct (main c); [|done..]. injection Hex as <-.
    destruct (serveConn_sending c r ok) as [Hs Hd].
    destruct (serveConn_credits c r ok Hc0) as [Hlo Hhi]; [lia|]. unfold flow. rewrite Hs, Hd. lia.
  - destruct (main c) as [|msg| |]; [done| |done..]. injection Hex as <-.
    destruct (payload_facts c msg r ok) as (Hpc & Hps & Hpd). unfold flow. rewrite Hpc, Hps, Hpd. simpl. lia.
  - destruct (gets c !! i) as [[msg| | |]|] eqn:Ei; [|done..].
    destruct (handleGet c msg ok) as [c1 g1] eqn:Eg. injection Hex as <-.
    destruct (handleGet_quiet _ _ _ _ _ Eg) as (_ & Hgs & Hc & _ & _ & (o & Ho & Hf) & Hpc).
    unfold flow. simpl. rewrite Hgs, Hc, Ho, zsum_app, (zsum_ctl o Hf), (zsum_insert _ _ _ _ _ Ei).
    destruct Hpc as [-> | (off & obj & -> & _)]; simpl; lia.
  - destruct (gets c !! i) as [[|reqID payload off| |]|] eqn:Ei; [done| |done..].
    unfold waitCredit in Hex. destruct (_ && _) eqn:Eb in Hex; [done|].
    destruct v; destruct (closed c); destruct (credits c <=? 0) eqn:Ec; bool_facts;
      try (destruct (0 <? credits c) eqn:Ec'; bool_facts); simpl in Hex, Eb; try done;
      simplify_eq; unfold flow; simpl; rewrite (zsum_insert _ _ _ _ _ Ei); simpl; lia.
  - destruct (gets c !! i) as [[| |reqID payload off|]|] eqn:Ei; [done|done| |done..].
    injection Hex as <-.
    destruct (sendGetPayload_out c reqID payload off ok1 ok2) as (_ & Hgs & Hc & _ & _ & p & Ho).
    unfold flow. simpl. rewrite Hgs, Hc, (zsum_insert _ _ _ _ _ Ei). simpl.
    destruct Ho as [-> | [-> | (-> & _)]]; rewrite ?zsum_app; simpl; lia.
  - destruct (main c); [done|done| |done]. destruct (forallb _ _); [|done]. injection Hex as <-.
    unfold flow. simpl. lia.
  - injection Hex as <-. unfold flow. simpl. lia.
Qed.

Lemma exec_all_flow v c ls c' g :
  exec_all v c ls = Some c' -> flow c g -> g + zsum grant ls < 2 ^ 63 ->
  flow c' (g + zsum grant ls).
Proof.
  revert c g. induction ls as [|l ls IH]; intros c g; simpl.
  { intros [= ->]. by rewrite Z.add_0_r. }
  destruct (exec v c l) as [c1|] eqn:E; simpl; [|done]. intros Hex Hf Hfit.
  assert (0 <= zsum grant ls) by (apply zsum_nonneg, grant_nonneg).
  rewrite Z.add_assoc. apply (IH c1); [done| |lia]. apply (exec_flow v c l); [done|done|lia].
Qed.
Lemma waitCredit_same v c c1 t :
  waitCredit v c = Some (c1, t) ->
  store c1 = store c /\ out c1 = out c /\ gets c1 = gets c /\ main c1 = main c /\ closed c1 = closed c.
Proof.
  unfold waitCredit. destruct (_ && _); [done|].
  destruct v; [destruct (closed c) eqn:?|destruct (0 <? credits c)]; intros; by simplify_eq/=.
Qed.

(** ** Lemmas: what is sent *)

Lemma exec_paired v c l c' : exec v c l = Some c' -> paired (out c) -> paired (out c').
Proof.
  intros Hex Hp. destruct l as [r ok|r ok|i ok|i|i ok1 ok2| |s]; simpl in Hex.
  - destruct (main c); [|done..]. injection Hex as <-.
    destruct (serveConn_quiet c r ok) as [_ (o & -> & Ho) _]. by apply paired_app_ctl.
  - destruct (main c) as [|msg| |]; [done| |done..]. injection Hex as <-.
    destruct (payload_quiet c msg r ok) as [_ (o & -> & Ho) _]. by apply paired_app_ctl.
  - destruct (gets c !! i) as [[msg| | |]|]; [|done..].
    destruct (handleGet c msg ok) as [c1 g1] eqn:Eg. injection Hex as <-.
    destruct (handleGet_quiet _ _ _ _ _ Eg) as (_ & _ & _ & _ & _ & (o & Ho & Hf) & _).
    simpl. rewrite Ho. by apply paired_app_ctl.
  - destruct (gets c !! i) as [[|reqID payload off| |]|]; [done| |done..].
    destruct (waitCredit v c) as [[c1 taken]|] eqn:Ew; simpl in Hex; [|done]. injection Hex as <-.
    destruct (waitCredit_same _ _ _ _ Ew) as (Hst & Ho & _ & Hm & Hcl). simpl. by rewrite Ho.
  - destruct (gets c !! i) as [[| |reqID payload off|]|]; [done|done| |done..]. injection Hex as <-.
    destruct (sendGetPayload_out c reqID payload off ok1 ok2) as (_ & _ & _ & _ & _ & p & Ho).
    simpl. destruct Ho as [-> | [-> | (-> & _ & He)]]; [done|by apply paired_ctl|].
    by apply (paired_data _ _ reqID).
  - destruct (main c); [done|done| |done]. destruct (forallb _ _); [|done]. by injection Hex as <-.
  - by injection Hex as <-.
Qed.

(** Every payload the goroutines hold or have sent satisfies [Q]. *)
Record payloads (Q : list byte -> Prop) c : Prop := {
  pl_store b k o : st_GetObject (store c) b k = Some o -> Q (Body o);
  pl_gets g : g ∈ gets c ->
    match g with GetCredit _ p _ | GetSend _ p _ => Q p | _ => True end;
  pl_out m : m ∈ out c -> match m with OutData p _ => Q p | _ => True end;
}.

Lemma elem_of_insert {A} (l : list A) i x y : y ∈ <[i := x]> l -> y = x \/ y ∈ l.
Proof.
  revert i. induction l as [|z l IH]; intros [|i]; simpl; try (by intros ?%not_elem_of_nil).
  - rewrite !elem_of_cons. tauto.
  - rewrite !elem_of_cons. intros [->|Hy]; [tauto|]. apply IH in Hy. tauto.
Qed.

Lemma payloads_ctl Q (l o : list outmsg) :
  (forall m, m ∈ l -> match m with OutData p _ => Q p | _ => True end) -> Forall is_ctl o ->
  forall m, m ∈ l ++ o -> match m with OutData p _ => Q p | _ => True end.
Proof.
  intros Hl Ho m [Hm|Hm]%elem_of_app; [by apply Hl|]. rewrite Forall_forall in Ho.
  specialize (Ho m Hm). by destruct m.
Qed.

Lemma payloads_quiet Q c c' : payloads Q c -> quiet c c' -> payloads Q c'.
Proof.
  intros [Hs Hg Ho] [Hst (o & Hout & Hf) Hgs]. constructor.
  - intros b k ob. destruct Hst as [-> | [b' ->]]; [apply Hs|]. rewrite law_get_create. apply Hs.
  - intros g. destruct Hgs as [-> | [m ->]]; [apply Hg|].
    intros [Hin| ->%list_elem_of_singleton]%elem_of_app; [by apply Hg|done].
  - rewrite Hout. by apply payloads_ctl.
Qed.

Lemma payloads_set_get Q c i g :
  payloads Q c -> match g with GetCredit _ p _ | GetSend _ p _ => Q p | _ => True end ->
  payloads Q (set_get c i g).
Proof.
  intros [Hs Hg Ho] Hq. constructor; [done| |done].
  intros g' [->|Hin]%elem_of_insert; [done|by apply Hg].
Qed.

Lemma payloads_same Q c c' :
  payloads Q c -> store c' = store c -> gets c' = gets c ->
  (forall m, m ∈ out c' -> match m with OutData p _ => Q p | _ => True end) -> payloads Q c'.
Proof. intros [Hs Hg _] Hst Hgs Ho. constructor; [by rewrite Hst|by rewrite Hgs|done]. Qed.

Lemma exec_payloads Q v c l c' :
  exec v c l = Some c' -> payloads Q c ->
  (forall s, l = LStore s -> forall b k o, st_GetObject s b k = Some o -> Q (Body o)) ->
  payloads Q c'.
Proof.
  intros Hex HQ Hl. destruct l as [r ok|r ok|i ok|i|i ok1 ok2| |s]; simpl in Hex.
  - destruct (main c); [|done..]. injection Hex as <-.
    apply (payloads_quiet Q c); [done|apply serveConn_quiet].
  - destruct (main c) as [|msg| |]; [done| |done..]. injection Hex as <-.
    apply (payloads_quiet Q c); [done|apply payload_quiet].
  - destruct (gets c !! i) as [[msg| | |]|]; [|done..].
    destruct (handleGet c msg ok) as [c1 g1] eqn:Eg. injection Hex as <-.
    destruct (handleGet_quiet _ _ _ _ _ Eg) as (Hs & Hg & _ & _ & _ & (o & Ho & Hf) & Hpc).
    apply payloads_set_get.
    + apply (payloads_same Q c); [done..|]. rewrite Ho. apply payloads_ctl; [apply (pl_out _ _ HQ)|done].
    + destruct Hpc as [-> | (off & obj & -> & Hget)]; [done|]. by apply (pl_store _ _ HQ) in Hget.
  - destruct (gets c !! i) as [[|reqID payload off| |]|] eqn:Ei; [done| |done..].
    pose proof (pl_gets _ _ HQ _ (list_elem_of_lookup_2 _ _ _ Ei)) as Hp. simpl in Hp.
    destruct (waitCredit v c) as [[c1 taken]|] eqn:Ew; simpl in Hex; [|done]. injection Hex as <-.
    destruct (waitCredit_same _ _ _ _ Ew) as (Hst & Ho & Hg & _).
    apply payloads_set_get; [|by destruct taken]. apply (payloads_same Q c); [done..|].
    rewrite Ho. apply (pl_out _ _ HQ).
  - destruct (gets c !! i) as [[| |reqID payload off|]|] eqn:Ei; [done|done| |done..].
    injection Hex as <-.
    pose proof (pl_gets _ _ HQ _ (list_elem_of_lookup_2 _ _ _ Ei)) as Hp. simpl in Hp.
    destruct (sendGetPayload_out c reqID payload off ok1 ok2) as (Hs & Hg & _ & _ & _ & p & Ho).
    apply payloads_set_get; [|done]. apply (payloads_same Q c); [done..|]. intros m.
    destruct Ho as [-> | [-> | (-> & _ & _)]]; [apply (pl_out _ _ HQ)| |];
      rewrite elem_of_app, !elem_of_cons, elem_of_nil; intros [Hm|Hm]; try (by apply (pl_out _ _ HQ));
      destruct Hm as [-> |Hm]; try done. destruct Hm as [-> |[]]. done.
  - destruct (main c); [done|done| |done]. destruct (forallb _ _); [|done]. injection Hex as <-.
    by apply (payloads_same Q c); [| | |apply (pl_out _ _ HQ)].
  - injection Hex as <-. destruct HQ as [_ Hg Ho]. constructor; simpl; [|done..]. by apply Hl.
Qed.

(** ** Lemmas: the readable objects *)

Lemma exec_objects v c l c' b k :
  exec v c l = Some c' -> (forall s, l <> LStore s) ->
  st_GetObject (store c') b k = st_GetObject (store c) b k.
Proof.
  intros Hex Hl.
  assert (Hq : forall c', quiet c c' -> st_GetObject (store c') b k = st_GetObject (store c) b k).
  { intros c1 [[-> | [b' ->]] _ _]; [done|apply law_get_create]. }
  destruct l as [r ok|r ok|i ok|i|i ok1 ok2| |s]; simpl in Hex.
  - destruct (main c); [|done..]. injection Hex as <-. apply Hq, serveConn_quiet.
  - destruct (main c) as [|msg| |]; [done| |done..]. injection Hex as <-. apply Hq, payload_quiet.
  - destruct (gets c !! i) as [[msg| | |]|]; [|done..].
    destruct (handleGet c msg ok) as [c1 g1] eqn:Eg. injection Hex as <-.
    destruct (handleGet_quiet _ _ _ _ _ Eg) as (Hs & _). simpl. by rewrite Hs.
  - destruct (gets c !! i) as [[|reqID payload off| |]|]; [done| |done..].
    destruct (waitCredit v c) as [[c1 taken]|] eqn:Ew; simpl in Hex; [|done]. injection Hex as <-.
    destruct (waitCredit_same _ _ _ _ Ew) as (Hst & Ho & _ & Hm & Hcl). simpl. by rewrite Hst.
  - destruct (gets c !! i) as [[| |reqID payload off|]|]; [done|done| |done..]. injection Hex as <-.
    destruct (sendGetPayload_out c reqID payload off ok1 ok2) as (Hs & _). simpl. by rewrite Hs.
  - destruct (main c); [done|done| |done]. destruct (forallb _ _); [|done]. by injection Hex as <-.
  - by destruct (Hl s).
Qed.

(** ** Lemmas: closing *)

Definition pending (gs : list get_pc) : Z := zsum steps_left gs.

Lemma steps_left_nonneg g : 0 <= steps_left g.
Proof. destruct g; simpl; lia. Qed.

Lemma pending_zero gs :
  pending gs = 0 -> forallb (fun g => match g with GetDone => true | _ => false end) gs = true.
Proof.
  unfold pending. induction gs as [|g gs IH]; simpl; [done|]. intros Hz.
  pose proof (zsum_nonneg steps_left gs steps_left_nonneg). destruct g; simpl in *; try lia.
  apply IH. lia.
Qed.

Lemma pending_pos gs :
  0 < pending gs -> exists i g, gs !! i = Some g /\ 0 < steps_left g.
Proof.
  unfold pending. induction gs as [|g gs IH]; simpl; [lia|]. intros Hp.
  destruct (decide (0 < steps_left g)) as [Hg|Hg]; [by exists O, g|].
  pose proof (steps_left_nonneg g). destruct IH as (i & g' & Hi & Hg'); [lia|]. by exists (S i), g'.
Qed.

(** Once the connection is closed, a goroutine that is not finished can move, and
    gets closer to its end. *)
Lemma closed_goroutine_moves v c i g :
  closed c = true -> gets c !! i = Some g -> 0 < steps_left g ->
  exists l c', exec v c l = Some c' /\ main c' = main c /\ closed c' = true /\
  length (gets c') = length (gets c) /\ pending (gets c') < pending (gets c).
Proof.
  intros Hc Hi Hg.
  assert (Hset : forall c1 g1, gets c1 = gets c -> steps_left g1 < steps_left g ->
    length (gets (set_get c1 i g1)) = length (gets c) /\ pending (gets (set_get c1 i g1)) < pending (gets c)).
  { intros c1 g1 Hgs Hlt. simpl. rewrite length_insert, Hgs. split; [done|].
    unfold pending. rewrite (zsum_insert _ _ _ _ _ Hi). lia. }
  destruct g as [msg|reqID payload off|reqID payload off|]; simpl in Hg.
  - destruct (handleGet c msg false) as [c1 g1] eqn:Eg.
    destruct (handleGet_quiet _ _ _ _ _ Eg) as (_ & Hgs & _ & Hm & Hcl & _ & Hpc).
    exists (LBegin i false), (set_get c1 i g1). simpl. rewrite Hi, Eg. split; [done|].
    split; [done|]. split; [congruence|]. apply Hset; [done|].
    destruct Hpc as [-> | (? & ? & -> & _)]; simpl; lia.
  - assert (Hw : exists c1 t, waitCredit v c = Some (c1, t) /\ gets c1 = gets c /\ main c1 = main c /\
      closed c1 = true).
    { unfold waitCredit. rewrite Hc, andb_false_r. destruct v; [by exists c, false|].
      destruct (0 <? credits c); eexists _, _; by split_and!. }
    destruct Hw as (c1 & t & Hw & Hgs & Hm & Hcl).
    exists (LCredit i), (set_get c1 i (if t then GetSend reqID payload off else GetDone)).
    simpl. rewrite Hi, Hw. split; [done|]. split; [done|]. split; [done|]. apply Hset; [done|].
    destruct t; simpl; lia.
  - destruct (sendGetPayload_out c reqID payload off false false) as (_ & Hgs & _ & Hm & Hcl & _).
    exists (LSend i false false), (set_get (sendGetPayload c reqID payload off false false).1 i GetDone).
    simpl. rewrite Hi. split; [done|]. split; [done|]. split; [congruence|].
    apply Hset; [done|]. simpl. lia.
  - lia.
Qed.

Lemma exec_all_app v c ls1 ls2 c1 :
  exec_all v c ls1 = Some c1 -> exec_all v c (ls1 ++ ls2) = exec_all v c1 ls2.
Proof.
  revert c. induction ls1 as [|l ls1 IH]; intros c; simpl; [by intros [= ->]|].
  destruct (exec v c l) as [c'|]; simpl; [apply IH|done].
Qed.

Lemma pending_bound gs : pending gs <= 3 * blen gs.
Proof.
  unfold pending, blen. induction gs as [|g gs IH]; simpl zsum; [simpl; lia|].
  assert (steps_left g <= 3) by (destruct g; simpl; lia).
  change (length (g :: gs)) with (S (length gs)). lia.
Qed.

Lemma drain v n c :
  main c = Closing -> closed c = true -> pending (gets c) <= Z.of_nat n ->
  exists ls c', exec_all v c ls = Some c' /\ main c' = ConnClosed /\ (length ls <= n + 1)%nat.
Proof.
  revert c. induction n as [|n IH]; intros c Hm Hc Hp.
  - exists [LFinish], (with_main c ConnClosed). simpl. rewrite Hm, pending_zero; [done|].
    pose proof (zsum_nonneg steps_left (gets c) steps_left_nonneg). unfold pending in *. lia.
  - destruct (decide (0 < pending (gets c))) as [Hpos|Hz].
    + destruct (pending_pos _ Hpos) as (i & g & Hi & Hg).
      destruct (closed_goroutine_moves v c i g Hc Hi Hg) as (l & c1 & Hex & Hm1 & Hc1 & _ & Hlt).
      destruct (IH c1) as (ls & c' & Hall & Hmain & Hlen); [congruence|done|lia|].
      exists (l :: ls), c'. simpl. rewrite Hex. simpl. split; [done|]. split; [done|lia].
    + exists [LFinish], (with_main c ConnClosed). simpl. rewrite Hm, pending_zero.
      * split; [done|]. split; [done|lia].
      * pose proof (zsum_nonneg steps_left (gets c) steps_left_nonneg). unfold pending in *. lia.
Qed.

(** Where the loop stands and whether the connection is closed. *)
Definition closing_ok c : Prop :=
  match main c with Looping | AwaitPayload _ => closed c = false | _ => closed c = true end.

Lemma send_closed c m ok : closed (sendControl c m ok).1 = closed c /\ main (sendControl c m ok).1 = main c.
Proof. unfold sendControl. destruct (Encode m); [destruct ok|]; done. Qed.

Lemma continue_closing (r : zcopyConn St * bool) : closed r.1 = false -> closing_ok (continue_if r).
Proof. destruct r as [c []]; done. Qed.

Lemma always_closing (r : zcopyConn St * bool) : closed r.1 = false -> closing_ok (continue_always r).
Proof. done. Qed.

Lemma dispatch_closing c msg ok : closed c = false -> closing_ok (dispatch c msg ok).
Proof.
  intros Hc. unfold dispatch, handlePut, handleGetAsync, finishPut, sendRespErr, sendRespOK,
    sendControlLocked.
  repeat case_match; try done;
    try (apply continue_closing; by rewrite (proj1 (send_closed _ _ _)));
    try (apply always_closing; by rewrite (proj1 (send_closed _ _ _))).
  unfold addCredits. by destruct (_ <=? 0).
Qed.

Lemma exec_closing v c l c' : exec v c l = Some c' -> closing_ok c -> closing_ok c'.
Proof.
  intros Hex Hc. unfold closing_ok in Hc. destruct l as [r ok|r ok|i ok|i|i ok1 ok2| |s]; simpl in Hex.
  - destruct (main c); [|done..]. injection Hex as <-. unfold serveConn.
    destruct (recvControl r); [by apply dispatch_closing|done].
  - destruct (main c) as [|msg| |]; [done| |done..]. injection Hex as <-.
    unfold handlePut_payload, finishPut, sendRespOK, sendControlLocked.
    destruct (recvPayloadAt_end _ _ _); [|done].
    apply continue_closing. by rewrite (proj1 (send_closed _ _ _)).
  - destruct (gets c !! i) as [[msg| | |]|]; [|done..].
    destruct (handleGet c msg ok) as [c1 g1] eqn:Eg. injection Hex as <-.
    destruct (handleGet_quiet _ _ _ _ _ Eg) as (_ & _ & _ & Hm & Hcl & _).
    unfold closing_ok. simpl. by rewrite Hm, Hcl.
  - destruct (gets c !! i) as [[|reqID payload off| |]|]; [done| |done..].
    destruct (waitCredit v c) as [[c1 taken]|] eqn:Ew; simpl in Hex; [|done]. injection Hex as <-.
    destruct (waitCredit_same _ _ _ _ Ew) as (Hst & Ho & _ & Hm & Hcl). 
    unfold closing_ok. simpl. by rewrite Hm, Hcl.
  - destruct (gets c !! i) as [[| |reqID payload off|]|]; [done|done| |done..]. injection Hex as <-.
    destruct (sendGetPayload_out c reqID payload off ok1 ok2) as (_ & _ & _ & Hm & Hcl & _).
    unfold closing_ok. simpl. by rewrite Hm, Hcl.
  - destruct (main c); [done|done| |done]. destruct (forallb _ _); [|done]. by injection Hex as <-.
  - by injection Hex as <-.
Qed.

(** A property kept by every step holds after every run. *)
Lemma exec_all_ind (P : zcopyConn St -> Prop) v c ls c' :
  (forall c l c', exec v c l = Some c' -> P c -> P c') ->
  exec_all v c ls = Some c' -> P c -> P c'.
Proof.
  intros Hstep. revert c. induction ls as [|l ls IH]; intros c; simpl; [by intros [= ->]|].
  destruct (exec v c l) as [c1|] eqn:E; simpl; [|done]. intros Hex Hc. apply (IH c1); [done|].
  by apply (Hstep c l).
Qed.
(** Once a PUT waits for a frame, the two services decide alike. *)
Lemma inmem_payload_eq c msg r ok :
  recvPayloadAt_begin (Size msg) (default 0 (DataOffset msg)) = PayloadWait ->
  inmem_handlePut_payload c msg r ok = handlePut_payload c msg r ok.
Proof.
  intros Hw. unfold inmem_handlePut_payload, handlePut_payload, recvPayloadReceiptAt. rewrite Hw.
  destruct r as [f|]; simpl; [|done]. by repeat case_match.
Qed.

(** ** Lemmas: replies *)

Lemma reply_wf op rq cr err :
  all_chars is_ascii op = true -> all_chars is_ascii err = true ->
  0 <= rq < 2 ^ 64 -> 0 <= cr < 2 ^ 63 -> well_formed (reply op rq cr err).
Proof.
  intros Hop Herr Hr Hc. constructor; simpl; try done; try (by apply utf8_all_ascii); try constructor.
  - lia.
  - repeat (apply Forall_cons; split; [lia|]). constructor.
Qed.

Lemma meta_wf rq size off :
  0 <= rq < 2 ^ 64 -> - 2 ^ 63 <= size < 2 ^ 63 -> - 2 ^ 63 <= off < 2 ^ 63 ->
  well_formed (get_meta rq size off).
Proof.
  intros Hr Hs Ho. constructor; simpl; try done; try (by apply utf8_all_ascii).
  repeat (apply Forall_cons; split; [lia|]). constructor.
Qed.

(** The message [m] is sent, and decodes as itself. *)
Lemma send_decodes c m :
  well_formed m -> Op m <> EmptyString ->
  exists p, sendControl c m true = (with_out c (out c ++ [OutCtl p]), true) /\ Decode p = Ok m.
Proof.
  intros Hm Hop. destruct (Decode_Encode m Hm Hop) as (p & Hp & Hd).
  exists p. unfold sendControl. by rewrite Hp.
Qed.

(** One reply with the request's id, and the loop goes on. *)
Definition replied c c' rq : Prop :=
  exists p m, out c' = out c ++ [OutCtl p] /\ Decode p = Ok m /\ ReqID m = rq /\
  Op m ∈ [OpHelloResp; OpRespOK; OpRespErr] /\ main c' = Looping /\ gets c' = gets c.

Lemma replied_continue c c1 op rq cr err :
  out c1 = out c -> gets c1 = gets c -> op ∈ [OpHelloResp; OpRespOK; OpRespErr] ->
  all_chars is_ascii err = true -> 0 < rq < 2 ^ 64 -> 0 <= cr < 2 ^ 63 ->
  replied c (continue_if (sendControl c1 (reply op rq cr err) true)) rq /\
  replied c (continue_always (sendControl c1 (reply op rq cr err) true)) rq.
Proof.
  intros Ho Hg Hop Herr Hr Hc. assert (Hasc : all_chars is_ascii op = true /\ op <> EmptyString).
  { rewrite !elem_of_cons, elem_of_nil in Hop. destruct Hop as [-> |[-> |[-> |[]]]]; done. }
  destruct (send_decodes c1 (reply op rq cr err)) as (p & Hs & Hd); [apply reply_wf; try tauto; lia|tauto|].
  rewrite Hs. split; exists p, (reply op rq cr err); simpl; by rewrite Ho, Hg.
Qed.

Ltac one_reply c c1 :=
  left; apply (replied_continue c c1); [done|done|set_solver|first [done|auto]|lia|lia].

Lemma replied_put c msg :
  0 < ReqID msg < 2 ^ 64 -> main c = Looping ->
  let c' := handlePut c msg true in
  replied c c' (ReqID msg) \/
  out c' = out c /\ (main c' = AwaitPayload msg \/
    main c' = Closing /\ exists off, DataOffset msg = Some off /\ off < 0).
Proof.
  intros Hr Hm. unfold handlePut, finishPut, sendRespErr, sendRespOK, sendControlLocked. cbv zeta.
  rewrite (proj2 (Z.eqb_neq (ReqID msg) 0)) by lia.
  assert (Hcat : forall a b, all_chars is_ascii ("object too large: " +:+ fmt_d a +:+ " > " +:+ fmt_d b) = true).
  { intros a b. rewrite !all_chars_app, !fmt_d_ascii. done. }
  destruct (_ || _); [one_reply c c|].
  destruct (Size msg <? 0) eqn:Es; [one_reply c c|].
  destruct (DataOffset msg) as [off|]; [|one_reply c c].
  destruct (_ && _); [one_reply c c|].
  unfold recvPayloadAt_begin. rewrite Es. destruct (off <? 0) eqn:Eo; bool_facts.
  { right. split; [done|]. right. split; [done|]. by exists off. }
  destruct (Size msg =? 0); [one_reply c (with_store c (st_CreateBucket (store c) (TrimSpace (Bucket msg))))|].
  right. split; [done|by left].
Qed.

Lemma replied_dispatch c msg :
  0 < ReqID msg < 2 ^ 64 -> Credits msg < 2 ^ 63 -> Op msg <> OpAck -> main c = Looping ->
  let c' := dispatch c msg true in
  replied c c' (ReqID msg) \/
  Op msg = OpGetReq /\ out c' = out c /\ gets c' = gets c ++ [GetStart msg] \/
  Op msg = OpPutReq /\ out c' = out c /\ (main c' = AwaitPayload msg \/
    main c' = Closing /\ exists off, DataOffset msg = Some off /\ off < 0).
Proof.
  intros Hr Hcr Hack Hm. unfold dispatch, sendRespErr, sendRespOK, sendControlLocked. cbv zeta.
  rewrite (proj2 (Z.eqb_neq (ReqID msg) 0)) by lia.
  destruct (String.eqb_spec (Op msg) OpHelloReq).
  { destruct (Credits msg <=? 0) eqn:Ec; bool_facts; [one_reply c c|].
    one_reply c (setCredits c (Credits msg)). }
  destruct (String.eqb_spec (Op msg) OpAck); [done|].
  destruct (String.eqb_spec (Op msg) OpEnsureBucketReq).
  { destruct (String.eqb _ ""); [one_reply c c|].
    one_reply c (with_store c (st_CreateBucket (store c) (TrimSpace (Bucket msg)))). }
  destruct (String.eqb_spec (Op msg) OpPutReq).
  { destruct (replied_put c msg Hr Hm) as [Hrep|Hput]; [by left|right; right; tauto]. }
  destruct (String.eqb_spec (Op msg) OpGetReq).
  { right; left. unfold handleGetAsync. rewrite (proj2 (Z.eqb_neq (ReqID msg) 0)) by lia. done. }
  cbn [negb]. one_reply c c.
Qed.

(** A GET within its limits, with a credit: the three steps of its goroutine. *)
Lemma get_delivers v c i msg obj off :
  gets c !! i = Some (GetStart msg) -> closed c = false -> 0 < credits c ->
  0 < ReqID msg < 2 ^ 64 -> DataOffset msg = Some off -> 0 <= off < 2 ^ 63 ->
  TrimSpace (Bucket msg) <> EmptyString -> TrimSpace (Key msg) <> EmptyString ->
  st_GetObject (store c) (TrimSpace (Bucket msg)) (TrimSpace (Key msg)) = Some obj ->
  size_of obj < 2 ^ 63 -> Max msg = 0 \/ size_of obj <= Max msg ->
  exists c' p, exec_all v c [LBegin i true; LCredit i; LSend i true true] = Some c' /\
  Decode p = Ok (get_meta (ReqID msg) (size_of obj) off) /\
  out c' = out c ++ [OutCtl p; OutData (Body obj) off] /\
  credits c' = credits c - 1 /\ gets c' !! i = Some GetDone /\
  main c' = main c /\ closed c' = closed c.
Proof.
  intros Hi Hc Hcr Hr Ho Hoff Hb Hk Hobj Hsz Hmax. apply String.eqb_neq in Hb, Hk.
  assert (Hg : handleGet c msg true = (c, GetCredit (ReqID msg) (Body obj) off)).
  { unfold handleGet. rewrite Hb, Hk, Ho, Hobj. simpl.
    assert (0 <= size_of obj) by apply blen_nonneg.
    rewrite (proj2 (Z.ltb_ge (Max msg) 0)) by lia.
    destruct (0 <? Max msg) eqn:E0; bool_facts; [|done].
    by rewrite (proj2 (Z.ltb_ge (Max msg) (size_of obj))) by lia. }
  assert (Hsz0 : 0 <= size_of obj) by apply blen_nonneg.
  destruct (Decode_Encode (get_meta (ReqID msg) (size_of obj) off)) as (p & Hp & Hd);
    [apply meta_wf; lia|done|].
  assert (Hlt : (i < length (gets c))%nat) by (by apply lookup_lt_Some in Hi).
  assert (Hw : forall g, waitCredit v (set_get c i g) = Some (with_credits (set_get c i g) (credits c - 1), true)).
  { intros g. unfold waitCredit. simpl. rewrite Hc. rewrite (proj2 (Z.leb_gt _ _)) by done.
    rewrite (proj2 (Z.ltb_lt _ _)) by done. by destruct v. }
  eexists _, p. split.
  { simpl exec_all. rewrite Hi, Hg. simpl mbind. rewrite list_lookup_insert_eq by done.
    rewrite Hw. simpl. rewrite list_lookup_insert_eq by (by rewrite length_insert). reflexivity. }
  assert (Hsend : forall c2, sendGetPayload c2 (ReqID msg) (Body obj) off true true =
    (with_out (with_out c2 (out c2 ++ [OutCtl p])) ((out c2 ++ [OutCtl p]) ++ [OutData (Body obj) off]), true)).
  { intros c2. unfold sendGetPayload, sendControl. rewrite (proj2 (Z.ltb_ge off 0)) by lia.
    change (blen (Body obj)) with (size_of obj). by rewrite i64_id, Hp by lia. }
  rewrite Hsend. simpl. split; [done|]. rewrite <- app_assoc. split; [done|]. split; [done|].
  rewrite list_lookup_insert_eq; [done|]. by rewrite !length_insert.
Qed.
End Facts.

Section Properties.
Context {St : Type} `{ObjectStoreLaws St}.
Implicit Types (c : zcopyConn St) (msg : Message).

(** ** Properties *)

(** Flow control: on every run of a new connection, whatever the client sends
    and however sends fail, the data messages sent so far, with those a goroutine is
    about to send, never exceed the credits the client has granted, and the credit
    counter is never negative (the grants being countable in 63 bits). *)
Theorem data_within_grants v s max ls c :
  exec_all v (newZCopyConn s max) ls = Some c -> zsum grant ls < 2 ^ 63 ->
  0 <= credits c /\
  zsum is_data (out c) + zsum is_sending (gets c) + credits c <= zsum grant ls.
Proof.
  intros Hex Hfit. destruct (exec_all_flow v _ ls c 0 Hex) as [Hlo Hhi]; [|lia|lia].
  unfold flow. simpl. lia.
Qed.

(** On every run, what the service sends is control messages and pairs of a
    get_meta and its data, sent together: no other message comes between a meta and
    its data, and the meta names the data's length and offset. *)
Theorem sends_are_paired v s max ls c :
  exec_all v (newZCopyConn s max) ls = Some c -> paired (out c).
Proof.
  intros Hex. apply (exec_all_ind (fun c => paired (out c)) v _ ls c (fun c l c' => exec_paired v c l c') Hex).
  constructor.
Qed.

(** Every payload the service sends is the body of an object of the store: any
    fact true of all the objects the store holds during the run is true of the data. *)
Theorem data_are_objects (Q : list byte -> Prop) v s max ls c payload off :
  (forall b k o, st_GetObject s b k = Some o -> Q (Body o)) ->
  (forall s', LStore s' ∈ ls -> forall b k o, st_GetObject s' b k = Some o -> Q (Body o)) ->
  exec_all v (newZCopyConn s max) ls = Some c ->
  OutData payload off ∈ out c -> Q payload.
Proof.
  intros Hs Hls Hex Hin. cut (payloads Q c); [intros HQ; apply (pl_out _ _ HQ _ Hin)|].
  assert (Hinit : payloads Q (newZCopyConn s max)).
  { constructor; [done|by intros g ?%not_elem_of_nil|by intros m ?%not_elem_of_nil]. }
  clear Hs Hin. revert Hls Hinit Hex. generalize (newZCopyConn s max) as c0.
  induction ls as [|l ls IH]; intros c0 Hls Hinit; simpl; [by intros [= ->]|].
  destruct (exec v c0 l) as [c1|] eqn:E; simpl; [|done]. apply IH.
  - intros s' Hin. apply Hls. by right.
  - apply (exec_payloads Q v c0 l); [done|done|]. intros s' ->. apply Hls. left.
Qed.

(** No request of the protocol, PUT included, changes an object that can be
    read; only another connection's access to the store can. *)
Theorem zcopy_keeps_objects v c l c' b k :
  exec v c l = Some c' -> (forall s, l <> LStore s) ->
  st_GetObject (store c') b k = st_GetObject (store c) b k.
Proof. apply exec_objects. Qed.

(** Every request but GET and PUT with an id is answered at once by exactly one
    reply that carries its id, and the loop goes on; a GET starts one goroutine; a PUT
    is answered, or waits for its payload, or (negative offset) ends the connection. *)
Theorem request_is_answered c msg :
  0 < ReqID msg < 2 ^ 64 -> Credits msg < 2 ^ 63 -> Op msg <> OpAck -> main c = Looping ->
  let c' := dispatch c msg true in
  replied c c' (ReqID msg) \/
  Op msg = OpGetReq /\ out c' = out c /\ gets c' = gets c ++ [GetStart msg] \/
  Op msg = OpPutReq /\ out c' = out c /\ (main c' = AwaitPayload msg \/
    main c' = Closing /\ exists off, DataOffset msg = Some off /\ off < 0).
Proof. apply replied_dispatch. Qed.

(** A PUT that waits for its payload is accepted exactly when the next frame has
    the announced offset and length: then the bucket is created and the request's id is
    acknowledged; otherwise nothing is sent or created and the connection ends. *)
Theorem put_needs_its_payload v c msg r off :
  main c = AwaitPayload msg -> DataOffset msg = Some off -> 0 < ReqID msg < 2 ^ 64 ->
  exists c', exec v c (LPayload r true) = Some c' /\
  if match r with Some f => (f_SharedOffset f =? off) && (blen (f_Payload f) =? Size msg) | None => false end
  then replied c c' (ReqID msg) /\ store c' = st_CreateBucket (store c) (TrimSpace (Bucket msg))
  else main c' = Closing /\ closed c' = true /\ out c' = out c /\ store c' = store c.
Proof.
  intros Hm Ho Hr. exists (handlePut_payload c msg r true). simpl. rewrite Hm. split; [done|].
  unfold handlePut_payload. rewrite Ho. change (default 0 (Some off)) with off.
  assert (Hend : recvPayloadAt_end (Size msg) off r =
    match r with Some f => (f_SharedOffset f =? off) && (blen (f_Payload f) =? Size msg) | None => false end).
  { destruct r as [f|]; simpl; [|done].
    by destruct (f_SharedOffset f =? off), (blen (f_Payload f) =? Size msg). }
  rewrite <- Hend. destruct (recvPayloadAt_end _ _ _); [|done]. unfold finishPut, sendRespOK, sendControlLocked.
  split.
  - apply (replied_continue c (with_store c (st_CreateBucket (store c) (TrimSpace (Bucket msg))))); [done|done|set_solver|done|lia|lia].
  - unfold sendControl. by destruct (Encode _).
Qed.

(** A GET of an object within its limits, once a credit is there, delivers a meta
    that decodes with the request's id, the object's length and the offset asked for,
    then the object's bytes at that offset, for one credit. *)
Theorem get_delivers_object v c i msg obj off :
  gets c !! i = Some (GetStart msg) -> closed c = false -> 0 < credits c ->
  0 < ReqID msg < 2 ^ 64 -> DataOffset msg = Some off -> 0 <= off < 2 ^ 63 ->
  TrimSpace (Bucket msg) <> EmptyString -> TrimSpace (Key msg) <> EmptyString ->
  st_GetObject (store c) (TrimSpace (Bucket msg)) (TrimSpace (Key msg)) = Some obj ->
  size_of obj < 2 ^ 63 -> Max msg = 0 \/ size_of obj <= Max msg ->
  exists c' p, exec_all v c [LBegin i true; LCredit i; LSend i true true] = Some c' /\
  Decode p = Ok (get_meta (ReqID msg) (size_of obj) off) /\
  out c' = out c ++ [OutCtl p; OutData (Body obj) off] /\
  credits c' = credits c - 1 /\ gets c' !! i = Some GetDone /\
  main c' = main c /\ closed c' = closed c.
Proof. apply get_delivers. Qed.

(** A GET with a negative offset takes a credit and answers nothing: the credit
    is gone, no message is sent and the goroutine ends. *)
Theorem negative_offset_leaks_credit v c i reqID payload off :
  gets c !! i = Some (GetCredit reqID payload off) -> closed c = false -> 0 < credits c -> off < 0 ->
  exists c', exec_all v c [LCredit i; LSend i true true] = Some c' /\
  out c' = out c /\ credits c' = credits c - 1 /\ gets c' !! i = Some GetDone.
Proof.
  intros Hi Hc Hcr Hoff. assert (Hlt : (i < length (gets c))%nat) by (by apply lookup_lt_Some in Hi).
  assert (Hw : waitCredit v c = Some (with_credits c (credits c - 1), true)).
  { unfold waitCredit. rewrite Hc. rewrite (proj2 (Z.leb_gt _ _)) by done.
    rewrite (proj2 (Z.ltb_lt _ _)) by done. by destruct v. }
  eexists. split.
  { simpl exec_all. rewrite Hi, Hw. simpl mbind. rewrite list_lookup_insert_eq by done. reflexivity. }
  unfold sendGetPayload. rewrite (proj2 (Z.ltb_lt off 0)) by done. simpl.
  rewrite list_lookup_insert_eq; [done|]. by rewrite length_insert.
Qed.

(** Closing ends: on every run, once the loop has returned the connection is
    closed, and the goroutines still running finish without any help from the client,
    each in at most three steps, so that the deferred wait returns. *)
Theorem closing_terminates v s max ls c :
  exec_all v (newZCopyConn s max) ls = Some c -> main c = Closing ->
  closed c = true /\
  exists ls' c', exec_all v c ls' = Some c' /\ main c' = ConnClosed /\
    Z.of_nat (length ls') <= 3 * blen (gets c) + 1.
Proof.
  intros Hex Hm.
  assert (Hok : closing_ok c).
  { apply (exec_all_ind closing_ok v _ ls c (exec_closing v) Hex). done. }
  unfold closing_ok in Hok. rewrite Hm in Hok. split; [done|].
  pose proof (pending_bound (gets c)). pose proof (zsum_nonneg steps_left (gets c) steps_left_nonneg) as Hn.
  destruct (drain v (Z.to_nat (pending (gets c))) c Hm Hok) as (ls' & c' & Hall & Hmain & Hlen).
  { unfold pending. lia. }
  exists ls', c'. split; [done|]. split; [done|]. unfold pending in *. lia.
Qed.

End Properties.

(** Timeouts once normalised are positive, a positive timeout is kept, and
    normalising again changes nothing. *)
Theorem normalized_positive t :
  let n := normalized t in
  0 < t_Control n /\ 0 < t_Data n /\ 0 < t_Idle n /\ normalized n = n /\
  (0 < t_Control t -> t_Control n = t_Control t) /\ (0 < t_Data t -> t_Data n = t_Data t) /\
  (0 < t_Idle t -> t_Idle n = t_Idle t).
Proof.
  assert (Hpos : forall x d, 0 < d -> 0 < (if x <=? 0 then d else x)).
  { intros x d Hd. destruct (x <=? 0) eqn:E; bool_facts; lia. }
  assert (Hid : forall x d, 0 < x -> (if x <=? 0 then d else x) = x).
  { intros x d Hx. by rewrite (proj2 (Z.leb_gt _ _)). }
  simpl. split_and!; try (apply Hpos; done); try (by intros; rewrite Hid).
  unfold normalized; simpl. f_equal; apply Hid, Hpos; done.
Qed.

(** ** Witnesses: the standalone server's own store *)

#[local] Existing Instances LoadedStore.MemoryStore_store LoadedStore.MemoryStore_laws.

Definition demo_time : Time := {| instant := 10 ^ 9; utc := true |}.
Definition demo_body : list byte := bytes_of_string "hello".
Definition demo_store : LoadedStore.MemoryStore :=
  (LoadedStore.PutLoadedObject LoadedStore.NewMemoryStore "b" "k" demo_body demo_time demo_time).1.

Definition request (op : string) (id cr size mx : Z) (off : option Z) : Message :=
  {| Op := op; ReqID := id; Credits := cr; Ack := 0; Bucket := "b"; Key := "k"; Size := size;
     Max := mx; DataOffset := off; ErrText := "" |}.

Definition frame_of (m : Message) : frame :=
  {| f_Payload := match Encode m with Ok b => b | Err _ => [] end; f_SharedOffset := 0 |}.

Abbreviation recv m := (LRecv (Some (frame_of m)) true).

Definition demo_get : list (label LoadedStore.MemoryStore) :=
  [recv (request OpHelloReq 1 2 0 0 None); recv (request OpGetReq 2 0 0 0 (Some 64));
   LBegin 0 true; LCredit 0; LSend 0 true true].

(** A PUT larger than the limit is refused before its payload is received, and the
    payload is then read as a control message: here it creates the bucket "evil". *)
Definition evil_payload : Message :=
  {| Op := OpEnsureBucketReq; ReqID := 9; Credits := 0; Ack := 0; Bucket := "evil"; Key := "";
     Size := 0; Max := 0; DataOffset := None; ErrText := "" |}.

(** A refused PUT leaves its payload in the stream, where the loop takes it for
    the next control message: the payload of a PUT that is too large can create a
    bucket. *)
Theorem refused_put_payload_is_executed :
  exists c, exec_all Std (newZCopyConn demo_store 4)
    [recv (request OpPutReq 7 0 (blen (f_Payload (frame_of evil_payload))) 0 (Some 0));
     LRecv (Some (frame_of evil_payload)) true] = Some c /\
  st_BucketExists (store c) "evil" = true /\ length (out c) = 2%nat /\ main c = Looping.
Proof. eexists. split; [vm_compute; reflexivity|]. vm_compute. done. Qed.

Lemma run_demo : is_Some (exec_all Std (newZCopyConn demo_store 0) demo_get).
Proof. apply (bool_decide_unpack _). vm_compute. exact I. Qed.

Lemma data_within_grants_witness :
  exists c, exec_all Std (newZCopyConn demo_store 0) demo_get = Some c /\
  zsum is_data (out c) + zsum is_sending (gets c) + credits c <= 2.
Proof.
  destruct run_demo as [c Hc]. exists c. split; [exact Hc|].
  destruct (data_within_grants Std demo_store 0 demo_get c Hc) as [_ Hle]; [by vm_compute|].
  revert Hle. change (zsum grant demo_get) with (zsum grant demo_get).
  assert (Hg : zsum grant demo_get = 2) by (vm_compute; reflexivity). rewrite Hg. exact (fun x => x).
Defined.

Lemma sends_are_paired_witness :
  exists c, exec_all Std (newZCopyConn demo_store 0) demo_get = Some c /\ paired (out c).
Proof.
  destruct run_demo as [c Hc]. exists c. split; [exact Hc|].
  exact (sends_are_paired Std demo_store 0 demo_get c Hc).
Defined.

Lemma demo_objects b k o : st_GetObject demo_store b k = Some o -> Body o = demo_body.
Proof.
  assert (Hl : st_GetObject demo_store b k = if decide ((b, k) = ("b", "k")%string)
    then Some (LoadedStore.PutLoadedObject LoadedStore.NewMemoryStore "b" "k" demo_body demo_time demo_time).2
    else None).
  { change (st_GetObject demo_store b k) with (LoadedStore.GetObject demo_store b k).
    unfold demo_store. rewrite LoadedStore.GetObject_lookup, LoadedStore.put_lookup.
    case_decide; [done|]. unfold lookup_object. simpl. by rewrite lookup_empty. }
  rewrite Hl. case_decide; [intros [= <-]; done|done].
Qed.

Lemma data_are_objects_witness :
  exists c, exec_all Std (newZCopyConn demo_store 0) demo_get = Some c /\
  (OutData demo_body 64 ∈ out c -> demo_body = demo_body).
Proof.
  destruct run_demo as [c Hc]. exists c. split; [exact Hc|].
  apply (data_are_objects (fun p => p = demo_body) Std demo_store 0 demo_get c demo_body 64).
  - intros b k o. apply demo_objects.
  - intros s' Hin. exfalso. unfold demo_get in Hin.
    repeat (apply elem_of_cons in Hin as [Hin|Hin]; [discriminate|]). by apply not_elem_of_nil in Hin.
  - exact Hc.
Defined.

Lemma zcopy_keeps_objects_witness :
  exists c', exec Std (newZCopyConn demo_store 0) (recv (request OpEnsureBucketReq 3 0 0 0 None)) = Some c' /\
  st_GetObject (store c') "b" "k" = st_GetObject demo_store "b" "k".
Proof.
  exists (serveConn (newZCopyConn demo_store 0) (Some (frame_of (request OpEnsureBucketReq 3 0 0 0 None))) true).
  split; [reflexivity|].
  refine (zcopy_keeps_objects Std (newZCopyConn demo_store 0)
    (recv (request OpEnsureBucketReq 3 0 0 0 None)) _ "b" "k" _ _); [reflexivity|discriminate].
Defined.

Lemma request_is_answered_witness :
  replied (newZCopyConn demo_store 0)
    (dispatch (newZCopyConn demo_store 0) (request OpHelloReq 1 2 0 0 None) true) 1.
Proof.
  destruct (request_is_answered (newZCopyConn demo_store 0) (request OpHelloReq 1 2 0 0 None))
    as [Hr|[[Hop _]|[Hop _]]]; [simpl; lia|simpl; lia|discriminate|reflexivity|exact Hr|discriminate..].
Defined.

Lemma put_needs_its_payload_witness :
  exists c', exec Inmem (with_main (newZCopyConn demo_store 0) (AwaitPayload (request OpPutReq 4 0 5 0 (Some 8))))
    (LPayload (Some {| f_Payload := demo_body; f_SharedOffset := 0 |}) true) = Some c' /\
  main c' = Closing.
Proof.
  destruct (put_needs_its_payload Inmem
    (with_main (newZCopyConn demo_store 0) (AwaitPayload (request OpPutReq 4 0 5 0 (Some 8))))
    (request OpPutReq 4 0 5 0 (Some 8)) (Some {| f_Payload := demo_body; f_SharedOffset := 0 |}) 8)
    as (c' & H1 & H2); [reflexivity|reflexivity|simpl; lia|].
  exists c'. split; [exact H1|exact (proj1 H2)].
Defined.

Definition demo_granted (m : Message) : zcopyConn LoadedStore.MemoryStore :=
  {| store := demo_store; maxObjectSize := 0; credits := 1; closed := false; out := [];
     main := Looping; gets := [GetStart m] |}.

Lemma get_delivers_object_witness :
  exists c' p, exec_all Inmem (demo_granted (request OpGetReq 2 0 0 5 (Some 64)))
    [LBegin 0 true; LCredit 0; LSend 0 true true] = Some c' /\
  out c' = [OutCtl p; OutData demo_body 64].
Proof.
  destruct (get_delivers_object Inmem (demo_granted (request OpGetReq 2 0 0 5 (Some 64))) 0
    (request OpGetReq 2 0 0 5 (Some 64))
    (LoadedStore.PutLoadedObject LoadedStore.NewMemoryStore "b" "k" demo_body demo_time demo_time).2 64)
    as (c' & p & H1 & _ & H2 & _);
    [reflexivity|reflexivity|simpl; lia|simpl; lia|reflexivity|lia|discriminate|discriminate
    |vm_compute; reflexivity|by vm_compute|right; by vm_compute|].
  exists c', p. split; [exact H1|exact H2].
Defined.

Lemma negative_offset_leaks_credit_witness :
  exists c', exec_all Std (set_get (demo_granted (request OpGetReq 2 0 0 0 (Some (-1)))) 0
    (GetCredit 2 demo_body (-1))) [LCredit 0; LSend 0 true true] = Some c' /\ credits c' = 0.
Proof.
  destruct (negative_offset_leaks_credit Std (set_get (demo_granted (request OpGetReq 2 0 0 0 (Some (-1)))) 0
    (GetCredit 2 demo_body (-1))) 0 2 demo_body (-1)) as (c' & H1 & _ & H2 & _);
    [reflexivity|reflexivity|simpl; lia|lia|].
  exists c'. split; [exact H1|exact H2].
Defined.

Lemma closing_terminates_witness :
  exists c, exec_all Inmem (newZCopyConn demo_store 0)
    [recv (request OpGetReq 2 0 0 0 (Some 64)); LBegin 0 true; LRecv None true] = Some c /\
  closed c = true.
Proof.
  eexists. split; [vm_compute; reflexivity|].
  refine (proj1 (closing_terminates Inmem demo_store 0
    [recv (request OpGetReq 2 0 0 0 (Some 64)); LBegin 0 true; LRecv None true] _ _ _));
    vm_compute; reflexivity.
Defined.
