(* ===== verification/Client.v ===== *)
(** * The zero-copy client (pkg/rdma/client/client.go)

    One [Client]: the requests in flight ([pending], a map from request ids to result
    channels), the receive loop, the serialised sender, the table of release
    functions and the shared memory region.  A result channel is a buffered channel of
    capacity one with an identity; sending on a closed or full channel, which would
    panic or block, makes the step undefined ([None]).  As in ZcopyServer.v a label is
    one atomic step and carries what the environment decides.

    Sending through the goroutine sendLoop is one step here, with its outcome: SendQueue.v
    has its parts, and shows that the operations run one at a time.

    A release function is represented by the borrowed frame it returns; a request's
    caller by a [call], the point it has reached. *)

From S2P Require Import Prelude Json ZcopyProto ZcopyServer.

(** ** Constants and configuration *)

Definition defaultMaxCredits : Z := 64.
Definition defaultConnectTimeout : Z := 10 * 10 ^ 9.
Definition defaultControlTimeout : Z := 30 * 10 ^ 9.
Definition defaultDataTimeout : Z := 2 * 60 * 10 ^ 9.

(** The timeouts of [Config], in nanoseconds. *)
Record Config := {
  RequestTimeout : Z; ConnectTimeout : Z; ControlTimeout : Z; DataTimeout : Z }.
Record timeoutConfig := { connect : Z; control : Z; data : Z }.

Definition resolveTimeouts (cfg : Config) : timeoutConfig :=
  let fallback := if RequestTimeout cfg <=? 0 then 0 else RequestTimeout cfg in
  let pick own default :=
    let v := if own <=? 0 then fallback else own in
    if v <=? 0 then default else v in
  {| connect := pick (ConnectTimeout cfg) defaultConnectTimeout;
     control := pick (ControlTimeout cfg) defaultControlTimeout;
     data := pick (DataTimeout cfg) defaultDataTimeout |}.

Definition connFramePayloadHint (framePayload : Z) : Z :=
  if 0 <? framePayload then framePayload else 64 * 1024.

Definition computeSafeCredits (sharedLen frameCap maxCredits : Z) : Z :=
  let frameCap := if frameCap <=? 0 then 64 * 1024 else frameCap in
  let maxCredits := if maxCredits <=? 0 then defaultMaxCredits else maxCredits in
  let capBytes := i64 (frameCap * 8) in
  let capBytes := if capBytes <? 256 * 1024 then 256 * 1024 else capBytes in
  let capBytes := if 1024 * 1024 <? capBytes then 1024 * 1024 else capBytes in
  let capBytes := if sharedLen <? capBytes then sharedLen else capBytes in
  let capBytes := if capBytes <? frameCap then frameCap else capBytes in
  let slots := Z.quot sharedLen capBytes in
  let slots := if slots <? 1 then 1 else slots in
  if maxCredits <? slots then maxCredits else slots.

(** ** Buffer references *)

Record BufferRef := { Offset : Z; RefSize : Z; token : Z }.

Definition ref_end (r : BufferRef) : Z := i64 (Offset r + RefSize r).

Inductive cerr :=
| EInvalidRef (offset size : Z)
| ERefOutOfRange (offset size region : Z)
| EEmptyName
| ECtx                                  (* the context's error *)
| EClosed                               (* net.ErrClosed *)
| ESend                                 (* the transport's send error *)
| ERecv                                 (* the transport's receive error *)
| EDecode
| EChanClosed
| EHello (op : string)
| EHelloFailed (msg : string)
| ERemote (msg : string)
| EUnexpectedOp (op : string)
| EGetSize (size max : Z)
| EPayloadSize (got want : Z)
| EMissingOffset
| EReturnedOffset (off size : Z)
| EOffsetNotHonored (want got : Z).

Definition validateRef (sharedLen : Z) (ref : BufferRef) : option cerr :=
  if (Offset ref <? 0) || (RefSize ref <? 0) then Some (EInvalidRef (Offset ref) (RefSize ref))
  else if (ref_end ref <? Offset ref) || (sharedLen <? ref_end ref) then
    Some (ERefOutOfRange (Offset ref) (RefSize ref) sharedLen)
  else None.

(** ** State *)

(** A borrowed message: its identity and the frame. *)
Record borrowed := { b_id : nat; b_frame : frame }.

Record inboundResult := { ir_msg : Message; ir_borrowed : option borrowed; ir_err : option cerr }.

(** A channel of capacity one. *)
Record chan := { c_buf : option inboundResult; c_closed : bool }.

(** What the sender has handed to the transport. *)
Inductive sentmsg :=
| SCtl (m : Message)
| SData (payload : list byte) (sharedOffset : Z).

Inductive op :=
| OHello
| OEnsure (bucket : string)
| OPut (bucket key : string) (ref : BufferRef)
| OGet (bucket key : string) (targetOffset maxSize : Z).

Inductive call_result := ROk | RRef (r : BufferRef) | RErr (e : cerr).

(** Where a caller stands: sending its request, waiting for the result, or done. *)
Inductive call :=
| CallSend (o : op) (reqID : Z) (ch : nat)
| CallWait (o : op) (reqID : Z) (ch : nat)
| CallDone (r : call_result).

(** Where the receive loop stands. *)
Inductive recv_pc := RLoop | RBorrow (msg : Message) | RDone.

Record Client := {
  shared : list byte;
  framePayload : Z;
  maxCredits : Z;
  pending : gmap Z nat;
  chans : list chan;
  nextReqID : Z;
  releaseFns : gmap Z borrowed;
  nextToken : Z;
  closedCh : bool;
  recvErr : option cerr;
  released : list nat;
  nextBorrow : nat;
  sent : list sentmsg;
  recv : recv_pc;
  calls : list call;
}.

Definition newClient (mem : list byte) (fp mc : Z) : Client :=
  {| shared := mem; framePayload := fp; maxCredits := mc; pending := ∅; chans := [];
     nextReqID := 0; releaseFns := ∅; nextToken := 0; closedCh := false; recvErr := None;
     released := []; nextBorrow := 0; sent := []; recv := RLoop; calls := [] |}.

Definition upd_pending (c : Client) (p : gmap Z nat) (chs : list chan) : Client :=
  {| shared := shared c; framePayload := framePayload c; maxCredits := maxCredits c; pending := p;
     chans := chs; nextReqID := nextReqID c; releaseFns := releaseFns c; nextToken := nextToken c;
     closedCh := closedCh c; recvErr := recvErr c; released := released c;
     nextBorrow := nextBorrow c; sent := sent c; recv := recv c; calls := calls c |}.
Definition upd_req (c : Client) (n : Z) : Client :=
  {| shared := shared c; framePayload := framePayload c; maxCredits := maxCredits c;
     pending := pending c; chans := chans c; nextReqID := n; releaseFns := releaseFns c;
     nextToken := nextToken c; closedCh := closedCh c; recvErr := recvErr c;
     released := released c; nextBorrow := nextBorrow c; sent := sent c; recv := recv c;
     calls := calls c |}.
Definition upd_release (c : Client) (fns : gmap Z borrowed) (t : Z) (rel : list nat) : Client :=
  {| shared := shared c; framePayload := framePayload c; maxCredits := maxCredits c;
     pending := pending c; chans := chans c; nextReqID := nextReqID c; releaseFns := fns;
     nextToken := t; closedCh := closedCh c; recvErr := recvErr c; released := rel;
     nextBorrow := nextBorrow c; sent := sent c; recv := recv c; calls := calls c |}.
Definition upd_recv (c : Client) (e : option cerr) (r : recv_pc) : Client :=
  {| shared := shared c; framePayload := framePayload c; maxCredits := maxCredits c;
     pending := pending c; chans := chans c; nextReqID := nextReqID c;
     releaseFns := releaseFns c; nextToken := nextToken c; closedCh := closedCh c; recvErr := e;
     released := released c; nextBorrow := nextBorrow c; sent := sent c; recv := r;
     calls := calls c |}.
Definition upd_borrow (c : Client) (mem : list byte) (n : nat) : Client :=
  {| shared := mem; framePayload := framePayload c; maxCredits := maxCredits c;
     pending := pending c; chans := chans c; nextReqID := nextReqID c;
     releaseFns := releaseFns c; nextToken := nextToken c; closedCh := closedCh c;
     recvErr := recvErr c; released := released c; nextBorrow := n; sent := sent c;
     recv := recv c; calls := calls c |}.
Definition upd_sent (c : Client) (s : list sentmsg) : Client :=
  {| shared := shared c; framePayload := framePayload c; maxCredits := maxCredits c;
     pending := pending c; chans := chans c; nextReqID := nextReqID c;
     releaseFns := releaseFns c; nextToken := nextToken c; closedCh := closedCh c;
     recvErr := recvErr c; released := released c; nextBorrow := nextBorrow c; sent := s;
     recv := recv c; calls := calls c |}.
Definition upd_closed (c : Client) : Client :=
  {| shared := shared c; framePayload := framePayload c; maxCredits := maxCredits c;
     pending := pending c; chans := chans c; nextReqID := nextReqID c;
     releaseFns := releaseFns c; nextToken := nextToken c; closedCh := true;
     recvErr := recvErr c; released := released c; nextBorrow := nextBorrow c; sent := sent c;
     recv := recv c; calls := calls c |}.
Definition upd_calls (c : Client) (l : list call) : Client :=
  {| shared := shared c; framePayload := framePayload c; maxCredits := maxCredits c;
     pending := pending c; chans := chans c; nextReqID := nextReqID c;
     releaseFns := releaseFns c; nextToken := nextToken c; closedCh := closedCh c;
     recvErr := recvErr c; released := released c; nextBorrow := nextBorrow c; sent := sent c;
     recv := recv c; calls := l |}.

(** ** Pending requests *)

Definition setRecvErr (c : Client) (e : cerr) : Client :=
  match recvErr c with None => upd_recv c (Some e) (recv c) | Some _ => c end.

(** [ch <- res; close(ch)]: undefined when the channel is full or closed. *)
Definition send_close (chs : list chan) (ch : nat) (res : inboundResult) : option (list chan) :=
  match chs !! ch with
  | Some {| c_buf := None; c_closed := false |} => Some (<[ch := {| c_buf := Some res; c_closed := true |}]> chs)
  | _ => None
  end.

Definition nextRequestID (c : Client) : Z * Client :=
  let n := u64 (nextReqID c + 1) in (n, upd_req c n).

Definition registerPending (c : Client) (reqID : Z) : nat * Client :=
  let ch := length (chans c) in
  (ch, upd_pending c (<[reqID := ch]> (pending c)) (chans c ++ [{| c_buf := None; c_closed := false |}])).

Definition removePending (c : Client) (reqID : Z) : Client :=
  upd_pending c (delete reqID (pending c)) (chans c).

(** [deliver]: false when nobody waits for the id. *)
Definition deliver (c : Client) (reqID : Z) (res : inboundResult) : option (Client * bool) :=
  match pending c !! reqID with
  | None => Some (c, false)
  | Some ch =>
    chs ← send_close (chans c) ch res;
    Some (upd_pending c (delete reqID (pending c)) chs, true)
  end.

Definition error_result (e : cerr) : inboundResult :=
  {| ir_msg := zero_message; ir_borrowed := None; ir_err := Some e |}.

(** The loop of [failAllPending] over the pending channels, in the map's order. *)
Fixpoint fail_channels (chs : list chan) (l : list (Z * nat)) (e : cerr) : option (list chan) :=
  match l with
  | [] => Some chs
  | (_, ch) :: l' => chs' ← send_close chs ch (error_result e); fail_channels chs' l' e
  end.

Definition failAllPending (c : Client) (e : cerr) : option Client :=
  chs ← fail_channels (chans c) (map_to_list (pending c)) e;
  Some (upd_pending c ∅ chs).

(** ** Sending *)

(** What became of a serialised send: sent; not sent at all; (a PUT) failed after its
    control message; or sent although the caller's context ended first. *)
Inductive send_outcome :=
| Sent | NotSent (e : cerr) | SentInPart (e : cerr) | SentButErr (e : cerr).

Definition ack_message (n : Z) : Message :=
  {| Op := OpAck; ReqID := 0; Credits := 0; Ack := n; Bucket := ""; Key := ""; Size := 0; Max := 0;
     DataOffset := None; ErrText := "" |}.

Definition sendAck (c : Client) (n : Z) (ok : bool) : Client :=
  if ok then upd_sent c (sent c ++ [SCtl (ack_message n)]) else c.

(** [borrowed.Release()] *)
Definition release_frame (c : Client) (b : borrowed) : Client :=
  upd_release c (releaseFns c) (nextToken c) (released c ++ [b_id b]).

Definition release_ack (c : Client) (b : borrowed) (ok : bool) : Client :=
  sendAck (release_frame c b) 1 ok.

Definition slice (mem : list byte) (off size : Z) : list byte :=
  take (Z.to_nat size) (drop (Z.to_nat off) mem).

(** The message an operation sends, and the payload that follows it. *)
Definition request_of (c : Client) (o : op) (reqID : Z) : Message :=
  match o with
  | OHello =>
    {| Op := OpHelloReq; ReqID := reqID;
       Credits := computeSafeCredits (blen (shared c)) (connFramePayloadHint (framePayload c)) (maxCredits c);
       Ack := 0; Bucket := ""; Key := ""; Size := 0; Max := 0; DataOffset := None; ErrText := "" |}
  | OEnsure bucket =>
    {| Op := OpEnsureBucketReq; ReqID := reqID; Credits := 0; Ack := 0; Bucket := bucket; Key := "";
       Size := 0; Max := 0; DataOffset := None; ErrText := "" |}
  | OPut bucket key ref =>
    {| Op := OpPutReq; ReqID := reqID; Credits := 0; Ack := 0; Bucket := bucket; Key := key;
       Size := RefSize ref; Max := 0; DataOffset := Some (Offset ref); ErrText := "" |}
  | OGet bucket key off max =>
    {| Op := OpGetReq; ReqID := reqID; Credits := 0; Ack := 0; Bucket := bucket; Key := key;
       Size := 0; Max := max; DataOffset := Some off; ErrText := "" |}
  end.

Definition payload_of (c : Client) (o : op) : list sentmsg :=
  match o with
  | OPut _ _ ref => [SData (slice (shared c) (Offset ref) (RefSize ref)) (Offset ref)]
  | _ => []
  end.

(** ** Operations: up to the send *)

(** The checks of an operation before it registers its request. *)
Definition precheck (c : Client) (o : op) : option cerr :=
  match o with
  | OHello => None
  | OEnsure bucket => if String.eqb (TrimSpace bucket) "" then Some EEmptyName else None
  | OPut bucket key ref =>
    match validateRef (blen (shared c)) ref with
    | Some e => Some e
    | None => if String.eqb (TrimSpace bucket) "" || String.eqb (TrimSpace key) "" then Some EEmptyName else None
    end
  | OGet bucket key off max =>
    match validateRef (blen (shared c)) {| Offset := off; RefSize := max; token := 0 |} with
    | Some e => Some e
    | None => if String.eqb (TrimSpace bucket) "" || String.eqb (TrimSpace key) "" then Some EEmptyName else None
    end
  end.

Definition start_call (c : Client) (o : op) : Client :=
  match precheck c o with
  | Some e => upd_calls c (calls c ++ [CallDone (RErr e)])
  | None =>
    let '(reqID, c1) := nextRequestID c in
    let '(ch, c2) := registerPending c1 reqID in
    upd_calls c2 (calls c2 ++ [CallSend o reqID ch])
  end.

(** The public calls, up to their send. *)
Definition EnsureBucket (c : Client) (bucket : string) : Client := start_call c (OEnsure bucket).
Definition PutZeroCopy (c : Client) (bucket key : string) (ref : BufferRef) : Client :=
  start_call c (OPut bucket key ref).
Definition GetZeroCopy (c : Client) (bucket key : string) (targetOffset maxSize : Z) : Client :=
  start_call c (OGet bucket key targetOffset maxSize).

Definition SharedMemory (c : Client) : list byte := shared c.
Definition getRecvErr (c : Client) : option cerr := recvErr c.

Definition set_call (c : Client) (i : nat) (k : call) : Client := upd_calls c (<[i := k]> (calls c)).

(** [sendSerialized] returns. *)
Definition send_call (c : Client) (i : nat) (o : op) (reqID : Z) (ch : nat) (r : send_outcome) : Client :=
  match r with
  | Sent =>
    set_call (upd_sent c (sent c ++ SCtl (request_of c o reqID) :: payload_of c o)) i (CallWait o reqID ch)
  | NotSent e => set_call (removePending c reqID) i (CallDone (RErr e))
  | SentInPart e =>
    set_call (removePending (upd_sent c (sent c ++ [SCtl (request_of c o reqID)])) reqID) i (CallDone (RErr e))
  | SentButErr e =>
    set_call (removePending (upd_sent c (sent c ++ SCtl (request_of c o reqID) :: payload_of c o)) reqID) i
      (CallDone (RErr e))
  end.

(** ** Operations: from the result on *)

Definition registerRelease (c : Client) (b : borrowed) : Z * Client :=
  let t := u64 (nextToken c + 1) in
  (t, upd_release c (<[t := b]> (releaseFns c)) t (released c)).

(** [EnsureBucket] and [PutZeroCopy] on their response. *)
Definition finish_simple (msg : Message) : call_result :=
  if String.eqb (Op msg) OpRespOK then ROk
  else if String.eqb (Op msg) OpRespErr then
    RErr (ERemote (if String.eqb (ErrText msg) "" then "remote error" else ErrText msg))
  else RErr (EUnexpectedOp (Op msg)).

Definition finish_hello (msg : Message) : call_result :=
  if negb (String.eqb (Op msg) OpHelloResp) then RErr (EHello (Op msg))
  else if negb (String.eqb (ErrText msg) "") then RErr (EHelloFailed (ErrText msg))
  else ROk.

(** [GetZeroCopy] on its response; [ok] is whether its ack is sent. *)
Definition finish_get (c : Client) (maxSize : Z) (res : inboundResult) (ok : bool) : Client * call_result :=
  let msg := ir_msg res in
  if String.eqb (Op msg) OpRespErr then
    (c, RErr (ERemote (if String.eqb (ErrText msg) "" then "remote error" else ErrText msg)))
  else if negb (String.eqb (Op msg) OpGetMeta) then (c, RErr (EUnexpectedOp (Op msg)))
  else match ir_borrowed res with
  | None => (c, RErr (EUnexpectedOp (Op msg)))  (* not reached: a get_meta comes with its frame *)
  | Some b =>
    let payload := f_Payload (b_frame b) in
    if (Size msg <? 0) || (maxSize <? Size msg) then
      (release_ack c b ok, RErr (EGetSize (Size msg) maxSize))
    else if negb (blen payload =? Size msg) then
      (release_ack c b ok, RErr (EPayloadSize (blen payload) (Size msg)))
    else match DataOffset msg with
    | None => (release_ack c b ok, RErr EMissingOffset)
    | Some expectedOffset =>
      if (expectedOffset <? 0) || (blen (shared c) <? i64 (expectedOffset + Size msg)) then
        (release_ack c b ok, RErr (EReturnedOffset expectedOffset (Size msg)))
      else if negb (f_SharedOffset (b_frame b) =? expectedOffset) then
        (release_ack c b ok, RErr (EOffsetNotHonored expectedOffset (f_SharedOffset (b_frame b))))
      else
        let '(t, c1) := registerRelease c b in
        (c1, RRef {| Offset := expectedOffset; RefSize := Size msg; token := t |})
    end
  end.

Definition finish_call (c : Client) (o : op) (res : inboundResult) (ok : bool) : Client * call_result :=
  match o with
  | OHello => (c, finish_hello (ir_msg res))
  | OEnsure _ | OPut _ _ _ => (c, finish_simple (ir_msg res))
  | OGet _ _ _ max => finish_get c max res ok
  end.

(** Which arm of [waitResult]'s select is taken. *)
Inductive wait_arm := WResult | WCtx | WClosed.

(** [waitResult] and what follows it; [None] when the arm is not ready. *)
Definition wait_call (c : Client) (i : nat) (o : op) (reqID : Z) (ch : nat) (w : wait_arm) (ok : bool)
    : option Client :=
  match w with
  | WResult =>
    match chans c !! ch with
    | Some {| c_buf := Some res; c_closed := cl |} =>
      let c1 := upd_pending c (pending c) (<[ch := {| c_buf := None; c_closed := cl |}]> (chans c)) in
      match ir_err res with
      | Some e => Some (set_call c1 i (CallDone (RErr e)))
      | None => let '(c2, r) := finish_call c1 o res ok in Some (set_call c2 i (CallDone r))
      end
    | Some {| c_buf := None; c_closed := true |} =>
      Some (set_call c i (CallDone (RErr (default EChanClosed (getRecvErr c)))))
    | _ => None
    end
  | WCtx => Some (set_call (removePending c reqID) i (CallDone (RErr ECtx)))
  | WClosed =>
    if closedCh c then Some (set_call c i (CallDone (RErr (default EClosed (getRecvErr c))))) else None
  end.

(** ** The receive loop *)

(** The transport places a payload that has an offset in the shared region there. *)
Definition write_shared (mem : list byte) (f : frame) : list byte :=
  if (0 <=? f_SharedOffset f) && (f_SharedOffset f + blen (f_Payload f) <=? blen mem) then
    take (Z.to_nat (f_SharedOffset f)) mem ++ f_Payload f ++
    drop (Z.to_nat (f_SharedOffset f) + length (f_Payload f)) mem
  else mem.

Definition recv_fail (c : Client) (e : cerr) : option Client :=
  let c1 := setRecvErr c e in
  c2 ← failAllPending c1 e;
  Some (upd_recv c2 (recvErr c2) RDone).

Definition recv_control (c : Client) (r : option frame) : option Client :=
  match r with
  | None => recv_fail c ERecv
  | Some f =>
    match Decode (f_Payload f) with
    | Err _ => recv_fail c EDecode
    | Ok msg =>
      if String.eqb (Op msg) OpHelloResp || String.eqb (Op msg) OpRespOK || String.eqb (Op msg) OpRespErr then
        '(c1, _) ← deliver c (ReqID msg) {| ir_msg := msg; ir_borrowed := None; ir_err := None |};
        Some c1
      else if String.eqb (Op msg) OpGetMeta then Some (upd_recv c (recvErr c) (RBorrow msg))
      else Some c
    end
  end.

Definition recv_borrow (c : Client) (msg : Message) (r : option frame) (ok : bool) : option Client :=
  match r with
  | None => recv_fail c ERecv
  | Some f =>
    let b := {| b_id := nextBorrow c; b_frame := f |} in
    let c1 := upd_borrow (upd_recv c (recvErr c) RLoop) (write_shared (shared c) f) (S (nextBorrow c)) in
    '(c2, delivered) ← deliver c1 (ReqID msg) {| ir_msg := msg; ir_borrowed := Some b; ir_err := None |};
    Some (if delivered : bool then c2 else release_ack c2 b ok)
  end.

(** ** Release and Close *)

Definition Release (c : Client) (ref : BufferRef) (ok : bool) : Client :=
  if token ref =? 0 then c
  else
    let c1 := upd_release c (delete (token ref) (releaseFns c)) (nextToken c) (released c) in
    match releaseFns c !! token ref with
    | None => c1
    | Some b => release_ack c1 b ok
    end.

(** [Close]: every release function runs, then the closed channel is closed; [oks]
    says which acks are sent. *)
Fixpoint release_all (c : Client) (l : list (Z * borrowed)) (oks : list bool) : Client :=
  match l with
  | [] => c
  | (t, b) :: l' =>
    let c1 := release_ack c b (default false (head oks)) in
    release_all (upd_release c1 (delete t (releaseFns c1)) (nextToken c1) (released c1)) l' (tail oks)
  end.

Definition Close (c : Client) (oks : list bool) : Client :=
  if closedCh c then c else upd_closed (release_all c (map_to_list (releaseFns c)) oks).

(** ** Steps *)

Inductive label :=
| LStart (o : op)
| LSend (i : nat) (r : send_outcome)
| LWait (i : nat) (w : wait_arm) (ok : bool)
| LRecv (r : option frame)
| LBorrow (r : option frame) (ok : bool)
| LRelease (ref : BufferRef) (ok : bool)
| LClose (oks : list bool).

(** [Some None]: the step is not enabled; [None]: it would panic or block forever. *)
Definition exec (c : Client) (l : label) : option (option Client) :=
  match l with
  | LStart o => Some (Some (start_call c o))
  | LSend i r =>
    match calls c !! i with
    | Some (CallSend o reqID ch) => Some (Some (send_call c i o reqID ch r))
    | _ => Some None
    end
  | LWait i w ok =>
    match calls c !! i with
    | Some (CallWait o reqID ch) => Some (wait_call c i o reqID ch w ok)
    | _ => Some None
    end
  | LRecv r => match recv c with RLoop => Some <$> recv_control c r | _ => Some None end
  | LBorrow r ok =>
    match recv c with RBorrow msg => Some <$> recv_borrow c msg r ok | _ => Some None end
  | LRelease ref ok => Some (Some (Release c ref ok))
  | LClose oks => Some (Some (Close c oks))
  end.

(** Steps that are not enabled are skipped. *)
Fixpoint exec_all (c : Client) (ls : list label) : option Client :=
  match ls with
  | [] => Some c
  | l :: ls' => r ← exec c l; exec_all (default c r) ls'
  end.

(** ** Lemmas: channels *)

(** A pending request's channel is open and empty, and no two share one. *)
Record chans_ok (p : gmap Z nat) (chs : list chan) : Prop := {
  ok_open r ch : p !! r = Some ch -> chs !! ch = Some {| c_buf := None; c_closed := false |};
  ok_inj r1 r2 ch : p !! r1 = Some ch -> p !! r2 = Some ch -> r1 = r2;
}.

Lemma chans_ok_delete p chs r : chans_ok p chs -> chans_ok (delete r p) chs.
Proof.
  intros [Ho Hi]. constructor.
  - intros r' ch [_ H]%lookup_delete_Some. by apply (Ho r').
  - intros r1 r2 ch [_ H1]%lookup_delete_Some [_ H2]%lookup_delete_Some. by apply (Hi r1 r2 ch).
Qed.

Lemma chans_ok_register p chs r :
  chans_ok p chs ->
  chans_ok (<[r := length chs]> p) (chs ++ [{| c_buf := None; c_closed := false |}]).
Proof.
  intros [Ho Hi].
  assert (Hlt : forall r' ch, p !! r' = Some ch -> (ch < length chs)%nat).
  { intros r' ch Hp. by apply Ho, lookup_lt_Some in Hp. }
  constructor.
  - intros r' ch [[-> <-]|[_ Hp]]%lookup_insert_Some.
    + by rewrite list_lookup_middle.
    + rewrite lookup_app_l by (by apply (Hlt r')). by apply (Ho r').
  - intros r1 r2 ch [[<- <-]|[_ H1]]%lookup_insert_Some [[<- H2]|[_ H2]]%lookup_insert_Some; try done.
    + apply Hlt in H2. lia.
    + subst. apply Hlt in H1. lia.
    + by apply (Hi r1 r2 ch).
Qed.

Lemma send_close_ok chs ch res :
  chs !! ch = Some {| c_buf := None; c_closed := false |} ->
  send_close chs ch res = Some (<[ch := {| c_buf := Some res; c_closed := true |}]> chs).
Proof. intros H. unfold send_close. by rewrite H. Qed.

Lemma chans_ok_deliver p chs r ch x :
  chans_ok p chs -> p !! r = Some ch -> chans_ok (delete r p) (<[ch := x]> chs).
Proof.
  intros [Ho Hi] Hr. constructor.
  - intros r' ch' [Hne Hp]%lookup_delete_Some. rewrite list_lookup_insert_ne; [by apply (Ho r')|].
    intros ->. destruct Hne. by apply (Hi r r' ch').
  - intros r1 r2 ch' [_ H1]%lookup_delete_Some [_ H2]%lookup_delete_Some. by apply (Hi r1 r2 ch').
Qed.

Lemma fail_channels_ok l chs e :
  NoDup (snd <$> l) ->
  (forall r ch, (r, ch) ∈ l -> chs !! ch = Some {| c_buf := None; c_closed := false |}) ->
  exists chs', fail_channels chs l e = Some chs' /\ length chs' = length chs /\
  (forall r ch, (r, ch) ∈ l -> chs' !! ch = Some {| c_buf := Some (error_result e); c_closed := true |}) /\
  (forall ch, ch ∉ snd <$> l -> chs' !! ch = chs !! ch).
Proof.
  revert chs. induction l as [|[r ch] l IH]; intros chs; simpl.
  { intros _ _. exists chs. split; [done|]. split; [done|]. split; [by intros ?? ?%not_elem_of_nil|done]. }
  intros [Hch Hn]%NoDup_cons Hopen.
  assert (Hc : chs !! ch = Some {| c_buf := None; c_closed := false |}) by (apply (Hopen r); left).
  rewrite (send_close_ok _ _ _ Hc). simpl.
  destruct (IH (<[ch := {| c_buf := Some (error_result e); c_closed := true |}]> chs) Hn)
    as (chs' & Hf & Hlen & Hin & Hout).
  { intros r' ch' Hin. rewrite list_lookup_insert_ne; [apply (Hopen r'); by right|].
    intros ->. apply Hch, list_elem_of_fmap. by exists (r', ch'). }
  exists chs'. split; [done|]. rewrite length_insert in Hlen. split; [done|]. split.
  - intros r' ch' [[= -> ->]|Hin']%elem_of_cons; [|by apply (Hin r')].
    rewrite Hout by done. apply list_lookup_insert_eq. by apply lookup_lt_Some in Hc.
  - intros ch' Hni. rewrite not_elem_of_cons in Hni. destruct Hni as [Hne Hni].
    rewrite Hout by done. by rewrite list_lookup_insert_ne.
Qed.

Lemma pending_values_nodup p chs : chans_ok p chs -> NoDup (snd <$> map_to_list p).
Proof.
  intros [_ Hi]. apply NoDup_fmap_2_strong; [|apply NoDup_map_to_list].
  intros [r1 ch1] [r2 ch2] H1%elem_of_map_to_list H2%elem_of_map_to_list Heq. simpl in Heq. subst ch2.
  by rewrite (Hi r1 r2 ch1).
Qed.

(** [failAllPending] never blocks, and every caller that waited finds the error. *)
Lemma failAllPending_ok c e :
  chans_ok (pending c) (chans c) ->
  exists chs, failAllPending c e = Some (upd_pending c ∅ chs) /\ length chs = length (chans c) /\
  (forall r ch, pending c !! r = Some ch -> chs !! ch = Some {| c_buf := Some (error_result e); c_closed := true |}) /\
  (forall ch, (forall r, pending c !! r <> Some ch) -> chs !! ch = chans c !! ch).
Proof.
  intros Hok. unfold failAllPending.
  destruct (fail_channels_ok (map_to_list (pending c)) (chans c) e (pending_values_nodup _ _ Hok))
    as (chs & Hf & Hlen & Hin & Hout).
  { intros r ch Hp%elem_of_map_to_list. by apply (ok_open _ _ Hok r). }
  exists chs. rewrite Hf. split; [done|]. split; [done|]. split.
  - intros r ch Hp. apply (Hin r). by apply elem_of_map_to_list.
  - intros ch Hno. apply Hout. intros ([r ch'] & Hch & Hp)%list_elem_of_fmap.
    apply elem_of_map_to_list in Hp. simpl in Hch. subst. by apply (Hno r).
Qed.

Lemma deliver_ok c r res :
  chans_ok (pending c) (chans c) ->
  exists c1 b, deliver c r res = Some (c1, b) /\ chans_ok (pending c1) (chans c1) /\
  sent c1 = sent c /\ releaseFns c1 = releaseFns c /\ nextBorrow c1 = nextBorrow c /\
  released c1 = released c /\ shared c1 = shared c /\
  match pending c !! r with
  | None => b = false /\ c1 = c
  | Some ch => b = true /\ chans c1 = <[ch := {| c_buf := Some res; c_closed := true |}]> (chans c)
  end.
Proof.
  intros Hok. unfold deliver. destruct (pending c !! r) as [ch|] eqn:Hr; [|by exists c, false].
  rewrite (send_close_ok _ _ _ (ok_open _ _ Hok r ch Hr)). simpl. eexists _, true.
  split; [done|]. split; [|done]. simpl. by apply chans_ok_deliver.
Qed.

Lemma recv_fail_ok c e :
  chans_ok (pending c) (chans c) ->
  exists c1, recv_fail c e = Some c1 /\ pending c1 = ∅ /\ recv c1 = RDone /\
  sent c1 = sent c /\ releaseFns c1 = releaseFns c /\ nextBorrow c1 = nextBorrow c /\ calls c1 = calls c /\
  recvErr c1 = Some (default e (recvErr c)) /\
  (forall r ch, pending c !! r = Some ch ->
     chans c1 !! ch = Some {| c_buf := Some (error_result e); c_closed := true |}) /\
  (forall ch, (forall r, pending c !! r <> Some ch) -> chans c1 !! ch = chans c !! ch) /\
  length (chans c1) = length (chans c).
Proof.
  intros Hok. unfold recv_fail. set (c0 := setRecvErr c e).
  assert (Hs : pending c0 = pending c /\ chans c0 = chans c /\ sent c0 = sent c /\
    releaseFns c0 = releaseFns c /\ nextBorrow c0 = nextBorrow c /\ calls c0 = calls c /\
    recvErr c0 = Some (default e (recvErr c))).
  { unfold c0, setRecvErr. destruct (recvErr c) eqn:E; simpl; by rewrite ?E. }
  destruct Hs as (Hp & Hc & Hst & Hr & Hn & Hcl & He). rewrite <- Hp, <- Hc in Hok.
  destruct (failAllPending_ok c0 e Hok) as (chs & -> & Hlen & Hin & Hout). simpl.
  rewrite Hp, Hc in *. eexists. split; [reflexivity|]. simpl. split_and!; done.
Qed.

(** ** Lemmas: no step blocks or panics *)

Lemma finish_call_same c o res ok c' r :
  finish_call c o res ok = (c', r) ->
  pending c' = pending c /\ chans c' = chans c /\ calls c' = calls c /\ shared c' = shared c.
Proof.
  assert (Hack : forall b, pending (release_ack c b ok) = pending c /\ chans (release_ack c b ok) = chans c /\
    calls (release_ack c b ok) = calls c /\ shared (release_ack c b ok) = shared c).
  { intros b. unfold release_ack, sendAck. by destruct ok. }
  destruct o; simpl; try (by intros [= <- <-]). unfold finish_get, registerRelease.
  repeat case_match; intros; simplify_eq; try done; apply Hack.
Qed.

Lemma chans_ok_take p chs ch x :
  chans_ok p chs -> (forall r, p !! r <> Some ch) -> chans_ok p (<[ch := x]> chs).
Proof.
  intros [Ho Hi] Hno. constructor; [|done]. intros r ch' Hp.
  rewrite list_lookup_insert_ne; [by apply (Ho r)|]. intros ->. by apply (Hno r).
Qed.

Lemma not_pending p chs ch res cl :
  chans_ok p chs -> chs !! ch = Some {| c_buf := Some res; c_closed := cl |} -> forall r, p !! r <> Some ch.
Proof. intros Hok Hc r Hp. apply (ok_open _ _ Hok) in Hp. congruence. Qed.

Lemma release_all_same l c oks :
  pending (release_all c l oks) = pending c /\ chans (release_all c l oks) = chans c.
Proof.
  revert c oks. induction l as [|[t b] l IH]; intros c oks; simpl; [done|].
  destruct (IH (upd_release (release_ack c b (default false (head oks)))
    (delete t (releaseFns (release_ack c b (default false (head oks)))))
    (nextToken (release_ack c b (default false (head oks))))
    (released (release_ack c b (default false (head oks))))) (tail oks)) as [-> ->].
  simpl. unfold release_ack, sendAck. by destruct (default false (head oks)).
Qed.

Lemma exec_chans c l :
  chans_ok (pending c) (chans c) ->
  exists r, exec c l = Some r /\ chans_ok (pending (default c r)) (chans (default c r)).
Proof.
  intros Hok. destruct l as [o|i r|i w ok|r|r ok|ref ok|oks]; simpl.
  - eexists; split; [done|]. simpl. unfold start_call. destruct (precheck c o); [done|]. simpl.
    by apply chans_ok_register.
  - destruct (calls c !! i) as [[o reqID ch| |]|]; eexists; (split; [done|]); try done. simpl.
    destruct r; simpl; try done; by apply chans_ok_delete.
  - destruct (calls c !! i) as [[|o reqID ch|]|]; eexists; (split; [done|]); try done.
    unfold wait_call. destruct w; simpl.
    + destruct (chans c !! ch) as [[[res|] cl]|] eqn:Ech; [|by destruct cl|done].
      assert (Hok1 : chans_ok (pending c) (<[ch := {| c_buf := None; c_closed := cl |}]> (chans c)))
        by (eapply chans_ok_take; [done|by eapply not_pending]).
      destruct (ir_err res); [exact Hok1|].
      destruct (finish_call _ o res ok) as [c2 k] eqn:Ef.
      destruct (finish_call_same _ _ _ _ _ _ Ef) as (Hp & Hc & _). simpl. rewrite Hp, Hc. exact Hok1.
    + by apply chans_ok_delete.
    + by destruct (closedCh c).
  - destruct (recv c); try (eexists; split; [done|done]). unfold recv_control.
    assert (Hfail : forall e, exists r0, Some <$> recv_fail c e = Some r0 /\
      chans_ok (pending (default c r0)) (chans (default c r0))).
    { intros e. destruct (recv_fail_ok c e Hok) as (c1 & -> & Hp & _). exists (Some c1).
      split; [done|]. simpl. rewrite Hp. by constructor. }
    destruct r as [f|]; [|apply Hfail]. destruct (Decode _) as [msg|]; [|apply Hfail].
    destruct (_ || _).
    { destruct (deliver_ok c (ReqID msg) {| ir_msg := msg; ir_borrowed := None; ir_err := None |} Hok)
        as (c1 & b & -> & Hok1 & _). exists (Some c1). done. }
    destruct (String.eqb _ _); eexists; (split; [done|]); done.
  - destruct (recv c) as [|msg|]; try (eexists; split; [done|done]). unfold recv_borrow.
    destruct r as [f|].
    + set (c1 := upd_borrow _ _ _). assert (Hok1 : chans_ok (pending c1) (chans c1)) by done.
      destruct (deliver_ok c1 (ReqID msg) {| ir_msg := msg;
        ir_borrowed := Some {| b_id := nextBorrow c; b_frame := f |}; ir_err := None |} Hok1)
        as (c2 & b & -> & Hok2 & _). simpl. eexists. split; [done|]. simpl.
      destruct b; [done|]. unfold release_ack, sendAck. by destruct ok.
    + destruct (recv_fail_ok c ERecv Hok) as (c1 & -> & Hp & _). exists (Some c1).
      split; [done|]. simpl. rewrite Hp. by constructor.
  - eexists; split; [done|]. simpl. unfold Release. destruct (token ref =? 0); [done|].
    destruct (releaseFns c !! token ref); [|done]. unfold release_ack, sendAck. by destruct ok.
  - eexists; split; [done|]. simpl. unfold Close. destruct (closedCh c); [done|]. simpl.
    by destruct (release_all_same (map_to_list (releaseFns c)) c oks) as [-> ->].
Qed.

(** ** Lemmas: acknowledgements *)

(** The credits a sent message returns, and the frames a channel holds. *)
Definition acks (s : sentmsg) : Z :=
  match s with SCtl m => if String.eqb (Op m) OpAck then Ack m else 0 | SData _ _ => 0 end.
Definition holding (ch : chan) : Z :=
  match c_buf ch with Some {| ir_borrowed := Some _ |} => 1 | _ => 0 end.

Definition owed (c : Client) : Z :=
  zsum acks (sent c) + Z.of_nat (size (releaseFns c)) + zsum holding (chans c).

Definition acks_ok (c : Client) : Prop := owed c <= Z.of_nat (nextBorrow c).

Lemma holding_nonneg ch : 0 <= holding ch.
Proof. unfold holding. repeat case_match; lia. Qed.

Lemma sendAck_acks c ok : zsum acks (sent (sendAck c 1 ok)) <= zsum acks (sent c) + 1.
Proof. unfold sendAck. destruct ok; simpl; [rewrite zsum_app; simpl; lia|lia]. Qed.

Lemma release_ack_owed c b ok :
  owed (release_ack c b ok) <= owed c + 1 /\ nextBorrow (release_ack c b ok) = nextBorrow c /\
  releaseFns (release_ack c b ok) = releaseFns c.
Proof.
  unfold owed, release_ack, sendAck. destruct ok; simpl; [rewrite zsum_app; simpl|];
    (split; [lia|done]).
Qed.

Lemma request_acks c o reqID : acks (SCtl (request_of c o reqID)) = 0.
Proof. by destruct o. Qed.

Lemma payload_acks c o : zsum acks (payload_of c o) = 0.
Proof. by destruct o. Qed.

Lemma size_insert_le (m : gmap Z borrowed) t b : (size (<[t := b]> m) <= size m + 1)%nat.
Proof. rewrite map_size_insert. destruct (m !! t); unfold id; lia. Qed.

Lemma size_delete_in (m : gmap Z borrowed) t b : m !! t = Some b -> (size (delete t m) + 1 = size m)%nat.
Proof.
  intros Ht. rewrite map_size_delete, Ht.
  assert (size m <> 0%nat) by (apply map_size_ne_0_lookup; eauto). lia.
Qed.

Lemma finish_call_owed c o res ok c' r :
  finish_call c o res ok = (c', r) ->
  owed c' <= owed c + (match ir_borrowed res with Some _ => 1 | None => 0 end) /\ nextBorrow c' = nextBorrow c.
Proof.
  assert (H0 : 0 <= match ir_borrowed res with Some _ => 1 | None => 0 end) by (case_match; lia).
  destruct o; simpl; try (by intros [= <- <-]; split; [lia|]). unfold finish_get.
  destruct (String.eqb _ OpRespErr); [intros [= <- <-]; split; [lia|done]|].
  destruct (negb _); [intros [= <- <-]; split; [lia|done]|].
  destruct (ir_borrowed res) as [b|]; [|intros [= <- <-]; split; [lia|done]].
  destruct (release_ack_owed c b ok) as (Ho & Hn & _).
  destruct (_ || _); [by intros [= <- <-]|]. destruct (negb _); [by intros [= <- <-]|].
  destruct (DataOffset _); [|by intros [= <- <-]].
  destruct (_ || _); [by intros [= <- <-]|]. destruct (negb _); [by intros [= <- <-]|].
  intros [= <- <-]. unfold owed. simpl. split; [|done].
  pose proof (size_insert_le (releaseFns c) (u64 (nextToken c + 1)) b). lia.
Qed.

Lemma release_all_owed l c oks :
  NoDup (fst <$> l) -> (forall t b, (t, b) ∈ l -> releaseFns c !! t = Some b) ->
  owed (release_all c l oks) <= owed c /\ nextBorrow (release_all c l oks) = nextBorrow c.
Proof.
  revert c oks. induction l as [|[t b] l IH]; intros c oks; simpl; [done|].
  intros [Ht Hn]%NoDup_cons Hin. set (ok := default false (head oks)).
  destruct (release_ack_owed c b ok) as (Ho & Hb & Hf).
  set (c1 := release_ack c b ok) in *.
  assert (Htb : releaseFns c !! t = Some b) by (apply Hin; left).
  destruct (IH (upd_release c1 (delete t (releaseFns c1)) (nextToken c1) (released c1)) (tail oks) Hn)
    as [H1 H2].
  { intros t' b' Hin'. simpl. rewrite Hf, lookup_delete_ne; [apply Hin; by right|].
    intros ->. apply Ht, list_elem_of_fmap. by exists (t', b'). }
  rewrite H2. split; [|done]. pose proof (size_delete_in _ _ _ Htb) as Hsz. rewrite <- Hf in Hsz.
  assert (owed (upd_release c1 (delete t (releaseFns c1)) (nextToken c1) (released c1)) + 1 = owed c1).
  { unfold owed. simpl. lia. }
  lia.
Qed.

Lemma fail_channels_holding l chs e chs' :
  fail_channels chs l e = Some chs' -> zsum holding chs' = zsum holding chs.
Proof.
  revert chs. induction l as [|[r ch] l IH]; intros chs; simpl; [by intros [= ->]|].
  unfold send_close. destruct (chs !! ch) as [[[|] [|]]|] eqn:E; simpl; try done.
  intros Hf. rewrite (IH _ Hf), (zsum_insert _ _ _ _ _ E).
  change (holding {| c_buf := Some (error_result e); c_closed := true |}) with 0.
  change (holding {| c_buf := None; c_closed := false |}) with 0. lia.
Qed.

Lemma recv_fail_owed c e c' :
  recv_fail c e = Some c' -> owed c' = owed c /\ nextBorrow c' = nextBorrow c.
Proof.
  unfold recv_fail, failAllPending. set (c0 := setRecvErr c e).
  assert (Hs : sent c0 = sent c /\ releaseFns c0 = releaseFns c /\ chans c0 = chans c /\ nextBorrow c0 = nextBorrow c).
  { unfold c0, setRecvErr. by destruct (recvErr c). }
  destruct Hs as (H1 & H2 & H3 & H4).
  destruct (fail_channels _ _ _) as [chs|] eqn:Ef; simpl; [|done]. intros [= <-].
  unfold owed. simpl. apply fail_channels_holding in Ef. by rewrite Ef, H1, H2, H3, H4.
Qed.

Lemma deliver_owed c r res c' b :
  deliver c r res = Some (c', b) ->
  owed c' = owed c + (if b then holding {| c_buf := Some res; c_closed := true |} else 0) /\
  nextBorrow c' = nextBorrow c.
Proof.
  unfold deliver. destruct (pending c !! r) as [ch|]; [|intros [= <- <-]; split; [lia|done]].
  unfold send_close. destruct (chans c !! ch) as [[[|] [|]]|] eqn:E; simpl; try done.
  intros [= <- <-]. unfold owed. cbn [sent releaseFns chans upd_pending nextBorrow].
  rewrite (zsum_insert _ _ _ _ _ E). split; [|done].
  change (holding {| c_buf := None; c_closed := false |}) with 0. lia.
Qed.

Lemma start_call_owed c o : owed (start_call c o) = owed c /\ nextBorrow (start_call c o) = nextBorrow c.
Proof.
  unfold start_call. destruct (precheck c o); [done|]. unfold owed. simpl. rewrite zsum_app. cbn [zsum].
  change (holding {| c_buf := None; c_closed := false |}) with 0. split; [lia|done].
Qed.

Lemma send_call_owed c i o reqID ch r :
  owed (send_call c i o reqID ch r) = owed c /\ nextBorrow (send_call c i o reqID ch r) = nextBorrow c.
Proof.
  unfold owed. destruct r; simpl; rewrite ?zsum_app; cbn [zsum];
    rewrite ?request_acks, ?payload_acks; split; (done || lia).
Qed.

Lemma wait_call_owed c i o reqID ch w ok c' :
  wait_call c i o reqID ch w ok = Some c' -> owed c' <= owed c /\ nextBorrow c' = nextBorrow c.
Proof.
  unfold wait_call. destruct w.
  - destruct (chans c !! ch) as [[[res|] cl]|] eqn:Ech; [|destruct cl; [by intros [= <-]|done]|done].
    set (c1 := upd_pending _ _ _).
    assert (H1 : owed c1 + (match ir_borrowed res with Some _ => 1 | None => 0 end) = owed c).
    { unfold owed, c1. cbn [sent releaseFns chans upd_pending]. rewrite (zsum_insert _ _ _ _ _ Ech).
      assert (holding {| c_buf := Some res; c_closed := cl |} =
        match ir_borrowed res with Some _ => 1 | None => 0 end) as -> by (by destruct res as [? [] ?]).
      change (holding {| c_buf := None; c_closed := cl |}) with 0. lia. }
    destruct (ir_err res) as [e|].
    + intros [= <-]. change (owed (set_call c1 i (CallDone (RErr e)))) with (owed c1).
      split; [|done]. case_match; lia.
    + destruct (finish_call c1 o res ok) as [c2 k] eqn:Ef. intros [= <-].
      destruct (finish_call_owed _ _ _ _ _ _ Ef) as [H2 H3].
      change (owed (set_call c2 i (CallDone k))) with (owed c2). split; [lia|]. simpl. by rewrite H3.
  - by intros [= <-].
  - destruct (closedCh c); [by intros [= <-]|done].
Qed.

Lemma exec_acks c l r :
  exec c l = Some r -> acks_ok c -> acks_ok (default c r).
Proof.
  unfold acks_ok. intros Hex Hc. destruct l as [o|i s|i w ok|f|f ok|ref ok|oks]; simpl in Hex.
  - injection Hex as <-. simpl. destruct (start_call_owed c o) as [-> ->]. done.
  - destruct (calls c !! i) as [[o reqID ch| |]|]; injection Hex as <-; try done. simpl.
    destruct (send_call_owed c i o reqID ch s) as [-> ->]. done.
  - destruct (calls c !! i) as [[|o reqID ch|]|]; injection Hex as <-; try done.
    destruct (wait_call c i o reqID ch w ok) as [c'|] eqn:Ew; [|done]. simpl.
    destruct (wait_call_owed _ _ _ _ _ _ _ _ Ew) as [Ho ->]. lia.
  - destruct (recv c); try (by injection Hex as <-). unfold recv_control in Hex.
    destruct f as [f|]; [|destruct (recv_fail c ERecv) as [c'|] eqn:Ef; [|done]; injection Hex as <-;
      destruct (recv_fail_owed _ _ _ Ef) as [Ho Hn]; simpl; by rewrite Ho, Hn].
    destruct (Decode _) as [msg|]; [|destruct (recv_fail c EDecode) as [c'|] eqn:Ef; [|done];
      injection Hex as <-; destruct (recv_fail_owed _ _ _ Ef) as [Ho Hn]; simpl; by rewrite Ho, Hn].
    destruct (_ || _).
    + destruct (deliver c _ _) as [[c' b]|] eqn:Ed; [|done]. injection Hex as <-. simpl.
      destruct (deliver_owed _ _ _ _ _ Ed) as [-> ->]. unfold holding; simpl. destruct b; lia.
    + destruct (String.eqb _ _); by injection Hex as <-.
  - destruct (recv c) as [|msg|]; try (by injection Hex as <-). unfold recv_borrow in Hex.
    destruct f as [f|]; [|destruct (recv_fail c ERecv) as [c'|] eqn:Ef; [|done]; injection Hex as <-;
      destruct (recv_fail_owed _ _ _ Ef) as [Ho Hn]; simpl; by rewrite Ho, Hn].
    set (c1 := upd_borrow _ _ _) in Hex. destruct (deliver c1 _ _) as [[c2 b]|] eqn:Ed; [|done].
    injection Hex as <-. simpl. destruct (deliver_owed _ _ _ _ _ Ed) as [Ho Hn].
    change (owed c1) with (owed c) in Ho. change (nextBorrow c1) with (S (nextBorrow c)) in Hn.
    destruct b; [unfold holding in Ho; simpl in Ho; lia|].
    destruct (release_ack_owed c2 {| b_id := nextBorrow c; b_frame := f |} ok) as (Ho' & -> & _). lia.
  - injection Hex as <-. simpl. unfold Release. destruct (token ref =? 0); [done|].
    destruct (releaseFns c !! token ref) as [b|] eqn:Et.
    + set (c1 := upd_release _ _ _ _). destruct (release_ack_owed c1 b ok) as (Ho & -> & _).
      pose proof (size_delete_in _ _ _ Et) as Hsz.
      assert (owed c1 + 1 = owed c) by (unfold owed; simpl; lia). simpl. lia.
    + simpl. unfold owed in *. simpl. by rewrite delete_id.
  - injection Hex as <-. simpl. unfold Close. destruct (closedCh c); [done|].
    destruct (release_all_owed (map_to_list (releaseFns c)) c oks) as [Ho Hn].
    + apply NoDup_fst_map_to_list.
    + intros t b. by rewrite elem_of_map_to_list.
    + change (owed (upd_closed ?x)) with (owed x). unfold owed in *. simpl. lia.
Qed.

(** ** Lemmas: the shared region *)

Lemma write_shared_slice mem f :
  0 <= f_SharedOffset f -> f_SharedOffset f + blen (f_Payload f) <= blen mem ->
  slice (write_shared mem f) (f_SharedOffset f) (blen (f_Payload f)) = f_Payload f /\
  blen (write_shared mem f) = blen mem.
Proof.
  intros H0 H1. unfold write_shared, slice, blen in *.
  rewrite (proj2 (Z.leb_le _ _)) by done. rewrite (proj2 (Z.leb_le _ _)) by done. simpl.
  set (o := Z.to_nat (f_SharedOffset f)). rewrite Nat2Z.id.
  assert (Hlen : length (take o mem) = o) by (rewrite length_take; lia). split.
  - rewrite drop_app_le by lia. rewrite drop_ge by lia. simpl. by rewrite take_app_length.
  - rewrite !length_app, length_drop, Hlen. lia.
Qed.

Lemma exec_all_inv (P : Client -> Prop) c ls :
  (forall c l, P c -> exists r, exec c l = Some r /\ P (default c r)) -> P c ->
  exists c', exec_all c ls = Some c' /\ P c'.
Proof.
  intros Hstep. revert c. induction ls as [|l ls IH]; intros c Hc; simpl; [by exists c|].
  destruct (Hstep c l Hc) as (r & -> & Hr). simpl. by apply IH.
Qed.

Lemma get_places c i bucket key tgt max reqID ch msg f :
  chans_ok (pending c) (chans c) -> recv c = RBorrow msg ->
  calls c !! i = Some (CallWait (OGet bucket key tgt max) reqID ch) -> pending c !! reqID = Some ch ->
  Op msg = OpGetMeta -> ReqID msg = reqID -> DataOffset msg = Some (f_SharedOffset f) ->
  Size msg = blen (f_Payload f) -> blen (f_Payload f) <= max ->
  0 <= f_SharedOffset f -> f_SharedOffset f + blen (f_Payload f) <= blen (shared c) ->
  blen (shared c) < 2 ^ 63 ->
  exists c' t, exec_all c [LBorrow (Some f) true; LWait i WResult true] = Some c' /\
  calls c' !! i = Some (CallDone (RRef {| Offset := f_SharedOffset f; RefSize := blen (f_Payload f); token := t |})) /\
  slice (shared c') (f_SharedOffset f) (blen (f_Payload f)) = f_Payload f /\
  releaseFns c' !! t = Some {| b_id := nextBorrow c; b_frame := f |} /\
  sent c' = sent c /\ released c' = released c /\ t = u64 (nextToken c + 1).
Proof.
  intros Hok Hr Hcall Hp Hop Hreq Hoff Hsize Hmax H0 H1 Hfit. subst reqID.
  destruct (write_shared_slice (shared c) f H0 H1) as [Hsl Hbl].
  pose proof (blen_nonneg (f_Payload f)) as Hpos.
  pose proof (ok_open _ _ Hok _ _ Hp) as Hopen.
  assert (Hlt : (ch < length (chans c))%nat) by (by apply lookup_lt_Some in Hopen).
  assert (Hi : (i < length (calls c))%nat) by (by apply lookup_lt_Some in Hcall).
  cbn [exec_all exec]. rewrite Hr. unfold recv_borrow, deliver. cbn [pending chans upd_borrow upd_recv].
  rewrite Hp, (send_close_ok _ _ _ Hopen). simpl. rewrite Hcall. simpl.
  rewrite list_lookup_insert_eq by done. simpl. unfold finish_get. simpl.
  rewrite Hop, Hsize, Hoff, Hbl. simpl.
  rewrite (proj2 (Z.ltb_ge _ 0)) by done. rewrite (proj2 (Z.ltb_ge max _)) by done. simpl.
  rewrite Z.eqb_refl. simpl. rewrite (proj2 (Z.ltb_ge (f_SharedOffset f) 0)) by done.
  rewrite i64_id by lia. rewrite (proj2 (Z.ltb_ge (blen (shared c)) _)) by done. simpl.
  rewrite Z.eqb_refl. simpl. eexists _, _. split; [reflexivity|]. simpl.
  rewrite list_lookup_insert_eq by done. split; [done|]. split; [done|].
  split; [by rewrite lookup_insert_eq|done].
Qed.

(** ** Properties *)

(** C21: no step of the client can panic or block on a result channel: on every
    sequence of calls, results, failures, releases and closes, each pending request's
    channel is open and empty when it is sent to, so each channel is sent to at most
    once. *)
Theorem client_never_sticks mem fp mc ls :
  exists c, exec_all (newClient mem fp mc) ls = Some c /\ chans_ok (pending c) (chans c).
Proof.
  apply (exec_all_inv (fun c => chans_ok (pending c) (chans c))).
  - intros c l Hc. by apply exec_chans.
  - by constructor.
Qed.

(** C26: the client never returns more credits than the data frames it has received:
    acks sent, references not yet released and results not yet taken together stay
    within the frames borrowed from the transport. *)
Theorem acks_within_frames mem fp mc ls c :
  exec_all (newClient mem fp mc) ls = Some c ->
  zsum acks (sent c) + Z.of_nat (size (releaseFns c)) + zsum holding (chans c) <= Z.of_nat (nextBorrow c).
Proof.
  intros Hex. destruct (exec_all_inv (fun c => chans_ok (pending c) (chans c) /\ acks_ok c)
    (newClient mem fp mc) ls) as (c' & Hex' & _ & Ha).
  - intros c1 l [H1 H2]. destruct (exec_chans c1 l H1) as (r & Hr & Hok). exists r.
    split; [done|]. split; [done|]. by apply (exec_acks c1 l).
  - split; [by constructor|]. unfold acks_ok, owed; simpl. rewrite map_size_empty. simpl. lia.
  - rewrite Hex in Hex'. injection Hex' as <-. exact Ha.
Qed.

(** A GET whose meta and data arrive as announced, within the region and the
    caller's limit, returns a reference to exactly the bytes of the data, which are in
    the shared region at that place, and registers its release. *)
Theorem get_places_object c i bucket key tgt max reqID ch msg f :
  chans_ok (pending c) (chans c) -> recv c = RBorrow msg ->
  calls c !! i = Some (CallWait (OGet bucket key tgt max) reqID ch) -> pending c !! reqID = Some ch ->
  Op msg = OpGetMeta -> ReqID msg = reqID -> DataOffset msg = Some (f_SharedOffset f) ->
  Size msg = blen (f_Payload f) -> blen (f_Payload f) <= max ->
  0 <= f_SharedOffset f -> f_SharedOffset f + blen (f_Payload f) <= blen (shared c) ->
  blen (shared c) < 2 ^ 63 ->
  exists c' t, exec_all c [LBorrow (Some f) true; LWait i WResult true] = Some c' /\
  calls c' !! i = Some (CallDone (RRef {| Offset := f_SharedOffset f; RefSize := blen (f_Payload f); token := t |})) /\
  slice (shared c') (f_SharedOffset f) (blen (f_Payload f)) = f_Payload f /\
  releaseFns c' !! t = Some {| b_id := nextBorrow c; b_frame := f |} /\
  sent c' = sent c /\ released c' = released c /\ t = u64 (nextToken c + 1).
Proof. apply get_places. Qed.

(** When the receive loop fails, every request in flight gets the error: its
    caller's wait returns, and no request stays pending. *)
Theorem recv_failure_wakes_callers c r i o reqID ch ok :
  chans_ok (pending c) (chans c) -> recv c = RLoop ->
  match r with None => True | Some f => exists e, Decode (f_Payload f) = Err e end ->
  calls c !! i = Some (CallWait o reqID ch) -> pending c !! reqID = Some ch ->
  exists c' c'' e, exec c (LRecv r) = Some (Some c') /\ pending c' = ∅ /\ recv c' = RDone /\
  exec c' (LWait i WResult ok) = Some (Some c'') /\ calls c'' !! i = Some (CallDone (RErr e)).
Proof.
  intros Hok Hr Hrd Hcall Hp.
  assert (Hf : exists e, recv_control c r = recv_fail c e).
  { unfold recv_control. destruct r as [f|]; [|by exists ERecv]. destruct Hrd as [e ->]. by exists EDecode. }
  destruct Hf as [e Hf].
  destruct (recv_fail_ok c e Hok) as (c' & Hc' & Hpe & Hrd' & _ & _ & _ & Hcl & _ & Hin & _).
  assert (Hi : (i < length (calls c))%nat) by (by apply lookup_lt_Some in Hcall).
  exists c'. simpl. rewrite Hr, Hf, Hc', Hcl, Hcall. simpl. rewrite (Hin _ _ Hp). simpl.
  eexists _, e. split; [done|]. split; [done|]. split; [done|]. split; [reflexivity|].
  simpl. rewrite Hcl. by apply list_lookup_insert_eq.
Qed.

(** Releasing a reference returns its frame and one credit, once: releasing it
    again, or releasing a reference that has no token, changes nothing. *)
Theorem release_once c ref b ok ok' :
  token ref <> 0 -> releaseFns c !! token ref = Some b ->
  let c1 := Release c ref ok in
  released c1 = released c ++ [b_id b] /\
  sent c1 = sent c ++ (if ok then [SCtl (ack_message 1)] else []) /\
  Release c1 ref ok' = c1.
Proof.
  intros Ht Hb. unfold Release. apply Z.eqb_neq in Ht. rewrite Ht, Hb. simpl.
  unfold release_ack, sendAck.
  destruct ok; simpl; rewrite lookup_delete_eq; unfold upd_release, upd_sent; simpl;
    rewrite delete_delete_eq, ?app_nil_r; done.
Qed.

(** A reference is accepted exactly when it lies in the region, with no gap left
    by the overflow of its end. *)
Theorem validateRef_exact n ref :
  0 <= n < 2 ^ 63 -> - 2 ^ 63 <= Offset ref < 2 ^ 63 -> - 2 ^ 63 <= RefSize ref < 2 ^ 63 ->
  validateRef n ref = None <-> 0 <= Offset ref /\ 0 <= RefSize ref /\ Offset ref + RefSize ref <= n.
Proof.
  intros Hn Ho Hs. unfold validateRef, ref_end.
  destruct (Offset ref <? 0) eqn:E1; bool_facts; [split; [done|lia]|].
  destruct (RefSize ref <? 0) eqn:E2; bool_facts; simpl; [split; [done|lia]|].
  destruct (decide (Offset ref + RefSize ref < 2 ^ 63)) as [Hlt|Hge].
  - rewrite i64_id by lia. rewrite (proj2 (Z.ltb_ge _ (Offset ref))) by lia. simpl.
    destruct (n <? _) eqn:E3; bool_facts; split; (done || lia).
  - assert (Hw : i64 (Offset ref + RefSize ref) = Offset ref + RefSize ref - 2 ^ 64).
    { unfold i64. replace (Offset ref + RefSize ref + 2 ^ 63)
        with ((Offset ref + RefSize ref - 2 ^ 63) + 1 * 2 ^ 64) by lia.
      rewrite Z.mod_add by lia. rewrite Z.mod_small; lia. }
    rewrite Hw. rewrite (proj2 (Z.ltb_lt _ (Offset ref))) by lia. simpl. split; [done|lia].
Qed.

(** The credits of the hello are at least one, at most the configured maximum, and
    that many frames fit the shared region unless it is one. *)
Theorem safe_credits_bounds sharedLen frameCap mc :
  0 <= sharedLen < 2 ^ 63 -> - 2 ^ 63 <= frameCap < 2 ^ 63 ->
  let n := computeSafeCredits sharedLen frameCap mc in
  1 <= n /\ n <= (if mc <=? 0 then defaultMaxCredits else mc) /\
  (n = 1 \/ n * (if frameCap <=? 0 then 64 * 1024 else frameCap) <= sharedLen).
Proof.
  intros Hs Hf. unfold computeSafeCredits, defaultMaxCredits.
  set (fc := if frameCap <=? 0 then 64 * 1024 else frameCap).
  set (m := if mc <=? 0 then 64 else mc).
  assert (Hfc : 0 < fc) by (unfold fc; destruct (frameCap <=? 0) eqn:E; bool_facts; lia).
  assert (Hm : 0 < m) by (unfold m; destruct (mc <=? 0) eqn:E; bool_facts; lia).
  set (k1 := if i64 (fc * 8) <? _ then _ else _). set (k2 := if _ <? k1 then _ else _).
  set (k3 := if _ <? k2 then _ else _). set (k4 := if k3 <? fc then _ else _).
  assert (Hk4 : fc <= k4) by (unfold k4; destruct (k3 <? fc) eqn:E; bool_facts; lia).
  clearbody k4. pose proof (Z.quot_pos sharedLen k4 ltac:(lia) ltac:(lia)) as Hq.
  pose proof (Z.mul_quot_le sharedLen k4 ltac:(lia) ltac:(lia)) as Hqm.
  destruct (Z.quot sharedLen k4 <? 1) eqn:E1; bool_facts.
  - rewrite (proj2 (Z.ltb_ge m 1)) by lia. lia.
  - destruct (m <? Z.quot sharedLen k4) eqn:E2; bool_facts; split; [lia| |lia|]; (split; [lia|]); right; nia.
Qed.

(** Every timeout of the client is positive: its own value, the legacy request
    timeout, or the default, in this order. *)
Theorem resolveTimeouts_positive cfg :
  let t := resolveTimeouts cfg in
  0 < connect t /\ 0 < control t /\ 0 < data t /\
  (0 < ConnectTimeout cfg -> connect t = ConnectTimeout cfg) /\
  (ConnectTimeout cfg <= 0 -> 0 < RequestTimeout cfg -> connect t = RequestTimeout cfg) /\
  (0 < ControlTimeout cfg -> control t = ControlTimeout cfg) /\
  (0 < DataTimeout cfg -> data t = DataTimeout cfg).
Proof.
  unfold resolveTimeouts, defaultConnectTimeout, defaultControlTimeout, defaultDataTimeout. simpl.
  assert (Hb : forall x, (x <=? 0) = true /\ x <= 0 \/ (x <=? 0) = false /\ 0 < x).
  { intros x. destruct (x <=? 0) eqn:E; bool_facts; lia. }
  destruct (Hb (RequestTimeout cfg)) as [[Hr ?]|[Hr ?]], (Hb (ConnectTimeout cfg)) as [[Hc ?]|[Hc ?]],
    (Hb (ControlTimeout cfg)) as [[Hk ?]|[Hk ?]], (Hb (DataTimeout cfg)) as [[Hd ?]|[Hd ?]];
    rewrite ?Hr, ?Hc, ?Hk, ?Hd; simpl; rewrite ?Hr, ?Hc, ?Hk, ?Hd; simpl; split_and!; lia.
Qed.

(** A GET whose context ends after its result was delivered loses the frame: the
    caller leaves with the context's error, nothing is released or acknowledged, and
    the frame stays in a channel that no request refers to. *)
Theorem cancelled_get_leaks_frame c i o reqID ch res b cl :
  chans_ok (pending c) (chans c) ->
  calls c !! i = Some (CallWait o reqID ch) ->
  chans c !! ch = Some {| c_buf := Some res; c_closed := cl |} -> ir_borrowed res = Some b ->
  exists c', exec c (LWait i WCtx true) = Some (Some c') /\
  calls c' !! i = Some (CallDone (RErr ECtx)) /\
  released c' = released c /\ sent c' = sent c /\ releaseFns c' = releaseFns c /\
  chans c' !! ch = Some {| c_buf := Some res; c_closed := cl |} /\
  (forall r, pending c' !! r <> Some ch).
Proof.
  intros Hok Hcall Hch Hb. eexists. simpl. rewrite Hcall. simpl. split; [done|].
  assert (Hi : (i < length (calls c))%nat) by (by apply lookup_lt_Some in Hcall). simpl.
  rewrite list_lookup_insert_eq by done. split_and!; try done.
  intros r [_ Hp]%lookup_delete_Some. by apply (not_pending _ _ _ _ _ Hok Hch r).
Qed.

(** ** Witnesses *)

Definition demo_run (ls : list label) : Client :=
  default (newClient [] 0 0) (exec_all (newClient (replicate 16 x00) 0 4) ls).

Lemma demo_run_ok ls : chans_ok (pending (demo_run ls)) (chans (demo_run ls)).
Proof.
  unfold demo_run.
  destruct (exec_all_inv (fun c => chans_ok (pending c) (chans c)) (newClient (replicate 16 x00) 0 4) ls)
    as (c & -> & Hc); [intros c l Hc; by apply exec_chans|by constructor|exact Hc].
Qed.

Definition demo_data : frame := {| f_Payload := bytes_of_string "hello"; f_SharedOffset := 4 |}.
Definition demo_meta : Message := ZcopyServer.get_meta 1 5 4.
Definition demo_meta_frame : frame :=
  {| f_Payload := match Encode demo_meta with Ok b => b | Err _ => [] end; f_SharedOffset := -1 |}.
Definition demo_get : list label :=
  [LStart (OGet "b" "k" 4 8); LSend 0 Sent; LRecv (Some demo_meta_frame)].
Definition demo_got : list label := demo_get ++ [LBorrow (Some demo_data) true].

Lemma acks_within_frames_witness :
  exists c, exec_all (newClient (replicate 16 x00) 0 4) (demo_got ++ [LWait 0 WResult true]) = Some c /\
  zsum acks (sent c) + Z.of_nat (size (releaseFns c)) + zsum holding (chans c) <= Z.of_nat (nextBorrow c).
Proof.
  destruct (exec_all_inv (fun c => chans_ok (pending c) (chans c)) (newClient (replicate 16 x00) 0 4)
    (demo_got ++ [LWait 0 WResult true])) as (c & Hc & _);
    [intros c l Hc; by apply exec_chans|by constructor|].
  exists c. split; [exact Hc|]. exact (acks_within_frames _ _ _ _ _ Hc).
Defined.

Lemma get_places_object_witness :
  exists c' t, exec_all (demo_run demo_get) [LBorrow (Some demo_data) true; LWait 0 WResult true] = Some c' /\
  calls c' !! 0%nat = Some (CallDone (RRef {| Offset := 4; RefSize := 5; token := t |})).
Proof.
  destruct (get_places_object (demo_run demo_get) 0 "b" "k" 4 8 1 0 demo_meta demo_data)
    as (c' & t & H1 & H2 & _);
    [apply demo_run_ok|vm_compute; reflexivity..|vm_compute; discriminate|vm_compute; discriminate
    |vm_compute; discriminate|vm_compute; reflexivity|].
  exists c', t. split; [exact H1|exact H2].
Defined.

Lemma recv_failure_wakes_callers_witness :
  exists c' c'' e, exec (demo_run [LStart OHello; LSend 0 Sent]) (LRecv None) = Some (Some c') /\
  exec c' (LWait 0 WResult true) = Some (Some c'') /\ calls c'' !! 0%nat = Some (CallDone (RErr e)).
Proof.
  destruct (recv_failure_wakes_callers (demo_run [LStart OHello; LSend 0 Sent]) None 0 OHello 1 0 true)
    as (c' & c'' & e & H1 & _ & _ & H2 & H3);
    [apply demo_run_ok|vm_compute; reflexivity|exact I|vm_compute; reflexivity|vm_compute; reflexivity|].
  exists c', c'', e. split; [exact H1|split; [exact H2|exact H3]].
Defined.

Lemma release_once_witness :
  let c := demo_run (demo_got ++ [LWait 0 WResult true]) in
  let ref := {| Offset := 4; RefSize := 5; token := 1 |} in
  Release (Release c ref true) ref true = Release c ref true.
Proof.
  refine (proj2 (proj2 (release_once (demo_run (demo_got ++ [LWait 0 WResult true]))
    {| Offset := 4; RefSize := 5; token := 1 |} {| b_id := 0; b_frame := demo_data |} true true _ _)));
    [discriminate|vm_compute; reflexivity].
Defined.

Lemma validateRef_exact_witness : validateRef 16 {| Offset := 4; RefSize := 12; token := 0 |} = None.
Proof. apply validateRef_exact; simpl; lia. Defined.

Lemma safe_credits_bounds_witness : 1 <= computeSafeCredits (16 * 1024 * 1024) 65536 64.
Proof. refine (proj1 (safe_credits_bounds (16 * 1024 * 1024) 65536 64 _ _)); lia. Defined.

Lemma cancelled_get_leaks_frame_witness :
  exists c', exec (demo_run demo_got) (LWait 0 WCtx true) = Some (Some c') /\
  released c' = released (demo_run demo_got) /\ sent c' = sent (demo_run demo_got).
Proof.
  destruct (cancelled_get_leaks_frame (demo_run demo_got) 0 (OGet "b" "k" 4 8) 1 0
    {| ir_msg := demo_meta; ir_borrowed := Some {| b_id := 0; b_frame := demo_data |}; ir_err := None |}
    {| b_id := 0; b_frame := demo_data |} true) as (c' & H1 & _ & H2 & H3 & _);
    [apply demo_run_ok|vm_compute; reflexivity|vm_compute; reflexivity|reflexivity|].
  exists c'. split; [exact H1|split; [exact H2|exact H3]].
Defined.
