(* ===== verification/ClientIds.v ===== *)
(** * The zero-copy client: what a step keeps, sends and changes

    Facts about the client alone (Client.v) that its composition with a service needs.
    Apart from the start and the end of calls, a step keeps the region's size, the
    configuration, the request counter and the calls, sends nothing but acknowledgements
    and takes requests out of [pending] only ([keeps], [exec_shape]); and a request id is
    used for one request, whose channel belongs to the call that registered it
    ([ids_ok]). *)

From S2P Require Import Prelude Json ZcopyProto ZcopyServer Client.

(** ** What a step keeps *)

Abbreviation one_ack := (SCtl (ack_message 1)).

Record keeps (c c' : Client) : Prop := {
  keeps_len : blen (shared c') = blen (shared c);
  keeps_fp : framePayload c' = framePayload c;
  keeps_mc : maxCredits c' = maxCredits c;
  keeps_next : nextReqID c' = nextReqID c;
  keeps_chans : length (chans c') = length (chans c);
  keeps_pending r ch : pending c' !! r = Some ch -> pending c !! r = Some ch;
  keeps_calls : calls c' = calls c;
  keeps_sent : exists n, sent c' = sent c ++ replicate n one_ack;
}.

Lemma acks_none c c' : sent c' = sent c -> exists n, sent c' = sent c ++ replicate n one_ack.
Proof. intros H. exists 0%nat. by rewrite app_nil_r. Qed.

#[export] Instance keeps_refl : Reflexive keeps.
Proof. intros c. constructor; try done. by apply acks_none. Qed.
#[export] Instance keeps_trans : Transitive keeps.
Proof.
  intros c1 c2 c3 [] []. constructor; try congruence; [auto|].
  destruct keeps_sent0 as [n1 H1], keeps_sent1 as [n2 H2]. exists (n1 + n2)%nat.
  by rewrite H2, H1, <- app_assoc, replicate_add.
Qed.

(** A step that leaves alone everything [keeps] looks at. *)
Lemma keeps_same c c' :
  shared c' = shared c -> framePayload c' = framePayload c -> maxCredits c' = maxCredits c ->
  nextReqID c' = nextReqID c -> chans c' = chans c -> pending c' = pending c ->
  calls c' = calls c -> sent c' = sent c -> keeps c c'.
Proof. intros H1 H2 H3 H4 H5 H6 H7 H8. constructor; try congruence. by apply acks_none. Qed.

Lemma keeps_pend c p chs :
  (forall r ch, p !! r = Some ch -> pending c !! r = Some ch) -> length chs = length (chans c) ->
  keeps c (upd_pending c p chs).
Proof. intros Hp Hl. constructor; try done. by apply acks_none. Qed.

Create HintDb keeps.

Lemma keeps_release_ack c b ok : keeps c (release_ack c b ok).
Proof. unfold release_ack, sendAck. destruct ok; [|by apply keeps_same]. constructor; try done. by exists 1%nat. Qed.

Lemma keeps_remove c r : keeps c (removePending c r).
Proof. apply keeps_pend; [|done]. by intros r' ch [_ H]%lookup_delete_Some. Qed.

Lemma keeps_finish c o res ok c' r : finish_call c o res ok = (c', r) -> keeps c c'.
Proof.
  destruct o; simpl; try (by intros [= <- <-]). unfold finish_get, registerRelease.
  repeat case_match; intros; simplify_eq; try done; first [apply keeps_release_ack|by apply keeps_same].
Qed.

Lemma length_fail_channels l chs e chs' :
  fail_channels chs l e = Some chs' -> length chs' = length chs.
Proof.
  revert chs. induction l as [|[r ch] l IH]; intros chs; simpl; [by intros [= ->]|].
  unfold send_close. destruct (chs !! ch) as [[[|] [|]]|]; simpl; try done.
  intros Hf. rewrite (IH _ Hf). apply length_insert.
Qed.

Lemma keeps_deliver c r res c' b : deliver c r res = Some (c', b) -> keeps c c'.
Proof.
  unfold deliver, send_close. destruct (pending c !! r) as [ch|]; [|by intros [= <- <-]].
  destruct (chans c !! ch) as [[[|] [|]]|]; simpl; try done. intros [= <- <-].
  apply keeps_pend; [by intros r' ch' [_ H]%lookup_delete_Some|apply length_insert].
Qed.

Lemma keeps_recv_fail c e c' : recv_fail c e = Some c' -> keeps c c'.
Proof.
  unfold recv_fail, failAllPending. set (c0 := setRecvErr c e).
  assert (H0 : keeps c c0) by (unfold c0, setRecvErr; destruct (recvErr c); [done|by apply keeps_same]).
  destruct (fail_channels _ _ _) as [chs|] eqn:Ef; simpl; [|done]. intros [= <-].
  etransitivity; [exact H0|]. transitivity (upd_pending c0 ∅ chs); [|by apply keeps_same].
  apply keeps_pend; [done|by apply length_fail_channels in Ef].
Qed.

Lemma blen_write_shared mem f : blen (write_shared mem f) = blen mem.
Proof.
  destruct ((0 <=? f_SharedOffset f) && (f_SharedOffset f + blen (f_Payload f) <=? blen mem)) eqn:E;
    [|unfold write_shared; by rewrite E].
  apply andb_prop in E as [E1 E2]. apply (write_shared_slice mem f); by apply Z.leb_le.
Qed.

Lemma keeps_release_all l c oks : keeps c (release_all c l oks).
Proof.
  revert c oks. induction l as [|[t b] l IH]; intros c oks; simpl; [done|].
  etransitivity; [apply (keeps_release_ack c b (default false (head oks)))|].
  etransitivity; [|apply IH]. by apply keeps_same.
Qed.

Lemma keeps_control c f c' : recv_control c f = Some c' -> keeps c c'.
Proof.
  unfold recv_control. destruct f as [f|]; [|apply keeps_recv_fail].
  destruct (Decode _) as [msg|]; [|apply keeps_recv_fail]. destruct (_ || _).
  - destruct (deliver c _ _) as [[c1 b]|] eqn:Ed; [|done]. intros [= <-]. by eapply keeps_deliver.
  - destruct (String.eqb _ _); intros [= <-]; by apply keeps_same.
Qed.

Lemma keeps_borrow c msg f ok c' : recv_borrow c msg f ok = Some c' -> keeps c c'.
Proof.
  unfold recv_borrow. destruct f as [f|]; [|apply keeps_recv_fail]. set (c1 := upd_borrow _ _ _).
  assert (H1 : keeps c c1) by (constructor; try done; [apply blen_write_shared|by apply acks_none]).
  destruct (deliver c1 _ _) as [[c2 b]|] eqn:Ed; [|done]. intros [= <-].
  etransitivity; [exact H1|]. etransitivity; [by eapply keeps_deliver|].
  destruct b; [done|apply keeps_release_ack].
Qed.

Lemma keeps_Release c ref ok : keeps c (Release c ref ok).
Proof.
  unfold Release. destruct (token ref =? 0); [done|].
  destruct (releaseFns c !! token ref) as [b|]; [|by apply keeps_same].
  etransitivity; [|apply keeps_release_ack]. by apply keeps_same.
Qed.

Lemma keeps_Close c oks : keeps c (Close c oks).
Proof.
  unfold Close. destruct (closedCh c); [done|]. etransitivity; [apply keeps_release_all|]. by apply keeps_same.
Qed.

Lemma wait_shape c i o r ch w ok c' :
  wait_call c i o r ch w ok = Some c' -> exists c1 q, c' = set_call c1 i (CallDone q) /\ keeps c c1.
Proof.
  unfold wait_call. destruct w.
  - destruct (chans c !! ch) as [[[res|] cl]|] eqn:Ech; [|destruct cl; [|done]; intros [= <-]; by exists c, (RErr (default EChanClosed (recvErr c)))|done].
    set (c1 := upd_pending _ _ _).
    assert (H1 : keeps c c1) by (apply keeps_pend; [done|apply length_insert]).
    destruct (ir_err res) as [e|]; [intros [= <-]; by exists c1, (RErr e)|].
    destruct (finish_call c1 o res ok) as [c2 k] eqn:Ef. intros [= <-]. exists c2, k. split; [done|].
    etransitivity; [exact H1|]. by eapply keeps_finish.
  - intros [= <-]. exists (removePending c r), (RErr ECtx). split; [done|apply keeps_remove].
  - destruct (closedCh c); [|done]. intros [= <-]. by exists c, (RErr (default EClosed (recvErr c))).
Qed.

(** The steps of the client, by what they do to the calls. *)
Lemma exec_shape c l c' :
  exec c l = Some (Some c') ->
  match l with
  | LStart o => c' = start_call c o
  | LSend i r => exists o reqID ch,
      calls c !! i = Some (CallSend o reqID ch) /\ c' = send_call c i o reqID ch r
  | LWait i w ok => exists o reqID ch c1 q,
      calls c !! i = Some (CallWait o reqID ch) /\ c' = set_call c1 i (CallDone q) /\ keeps c c1
  | _ => keeps c c'
  end.
Proof.
  intros Hex. destruct l as [o|i s|i w ok|f|f ok|ref ok|oks]; simpl in Hex.
  - by simplify_eq.
  - destruct (calls c !! i) as [[o r ch| |]|]; simplify_eq. by exists o, r, ch.
  - destruct (calls c !! i) as [[|o r ch|]|]; simplify_eq.
    destruct (wait_shape _ _ _ _ _ _ _ _ Hex) as (c1 & q & -> & Hk). by exists o, r, ch, c1, q.
  - destruct (recv c); simplify_eq. destruct (recv_control c f) eqn:E; simplify_eq/=. by eapply keeps_control.
  - destruct (recv c); simplify_eq. destruct (recv_borrow c _ f ok) eqn:E; simplify_eq/=. by eapply keeps_borrow.
  - simplify_eq. apply keeps_Release.
  - simplify_eq. apply keeps_Close.
Qed.

(** ** What a call sends *)

(** What the serialised send of a request hands to the transport. *)
Definition emitted (c : Client) (o : op) (reqID : Z) (r : send_outcome) : list sentmsg :=
  match r with
  | Sent | SentButErr _ => SCtl (request_of c o reqID) :: payload_of c o
  | NotSent _ => []
  | SentInPart _ => [SCtl (request_of c o reqID)]
  end.

(** Where the call stands after it. *)
Definition after_send (o : op) (reqID : Z) (ch : nat) (r : send_outcome) : call :=
  match r with
  | Sent => CallWait o reqID ch
  | NotSent e | SentInPart e | SentButErr e => CallDone (RErr e)
  end.

Lemma send_call_facts c i o reqID ch r :
  let c' := send_call c i o reqID ch r in
  sent c' = sent c ++ emitted c o reqID r /\ calls c' = <[i := after_send o reqID ch r]> (calls c) /\
  chans c' = chans c /\ blen (shared c') = blen (shared c) /\ framePayload c' = framePayload c /\
  maxCredits c' = maxCredits c /\ nextReqID c' = nextReqID c /\
  (forall r' ch', pending c' !! r' = Some ch' -> pending c !! r' = Some ch').
Proof.
  destruct r; simpl; rewrite ?app_nil_r; split_and!; try done; by intros r' ch' [_ H]%lookup_delete_Some.
Qed.

Lemma request_same c c' o r :
  blen (shared c') = blen (shared c) -> framePayload c' = framePayload c -> maxCredits c' = maxCredits c ->
  request_of c' o r = request_of c o r.
Proof. intros H1 H2 H3. destruct o; simpl; by rewrite ?H1, ?H2, ?H3. Qed.

Lemma precheck_same c c' o : blen (shared c') = blen (shared c) -> precheck c' o = precheck c o.
Proof. intros H. destruct o; simpl; by rewrite ?H. Qed.

(** ** Request ids *)

(** A channel that only this request's id leads to. *)
Definition owns (c : Client) (r : Z) (ch : nat) : Prop :=
  (ch < length (chans c))%nat /\ forall r', pending c !! r' = Some ch -> r' = r.

Definition call_ids (c : Client) (k : call) : Prop :=
  match k with
  | CallSend o r ch => 0 < r <= nextReqID c /\ precheck c o = None /\ owns c r ch
  | CallWait o r ch => 0 < r <= nextReqID c /\ (precheck c o = None /\ SCtl (request_of c o r) ∈ sent c) /\ owns c r ch
  | CallDone _ => True
  end.

(** A request that has been sent: anything but an acknowledgement. *)
Definition requested (c : Client) (m : Message) : Prop := SCtl m ∈ sent c /\ Op m <> OpAck.

Record ids_ok (c : Client) : Prop := {
  ids_calls i k : calls c !! i = Some k -> call_ids c k;
  ids_sent m : requested c m -> 0 < ReqID m <= nextReqID c;
  ids_uniq m m' : requested c m -> requested c m' -> ReqID m = ReqID m' -> m = m';
  ids_fresh i o r ch m : calls c !! i = Some (CallSend o r ch) -> requested c m -> ReqID m <> r;
  ids_distinct i j o r ch o' ch' :
    calls c !! i = Some (CallSend o r ch) -> calls c !! j = Some (CallSend o' r ch') -> i = j;
  ids_next : 0 <= nextReqID c;
}.

Lemma owns_keeps c c' r ch :
  length (chans c') = length (chans c) ->
  (forall r ch, pending c' !! r = Some ch -> pending c !! r = Some ch) -> owns c r ch -> owns c' r ch.
Proof. intros Hl Hp [H1 H2]. split; [by rewrite Hl|]. intros r' H. by apply H2, Hp. Qed.

Lemma requested_acks c c' m n :
  sent c' = sent c ++ replicate n one_ack -> requested c' m <-> requested c m.
Proof.
  intros Hs. unfold requested. rewrite Hs, elem_of_app. split; [|tauto].
  intros [[H|[H _]%elem_of_replicate] Ho]; [done|]. injection H as ->. by destruct Ho.
Qed.

Lemma request_nonack c o r : Op (request_of c o r) <> OpAck.
Proof. by destruct o. Qed.

(** [owns] etc. along a step that keeps. *)
Lemma call_ids_keeps c c' k : keeps c c' -> call_ids c k -> call_ids c' k.
Proof.
  intros [Hl Hf Hm Hn Hc Hp _ [n Hs]]. destruct k as [o r ch|o r ch|q]; simpl; [| |done].
  - intros (H1 & H2 & H3). rewrite Hn, (precheck_same _ _ _ Hl).
    split_and!; [lia|lia|done|by eapply owns_keeps].
  - intros (H1 & [H2 H2'] & H3). rewrite Hn, (request_same c c'), (precheck_same _ _ _ Hl) by done.
    split_and!; [lia|lia|done| |by eapply owns_keeps]. rewrite Hs. set_solver.
Qed.

Lemma ids_keeps c c' : keeps c c' -> ids_ok c -> ids_ok c'.
Proof.
  intros Hk [Hcalls Hsent Huniq Hfresh Hdist Hnext]. pose proof Hk as [_ _ _ Hn _ _ Hcl [n Hs]].
  pose proof (fun m => requested_acks c c' m n Hs) as Hreq. constructor.
  - intros i k. rewrite Hcl. intros H. eapply call_ids_keeps; [done|by eapply Hcalls].
  - intros m. rewrite Hreq, Hn. apply Hsent.
  - intros m m'. rewrite !Hreq. apply Huniq.
  - intros i o r ch m. rewrite Hcl, Hreq. apply Hfresh.
  - intros i j. rewrite Hcl. apply Hdist.
  - by rewrite Hn.
Qed.

Lemma ids_done c i q : ids_ok c -> ids_ok (set_call c i (CallDone q)).
Proof.
  intros [Hcalls Hsent Huniq Hfresh Hdist Hnext].
  assert (Hold : forall j k, <[i := CallDone q]> (calls c) !! j = Some k ->
    calls c !! j = Some k \/ k = CallDone q).
  { intros j k [(-> & -> & _)|[_ H]]%list_lookup_insert_Some; auto. }
  constructor; try done; simpl.
  - intros j k [H| ->]%Hold; [by apply Hcalls in H; destruct k|done].
  - intros j o r ch m [H|H]%Hold; [by eapply Hfresh|done].
  - intros j1 j2 o r ch o' ch' [H1|H1]%Hold; [|done]. intros [H2|H2]%Hold; [|done]. by eapply Hdist.
Qed.

(** ... along the start of a call, while the counter has not come round, *)
Lemma ids_start c o :
  chans_ok (pending c) (chans c) -> ids_ok c -> nextReqID c + 1 < 2 ^ 64 -> ids_ok (start_call c o).
Proof.
  intros Hch Hids Hfit. pose proof Hids as [Hcalls Hsent Huniq Hfresh Hdist Hnext].
  unfold start_call. destruct (precheck c o) as [e|] eqn:Epre.
  { constructor; try done; simpl.
    - intros i k [[_ H]|[_ <-]]%lookup_snoc_Some; [by apply Hcalls in H; destruct k|done].
    - intros i o' r ch m [[_ H]|[_ H]]%lookup_snoc_Some; [by eapply Hfresh|done].
    - intros i j o1 r ch o2 ch' [[_ H1]|[_ H1]]%lookup_snoc_Some; [|done].
      intros [[_ H2]|[_ H2]]%lookup_snoc_Some; [|done]. by eapply Hdist. }
  simpl. set (n := u64 (nextReqID c + 1)).
  assert (Hn : n = nextReqID c + 1) by (unfold n; apply Z.mod_small; lia).
  set (c' := upd_calls _ _).
  assert (Hown : forall r ch, r <= nextReqID c -> owns c r ch -> owns c' r ch).
  { intros r ch Hr [H1 H2]. split; simpl; [rewrite length_app; simpl; lia|].
    intros r' [[<- H]|[_ H]]%lookup_insert_Some; [lia|by apply H2]. }
  constructor.
  - intros i k [[_ H]|[_ <-]]%lookup_snoc_Some.
    + apply Hcalls in H. destruct k as [o' r ch|o' r ch|q]; simpl in *; [| |done];
        destruct H as (H1 & H2 & H3); (split; [lia|split; [exact H2|apply Hown; (lia || done)]]).
    + simpl. split_and!; [lia|lia|done|]. split; simpl; [rewrite length_app; simpl; lia|].
      intros r' [[<- _]|[_ H]]%lookup_insert_Some; [done|].
      apply (ok_open _ _ Hch), lookup_lt_Some in H. lia.
  - intros m Hm. apply Hsent in Hm. simpl. lia.
  - exact Huniq.
  - intros i o' r ch m [[_ H]|[_ H]]%lookup_snoc_Some Hm; [by eapply Hfresh|].
    simplify_eq. apply Hsent in Hm. lia.
  - intros i j o1 r ch o2 ch' [[_ H1]|[-> H1]]%lookup_snoc_Some [[_ H2]|[-> H2]]%lookup_snoc_Some.
    + by eapply Hdist.
    + simplify_eq. apply Hcalls in H1. simpl in H1. lia.
    + simplify_eq. apply Hcalls in H2. simpl in H2. lia.
    + done.
  - simpl. lia.
Qed.

(** ... and along the send of its request. *)
Lemma requested_send c i o reqID ch r m :
  requested (send_call c i o reqID ch r) m -> requested c m \/ m = request_of c o reqID.
Proof.
  destruct (send_call_facts c i o reqID ch r) as (Hs & _). intros [Hin Hop]. rewrite Hs in Hin.
  apply elem_of_app in Hin as [Hin|Hin]; [by left; split|]. right.
  assert (Hp : SCtl m ∉ payload_of c o) by (destruct o; simpl; set_solver).
  destruct r; simpl in Hin; set_solver.
Qed.

Lemma request_id c o r : ReqID (request_of c o r) = r.
Proof. by destruct o. Qed.

Lemma ids_send c i o reqID ch r :
  calls c !! i = Some (CallSend o reqID ch) -> ids_ok c -> ids_ok (send_call c i o reqID ch r).
Proof.
  intros Hi Hids. pose proof Hids as [Hcalls Hsent Huniq Hfresh Hdist Hnext].
  destruct (send_call_facts c i o reqID ch r) as (Hs & Hcl & Hch & Hl & Hf & Hm & Hn & Hp).
  pose proof (fun m => requested_send c i o reqID ch r m) as Hreq.
  assert (Hsent_in : forall x, x ∈ sent c -> x ∈ sent (send_call c i o reqID ch r)) by (intros x; rewrite Hs; set_solver).
  set (c' := send_call _ _ _ _ _ _) in *. clearbody c'.
  assert (Hown : forall r ch, owns c r ch -> owns c' r ch) by (intros; eapply owns_keeps; [by rewrite Hch|done|done]).
  pose proof (Hcalls _ _ Hi) as (Hr0 & Hpre & Hown0).
  assert (Hold : forall j k, calls c' !! j = Some k ->
    j <> i /\ calls c !! j = Some k \/ j = i /\ k = after_send o reqID ch r).
  { intros j k. rewrite Hcl. intros [(-> & <- & _)|[Hne H]]%list_lookup_insert_Some; auto. }
  constructor.
  - intros j k [[_ H]|[-> ->]]%Hold.
    + apply Hcalls in H. destruct k as [o' r' ch'|o' r' ch'|q]; simpl in *; [| |done];
        destruct H as (H1 & H2 & H3); rewrite Hn, (precheck_same c c') by done; split_and!; try lia; auto; [tauto|].
      rewrite (request_same c c') by done. apply Hsent_in. tauto.
    + destruct r; simpl; try done. rewrite Hn, (request_same c c'), (precheck_same c c') by done.
      split_and!; [lia|lia|done| |auto]. rewrite Hs. simpl. set_solver.
  - intros m [H| ->]%Hreq; rewrite Hn; [by apply Hsent|rewrite request_id; lia].
  - intros m m' [H1| ->]%Hreq [H2| ->]%Hreq; rewrite ?request_id; [by apply Huniq|..|done].
    + intros He. by destruct (Hfresh _ _ _ _ _ Hi H1).
    + intros He. by destruct (Hfresh _ _ _ _ _ Hi H2).
  - intros j o' r' ch' m [[Hne H]|[-> H]]%Hold [Hm'| ->]%Hreq; rewrite ?request_id; try (by destruct r).
    + by eapply Hfresh.
    + intros <-. by destruct Hne; eapply Hdist. 
  - intros j1 j2 o1 r1 ch1 o2 ch2 [[_ H1]|[_ H1]]%Hold; [|by destruct r].
    intros [[_ H2]|[_ H2]]%Hold; [|by destruct r]. by eapply Hdist.
  - by rewrite Hn.
Qed.

Lemma exec_ids c l c' :
  exec c l = Some (Some c') -> chans_ok (pending c) (chans c) -> nextReqID c + 1 < 2 ^ 64 -> ids_ok c -> ids_ok c'.
Proof.
  intros Hex%exec_shape Hch Hfit Hids. destruct l; try (by eapply ids_keeps).
  - subst. by apply ids_start.
  - destruct Hex as (o & reqID & ch & Hi & ->). by apply ids_send.
  - destruct Hex as (o & reqID & ch & c1 & q & Hi & -> & Hk). apply ids_done. by eapply ids_keeps.
Qed.

Lemma exec_next c l c' :
  exec c l = Some (Some c') -> ids_ok c -> nextReqID c + 1 < 2 ^ 64 ->
  nextReqID c' <= nextReqID c + 1.
Proof.
  intros Hex%exec_shape Hids Hfit.
  destruct l; try (by rewrite (keeps_next _ _ Hex); lia).
  - subst. unfold start_call. destruct (precheck c o); simpl; [lia|].
    pose proof (ids_next _ Hids). unfold u64. rewrite Z.mod_small; lia.
  - destruct Hex as (o & reqID & ch & Hi & ->).
    destruct (send_call_facts c i o reqID ch r) as (_ & _ & _ & _ & _ & _ & -> & _). lia.
  - destruct Hex as (o & reqID & ch & c1 & q & Hi & -> & Hk). simpl. rewrite (keeps_next _ _ Hk). lia.
Qed.

Lemma exec_len c l c' : exec c l = Some (Some c') -> blen (shared c') = blen (shared c).
Proof.
  intros Hex%exec_shape. destruct l; try (by apply keeps_len in Hex).
  - subst. unfold start_call. by destruct (precheck c o).
  - destruct Hex as (o & reqID & ch & Hi & ->). by destruct r.
  - destruct Hex as (o & reqID & ch & c1 & q & Hi & -> & Hk). simpl. by apply keeps_len.
Qed.

(** ** Where results come from *)

(** The result in a channel's buffer. *)
Definition result_at (c : Client) (ch : nat) (res : inboundResult) : Prop :=
  exists cl, chans c !! ch = Some {| c_buf := Some res; c_closed := cl |}.

(** The caller's side: no result appears, nothing is received. *)
Record passive (c c' : Client) : Prop := {
  ps_recv : recv c' = recv c;
  ps_borrow : nextBorrow c' = nextBorrow c;
  ps_shared : shared c' = shared c;
  ps_results ch res : result_at c' ch res -> result_at c ch res;
}.

#[export] Instance passive_refl : Reflexive passive.
Proof. by constructor. Qed.
#[export] Instance passive_trans : Transitive passive.
Proof. intros c1 c2 c3 [] []. constructor; try congruence. auto. Qed.

Lemma passive_same c c' :
  recv c' = recv c -> nextBorrow c' = nextBorrow c -> shared c' = shared c -> chans c' = chans c -> passive c c'.
Proof. intros H1 H2 H3 H4. constructor; try done. intros ch res. unfold result_at. by rewrite H4. Qed.

Lemma passive_release_ack c b ok : passive c (release_ack c b ok).
Proof. unfold release_ack, sendAck. by destruct ok; apply passive_same. Qed.

Lemma passive_finish c o res ok c' r : finish_call c o res ok = (c', r) -> passive c c'.
Proof.
  destruct o; simpl; try (by intros [= <- <-]). unfold finish_get, registerRelease.
  repeat case_match; intros; simplify_eq; try done; first [apply passive_release_ack|by apply passive_same].
Qed.

Lemma passive_release_all l c oks : passive c (release_all c l oks).
Proof.
  revert c oks. induction l as [|[t b] l IH]; intros c oks; simpl; [done|].
  etransitivity; [apply (passive_release_ack c b (default false (head oks)))|].
  etransitivity; [|apply IH]. by apply passive_same.
Qed.

Lemma exec_passive c l c' :
  exec c l = Some (Some c') -> match l with LRecv _ | LBorrow _ _ => True | _ => passive c c' end.
Proof.
  intros Hex. destruct l as [o|i s|i w ok|f|f ok|ref ok|oks]; simpl in Hex; try done.
  - simplify_eq. unfold start_call. destruct (precheck c o); [by apply passive_same|].
    constructor; try done. intros ch res [cl Hr]. simpl in Hr.
    apply lookup_snoc_Some in Hr as [[_ Hr]|[_ [=]]]. by exists cl.
  - destruct (calls c !! i) as [[o r ch| |]|]; simplify_eq. by destruct s; apply passive_same.
  - destruct (calls c !! i) as [[|o r ch|]|]; simplify_eq. unfold wait_call in Hex. destruct w.
    + destruct (chans c !! ch) as [[[res|] cl]|] eqn:Ech; [|destruct cl; simplify_eq; by apply passive_same|done].
      set (c1 := upd_pending _ _ _) in Hex. assert (H1 : passive c c1).
      { constructor; try done. intros ch' res' [cl' Hr]. simpl in Hr.
        apply list_lookup_insert_Some in Hr as [(_ & [=] & _)|[_ Hr]]. by exists cl'. }
      etransitivity; [exact H1|]. destruct (ir_err res); [simplify_eq; by apply passive_same|].
      destruct (finish_call c1 o res ok) as [c2 k] eqn:Ef. simplify_eq.
      etransitivity; [by eapply passive_finish|]. by apply passive_same.
    + simplify_eq. by apply passive_same.
    + destruct (closedCh c); simplify_eq. by apply passive_same.
  - simplify_eq. unfold Release. destruct (token ref =? 0); [done|].
    destruct (releaseFns c !! token ref) as [b|]; [|by apply passive_same].
    etransitivity; [|apply passive_release_ack]. by apply passive_same.
  - simplify_eq. unfold Close. destruct (closedCh c); [done|].
    etransitivity; [apply passive_release_all|]. by apply passive_same.
Qed.

(** Delivering a result: it appears in the channel of the request it names, if any. *)
Lemma deliver_results c r res c' b :
  deliver c r res = Some (c', b) ->
  recv c' = recv c /\ nextBorrow c' = nextBorrow c /\ shared c' = shared c /\
  forall ch res', result_at c' ch res' -> result_at c ch res' \/ res' = res /\ pending c !! r = Some ch.
Proof.
  unfold deliver, send_close. destruct (pending c !! r) as [ch|]; [|intros [= <- <-]; auto].
  destruct (chans c !! ch) as [[[|] [|]]|] eqn:Ech; simpl; try done. intros [= <- <-].
  split_and!; try done. intros ch' res' [cl Hr]. simpl in Hr.
  apply list_lookup_insert_Some in Hr as [(-> & Hr & _)|[_ Hr]]; [|left; by exists cl].
  right. by simplify_eq.
Qed.

(** Failing: only errors appear, and the loop has ended. *)
Lemma recv_fail_results c e c' :
  recv_fail c e = Some c' ->
  recv c' = RDone /\ nextBorrow c' = nextBorrow c /\ shared c' = shared c /\
  forall ch res, result_at c' ch res -> ir_err res = None -> result_at c ch res.
Proof.
  unfold recv_fail, failAllPending. set (c0 := setRecvErr c e).
  assert (H0 : passive c c0) by (unfold c0, setRecvErr; destruct (recvErr c); [done|by apply passive_same]).
  destruct (fail_channels _ _ _) as [chs|] eqn:Ef; simpl; [|done]. intros [= <-]. simpl.
  destruct H0 as [_ H2 H3 H4]. split_and!; try done.
  assert (Hfc : forall l chs chs', fail_channels chs l e = Some chs' -> forall ch res cl,
    chs' !! ch = Some {| c_buf := Some res; c_closed := cl |} -> ir_err res = None ->
    chs !! ch = Some {| c_buf := Some res; c_closed := cl |}).
  { clear. induction l as [|[r ch0] l IH]; intros chs chs'; simpl; [by intros [= ->]|].
    unfold send_close. destruct (chs !! ch0) as [[[|] [|]]|] eqn:E; simpl; try done.
    intros Hf ch res cl Hr He. eapply IH in Hr; [|done..].
    apply list_lookup_insert_Some in Hr as [(-> & Hr & _)|[_ Hr]]; [|done]. by simplify_eq/=. }
  intros ch res [cl Hr] He. apply H4. exists cl. by eapply Hfc.
Qed.

(** The request and the channel a call still waits on. *)
Definition chan_of (k : call) : option (Z * nat) :=
  match k with CallSend _ r ch | CallWait _ r ch => Some (r, ch) | CallDone _ => None end.

Lemma exec_chan_of c l c' j k rc :
  exec c l = Some (Some c') -> calls c' !! j = Some k -> chan_of k = Some rc ->
  (exists k', calls c !! j = Some k' /\ chan_of k' = Some rc) \/
  rc.2 = length (chans c) /\ chans c' = chans c ++ [{| c_buf := None; c_closed := false |}].
Proof.
  intros Hex%exec_shape Hj Hk. destruct l; try (left; exists k; by rewrite <- (keeps_calls _ _ Hex)).
  - subst. unfold start_call in *. destruct (precheck c o); simpl in *;
      apply lookup_snoc_Some in Hj as [[_ Hj]|[_ <-]]; eauto; simplify_eq/=. by right.
  - destruct Hex as (o & reqID & ch & Hi & ->). left.
    destruct (send_call_facts c i o reqID ch r) as (_ & Hcl & _). rewrite Hcl in Hj.
    apply list_lookup_insert_Some in Hj as [(<- & <- & _)|[_ Hj]]; [|by exists k].
    exists (CallSend o reqID ch). split; [done|]. by destruct r; simplify_eq/=.
  - destruct Hex as (o & reqID & ch & c1 & q & Hi & -> & Hk1). left. simpl in Hj.
    rewrite (keeps_calls _ _ Hk1) in Hj.
    apply list_lookup_insert_Some in Hj as [(<- & <- & _)|[_ Hj]]; [done|by exists k].
Qed.

Lemma exec_unsent c l c' j o r ch :
  exec c l = Some (Some c') -> calls c' !! j = Some (CallSend o r ch) ->
  calls c !! j = Some (CallSend o r ch) \/ l = LStart o.
Proof.
  intros Hex%exec_shape Hj. destruct l; try (left; by rewrite <- (keeps_calls _ _ Hex)).
  - subst. unfold start_call in Hj. destruct (precheck c o0); simpl in Hj;
      apply lookup_snoc_Some in Hj as [[_ Hj]|[_ Hj]]; auto; simplify_eq; auto.
  - destruct Hex as (o1 & reqID & ch1 & Hi & ->). left.
    destruct (send_call_facts c i o1 reqID ch1 r0) as (_ & Hcl & _). rewrite Hcl in Hj.
    apply list_lookup_insert_Some in Hj as [(<- & Hd & _)|[_ Hj]]; [by destruct r0|done].
  - destruct Hex as (o1 & reqID & ch1 & c1 & q & Hi & -> & Hk1). left. simpl in Hj.
    rewrite (keeps_calls _ _ Hk1) in Hj.
    by apply list_lookup_insert_Some in Hj as [(_ & [=] & _)|[_ Hj]].
Qed.

Lemma exec_config c l c' :
  exec c l = Some (Some c') -> framePayload c' = framePayload c /\ maxCredits c' = maxCredits c.
Proof.
  intros Hex%exec_shape. destruct l; try (by split; [apply keeps_fp|apply keeps_mc]).
  - subst. unfold start_call. by destruct (precheck c o).
  - destruct Hex as (o & reqID & ch & Hi & ->). by destruct r.
  - destruct Hex as (o & reqID & ch & c1 & q & Hi & -> & Hk). simpl. by split; [apply keeps_fp|apply keeps_mc].
Qed.
