(* ===== verification/ZcopySync.v ===== *)
(** * The zcopy services: what a step sends in answer

    Facts about one connection of a service (ZcopyServer.v) that its composition with a
    client needs: on a message the client's library has encoded, the loop sends replies
    that decode, starts the goroutine of a GET, or waits for the payload of a PUT; a
    goroutine sends a meta with its data, or nothing. *)

From S2P Require Import Prelude StoreIface Json ZcopyProto ZcopyServer.

Section Sync.
Context {St : Type} `{ObjectStoreLaws St}.
Implicit Types (c : zcopyConn St) (msg : Message).

(** A control message that answers a request and announces no data. *)
Definition is_reply (o : outmsg) : Prop :=
  exists m p, o = OutCtl p /\ Decode p = Ok m /\ Op m ∈ [OpHelloResp; OpRespOK; OpRespErr].

(** The loop has dealt with a message: it sends replies and goes on, or closes. *)
Record answers c c' : Prop := {
  an_out : exists o, out c' = out c ++ o /\ Forall is_reply o;
  an_gets : gets c' = gets c;
  an_main : main c' = Looping \/ main c' = Closing;
  an_max : maxObjectSize c' = maxObjectSize c;
}.

(** The replies of the service can be decoded. *)
Definition reply_ok (m : Message) : Prop :=
  well_formed m /\ Op m ∈ [OpHelloResp; OpRespOK; OpRespErr].

Lemma reply_is_ok op rq cr err :
  op ∈ [OpHelloResp; OpRespOK; OpRespErr] -> all_chars is_ascii err = true ->
  0 <= rq < 2 ^ 64 -> 0 <= cr < 2 ^ 63 -> reply_ok (reply op rq cr err).
Proof.
  intros Hop Herr Hr Hc. split; [|done]. apply reply_wf; try done.
  rewrite !elem_of_cons, elem_of_nil in Hop. by destruct Hop as [->|[->|[->|[]]]].
Qed.

Lemma send_reply c m ok :
  reply_ok m -> let c' := (sendControl c m ok).1 in
  (exists o, out c' = out c ++ o /\ Forall is_reply o) /\ gets c' = gets c /\
  maxObjectSize c' = maxObjectSize c /\ store c' = store c /\ main c' = main c /\ credits c' = credits c.
Proof.
  intros [Hwf Hop]. assert (Hne : Op m <> EmptyString).
  { rewrite !elem_of_cons, elem_of_nil in Hop. by destruct Hop as [->|[->|[->|[]]]]. }
  destruct (Decode_Encode m Hwf Hne) as (p & Hp & Hd). unfold sendControl. rewrite Hp.
  destruct ok; simpl; split_and!; try done.
  - exists [OutCtl p]. split; [done|]. constructor; [|done]. by exists m, p.
  - exists []. by rewrite app_nil_r.
Qed.

Lemma answers_continue c c1 m ok :
  reply_ok m -> out c1 = out c -> gets c1 = gets c -> maxObjectSize c1 = maxObjectSize c ->
  answers c (continue_if (sendControl c1 m ok)).
Proof.
  intros Hm Ho Hg Hx. destruct (send_reply c1 m ok Hm) as ((o & Hout & Hf) & Hgs & Hmx & _).
  destruct (sendControl c1 m ok) as [c2 b]. simpl in *.
  destruct b; constructor; simpl; try congruence; try (by auto); exists o; by rewrite Hout, Ho.
Qed.

Lemma answers_always c c1 m ok :
  reply_ok m -> out c1 = out c -> gets c1 = gets c -> maxObjectSize c1 = maxObjectSize c ->
  answers c (continue_always (sendControl c1 m ok)).
Proof.
  intros Hm Ho Hg Hx. destruct (send_reply c1 m ok Hm) as ((o & Hout & Hf) & Hgs & Hmx & _).
  constructor; simpl; try congruence; try (by auto). exists o. by rewrite Hout, Ho.
Qed.

Lemma answers_quiet c c' :
  out c' = out c -> gets c' = gets c -> maxObjectSize c' = maxObjectSize c ->
  main c' = Looping \/ main c' = Closing -> answers c c'.
Proof. intros Ho Hg Hx Hm. constructor; try done. exists []. by rewrite Ho, app_nil_r. Qed.

Lemma too_large_ascii s1 s2 a b :
  all_chars is_ascii s1 = true -> all_chars is_ascii s2 = true ->
  all_chars is_ascii (s1 +:+ fmt_d a +:+ s2 +:+ fmt_d b) = true.
Proof. intros H1 H2. by rewrite !all_chars_app, !fmt_d_ascii, H1, H2. Qed.

(** One reply with a fixed or formatted text. *)
Ltac answered :=
  first [apply answers_continue|apply answers_always]; try done; apply reply_is_ok;
  first [done|set_solver|by apply too_large_ascii|lia].

Lemma handlePut_answers c msg ok :
  well_formed msg -> main c = Looping ->
  answers c (handlePut c msg ok) \/ handlePut c msg ok = with_main c (AwaitPayload msg) /\ 0 < Size msg.
Proof.
  intros Hwf Hm. pose proof (wf_req _ Hwf) as Hr.
  unfold handlePut, finishPut, sendRespErr, sendRespOK, sendControlLocked.
  destruct (ReqID msg =? 0); [left; answered|]. destruct (_ || _); [left; answered|].
  destruct (Size msg <? 0) eqn:Es; [left; answered|].
  destruct (DataOffset msg) as [off|]; [|left; answered].
  destruct (_ && _); [left; answered|].
  unfold recvPayloadAt_begin. rewrite Es. destruct (off <? 0).
  { left. apply answers_quiet; auto. }
  destruct (Size msg =? 0) eqn:E0; bool_facts; [left; answered|]. right. split; [done|lia].
Qed.

(** The loop on a message. *)
Lemma dispatch_answers c msg ok :
  well_formed msg -> main c = Looping ->
  answers c (dispatch c msg ok) \/
  Op msg = OpGetReq /\ ReqID msg <> 0 /\
    dispatch c msg ok = with_main (with_gets c (gets c ++ [GetStart msg])) Looping \/
  Op msg = OpPutReq /\ 0 < Size msg /\ dispatch c msg ok = with_main c (AwaitPayload msg).
Proof.
  intros Hwf Hm. pose proof (wf_req _ Hwf) as Hr.
  assert (Hcr : Credits msg < 2 ^ 63).
  { pose proof (wf_ints _ Hwf) as Hi. rewrite !Forall_cons in Hi. lia. }
  unfold dispatch, sendRespErr, sendRespOK, sendControlLocked.
  destruct (String.eqb _ OpHelloReq).
  { left. destruct (ReqID msg =? 0); [answered|]. destruct (Credits msg <=? 0) eqn:E; bool_facts; answered. }
  destruct (String.eqb _ OpAck).
  { left. unfold addCredits. destruct (Ack msg <=? 0); apply answers_quiet; auto. }
  destruct (String.eqb _ OpEnsureBucketReq).
  { left. destruct (ReqID msg =? 0); [answered|]. destruct (String.eqb _ ""); answered. }
  destruct (String.eqb_spec (Op msg) OpPutReq).
  { destruct (handlePut_answers c msg ok Hwf Hm) as [Ha|[-> Hs]]; [by left|by right; right]. }
  destruct (String.eqb_spec (Op msg) OpGetReq).
  { unfold handleGetAsync, sendRespErr, sendControlLocked.
    destruct (ReqID msg =? 0) eqn:E; bool_facts; [left; answered|]. by right; left. }
  left. destruct (negb _); [answered|]. apply answers_quiet; auto.
Qed.

Lemma payload_answers c msg r ok :
  well_formed msg -> answers c (handlePut_payload c msg r ok).
Proof.
  intros Hwf. pose proof (wf_req _ Hwf) as Hr.
  unfold handlePut_payload, finishPut, sendRespOK, sendControlLocked.
  destruct (recvPayloadAt_end _ _ _); [answered|]. apply answers_quiet; auto.
Qed.

(** A PUT that the client has checked is waited for. *)
Lemma put_is_awaited c msg off ok :
  Op msg = OpPutReq -> ReqID msg <> 0 -> TrimSpace (Bucket msg) <> EmptyString ->
  TrimSpace (Key msg) <> EmptyString -> 0 < Size msg -> DataOffset msg = Some off -> 0 <= off ->
  maxObjectSize c <= 0 \/ Size msg <= maxObjectSize c ->
  dispatch c msg ok = with_main c (AwaitPayload msg).
Proof.
  intros Hop Hr Hb Hk Hs Ho Hoff Hmax. apply String.eqb_neq in Hb, Hk. apply Z.eqb_neq in Hr.
  unfold dispatch. rewrite Hop. simpl. unfold handlePut. rewrite Hr, Hb, Hk, Ho. simpl.
  rewrite (proj2 (Z.ltb_ge (Size msg) 0)) by lia.
  assert ((0 <? maxObjectSize c) && (maxObjectSize c <? Size msg) = false) as ->.
  { destruct (0 <? maxObjectSize c) eqn:E1, (maxObjectSize c <? Size msg) eqn:E2; bool_facts; (done || lia). }
  unfold recvPayloadAt_begin. rewrite (proj2 (Z.ltb_ge (Size msg) 0)) by lia.
  rewrite (proj2 (Z.ltb_ge off 0)) by lia. by rewrite (proj2 (Z.eqb_neq (Size msg) 0)) by lia.
Qed.

(** ** The goroutines *)

(** Where [handleGet] leaves the goroutine: finished, or about to send an object that
    the request names, within its limit, at the offset it asks for. *)
Definition get_next c msg (g : get_pc) : Prop :=
  g = GetDone \/ exists off obj, g = GetCredit (ReqID msg) (Body obj) off /\
    DataOffset msg = Some off /\ (Max msg = 0 \/ size_of obj <= Max msg) /\
    st_GetObject (store c) (TrimSpace (Bucket msg)) (TrimSpace (Key msg)) = Some obj.

Lemma handleGet_answers c msg ok c' g :
  well_formed msg -> handleGet c msg ok = (c', g) ->
  (exists o, out c' = out c ++ o /\ Forall is_reply o) /\ maxObjectSize c' = maxObjectSize c /\
  get_next c msg g.
Proof.
  intros Hwf. pose proof (wf_req _ Hwf) as Hr.
  assert (Herr : forall err, all_chars is_ascii err = true ->
    ((sendRespErr c (ReqID msg) err ok).1, GetDone) = (c', g) ->
    (exists o, out c' = out c ++ o /\ Forall is_reply o) /\ maxObjectSize c' = maxObjectSize c /\ get_next c msg g).
  { intros err Ha [= <- <-]. destruct (send_reply c (reply OpRespErr (ReqID msg) 0 err) ok) as (Ho & _ & Hm & _).
    - apply reply_is_ok; (done || set_solver || lia).
    - unfold sendRespErr, sendControlLocked. split_and!; try done. by left. }
  unfold handleGet. destruct (_ || _); [by apply Herr|].
  destruct (Max msg <? 0) eqn:Em; [by apply Herr|].
  destruct (DataOffset msg) as [off|] eqn:Eoff; [|by apply Herr].
  destruct (st_GetObject _ _ _) as [obj|] eqn:Eo; [|by apply Herr].
  destruct (_ && _) eqn:Eb; [by apply Herr, too_large_ascii|]. intros [= <- <-].
  split; [exists []; by rewrite app_nil_r|]. split; [done|]. right. exists off, obj.
  split_and!; try done. bool_facts. destruct (0 <? Max msg) eqn:E0; simpl in Eb; bool_facts; lia.
Qed.

(** The data step, when the transport sends the data once it has sent the meta. *)
Lemma sendGetPayload_whole c reqID payload off ok1 ok2 :
  (ok1 = true -> ok2 = true) -> 0 <= reqID < 2 ^ 64 -> blen payload < 2 ^ 63 -> off < 2 ^ 63 ->
  let c' := (sendGetPayload c reqID payload off ok1 ok2).1 in
  out c' = out c \/
  exists p, out c' = out c ++ [OutCtl p; OutData payload off] /\ 0 <= off /\
    Decode p = Ok (get_meta reqID (blen payload) off).
Proof.
  intros Hok Hr Hl Ho. pose proof (blen_nonneg payload). unfold sendGetPayload.
  destruct (off <? 0) eqn:E; bool_facts; [by left|]. rewrite i64_id by lia.
  destruct (Decode_Encode (get_meta reqID (blen payload) off)) as (p & Hp & Hd); [apply meta_wf; lia|done|].
  unfold sendControl. rewrite Hp. destruct ok1; [|by left]. rewrite Hok by done. right. exists p.
  simpl. by rewrite <- app_assoc.
Qed.
End Sync.
