(* ===== verification/System.v ===== *)
(** * A client and a service connected by a message connection

    The composition of Client.v with one connection of a service (ZcopyServer.v): two
    queues of frames, one in each direction, as the interface of pkg/rdma/conn.go
    promises (ordered and reliable), and as SendMessageAt delivers payloads: with the
    offset they were written at, and nothing at all for an empty one
    (go_rdma_send_message_rw_at).  An [action] is a step of either end; what a step
    sends is appended to the queue, a receive takes the head of its queue or fails.  A
    frame carries its payload by value, as it was when it arrived; what is in the shared
    region itself is the order of the sends (EndToEnd.v, [window]).

    [Inv] is the invariant of the composition; its theorems say that the flow control of
    the two ends together bounds the data frames that are under way or held by the
    client's callers, and that a GET returns the bytes of the object it names. *)

From S2P Require Import Prelude Trans StoreIface Json ZcopyProto ZcopyServer ZcopySync.
From S2P Require Client ClientIds.

(** ** The connection *)

(** A control message: a frame outside the shared region. *)
Definition ctl_frame (p : list byte) : frame := {| f_Payload := p; f_SharedOffset := -1 |}.

(** A payload sent to an offset arrives with it; an empty one is not sent. *)
Definition data_frames (p : list byte) (off : Z) : list frame :=
  if blen p =? 0 then [] else [{| f_Payload := p; f_SharedOffset := off |}].

Definition out_frames (o : outmsg) : list frame :=
  match o with OutCtl p => [ctl_frame p] | OutData p off => data_frames p off end.

Definition sent_frames (s : Client.sentmsg) : list frame :=
  match s with
  | Client.SCtl m => match Encode m with Ok p => [ctl_frame p] | Err _ => [] end
  | Client.SData p off => data_frames p off
  end.

Definition frames {A} (f : A -> list frame) (l : list A) : list frame := concat (f <$> l).

(** The message puts nothing into the [n] bytes at [off]. *)
Definition apart (off n : Z) (o : outmsg) : Prop :=
  match o with
  | OutCtl _ => True
  | OutData d' off' => blen d' = 0 \/ off' + blen d' <= off \/ off + n <= off'
  end.

Section System.
Context {St : Type} `{ObjectStore St}.

Record system := {
  srv : zcopyConn St;
  cli : Client.Client;
  c2s : list frame;
  s2c : list frame;
}.

Definition connect (s : St) (max : Z) (c : Client.Client) : system :=
  {| srv := newZCopyConn s max; cli := c; c2s := []; s2c := [] |}.

(** A step of the service, with [q] left to be received. *)
Definition server_step (v : server) (s : system) (l : label St) (q : list frame) : option system :=
  c' ← exec v (srv s) l;
  Some {| srv := c'; cli := cli s; c2s := q;
          s2c := s2c s ++ frames out_frames (drop (length (out (srv s))) (out c')) |}.

Definition client_step (s : system) (l : Client.label) (q : list frame) : option system :=
  match Client.exec (cli s) l with
  | Some (Some c') =>
    Some {| srv := srv s; cli := c'; s2c := q;
            c2s := c2s s ++ frames sent_frames (drop (length (Client.sent (cli s))) (Client.sent c')) |}
  | _ => None
  end.

(** The receive the service's loop, or the client's, is in. *)
Definition server_recv (m : main_pc) (r : option frame) (ok : bool) : label St :=
  match m with AwaitPayload _ => LPayload r ok | _ => LRecv r ok end.

Definition client_recv (p : Client.recv_pc) (r : option frame) (ok : bool) : Client.label :=
  match p with Client.RBorrow _ => Client.LBorrow r ok | _ => Client.LRecv r end.

Inductive action :=
| AServer (l : label St)        (* a step of the service that receives nothing *)
| AServerRecv (ok : bool)       (* its loop receives the next frame *)
| AServerFail (ok : bool)       (* its receive fails *)
| AClient (l : Client.label)
| AClientRecv (ok : bool)
| AClientFail (ok : bool).

Definition act (v : server) (a : action) (s : system) : option system :=
  match a with
  | AServer (LRecv _ _ | LPayload _ _) => None
  | AServer l => server_step v s l (c2s s)
  | AServerRecv ok =>
    match c2s s with
    | [] => None
    | f :: q => server_step v s (server_recv (main (srv s)) (Some f) ok) q
    end
  | AServerFail ok => server_step v s (server_recv (main (srv s)) None ok) (c2s s)
  | AClient (Client.LRecv _ | Client.LBorrow _ _) => None
  | AClient l => client_step s l (s2c s)
  | AClientRecv ok =>
    match s2c s with
    | [] => None
    | f :: q => client_step s (client_recv (Client.recv (cli s)) (Some f) ok) q
    end
  | AClientFail ok => client_step s (client_recv (Client.recv (cli s)) None ok) (s2c s)
  end.

End System.
Arguments system St : clear implicits.
Arguments action St : clear implicits.

(** ** Counting *)

(** The data frames of a queue, and the credits its control messages grant. *)
Definition frame_data (f : frame) : Z := if f_SharedOffset f <? 0 then 0 else 1.
Definition frame_grant (f : frame) : Z :=
  if f_SharedOffset f <? 0 then grant (LRecv (St := unit) (Some f) true) else 0.

(** The credits a message of the client grants; [hello] alone. *)
Definition hello_credits (s : Client.sentmsg) : Z :=
  match s with
  | Client.SCtl m => if String.eqb (Op m) OpHelloReq then Z.max 0 (Credits m) else 0
  | Client.SData _ _ => 0
  end.
Definition grants (s : Client.sentmsg) : Z := hello_credits s + Client.acks s.

Lemma zsum_replicate {A} (f : A -> Z) n x : zsum f (replicate n x) = Z.of_nat n * f x.
Proof. induction n as [|n IH]; simpl; [done|]. rewrite IH. lia. Qed.

Lemma frames_app {A} (f : A -> list frame) l1 l2 : frames f (l1 ++ l2) = frames f l1 ++ frames f l2.
Proof. unfold frames. by rewrite fmap_app, concat_app. Qed.

Lemma frames_cons {A} (f : A -> list frame) x l : frames f (x :: l) = f x ++ frames f l.
Proof. done. Qed.

Lemma drop_appended {A} (l o : list A) : drop (length l) (l ++ o) = o.
Proof. by rewrite drop_app_length. Qed.

(** ** What a queue holds

    [P] is what is known of a request, [R rq d off] of the data [d] that answers request
    [rq] at [off]. *)

(** A PUT that the service does not refuse. *)
Record put_ok (M : Z) (m : Message) : Prop := {
  put_bucket : TrimSpace (Bucket m) <> EmptyString;
  put_key : TrimSpace (Key m) <> EmptyString;
  put_size : 0 < Size m;
  put_offset : exists off, DataOffset m = Some off /\ 0 <= off;
  put_fits : M <= 0 \/ Size m <= M;
  put_id : ReqID m <> 0;
}.

Inductive requests (P : Message -> Prop) (M : Z) : list frame -> Prop :=
| requests_nil : requests P M []
| requests_ctl m p q :
    P m -> Decode p = Ok m -> Op m <> OpPutReq \/ Size m = 0 -> requests P M q ->
    requests P M (ctl_frame p :: q)
| requests_put m p f q :
    P m -> Decode p = Ok m -> Op m = OpPutReq -> put_ok M m -> 0 <= f_SharedOffset f ->
    requests P M q -> requests P M (ctl_frame p :: f :: q).

Inductive responses (R : Z -> list byte -> Z -> Prop) : list frame -> Prop :=
| responses_nil : responses R []
| responses_ctl m p q :
    Decode p = Ok m -> Op m ∈ [OpHelloResp; OpRespOK; OpRespErr] -> responses R q ->
    responses R (ctl_frame p :: q)
| responses_data p rq d off q :
    Decode p = Ok (get_meta rq (blen d) off) -> 0 <= off -> R rq d off -> responses R q ->
    responses R (ctl_frame p :: {| f_Payload := d; f_SharedOffset := off |} :: q).

Lemma requests_app P M q1 q2 : requests P M q1 -> requests P M q2 -> requests P M (q1 ++ q2).
Proof. 
  intros H1 H2. induction H1; simpl; [done|by eapply requests_ctl|by eapply requests_put].
Qed.

Lemma responses_app R q1 q2 : responses R q1 -> responses R q2 -> responses R (q1 ++ q2).
Proof. 
  intros H1 H2. induction H1; simpl; [done|by eapply responses_ctl|by eapply responses_data].
Qed.

Lemma requests_mono (P P' : Message -> Prop) M q :
  (forall m, P m -> P' m) -> requests P M q -> requests P' M q.
Proof.
  intros HP Hq. induction Hq as [|m p q Hm Hd Ho _ IH|m p f q Hm Hd Ho Hput Hf _ IH];
    [constructor|eapply requests_ctl|eapply requests_put]; eauto.
Qed.

Lemma responses_mono (R R' : Z -> list byte -> Z -> Prop) q :
  (forall rq d off, R rq d off -> R' rq d off) -> responses R q -> responses R' q.
Proof.
  intros HR Hq. induction Hq as [|m p q Hd Ho _ IH|p rq d off q Hd Ho Hr _ IH];
    [constructor|eapply responses_ctl|eapply responses_data]; eauto.
Qed.

(** What is next in the queue, for where the receiving loop stands. *)
Definition server_sync (P : Message -> Prop) (M : Z) (m : main_pc) (q : list frame) : Prop :=
  match m with
  | Looping => requests P M q
  | AwaitPayload msg => P msg /\ exists f q', q = f :: q' /\ 0 <= f_SharedOffset f /\ requests P M q'
  | Closing | ConnClosed => True
  end.

Definition client_sync (R : Z -> list byte -> Z -> Prop) (r : Client.recv_pc) (q : list frame) : Prop :=
  match r with
  | Client.RLoop => responses R q
  | Client.RBorrow msg => exists rq d off q', msg = get_meta rq (blen d) off /\
      q = {| f_Payload := d; f_SharedOffset := off |} :: q' /\ 0 <= off /\ R rq d off /\ responses R q'
  | Client.RDone => True
  end.

Lemma server_sync_app P M m q q' : server_sync P M m q -> requests P M q' -> server_sync P M m (q ++ q').
Proof.
  destruct m as [|msg| |]; simpl; [apply requests_app| |done..].
  intros (HP & f & q1 & -> & Hf & Hq) H'. split; [done|]. exists f, (q1 ++ q').
  split_and!; [done|done|by apply requests_app].
Qed.

Lemma client_sync_app R r q q' : client_sync R r q -> responses R q' -> client_sync R r (q ++ q').
Proof.
  destruct r as [|msg|]; simpl; [apply responses_app| |done].
  intros (rq & d & off & q1 & -> & -> & H1 & H2 & H3) H'. exists rq, d, off, (q1 ++ q').
  split_and!; try done. by apply responses_app.
Qed.

Lemma server_sync_mono (P P' : Message -> Prop) M m q :
  (forall m, P m -> P' m) -> server_sync P M m q -> server_sync P' M m q.
Proof.
  intros HP. destruct m as [|msg| |]; simpl; [by apply requests_mono| |done..].
  intros (H1 & f & q' & -> & H2 & H3). split; [auto|]. exists f, q'.
  split_and!; [done|done|by eapply requests_mono].
Qed.

Lemma client_sync_mono (R R' : Z -> list byte -> Z -> Prop) r q :
  (forall rq d off, R rq d off -> R' rq d off) -> client_sync R r q -> client_sync R' r q.
Proof.
  intros HR. destruct r as [|msg|]; simpl; [by apply responses_mono| |done].
  intros (rq & d & off & q' & -> & -> & H1 & H2 & H3). exists rq, d, off, q'.
  split_and!; try done; [auto|by eapply responses_mono].
Qed.

(** ** The service's side of the invariant *)

Section Facts.
Context {St : Type} `{ObjectStoreLaws St}.
Context (v : server) (M : Z) (Obj : string -> string -> list byte -> Prop).
Implicit Types (z : zcopyConn St) (c : Client.Client) (s : system St).

(** Every object of the store is one of [Obj], and neither empty nor larger than an int. *)
Definition objects_ok (st : St) : Prop :=
  forall b k o, st_GetObject st b k = Some o -> Obj b k (Body o) /\ 0 < blen (Body o) < 2 ^ 63.

(** A message of the client that the service may see. *)
Definition known c (m : Message) : Prop :=
  well_formed m /\ (m = Client.ack_message 1 \/ ClientIds.requested c m).

(** The data [d] at [off] answers request [rq] of the client: a GET that names the
    object and asks for this offset, within its limit. *)
Definition serves c (rq : Z) (d : list byte) (off : Z) : Prop :=
  exists m, ClientIds.requested c m /\ well_formed m /\ Op m = OpGetReq /\ ReqID m = rq /\
    DataOffset m = Some off /\ (Max m = 0 \/ blen d <= Max m) /\
    Obj (TrimSpace (Bucket m)) (TrimSpace (Key m)) d /\ 0 < blen d < 2 ^ 63.

Definition get_ok c (g : get_pc) : Prop :=
  match g with
  | GetStart m => known c m /\ Op m = OpGetReq
  | GetCredit rq d off | GetSend rq d off => serves c rq d off
  | GetDone => True
  end.

Record served c z z' (g : Z) : Prop := {
  sv_out : exists o, out z' = out z ++ o /\ responses (serves c) (frames out_frames o) /\
    Z.max 0 (credits z') + zsum is_sending (gets z') + zsum frame_data (frames out_frames o)
      <= Z.max 0 (credits z) + zsum is_sending (gets z) + g;
  sv_lo : - 2 ^ 63 <= credits z';
  sv_gets : Forall (get_ok c) (gets z');
  sv_max : maxObjectSize z' = maxObjectSize z;
  sv_store : objects_ok (store z');
}.

(** The part of the invariant that speaks of the service alone. *)
Record service_ok c z : Prop := {
  so_lo : - 2 ^ 63 <= credits z;
  so_gets : Forall (get_ok c) (gets z);
  so_store : objects_ok (store z);
  so_max : maxObjectSize z = M;
}.

Lemma replies_frames R o :
  Forall is_reply o -> responses R (frames out_frames o) /\ zsum frame_data (frames out_frames o) = 0.
Proof.
  induction 1 as [|x o (m & p & -> & Hd & Hop) _ [IH1 IH2]]; [split; [constructor|done]|].
  rewrite frames_cons. split; [by eapply responses_ctl|]. rewrite zsum_app, IH2. done.
Qed.

Lemma get_ok_serves_range c rq d off :
  serves c rq d off -> 0 <= rq < 2 ^ 64 /\ blen d < 2 ^ 63 /\ off < 2 ^ 63 /\ 0 < blen d.
Proof.
  intros (m & _ & Hwf & _ & <- & Ho & _ & _ & Hl). pose proof (wf_req _ Hwf).
  pose proof (wf_ints _ Hwf) as Hi. rewrite !Forall_cons, Ho in Hi. simpl in Hi. lia.
Qed.

Lemma known_get c m : known c m -> Op m = OpGetReq -> ClientIds.requested c m /\ well_formed m.
Proof. intros [Hwf [->|Hr]] Hop; [done|]. done. Qed.

Lemma zsum_sending_insert (l : list get_pc) i g g' :
  l !! i = Some g -> zsum is_sending (<[i := g']> l) = zsum is_sending l - is_sending g + is_sending g'.
Proof. apply zsum_insert. Qed.

Lemma Forall_insert {A} (P : A -> Prop) l i x : Forall P l -> P x -> Forall P (<[i := x]> l).
Proof.
  intros Hl Hx. rewrite Forall_forall in *. intros y [->|Hy]%elem_of_insert; [done|by apply Hl].
Qed.

(** What the steps of the run may do: a transport that has sent the meta of an object
    sends its data, and the other users of the store keep its objects sound. *)
Definition server_calm (l : label St) : Prop :=
  match l with
  | LSend _ ok1 ok2 => ok1 = true -> ok2 = true
  | LStore st => objects_ok st
  | _ => True
  end.

Lemma own_served c z l z' :
  exec v z l = Some z' -> server_calm l -> service_ok c z ->
  match l with LRecv _ _ | LPayload _ _ => False | _ => True end ->
  served c z z' 0 /\ (main z' = main z \/ main z' = ConnClosed).
Proof.
  intros Hex Hcalm [Hlo Hgets Hst Hmax] Hown.
  destruct l as [r ok|r ok|i ok|i|i ok1 ok2| |st]; simpl in Hex; try done.
  - destruct (gets z !! i) as [[msg| | |]|] eqn:Ei; [|done..].
    destruct (handleGet z msg ok) as [z1 g1] eqn:Eg. injection Hex as <-.
    pose proof (Forall_lookup_1 _ _ _ _ Hgets Ei) as [Hk Hop].
    destruct (known_get _ _ Hk Hop) as [Hreq Hwf].
    destruct (handleGet_quiet _ _ _ _ _ Eg) as (Hs & Hg & Hc & Hm & _ & _ & _).
    destruct (handleGet_answers _ _ _ _ _ Hwf Eg) as ((o & Ho & Hf) & Hx & Hnext).
    destruct (replies_frames (serves c) o Hf) as [Hresp Hd].
    split; [|left; simpl; by rewrite Hm]. constructor; simpl; try (by rewrite ?Hc, ?Hs, ?Hx).
    + exists o. split; [done|]. split; [done|]. rewrite Hd, Hc, Hg, (zsum_sending_insert _ _ _ _ Ei).
      destruct Hnext as [->|(off & obj & -> & _)]; simpl; lia.
    + rewrite Hg. apply Forall_insert; [done|].
      destruct Hnext as [->|(off & obj & -> & Hoff & Hmx & Hobj)]; [done|]. simpl.
      apply Hst in Hobj as [Hobj Hl]. by exists msg.
  - destruct (gets z !! i) as [[|rq d off| |]|] eqn:Ei; [done| |done..].
    pose proof (Forall_lookup_1 _ _ _ _ Hgets Ei) as Hserves.
    destruct (waitCredit v z) as [[z1 taken]|] eqn:Ew; simpl in Hex; [|done]. injection Hex as <-.
    destruct (waitCredit_same _ _ _ _ Ew) as (Hs & Ho & Hg & Hm & Hcl).
    assert (Hc : - 2 ^ 63 <= credits z1 /\ maxObjectSize z1 = maxObjectSize z /\
      Z.max 0 (credits z1) + (if taken then 1 else 0) <= Z.max 0 (credits z)).
    { unfold waitCredit in Ew. destruct (_ && _) eqn:Eb in Ew; [done|].
      destruct v; destruct (closed z); destruct (credits z <=? 0) eqn:Ec; bool_facts;
        try (destruct (0 <? credits z) eqn:Ec'; bool_facts); simplify_eq/=; try done; lia. }
    destruct Hc as (Hc1 & Hc2 & Hc3).
    split; [|left; simpl; by rewrite Hm]. constructor; simpl; try (by rewrite ?Hs, ?Hc2).
    + exists []. rewrite app_nil_r. split; [done|]. split; [constructor|].
      rewrite Hg, (zsum_sending_insert _ _ _ _ Ei). destruct taken; simpl; lia.
    + rewrite Hg. apply Forall_insert; [done|]. by destruct taken.
  - destruct (gets z !! i) as [[| |rq d off|]|] eqn:Ei; [done|done| |done..]. injection Hex as <-.
    pose proof (Forall_lookup_1 _ _ _ _ Hgets Ei) as Hserves. simpl in Hserves.
    destruct (get_ok_serves_range _ _ _ _ Hserves) as (Hr & Hl & Hoff & Hpos).
    destruct (sendGetPayload_out z rq d off ok1 ok2) as (Hs & Hg & Hc & Hm & _ & _).
    pose proof (sendGetPayload_whole z rq d off ok1 ok2 Hcalm Hr Hl Hoff) as Hout. cbv zeta in Hout.
    assert (Hx : maxObjectSize (sendGetPayload z rq d off ok1 ok2).1 = maxObjectSize z).
    { unfold sendGetPayload, sendControl. by repeat case_match; simplify_eq/=. }
    set (z1 := (sendGetPayload z rq d off ok1 ok2).1) in *. clearbody z1.
    split; [|left; simpl; by rewrite Hm]. constructor; simpl; try (by rewrite ?Hc, ?Hs, ?Hx).
    + rewrite Hc, Hg, (zsum_sending_insert _ _ _ _ Ei). cbn [is_sending]. destruct Hout as [Ho|(p & Ho & H0' & Hd)].
      * exists []. rewrite app_nil_r. split; [done|]. split; [constructor|]. cbn. lia.
      * exists [OutCtl p; OutData d off]. split; [done|]. rewrite !frames_cons. cbn [out_frames]. unfold data_frames.
        rewrite (proj2 (Z.eqb_neq _ _)) by lia. simpl. split.
        -- apply responses_data with rq; [done|done|done|constructor].
        -- unfold frame_data. simpl. rewrite (proj2 (Z.ltb_ge off 0)) by lia. lia.
    + rewrite Hg. by apply Forall_insert.
  - destruct (main z) eqn:Em; [done|done| |done]. destruct (forallb _ _); [|done]. injection Hex as <-.
    split; [|by right]. constructor; simpl; try done. exists []. rewrite app_nil_r.
    split; [done|]. split; [constructor|]. cbn. lia.
  - injection Hex as <-. split; [|by left]. constructor; simpl; try done. exists []. rewrite app_nil_r.
    split; [done|]. split; [constructor|]. cbn. lia.
Qed.

Lemma i64_le x : - 2 ^ 63 <= x -> i64 x <= x.
Proof.
  intros Hx. unfold i64. pose proof (Z.mod_le (x + 2 ^ 63) (2 ^ 64)). lia.
Qed.

(** An answered message, seen by the client. *)
Lemma answers_served c z z' g :
  answers z z' -> service_ok c z -> store z' = store z \/ (exists b, store z' = st_CreateBucket (store z) b) ->
  - 2 ^ 63 <= credits z' -> Z.max 0 (credits z') <= Z.max 0 (credits z) + g -> served c z z' g.
Proof.
  intros [(o & Ho & Hf) Hg _ Hx] [Hlo Hgets Hst Hmax] Hs Hc1 Hc2.
  destruct (replies_frames (serves c) o Hf) as [Hresp Hd]. constructor; try done.
  - exists o. split; [done|]. split; [done|]. rewrite Hd, Hg. lia.
  - by rewrite Hg.
  - destruct Hs as [->|[b ->]]; [done|]. intros b' k ob. rewrite law_get_create. apply Hst.
Qed.

(** The credits a decoded message grants. *)
Definition granted (m : Message) : Z :=
  if String.eqb (Op m) OpHelloReq then (if ReqID m =? 0 then 0 else Z.max 0 (Credits m))
  else if String.eqb (Op m) OpAck then Z.max 0 (Ack m) else 0.

Lemma frame_grant_ctl p m : Decode p = Ok m -> frame_grant (ctl_frame p) = granted m.
Proof. intros Hd. unfold frame_grant, grant. simpl. by rewrite Hd. Qed.

Lemma dispatch_credits z m ok :
  well_formed m -> - 2 ^ 63 <= credits z ->
  - 2 ^ 63 <= credits (dispatch z m ok) /\
  Z.max 0 (credits (dispatch z m ok)) <= Z.max 0 (credits z) + granted m.
Proof.
  intros Hwf Hlo. rewrite credits_dispatch. unfold granted.
  destruct (String.eqb_spec (Op m) OpHelloReq) as [Hop|Hop].
  { destruct (ReqID m =? 0) eqn:Er; simpl; [lia|]. destruct (Credits m <=? 0) eqn:Ec; bool_facts; lia. }
  destruct (String.eqb (Op m) OpAck); [|lia].
  destruct (Ack m <=? 0) eqn:Ea; bool_facts; [lia|].
  pose proof (i64_range (credits z + Ack m)). pose proof (i64_le (credits z + Ack m)). lia.
Qed.

Lemma loop_store z m ok :
  store (dispatch z m ok) = store z \/ exists b, store (dispatch z m ok) = st_CreateBucket (store z) b.
Proof. apply (quiet_store _ _ (dispatch_quiet z m ok)). Qed.

(** The loop on the next frame of a queue in order. *)
Lemma recv_served c z f q ok z' :
  service_ok c z -> server_sync (known c) M (main z) (f :: q) ->
  exec v z (server_recv (main z) (Some f) ok) = Some z' ->
  served c z z' (frame_grant f) /\ server_sync (known c) M (main z') q.
Proof.
  intros Hok Hsync Hex. pose proof Hok as [Hlo Hgets Hst Hmax].
  destruct (main z) as [|msg| |] eqn:Em; simpl in Hsync, Hex; rewrite Em in Hex; simplify_eq.
  - assert (Hserve : forall p m, Decode p = Ok m -> serveConn z (Some (ctl_frame p)) ok = dispatch z m ok).
    { intros p m Hd. unfold serveConn, recvControl. simpl. by rewrite Hd. }
    inversion Hsync as [|m p q' Hm Hd Hput Hq|m p f' q' Hm Hd Hop Hput Hf Hq]; subst.
    + rewrite (Hserve p m Hd), (frame_grant_ctl p m Hd). pose proof Hm as [Hwf _].
      destruct (dispatch_credits z m ok Hwf Hlo) as [Hc1 Hc2].
      destruct (dispatch_answers z m ok Hwf Em) as [Ha|[(Hop & Hr & Hz)|(Hop & Hsz & _)]].
      * split; [by apply answers_served; auto using loop_store|].
        destruct (an_main _ _ Ha) as [-> | ->]; done.
      * rewrite Hz. split; [|done]. rewrite Hz in Hc1, Hc2. constructor; simpl; try done.
        -- exists []. rewrite app_nil_r. split; [done|]. split; [constructor|].
           rewrite zsum_app. simpl in *. cbn. lia.
        -- apply Forall_app. split; [done|]. by apply Forall_singleton.
      * destruct Hput as [Hput|Hput]; [done|lia].
    + rewrite (Hserve p m Hd), (frame_grant_ctl p m Hd). destruct Hput as [Hb Hk Hs (off & Ho & Hoff) Hfit Hr].
      rewrite <- Hmax in Hfit. rewrite (put_is_awaited z m off) by done.
      split; [|simpl; split; [done|]; by exists f', q']. constructor; simpl; try done.
      exists []. rewrite app_nil_r. split; [done|]. split; [constructor|].
      unfold granted. rewrite Hop. cbn. lia.
  - destruct Hsync as ((Hwf & _) & f' & q' & [= <- <-] & Hf & Hq).
    pose proof (payload_answers z msg (Some f) ok Hwf) as Ha.
    destruct (payload_facts z msg (Some f) ok) as (Hc & _ & _).
    assert (Hg : frame_grant f = 0) by (unfold frame_grant; by rewrite (proj2 (Z.ltb_ge _ _))).
    rewrite Hg. split.
    + apply answers_served; [done|done|apply (quiet_store _ _ (payload_quiet z msg (Some f) ok))|rewrite Hc; lia..].
    + destruct (an_main _ _ Ha) as [-> | ->]; done.
Qed.

Lemma fail_served c z ok z' :
  service_ok c z -> exec v z (server_recv (main z) None ok) = Some z' ->
  served c z z' 0 /\ main z' = Closing.
Proof.
  intros [Hlo Hgets Hst Hmax] Hex.
  assert (Hz : z' = with_main (close z) Closing).
  { destruct (main z) eqn:Em; simpl in Hex; rewrite Em in Hex; by simplify_eq. }
  subst z'. split; [|done]. constructor; simpl; try done. exists []. rewrite app_nil_r.
  split; [done|]. split; [constructor|]. cbn. lia.
Qed.

(** ** The client's side of the invariant *)

(** Arguments of Go's types, names that are UTF-8, and a PUT within the service's limit. *)
Definition op_ok (o : Client.op) : Prop :=
  match o with
  | Client.OHello => True
  | Client.OEnsure b => utf8 b
  | Client.OPut b k ref => utf8 b /\ utf8 k /\ int64 (Client.Offset ref) /\ int64 (Client.RefSize ref) /\
      (M <= 0 \/ Client.RefSize ref <= M)
  | Client.OGet b k off max => utf8 b /\ utf8 k /\ int64 off /\ int64 max
  end.

Definition client_calm (l : Client.label) : Prop :=
  match l with
  | Client.LStart o => op_ok o
  | Client.LSend _ (Client.SentInPart _) => False
  | _ => True
  end.

Record config_ok c : Prop := {
  cf_len : blen (Client.shared c) < 2 ^ 63;
  cf_fp : int64 (Client.framePayload c);
  cf_mc : int64 (Client.maxCredits c);
}.

(** A result with data: the meta and the frame of an answer to this request. *)
Definition good_result c (m : Message) (f : frame) : Prop :=
  exists d off, m = get_meta (ReqID m) (blen d) off /\
    f = {| f_Payload := d; f_SharedOffset := off |} /\ 0 <= off /\ serves c (ReqID m) d off.

Record client_ok c : Prop := {
  co_chans : Client.chans_ok (Client.pending c) (Client.chans c);
  co_acks : Client.acks_ok c;
  co_ids : ClientIds.ids_ok c;
  co_config : config_ok c;
  co_ops i o r ch : Client.calls c !! i = Some (Client.CallSend o r ch) -> op_ok o;
  co_results ch res b : ClientIds.result_at c ch res -> Client.ir_err res = None ->
    Client.ir_borrowed res = Some b -> good_result c (Client.ir_msg res) (Client.b_frame b);
  co_owner i k r ch res : Client.calls c !! i = Some k -> ClientIds.chan_of k = Some (r, ch) ->
    ClientIds.result_at c ch res -> Client.ir_err res = None -> ReqID (Client.ir_msg res) = r;
}.

(** What a step of the client adds to the queue of requests. *)
Record asked c c' : Prop := {
  as_sent : exists o, Client.sent c' = Client.sent c ++ o /\ requests (known c') M (frames sent_frames o) /\
    zsum frame_grant (frames sent_frames o) = zsum grants o;
  as_known m : ClientIds.requested c m -> ClientIds.requested c' m;
}.

Lemma known_mono c c' m : asked c c' -> known c m -> known c' m.
Proof. intros [_ Hk] [Hwf [->|Hr]]; split; auto. Qed.

Lemma serves_mono c c' rq d off : asked c c' -> serves c rq d off -> serves c' rq d off.
Proof. intros [_ Hk] (m & Hr & Hrest). exists m. auto. Qed.

Lemma get_ok_mono c c' g : asked c c' -> get_ok c g -> get_ok c' g.
Proof.
  intros Ha. destruct g; simpl; [|by apply serves_mono..|done].
  intros [Hk Ho]. split; [by eapply known_mono|done].
Qed.

Lemma ack_wf : well_formed (Client.ack_message 1).
Proof.
  constructor; simpl; try (by apply utf8_all_ascii); try lia.
  repeat (apply Forall_cons; split; [lia|]). constructor.
Qed.

Lemma known_frame c m : known c m -> Op m <> EmptyString ->
  exists p, sent_frames (Client.SCtl m) = [ctl_frame p] /\ Decode p = Ok m.
Proof.
  intros [Hwf _] Hop. destruct (Decode_Encode m Hwf Hop) as (p & Hp & Hd). exists p. simpl. by rewrite Hp.
Qed.

(** The credits of a control message and of its frame agree. *)
Lemma grants_granted m : Op m <> OpHelloReq \/ ReqID m <> 0 -> 0 <= Ack m -> grants (Client.SCtl m) = granted m.
Proof.
  intros Hr Ha. unfold grants, granted, hello_credits. cbn [Client.acks].
  destruct (String.eqb_spec (Op m) OpHelloReq) as [He|Hne]; simpl.
  - destruct Hr as [Hr|Hr]; [done|]. apply Z.eqb_neq in Hr. rewrite He, Hr. cbn. lia.
  - destruct (String.eqb _ _); lia.
Qed.

Lemma acks_asked c n :
  requests (known c) M (frames sent_frames (replicate n (Client.SCtl (Client.ack_message 1)))) /\
  zsum frame_grant (frames sent_frames (replicate n (Client.SCtl (Client.ack_message 1)))) =
    zsum grants (replicate n (Client.SCtl (Client.ack_message 1))).
Proof.
  assert (Hk : known c (Client.ack_message 1)) by (split; [apply ack_wf|by left]).
  destruct (known_frame c _ Hk) as (p & Hp & Hd); [done|].
  induction n as [|n [IH1 IH2]]; [split; [constructor|done]|]. cbn [replicate].
  rewrite frames_cons, Hp. split; [eapply requests_ctl; [done|done|by left|done]|].
  cbn [zsum app]. rewrite IH2, (frame_grant_ctl _ _ Hd), grants_granted by (simpl; (lia || by left)). done.
Qed.

Lemma keeps_asked c c' : ClientIds.keeps c c' -> asked c c'.
Proof.
  intros Hk. destruct (ClientIds.keeps_sent _ _ Hk) as [n Hn]. destruct (acks_asked c' n) as [H1 H2].
  constructor; [by exists (replicate n (Client.SCtl (Client.ack_message 1)))|].
  intros m Hm. by apply (ClientIds.requested_acks _ _ _ _ Hn).
Qed.

Lemma asked_same c c' : Client.sent c' = Client.sent c -> asked c c'.
Proof.
  intros Hs. constructor.
  - exists []. rewrite app_nil_r. split; [done|]. split; [constructor|done].
  - intros m. unfold ClientIds.requested. by rewrite Hs.
Qed.

(** The request of a checked call is well formed. *)
Lemma request_wf c o r :
  config_ok c -> op_ok o -> 0 < r < 2 ^ 64 -> well_formed (Client.request_of c o r).
Proof.
  intros [Hl Hfp Hmc] Hop Hr. unfold int64 in *.
  assert (Hcr : forall cr, int64 cr -> Forall (fun x => - 2 ^ 63 <= x < 2 ^ 63) [cr; 0; 0; 0; 0]).
  { intros cr Hcr. repeat (apply Forall_cons; split; [done|]). constructor. }
  destruct o as [|b|b k ref|b k off mx]; simpl in *; constructor; simpl; try done;
    try (by apply utf8_all_ascii); try lia; try tauto; try (by apply Hcr).
  - apply Hcr. destruct (Client.safe_credits_bounds (blen (Client.shared c))
      (Client.connFramePayloadHint (Client.framePayload c)) (Client.maxCredits c)) as (H1 & H2 & _).
    + pose proof (blen_nonneg (Client.shared c)). lia.
    + unfold Client.connFramePayloadHint. destruct (_ <? _); lia.
    + unfold int64. destruct (Client.maxCredits c <=? 0); unfold Client.defaultMaxCredits in *; lia.
  - unfold int64 in Hop. repeat (apply Forall_cons; split; [lia|]). constructor.
  - unfold int64 in Hop. repeat (apply Forall_cons; split; [lia|]). constructor.
Qed.

(** A PUT that the client has checked is one that the service waits for. *)
Lemma put_request_ok c b k ref r :
  config_ok c -> op_ok (Client.OPut b k ref) -> Client.precheck c (Client.OPut b k ref) = None -> 0 < r ->
  0 <= Client.Offset ref /\ 0 <= Client.RefSize ref /\
  blen (Client.slice (Client.shared c) (Client.Offset ref) (Client.RefSize ref)) = Client.RefSize ref /\
  (0 < Client.RefSize ref -> put_ok M (Client.request_of c (Client.OPut b k ref) r)).
Proof.
  intros Hcf (_ & _ & Ho & Hs & Hfit) Hpre Hr. unfold int64 in *. simpl in Hpre.
  destruct (Client.validateRef _ ref) eqn:Ev in Hpre; [done|].
  destruct (String.eqb (TrimSpace b) "") eqn:Eb; [done|].
  destruct (String.eqb (TrimSpace k) "") eqn:Ek; [done|].
  pose proof (blen_nonneg (Client.shared c)) as Hpos0. pose proof (cf_len _ Hcf) as Hlen.
  apply Client.validateRef_exact in Ev as (H1 & H2 & H3); [|lia..].
  split_and!; [done|done| |].
  - unfold Client.slice, blen in *. rewrite length_take, length_drop. lia.
  - intros Hpos. constructor; simpl; try done; try lia.
    + by apply String.eqb_neq. + by apply String.eqb_neq. + by exists (Client.Offset ref).
Qed.

Lemma request_op c o r : Op (Client.request_of c o r) <> EmptyString /\ 0 <= Ack (Client.request_of c o r).
Proof. by destruct o. Qed.

Lemma send_asked c i o r ch out :
  client_ok c -> Client.calls c !! i = Some (Client.CallSend o r ch) -> Client.nextReqID c < 2 ^ 64 ->
  client_calm (Client.LSend i out) -> asked c (Client.send_call c i o r ch out).
Proof.
  intros [Hch Hac Hids Hcf Hops _ _] Hi Hfit Hcalm. apply Hops in Hi as Hop.
  pose proof (ClientIds.ids_calls _ Hids _ _ Hi) as (Hr & Hpre & _).
  destruct (ClientIds.send_call_facts c i o r ch out) as (Hs & _).
  set (c' := Client.send_call c i o r ch out) in *. constructor.
  2: { intros m [Hm Hack]. split; [|done]. rewrite Hs. set_solver. }
  exists (ClientIds.emitted c o r out). split; [done|].
  assert (Hwf : well_formed (Client.request_of c o r)) by (apply request_wf; (done || lia)).
  destruct (request_op c o r) as [Hne Hack].
  assert (Hgrant : grants (Client.SCtl (Client.request_of c o r)) = granted (Client.request_of c o r)).
  { apply grants_granted; [right; rewrite ClientIds.request_id; lia|done]. }
  destruct (decide (ClientIds.emitted c o r out = [])) as [->|Hemit]; [split; [constructor|done]|].
  assert (He : ClientIds.emitted c o r out = Client.SCtl (Client.request_of c o r) :: Client.payload_of c o)
    by (by destruct out).
  assert (Hk : known c' (Client.request_of c o r)).
  { split; [done|]. right. split; [|apply ClientIds.request_nonack]. rewrite Hs, He. set_solver. }
  destruct (known_frame c' _ Hk Hne) as (p & Hp & Hd). rewrite He, frames_cons, Hp. clear He Hemit Hp.
  cbn [app zsum]. rewrite Hgrant, (frame_grant_ctl _ _ Hd).
  destruct o as [|b|b k ref|b k off mx]; cbn [Client.payload_of];
    try (split; [eapply requests_ctl; [done|done|by left|constructor]|done]).
  destruct (put_request_ok c b k ref r Hcf Hop Hpre ltac:(lia)) as (H1 & H2 & H3 & H4).
  rewrite frames_cons. cbn [sent_frames]. unfold data_frames. rewrite H3. cbn [zsum].
  destruct (Z.eqb_spec (Client.RefSize ref) 0) as [E|E]; cbn [app zsum].
  - split; [eapply requests_ctl; [done|done|by right|constructor]|done].
  - split.
    + eapply requests_put; [done|done|done|apply H4; lia|done|constructor].
    + unfold frame_grant at 1. simpl. by rewrite (proj2 (Z.ltb_ge _ _)).
Qed.

Lemma exec_asked c l c' :
  Client.exec c l = Some (Some c') -> client_ok c -> Client.nextReqID c < 2 ^ 64 -> client_calm l -> asked c c'.
Proof.
  intros Hex%ClientIds.exec_shape Hok Hfit Hcalm. destruct l; try (by apply keeps_asked).
  - subst. apply asked_same. unfold Client.start_call. by destruct (Client.precheck c o).
  - destruct Hex as (o & r' & ch & Hi & ->). by apply send_asked.
  - destruct Hex as (o & r' & ch & c1 & q & Hi & -> & Hk). apply keeps_asked in Hk as [Hs Hm].
    by constructor.
Qed.

Lemma good_result_mono c c' m f : asked c c' -> good_result c m f -> good_result c' m f.
Proof. intros Ha (d & off & Hm & Hf & H0' & Hs). exists d, off. split_and!; try done. by eapply serves_mono. Qed.

(** [client_ok] along a step, given what its results are. *)
Lemma client_ok_step c l c' :
  Client.exec c l = Some (Some c') -> client_ok c -> Client.nextReqID c + 1 < 2 ^ 64 -> client_calm l ->
  (forall ch res b, ClientIds.result_at c' ch res -> Client.ir_err res = None ->
    Client.ir_borrowed res = Some b -> good_result c' (Client.ir_msg res) (Client.b_frame b)) ->
  (forall ch res, ClientIds.result_at c' ch res -> Client.ir_err res = None ->
    ClientIds.result_at c ch res \/ Client.pending c !! ReqID (Client.ir_msg res) = Some ch) ->
  client_ok c' /\ asked c c'.
Proof.
  intros Hex Hok Hfit Hcalm Hres Hnew. pose proof Hok as [Hch Hac Hids Hcf Hops Hre Hown].
  assert (Ha : asked c c') by (eapply exec_asked; (done || lia)).
  split; [|done]. constructor.
  - destruct (Client.exec_chans c l Hch) as (r & Hr & Hc). rewrite Hex in Hr. by simplify_eq/=.
  - apply (Client.exec_acks c l (Some c') Hex Hac).
  - by eapply ClientIds.exec_ids.
  - destruct Hcf as [H1 H2 H3]. destruct (ClientIds.exec_config _ _ _ Hex) as [H4 H5].
    constructor; [by rewrite (ClientIds.exec_len _ _ _ Hex)|by rewrite H4|by rewrite H5].
  - intros i o r ch Hi. destruct (ClientIds.exec_unsent _ _ _ _ _ _ _ Hex Hi) as [Hi'| ->]; [by eapply Hops|done].
  - done.
  - intros i k r ch res Hi Hk Hr He.
    destruct (ClientIds.exec_chan_of _ _ _ _ _ _ Hex Hi Hk) as [(k' & Hi' & Hk')|[Hlen Hcs]].
    + destruct (Hnew ch res Hr He) as [Hold|Hp]; [by eapply Hown|].
      pose proof (ClientIds.ids_calls _ Hids _ _ Hi') as Hcall.
      destruct k' as [o' r' ch'|o' r' ch'|q]; simplify_eq/=; destruct Hcall as (_ & _ & _ & Howns); by apply Howns.
    + exfalso. destruct Hr as [cl Hr]. rewrite Hcs in Hr. simpl in Hlen. subst ch.
      by rewrite list_lookup_middle in Hr.
Qed.

Lemma own_client c l c' :
  Client.exec c l = Some (Some c') -> client_ok c -> Client.nextReqID c + 1 < 2 ^ 64 -> client_calm l ->
  match l with Client.LRecv _ | Client.LBorrow _ _ => False | _ => True end ->
  client_ok c' /\ asked c c' /\ ClientIds.passive c c'.
Proof.
  intros Hex Hok Hfit Hcalm Hl. assert (Hp : ClientIds.passive c c').
  { pose proof (ClientIds.exec_passive _ _ _ Hex) as Hp. by destruct l. }
  assert (Ha : asked c c') by (eapply exec_asked; (done || lia)). cut (client_ok c'); [by intros; split_and!|].
  eapply (client_ok_step c); try done.
  - intros ch res b Hr He Hb. apply (ClientIds.ps_results _ _ Hp) in Hr.
    apply (good_result_mono c); [done|]. by eapply (co_results c Hok).
  - intros ch res Hr _. left. by apply (ClientIds.ps_results _ _ Hp).
Qed.

Lemma fail_client c ok c' :
  Client.exec c (client_recv (Client.recv c) None ok) = Some (Some c') -> client_ok c ->
  Client.nextReqID c + 1 < 2 ^ 64 ->
  client_ok c' /\ asked c c' /\ Client.recv c' = Client.RDone /\ Client.nextBorrow c' = Client.nextBorrow c.
Proof.
  intros Hex Hok Hfit. assert (Hf : exists e, Client.recv_fail c e = Some c').
  { destruct (Client.recv c) eqn:Er; simpl in Hex; rewrite Er in Hex; simpl in Hex; try done;
      exists Client.ERecv; destruct (Client.recv_fail c Client.ERecv); by simplify_eq/=. }
  destruct Hf as [e Hf]. destruct (ClientIds.recv_fail_results _ _ _ Hf) as (Hr & Hn & _ & Hres).
  assert (Ha : asked c c') by (apply keeps_asked; by eapply ClientIds.keeps_recv_fail).
  cut (client_ok c'); [by intros; split_and!|].
  eapply (client_ok_step c); try done.
  - by destruct (Client.recv c).
  - intros ch res b Hra He Hb. apply Hres in Hra; [|done].
    apply (good_result_mono c); [done|]. by eapply (co_results c Hok).
  - intros ch res Hra He. left. by apply Hres.
Qed.

Lemma recv_reply c p m c' :
  Decode p = Ok m -> Op m ∈ [OpHelloResp; OpRespOK; OpRespErr] ->
  Client.recv_control c (Some (ctl_frame p)) = Some c' ->
  exists b, Client.deliver c (ReqID m)
    {| Client.ir_msg := m; Client.ir_borrowed := None; Client.ir_err := None |} = Some (c', b).
Proof.
  intros Hd Hop Hr. unfold Client.recv_control in Hr. simpl in Hr. rewrite Hd in Hr.
  assert (Hb : String.eqb (Op m) OpHelloResp || String.eqb (Op m) OpRespOK || String.eqb (Op m) OpRespErr = true).
  { rewrite !elem_of_cons, elem_of_nil in Hop. by destruct Hop as [->|[->|[->|[]]]]. }
  rewrite Hb in Hr. destruct (Client.deliver _ _ _) as [[c1 b]|]; simplify_eq/=. by exists b.
Qed.

(** The client's loop on the next frame of a queue in order: a meta is followed by its
    data, and a result is a reply or the answer to the request it names. *)
Lemma recv_client c f q ok c' :
  client_sync (serves c) (Client.recv c) (f :: q) ->
  Client.exec c (client_recv (Client.recv c) (Some f) ok) = Some (Some c') -> client_ok c ->
  Client.nextReqID c + 1 < 2 ^ 64 ->
  client_ok c' /\ asked c c' /\ client_sync (serves c') (Client.recv c') q /\
  Z.of_nat (Client.nextBorrow c') = Z.of_nat (Client.nextBorrow c) + frame_data f.
Proof.
  intros Hsync Hex Hok Hfit. pose proof (co_results c Hok) as Hold.
  assert (Ha : asked c c') by (eapply exec_asked; [done|done|lia|]; by destruct (Client.recv c)).
  cut ((client_sync (serves c) (Client.recv c') q /\
    Z.of_nat (Client.nextBorrow c') = Z.of_nat (Client.nextBorrow c) + frame_data f) /\
    (forall ch res b, ClientIds.result_at c' ch res -> Client.ir_err res = None ->
      Client.ir_borrowed res = Some b -> good_result c (Client.ir_msg res) (Client.b_frame b)) /\
    (forall ch res, ClientIds.result_at c' ch res -> Client.ir_err res = None ->
      ClientIds.result_at c ch res \/ Client.pending c !! ReqID (Client.ir_msg res) = Some ch)).
  { intros ([Hq Hn] & Hres & Hnew).
    destruct (client_ok_step c _ c' Hex Hok Hfit) as [Hok' _]; [by destruct (Client.recv c)| |done|].
    - intros ch res b H1 H2 H3. by eapply good_result_mono, Hres.
    - split_and!; try done. eapply client_sync_mono; [|done]. intros rq d off. by apply serves_mono. }
  clear Ha. destruct (Client.recv c) as [|msg|] eqn:Er; cbn [client_recv Client.exec client_sync] in Hsync, Hex;
    rewrite Er in Hex; [| |done].
  - destruct (Client.recv_control c (Some f)) as [c1|] eqn:Ec; simplify_eq/=.
    inversion Hsync as [|m p q' Hd Hop Hq|p rq d off q' Hd Hoff Hr Hq]; subst.
    + destruct (recv_reply c p m c' Hd Hop Ec) as [b Hdel].
      destruct (ClientIds.deliver_results _ _ _ _ _ Hdel) as (H1 & H2 & _ & H4).
      rewrite H1, H2, Er. split; [split; [done|by cbn; lia]|]. split.
      * intros ch res b' Hra He Hb. apply H4 in Hra as [Hra|[-> _]]; [by eapply Hold|done].
      * intros ch res Hra He. apply H4 in Hra as [Hra|[-> Hp]]; [by left|by right].
    + unfold Client.recv_control in Ec. simpl in Ec. rewrite Hd in Ec. simpl in Ec. simplify_eq/=.
      split; [split; [by exists rq, d, off, q'|by cbn; lia]|]. split; [done|]. intros ch res Hra _. by left.
  - destruct Hsync as (rq & d & off & q' & -> & [= -> ->] & Hoff & Hr & Hq).
    unfold Client.recv_borrow in Hex. set (b := {| Client.b_id := _ |}) in Hex.
    set (c1 := Client.upd_borrow _ _ _) in Hex.
    destruct (Client.deliver c1 _ _) as [[c2 delivered]|] eqn:Hdel; simplify_eq/=.
    destruct (ClientIds.deliver_results _ _ _ _ _ Hdel) as (H1 & H2 & _ & H4).
    assert (Hlast : ClientIds.passive c2 (if delivered then c2 else Client.release_ack c2 b ok))
      by (destruct delivered; [done|apply ClientIds.passive_release_ack]).
    destruct Hlast as [H5 H6 _ H7]. rewrite H5, H6, H1, H2.
    split; [split; [done|]|].
    { unfold frame_data. simpl. rewrite (proj2 (Z.ltb_ge off 0)) by done. lia. }
    split.
    + intros ch res b' Hra He Hb. apply H7, H4 in Hra as [Hra|[-> _]]; [by eapply Hold|].
      simplify_eq/=. by exists d, off.
    + intros ch res Hra He. apply H7, H4 in Hra as [Hra|[-> Hp]]; [by left|by right].
Qed.

(** ** The invariant *)

Record Inv s : Prop := {
  inv_srv : service_ok (cli s) (srv s);
  inv_cli : client_ok (cli s);
  inv_c2s : server_sync (known (cli s)) M (main (srv s)) (c2s s);
  inv_s2c : client_sync (serves (cli s)) (Client.recv (cli s)) (s2c s);
  inv_credits : Z.max 0 (credits (srv s)) + zsum is_sending (gets (srv s)) + zsum frame_data (s2c s) +
    Z.of_nat (Client.nextBorrow (cli s)) + zsum frame_grant (c2s s) <= zsum grants (Client.sent (cli s));
}.

Definition calm (a : action St) : Prop :=
  match a with
  | AServer l => server_calm l
  | AClient l => client_calm l
  | _ => True
  end.

Lemma server_inv s l q g z' s' :
  server_step v s l q = Some s' -> exec v (srv s) l = Some z' -> Inv s ->
  served (cli s) (srv s) z' g -> server_sync (known (cli s)) M (main z') q ->
  zsum frame_grant (c2s s) = g + zsum frame_grant q -> Inv s'.
Proof.
  intros Hstep Hex [[Hlo Hgets Hst Hmax] Hcli Hc Hs Hcr] [(o & Ho & Hresp & Hcount) Hlo' Hgets' Hmax' Hst'] Hq Hg.
  unfold server_step in Hstep. rewrite Hex in Hstep. simplify_eq/=. rewrite Ho, drop_appended.
  constructor; simpl; try done.
  - constructor; try done. congruence.
  - by apply client_sync_app.
  - rewrite zsum_app. lia.
Qed.

Lemma client_inv s l q d c' s' :
  client_step s l q = Some s' -> Client.exec (cli s) l = Some (Some c') -> Inv s ->
  client_ok c' -> asked (cli s) c' -> client_sync (serves c') (Client.recv c') q ->
  Z.of_nat (Client.nextBorrow c') = Z.of_nat (Client.nextBorrow (cli s)) + d ->
  zsum frame_data (s2c s) = d + zsum frame_data q -> Inv s'.
Proof.
  intros Hstep Hex [[Hlo Hgets Hst Hmax] Hcli Hc Hs Hcr] Hok Ha Hq Hn Hd.
  unfold client_step in Hstep. rewrite Hex in Hstep. simplify_eq/=.
  destruct (as_sent _ _ Ha) as (o & Ho & Hreq & Hgr). rewrite Ho, drop_appended.
  constructor; simpl; try done.
  - constructor; try done. apply (Forall_impl _ _ _ Hgets). intros g. by apply get_ok_mono.
  - apply server_sync_app; [|done]. eapply server_sync_mono; [|done]. intros m. by apply known_mono.
  - rewrite Ho, !zsum_app. lia.
Qed.

Definition of_server (a : action St) : bool :=
  match a with AServer _ | AServerRecv _ | AServerFail _ => true | _ => false end.

Lemma server_act_inv a s s' :
  calm a -> Inv s -> act v a s = Some s' -> of_server a = true ->
  Inv s' /\ cli s' = cli s.
Proof.
  intros Hcalm HI Hact Ha.
  assert (Hcli : forall l q, server_step v s l q = Some s' -> exists z', exec v (srv s) l = Some z' /\ cli s' = cli s).
  { intros l q Hs. unfold server_step in Hs. destruct (exec v (srv s) l) as [z'|]; simplify_eq/=. by exists z'. }
  destruct a as [l|ok|ok|l|ok|ok]; try done; simpl in Hact.
  - assert (Hown : match l with LRecv _ _ | LPayload _ _ => False | _ => True end /\
      server_step v s l (c2s s) = Some s') by (by destruct l).
    destruct Hown as [Hown Hs]. destruct (Hcli _ _ Hs) as (z' & Hex & Hc). split; [|done].
    destruct (own_served (cli s) _ _ _ Hex Hcalm (inv_srv _ HI) Hown) as [Hsv Hm].
    eapply server_inv; [done|done|done|done| |lia].
    destruct Hm as [-> | ->]; [apply (inv_c2s _ HI)|done].
  - destruct (c2s s) as [|f q] eqn:Eq; [done|]. destruct (Hcli _ _ Hact) as (z' & Hex & Hc). split; [|done].
    pose proof (inv_c2s _ HI) as Hsync. rewrite Eq in Hsync.
    destruct (recv_served _ _ _ _ _ _ (inv_srv _ HI) Hsync Hex) as [Hsv Hq].
    eapply server_inv; [done..|]. by rewrite Eq.
  - destruct (Hcli _ _ Hact) as (z' & Hex & Hc). split; [|done].
    destruct (fail_served (cli s) _ _ _ (inv_srv _ HI) Hex) as [Hsv Hm].
    eapply server_inv; [done|done|done|done|by rewrite Hm|lia].
Qed.

Lemma client_act_inv a s s' :
  calm a -> Inv s -> Client.nextReqID (cli s) + 1 < 2 ^ 64 -> act v a s = Some s' ->
  of_server a = false ->
  Inv s' /\ exists l, Client.exec (cli s) l = Some (Some (cli s')).
Proof.
  intros Hcalm HI Hfit Hact Ha.
  assert (Hcli : forall l q, client_step s l q = Some s' ->
    exists c', Client.exec (cli s) l = Some (Some c') /\ cli s' = c').
  { intros l q Hs. unfold client_step in Hs. destruct (Client.exec (cli s) l) as [[c'|]|]; simplify_eq/=. by exists c'. }
  destruct a as [l|ok|ok|l|ok|ok]; try done; simpl in Hact.
  - assert (Hown : match l with Client.LRecv _ | Client.LBorrow _ _ => False | _ => True end /\
      client_step s l (s2c s) = Some s') by (by destruct l).
    destruct Hown as [Hown Hs]. destruct (Hcli _ _ Hs) as (c' & Hex & Hc).
    split; [|exists l; by rewrite Hc].
    destruct (own_client _ _ _ Hex (inv_cli _ HI) Hfit Hcalm Hown) as (Hok & Has & [Hr Hn _ _]).
    eapply (client_inv _ _ _ 0); [done..| |by rewrite Hn, Z.add_0_r|done].
    rewrite Hr. eapply client_sync_mono; [|apply (inv_s2c _ HI)]. intros rq d off. by apply serves_mono.
  - destruct (s2c s) as [|f q] eqn:Eq; [done|]. destruct (Hcli _ _ Hact) as (c' & Hex & Hc).
    split; [|eexists; by rewrite Hc].
    pose proof (inv_s2c _ HI) as Hsync. rewrite Eq in Hsync.
    destruct (recv_client _ _ _ _ _ Hsync Hex (inv_cli _ HI) Hfit) as (Hok & Has & Hq & Hn).
    eapply client_inv; [done..|]. by rewrite Eq.
  - destruct (Hcli _ _ Hact) as (c' & Hex & Hc). split; [|eexists; by rewrite Hc].
    destruct (fail_client _ _ _ Hex (inv_cli _ HI) Hfit) as (Hok & Has & Hr & Hn).
    eapply (client_inv _ _ _ 0); [done..|by rewrite Hr|by rewrite Hn, Z.add_0_r|done].
Qed.

Lemma act_inv a s s' :
  calm a -> Inv s -> Client.nextReqID (cli s) + 1 < 2 ^ 64 -> act v a s = Some s' ->
  Inv s' /\ Client.nextReqID (cli s') <= Client.nextReqID (cli s) + 1.
Proof.
  intros Hcalm HI Hfit Hact.
  destruct (of_server a) eqn:Ha.
  - destruct (server_act_inv _ _ _ Hcalm HI Hact Ha) as [HI' ->]. split; [done|lia].
  - destruct (client_act_inv _ _ _ Hcalm HI Hfit Hact Ha) as [HI' [l Hex]]. split; [done|].
    apply (ClientIds.exec_next _ _ _ Hex (co_ids _ (inv_cli _ HI)) Hfit).
Qed.

Lemma connect_inv st mem fp mc :
  objects_ok st -> blen mem < 2 ^ 63 -> int64 fp -> int64 mc ->
  Inv (connect st M (Client.newClient mem fp mc)).
Proof.
  intros Hst Hm Hfp Hmc. constructor; simpl; try constructor; try done.
  - constructor; simpl; try done; intros; try (unfold ClientIds.requested in *; set_solver).
  - intros ch res b [cl Hr]. simpl in Hr. by rewrite lookup_nil in Hr.
Qed.

(** The states of the composition: those a run of calm steps reaches from a new
    connection, request ids having not come round. *)
Definition runs mem fp mc st (l : list (action St)) s : Prop :=
  Forall calm l /\ Z.of_nat (length l) + 1 < 2 ^ 64 /\ objects_ok st /\
  blen mem < 2 ^ 63 /\ int64 fp /\ int64 mc /\
  run_by (act v) l (connect st M (Client.newClient mem fp mc)) = Some s.

Lemma runs_inv mem fp mc st l s :
  runs mem fp mc st l s -> Inv s /\ Client.nextReqID (cli s) + 1 < 2 ^ 64.
Proof.
  intros (Hl & Hlen & Hst & Hm & Hfp & Hmc & Hrun).
  destruct (run_inv_within (act v) Inv calm (fun s => Client.nextReqID (cli s)) (2 ^ 64) l
    (connect st M (Client.newClient mem fp mc)) s) as [HI Hn]; [|done|by apply connect_inv|simpl; lia|done|].
  - intros a s1 s2. apply act_inv.
  - simpl in Hn. split; [done|lia].
Qed.
End Facts.
