(* ===== verification/EndToEnd.v ===== *)
(** * End to end: a client and a service

    What the composition of System.v promises: the flow control of both ends together,
    the bytes a GET returns, as they came and as they stand in the shared region, one GET
    from the call to its release; and two ways in which a connection loses its place in
    the stream of messages. *)

From S2P Require Import Prelude Trans StoreIface Json ZcopyProto ZcopyServer ZcopySync System.
From S2P Require Client ClientIds LoadedStore.

#[local] Arguments Encode : simpl never.
#[local] Arguments Decode : simpl never.

Section EndToEnd.
Context {St : Type} `{ObjectStoreLaws St}.
Context (v : server) (M : Z) (Obj : string -> string -> list byte -> Prop).
Implicit Types (s : system St).

Lemma frame_grant_nonneg f : 0 <= frame_grant f.
Proof. unfold frame_grant. destruct (_ <? _); [apply grant_nonneg|lia]. Qed.

(** Data frames on their way to the client or in its hands: announced by a goroutine
    that holds a credit, in the queue, in a result channel, or lent to a caller. *)
Definition outstanding s : Z :=
  zsum is_sending (gets (srv s)) + zsum frame_data (s2c s) +
  zsum Client.holding (Client.chans (cli s)) + Z.of_nat (size (Client.releaseFns (cli s))).

(** C2: end-to-end flow control. On every run of a client and a service that keep their
    place in the streams, however their steps interleave, the data frames on their way to
    the client, in its result channels and lent to its callers, together with the credits
    the service has left and those on their way back, stay within the credits the client
    has announced in its hello. *)
Theorem outstanding_within_hello mem fp mc st l s :
  runs v M Obj mem fp mc st l s ->
  outstanding s + Z.max 0 (credits (srv s)) + zsum frame_grant (c2s s) <=
    zsum hello_credits (Client.sent (cli s)).
Proof.
  intros [HI _]%runs_inv. destruct HI as [_ Hcli _ _ Hcr].
  pose proof (co_acks _ _ _ Hcli) as Hac. unfold Client.acks_ok, Client.owed in Hac.
  assert (Hsum : forall o, zsum grants o = zsum hello_credits o + zsum Client.acks o).
  { induction o as [|x o IH]; simpl; [done|]. rewrite IH. unfold grants. lia. }
  rewrite Hsum in Hcr. unfold outstanding. lia.
Qed.

Lemma finish_get_ref c mx res ok c' ref :
  Client.finish_get c mx res ok = (c', Client.RRef ref) ->
  exists b off, Client.ir_borrowed res = Some b /\ DataOffset (Client.ir_msg res) = Some off /\
    Client.Offset ref = off /\ Client.RefSize ref = Size (Client.ir_msg res) /\
    Size (Client.ir_msg res) <= mx /\ Client.shared c' = Client.shared c /\
    Client.releaseFns c' !! Client.token ref = Some b.
Proof.
  unfold Client.finish_get, Client.registerRelease.
  destruct (String.eqb _ OpRespErr); [done|]. destruct (negb _); [done|].
  destruct (Client.ir_borrowed res) as [b|]; [|done].
  destruct (Size (Client.ir_msg res) <? 0); [done|].
  destruct (mx <? Size (Client.ir_msg res)) eqn:E1; [done|]. simpl. destruct (negb _); [done|].
  destruct (DataOffset _) as [off|]; [|done]. destruct (off <? 0); [done|]. simpl.
  destruct (blen _ <? _); [done|]. destruct (negb _); [done|]. intros [= <- <-]. simpl. bool_facts.
  exists b, off. split_and!; try done. by rewrite lookup_insert_eq.
Qed.

(** ** Where the frame of a result comes from

    A frame of the model carries its payload; the shared region of the code is written
    by the service's sends, in their order (VerbsStream.v), and a caller reads it when it
    looks.  [window mem l] is the region once the messages [l] have gone through. *)

Definition window (mem : list byte) (l : list outmsg) : list byte :=
  foldl Client.write_shared mem (frames out_frames l).

(** The frames received so far, and those still queued, are what the service has sent;
    a result with data holds one that was received. *)
Definition sourced s : Prop :=
  exists taken, frames out_frames (out (srv s)) = taken ++ s2c s /\
  forall ch res b, ClientIds.result_at (cli s) ch res -> Client.ir_err res = None ->
    Client.ir_borrowed res = Some b -> Client.b_frame b ∈ taken.

(** A receive brings no other data than those of the frame. *)
Lemma received_result c r ok c' ch res b :
  Client.exec c (client_recv (Client.recv c) r ok) = Some (Some c') ->
  ClientIds.result_at c' ch res -> Client.ir_err res = None -> Client.ir_borrowed res = Some b ->
  ClientIds.result_at c ch res \/ r = Some (Client.b_frame b).
Proof.
  intros Hex Hr He Hb.
  assert (Hfail : forall e c1, Client.recv_fail c e = Some c1 -> c1 = c' -> ClientIds.result_at c ch res).
  { intros e c1 Hf ->. apply ClientIds.recv_fail_results in Hf as (_ & _ & _ & Hf). by apply Hf. }
  destruct (Client.recv c) as [|msg|] eqn:Er; cbn [client_recv Client.exec] in Hex; rewrite Er in Hex; [| |done].
  - destruct (Client.recv_control c r) as [c1|] eqn:Ec; [|done]. injection Hex as ->. left.
    unfold Client.recv_control in Ec. destruct r as [f|]; [|by eapply Hfail].
    destruct (Decode (f_Payload f)) as [m|]; [|by eapply Hfail].
    destruct (String.eqb (Op m) OpHelloResp || _ || _).
    + destruct (Client.deliver _ _ _) as [[c2 d]|] eqn:Ed; simplify_eq/=.
      by apply ClientIds.deliver_results in Ed as (_ & _ & _ & [?|[-> _]]%(fun H => H ch res Hr)).
    + destruct (String.eqb (Op m) OpGetMeta); by simplify_eq/=.
  - destruct r as [f|]; [|left; destruct (Client.recv_borrow c msg None ok) as [c1|] eqn:Ec; simplify_eq/=; by eapply Hfail].
    unfold Client.recv_borrow in Hex. destruct (Client.deliver _ _ _) as [[c2 d]|] eqn:Ed; simplify_eq/=.
    assert (H2 : ClientIds.result_at c2 ch res)
      by (destruct d; [done|by eapply ClientIds.ps_results, Hr; apply ClientIds.passive_release_ack]).
    apply ClientIds.deliver_results in Ed as (_ & _ & _ & Hd). apply Hd in H2 as [H2|[-> _]]; [by left|right].
    by simplify_eq/=.
Qed.

(** What the service has sent stays on record. *)
Lemma exec_appends (z : zcopyConn St) l z' : exec v z l = Some z' -> exists o, out z' = out z ++ o.
Proof.
  intros Hex. destruct l as [r ok|r ok|i ok|i|i ok1 ok2| |st]; simpl in Hex.
  - destruct (main z); simplify_eq. destruct (serveConn_quiet z r ok) as [_ (o & Ho & _) _]. by exists o.
  - destruct (main z) as [|msg| |]; simplify_eq.
    destruct (payload_quiet z msg r ok) as [_ (o & Ho & _) _]. by exists o.
  - destruct (gets z !! i) as [[msg| | |]|]; simplify_eq.
    destruct (handleGet z msg ok) as [z1 g] eqn:Eg; simplify_eq.
    destruct (handleGet_quiet _ _ _ _ _ Eg) as (_ & _ & _ & _ & _ & (o & Ho & _) & _). by exists o.
  - destruct (gets z !! i) as [[|rq d off| |]|]; simplify_eq.
    destruct (waitCredit v z) as [[z1 taken]|] eqn:Ew; simplify_eq/=.
    destruct (waitCredit_same _ _ _ _ Ew) as (_ & Ho & _). exists []. by rewrite app_nil_r.
  - destruct (gets z !! i) as [[| |rq d off|]|]; simplify_eq.
    destruct (sendGetPayload_out z rq d off ok1 ok2) as (_ & _ & _ & _ & _ & p & Ho).
    destruct Ho as [Ho|[Ho|(Ho & _)]]; [exists []; by rewrite app_nil_r|by exists [OutCtl p]|by eexists].
  - destruct (main z); simplify_eq. destruct (forallb _ _); simplify_eq. exists []. by rewrite app_nil_r.
  - simplify_eq. exists []. by rewrite app_nil_r.
Qed.

Lemma server_sourced s l q s' : server_step v s l q = Some s' -> sourced s -> sourced s'.
Proof.
  unfold server_step. destruct (exec v (srv s) l) as [z|] eqn:E; [|done]. intros [= <-] (taken & Ht & Hres).
  exists taken. split; [|done]. simpl. apply exec_appends in E as [o ->].
  by rewrite drop_appended, frames_app, Ht, app_assoc.
Qed.

Lemma act_sourced a s s' : act v a s = Some s' -> sourced s -> sourced s'.
Proof.
  destruct a as [l|ok|ok|l|ok|ok]; simpl.
  - destruct l; try done; apply server_sourced.
  - destruct (c2s s); [done|]. apply server_sourced.
  - apply server_sourced.
  - intros Hact (taken & Ht & Hres).
    assert (Hs : exists c', Client.exec (cli s) l = Some (Some c') /\ cli s' = c' /\ srv s' = srv s /\ s2c s' = s2c s /\
      ClientIds.passive (cli s) c').
    { destruct l; try done; unfold client_step in Hact;
        (destruct (Client.exec _ _) as [[c'|]|] eqn:Ex; [|done..]; injection Hact as <-; exists c';
         pose proof (ClientIds.exec_passive _ _ _ Ex) as Hp; by split_and!). }
    destruct Hs as (c' & _ & Hc & Hv & Hq & Hp). exists taken. rewrite Hv, Hq, Hc. split; [done|].
    intros ch res b Hr. apply (Hres ch res b). by apply (ClientIds.ps_results _ _ Hp).
  - destruct (s2c s) as [|f q] eqn:Eq; [done|]. unfold client_step. intros Hact (taken & Ht & Hres).
    destruct (Client.exec _ _) as [[c'|]|] eqn:Ex; [|done..]. simplify_eq/=.
    exists (taken ++ [f]). simpl. split; [by rewrite Ht, Eq, <- app_assoc|]. intros ch res b Hr He Hb.
    apply elem_of_app. destruct (received_result _ _ _ _ _ _ _ Ex Hr He Hb) as [Hr'|[= ->]].
    + left. by apply (Hres ch res).
    + right. by apply list_elem_of_singleton.
  - unfold client_step. intros Hact (taken & Ht & Hres).
    destruct (Client.exec _ _) as [[c'|]|] eqn:Ex; [|done..]. simplify_eq/=.
    exists taken. simpl. split; [done|]. intros ch res b Hr He Hb.
    destruct (received_result _ _ _ _ _ _ _ Ex Hr He Hb) as [Hr'|[=]]. by apply (Hres ch res).
Qed.

Lemma runs_sourced mem fp mc st l s : runs v M Obj mem fp mc st l s -> sourced s.
Proof.
  intros (_ & _ & _ & _ & _ & _ & Hrun).
  apply (run_inv (act v) sourced (fun _ => True) l (connect st M (Client.newClient mem fp mc))); try done.
  - intros a s1 s2 _ HS HA. by eapply act_sourced.
  - by apply Forall_true.
  - exists []. split; [done|]. intros ch res b [cl Hr]. simpl in Hr. by rewrite lookup_nil in Hr.
Qed.

(** The region keeps its size. *)
Lemma runs_memory mem fp mc st l s : runs v M Obj mem fp mc st l s -> blen (Client.shared (cli s)) = blen mem.
Proof.
  intros (_ & _ & _ & _ & _ & _ & Hrun).
  apply (run_inv (act v) (fun s => blen (Client.shared (cli s)) = blen mem) (fun _ => True) l
    (connect st M (Client.newClient mem fp mc))); try done; [|by apply Forall_true].
  clear. intros a s s' _ Hs Ha. rewrite <- Hs.
  assert (Hc : forall l q, client_step s l q = Some s' -> blen (Client.shared (cli s')) = blen (Client.shared (cli s))).
  { intros l q. unfold client_step. destruct (Client.exec _ _) as [[c'|]|] eqn:E; [|done..].
    intros [= <-]. by apply (ClientIds.exec_len _ _ _ E). }
  assert (Hv : forall l q, server_step v s l q = Some s' -> blen (Client.shared (cli s')) = blen (Client.shared (cli s))).
  { intros l q. unfold server_step. destruct (exec _ _ _); [|done]. by intros [= <-]. }
  destruct a as [l|ok|ok|l|ok|ok]; simpl in Ha; try ((by eapply Hv) || (by eapply Hc)).
  - destruct l; (done || (by eapply Hv)).
  - destruct (c2s s); [done|]. by eapply Hv.
  - destruct l; (done || (by eapply Hc)).
  - destruct (s2c s); [done|]. by eapply Hc.
Qed.

(** A data frame that was sent is the payload of one of the service's messages. *)
Lemma frame_of_data d off l :
  0 <= off -> {| f_Payload := d; f_SharedOffset := off |} ∈ frames out_frames l ->
  exists l1 l2, l = l1 ++ OutData d off :: l2.
Proof.
  intros Ho Hf. unfold frames in Hf. apply list_elem_of_In, in_concat in Hf as (fs & Hfs & Hf).
  apply list_elem_of_In, list_elem_of_fmap in Hfs as (o & -> & Hin). apply list_elem_of_In in Hf.
  apply list_elem_of_split. destruct o as [p|p off']; simpl in Hf.
  - apply list_elem_of_singleton in Hf. unfold ctl_frame in Hf. injection Hf as ->. lia.
  - unfold data_frames in Hf. case_match; [set_solver|]. apply list_elem_of_singleton in Hf. by injection Hf as -> ->.
Qed.

Lemma write_shared_splice mem f :
  Client.write_shared mem f =
  if (0 <=? f_SharedOffset f) && (f_SharedOffset f + blen (f_Payload f) <=? blen mem) then
    splice (Z.to_nat (f_SharedOffset f)) (f_Payload f) mem else mem.
Proof. done. Qed.

Lemma window_length mem l : blen (window mem l) = blen mem.
Proof.
  unfold window. generalize (frames out_frames l) as fs. intros fs. revert mem.
  induction fs as [|f fs IH]; intros mem; simpl; [done|]. rewrite IH, write_shared_splice.
  case_match; [|done]. bool_facts. unfold blen in *. rewrite length_splice; lia.
Qed.

(** Messages apart from a range leave it as it is. *)
Lemma window_apart mem off n l :
  0 <= off -> 0 <= n -> Forall (apart off n) l ->
  Client.slice (window mem l) off n = Client.slice mem off n.
Proof.
  intros Ho Hn Hl. unfold window, Client.slice.
  assert (Hfs : Forall (fun f => f_SharedOffset f < 0 \/ f_SharedOffset f + blen (f_Payload f) <= off \/
      off + n <= f_SharedOffset f) (frames out_frames l)).
  { induction Hl as [|x l Hx _ IH]; [constructor|]. rewrite frames_cons. apply Forall_app. split; [|done].
    destruct x as [p|p o]; simpl in *; [constructor; [by left|constructor]|].
    unfold data_frames. case_match; constructor; [|constructor]. bool_facts. simpl. lia. }
  revert mem. induction Hfs as [|f fs Hf _ IH]; intros mem; simpl; [done|]. rewrite IH, write_shared_splice.
  case_match; [|done]. bool_facts. unfold blen in *. apply take_drop_splice; lia.
Qed.

(** A payload within the region is there once it has gone through, and stays while what
    follows is apart from it. *)
Lemma window_holds mem l1 d off l2 :
  0 <= off -> off + blen d <= blen mem -> 0 < blen d -> Forall (apart off (blen d)) l2 ->
  Client.slice (window mem (l1 ++ OutData d off :: l2)) off (blen d) = d.
Proof.
  intros Ho Hd Hpos Hl.
  assert (Hsplit : window mem (l1 ++ OutData d off :: l2) =
    window (Client.write_shared (window mem l1) {| f_Payload := d; f_SharedOffset := off |}) l2).
  { unfold window. rewrite frames_app, frames_cons, !foldl_app. simpl. unfold data_frames.
    by rewrite (proj2 (Z.eqb_neq _ 0)) by lia. }
  rewrite Hsplit, window_apart by (done || lia).
  by apply (Client.write_shared_slice _ {| f_Payload := d; f_SharedOffset := off |}); simpl; [|rewrite window_length].
Qed.

(** C1: end-to-end correctness of GET, on the runs of a client and a service that
    [runs] describes: from a new connection, with a region and arguments within Go's
    int64 and names in UTF-8; [Obj] is what the store ever holds under a bucket and key,
    and no object is empty; each send goes out whole, a request with its payload and a meta with its data
    (or the send fails before anything has gone out); PUTs are within the service's
    limit; and there are fewer than 2^64 steps.  How the steps of the calls, of the
    service's goroutines and of the store's other users interleave, which of them fail
    and how many calls are in flight is left open.

    When such a run comes to a GetZeroCopy that returns a reference, it is at the offset
    the caller asked for, within the caller's limit and the shared region; its length and
    the frame it refers to, as the frame was when it arrived, are those of an object
    that the store held under the bucket and key of this very call, never another call's.  The
    frame is one of the service's data messages: in the shared region, which the
    messages write in their order, the object's bytes are there once that message has
    gone through, and stay as long as no later one is written over a part of them, as the
    data of another call would be whose window overlaps this one's. *)
Theorem get_returns_named_object mem fp mc st l s s' i b k off mx r ch w ok ref :
  runs v M Obj mem fp mc st l s ->
  Client.calls (cli s) !! i = Some (Client.CallWait (Client.OGet b k off mx) r ch) ->
  act v (AClient (Client.LWait i w ok)) s = Some s' ->
  Client.calls (cli s') !! i = Some (Client.CallDone (Client.RRef ref)) ->
  exists d bb, Obj (TrimSpace b) (TrimSpace k) d /\
    Client.Offset ref = off /\ Client.RefSize ref = blen d /\ blen d <= mx /\
    0 <= off /\ off + blen d <= blen (Client.shared (cli s')) /\
    Client.releaseFns (cli s') !! Client.token ref = Some bb /\
    Client.b_frame bb = {| f_Payload := d; f_SharedOffset := off |} /\
    exists l1 l2, out (srv s') = l1 ++ OutData d off :: l2 /\
      forall n, Forall (apart off (blen d)) (take n l2) ->
        Client.slice (window mem (l1 ++ OutData d off :: take n l2)) off (blen d) = d.
Proof.
  intros Hruns Hi Hact Hdone. pose proof (runs_sourced _ _ _ _ _ _ Hruns) as (taken & Htaken & Hsrc).
  pose proof (runs_memory _ _ _ _ _ _ Hruns) as Hmem.
  apply runs_inv in Hruns as [HI _]. destruct HI as [_ Hcli _ _ _].
  assert (Hlt : (i < length (Client.calls (cli s)))%nat) by (by apply lookup_lt_Some in Hi).
  simpl in Hact. unfold client_step in Hact. cbn [Client.exec] in Hact. rewrite Hi in Hact.
  destruct (Client.wait_call _ _ _ _ _ _ _) as [c'|] eqn:Ew; [|done]. simplify_eq/=.
  unfold Client.wait_call in Ew. destruct w.
  2: { simplify_eq/=. by rewrite list_lookup_insert_eq in Hdone. }
  2: { destruct (Client.closedCh _); simplify_eq/=. by rewrite list_lookup_insert_eq in Hdone. }
  destruct (Client.chans (cli s) !! ch) as [[[res|] cl]|] eqn:Ech; [|destruct cl; simplify_eq/=;
    by rewrite list_lookup_insert_eq in Hdone|done].
  assert (Hres : ClientIds.result_at (cli s) ch res) by (by exists cl).
  destruct (Client.ir_err res) eqn:Ee; [simplify_eq/=; by rewrite list_lookup_insert_eq in Hdone|].
  simpl in Ew. destruct (Client.finish_get _ mx res ok) as [c1 q] eqn:Ef. simplify_eq/=.
  pose proof (ClientIds.keeps_calls _ _ (ClientIds.keeps_finish _ (Client.OGet b k off mx) res ok c1 q Ef)) as Hcl.
  simpl in Hcl. rewrite Hcl, list_lookup_insert_eq in Hdone by done. simplify_eq.
  destruct (finish_get_ref _ _ _ _ _ _ Ef) as (bb & off' & Hb & Ho & H1 & H2 & H3 & Hsh & H4).
  pose proof (co_owner _ _ _ Hcli i _ r ch res Hi eq_refl Hres Ee) as Hid.
  destruct (co_results _ _ _ Hcli ch res bb Hres Ee Hb) as (d & off2 & Hm & Hf & Hpos & m & Hreq & Hwf & _ & Hrm & Hom & Hmx & Hobj & Hlen).
  pose proof (co_ids _ _ _ Hcli) as Hids.
  pose proof (ClientIds.ids_calls _ Hids _ _ Hi) as (_ & [Hpre Hsent] & _).
  assert (m = Client.request_of (cli s) (Client.OGet b k off mx) r) as ->.
  { apply (ClientIds.ids_uniq _ Hids); [done| |simpl; congruence]. split; [done|done]. }
  simpl in Hom, Hmx, Hobj. injection Hom as ->. rewrite Hm in Ho, H2, H3. simpl in Ho, H2, H3. injection Ho as <-.
  pose proof (wf_ints _ Hwf) as Hints. rewrite !Forall_cons in Hints. simpl in Hints.
  pose proof (cf_len _ (co_config _ _ _ Hcli)) as Hfit. pose proof (blen_nonneg (Client.shared (cli s))) as H0'.
  assert (Hroom : off2 + mx <= blen (Client.shared (cli s))).
  { unfold Client.precheck in Hpre. destruct (Client.validateRef _ _) eqn:Ev in Hpre; [done|].
    apply Client.validateRef_exact in Ev; simpl in *; lia. }
  exists d, bb. rewrite Hsh. simpl. split_and!; try (done || lia).
  destruct (frame_of_data d off2 (out (srv s)) Hpos) as (l1 & l2 & Hout).
  { rewrite Htaken, <- Hf. apply elem_of_app. left. by apply (Hsrc ch res). }
  exists l1, l2. split; [done|]. intros n Hap. apply window_holds; (done || lia).
Qed.

(** ** One GET, from the call to its release *)

(** Nothing is under way, and both loops wait for a message. *)
Record idle s : Prop := {
  idle_main : main (srv s) = Looping;
  idle_closed : closed (srv s) = false;
  idle_c2s : c2s s = [];
  idle_s2c : s2c s = [];
  idle_recv : Client.recv (cli s) = Client.RLoop;
  idle_chans : Client.chans_ok (Client.pending (cli s)) (Client.chans (cli s));
}.

Lemma run_by_app (l1 l2 : list (action St)) s s1 :
  run_by (act v) l1 s = Some s1 -> run_by (act v) (l1 ++ l2) s = run_by (act v) l2 s1.
Proof.
  revert s. induction l1 as [|a l1 IH]; intros s; simpl; [by intros [= ->]|].
  destruct (act v a s); [apply IH|done].
Qed.

(** A call is started and its request sent. *)
Lemma start_and_send s o :
  Client.precheck (cli s) o = None -> Client.payload_of (cli s) o = [] ->
  0 <= Client.nextReqID (cli s) -> Client.nextReqID (cli s) + 1 < 2 ^ 64 ->
  Client.chans_ok (Client.pending (cli s)) (Client.chans (cli s)) ->
  well_formed (Client.request_of (cli s) o (Client.nextReqID (cli s) + 1)) ->
  let i := length (Client.calls (cli s)) in
  let r := Client.nextReqID (cli s) + 1 in
  exists c1 ch p, run_by (act v) [AClient (Client.LStart o); AClient (Client.LSend i Client.Sent)] s =
      Some {| srv := srv s; cli := c1; c2s := c2s s ++ [ctl_frame p]; s2c := s2c s |} /\
    Decode p = Ok (Client.request_of (cli s) o r) /\
    Client.calls c1 !! i = Some (Client.CallWait o r ch) /\ Client.pending c1 !! r = Some ch /\
    Client.chans_ok (Client.pending c1) (Client.chans c1) /\ Client.recv c1 = Client.recv (cli s) /\
    Client.shared c1 = Client.shared (cli s) /\ Client.nextToken c1 = Client.nextToken (cli s).
Proof.
  intros Hpre Hpay H0' Hfit Hch Hwf. cbv zeta. set (r := Client.nextReqID (cli s) + 1) in *.
  destruct (Client.exec_chans (cli s) (Client.LStart o) Hch) as (x & Hx & Hch1).
  destruct (Decode_Encode _ Hwf) as (p & Hp & Hd); [by destruct (request_op (cli s) o r)|].
  simpl in Hx. injection Hx as <-. simpl in Hch1.
  cbn [run_by act]. unfold client_step at 1. cbn [Client.exec].
  unfold Client.start_call in *. rewrite Hpre in *. simpl in Hch1 |- *.
  assert (Hu : u64 r = r) by (apply u64_id; unfold r; lia).
  fold r in Hch1 |- *. rewrite Hu in Hch1 |- *.
  rewrite drop_all. cbn [frames fmap list_fmap concat]. rewrite app_nil_r.
  unfold client_step. simpl. rewrite list_lookup_middle by done. simpl.
  assert (Hnone : forall c', Client.shared c' = Client.shared (cli s) -> Client.payload_of c' o = []).
  { intros c' Hsh. rewrite <- Hpay. destruct o; simpl; by rewrite ?Hsh. }
  rewrite Hnone, drop_app_length by done.
  assert (Hsame : forall c', Client.shared c' = Client.shared (cli s) ->
    Client.framePayload c' = Client.framePayload (cli s) -> Client.maxCredits c' = Client.maxCredits (cli s) ->
    Client.request_of c' o r = Client.request_of (cli s) o r).
  { intros c' H1 H2 H3. apply ClientIds.request_same; congruence. }
  eexists _, (length (Client.chans (cli s))), p. split.
  { unfold frames. cbn [fmap list_fmap concat sent_frames]. rewrite Hsame by done. rewrite Hp. reflexivity. }
  simpl. split; [done|]. rewrite list_lookup_insert_eq by (rewrite length_app; simpl; lia).
  rewrite lookup_insert_eq. done.
Qed.

(** The service's own steps, as steps of the composition. *)
Lemma exec_all_appends ls (z : zcopyConn St) z' : exec_all v z ls = Some z' -> exists o, out z' = out z ++ o.
Proof.
  revert z. induction ls as [|l ls IH]; intros z; simpl; [intros [= ->]; exists []; by rewrite app_nil_r|].
  destruct (exec v z l) as [z1|] eqn:E; simpl; [|done]. intros Hls.
  destruct (exec_appends _ _ _ E) as [o1 H1], (IH _ Hls) as [o2 H2].
  exists (o1 ++ o2). by rewrite H2, H1, app_assoc.
Qed.

Lemma run_own ls s z' :
  exec_all v (srv s) ls = Some z' ->
  Forall (fun l => match l with LRecv _ _ | LPayload _ _ => False | _ => True end) ls ->
  run_by (act v) (AServer <$> ls) s =
    Some {| srv := z'; cli := cli s; c2s := c2s s;
            s2c := s2c s ++ frames out_frames (drop (length (out (srv s))) (out z')) |}.
Proof.
  intros Hex Hls. revert s Hex. induction Hls as [|l ls Hl _ IH]; intros s Hex.
  { simpl in Hex. simplify_eq. rewrite drop_all. unfold frames. simpl. rewrite app_nil_r. by destruct s. }
  cbn [exec_all] in Hex. destruct (exec v (srv s) l) as [z1|] eqn:E; [|done]. simpl in Hex.
  assert (Hact : act v (AServer l) s = server_step v s l (c2s s)) by (by destruct l).
  cbn [fmap list_fmap run_by]. rewrite Hact. unfold server_step. rewrite E. cbn [mbind option_bind].
  rewrite IH by exact Hex. simpl. do 2 f_equal.
  destruct (exec_appends _ _ _ E) as [o1 H1], (exec_all_appends _ _ _ Hex) as [o2 H2].
  assert (H3 : drop (length (out z1)) (out z') = o2) by (rewrite H2; apply drop_appended).
  assert (H4 : drop (length (out (srv s))) (out z') = o1 ++ o2)
    by (rewrite H2, H1, <- app_assoc; apply drop_appended).
  by rewrite H3, H4, H1, drop_appended, frames_app, app_assoc.
Qed.

(** The client's loop receives a meta and its data, and the caller takes the result. *)
Lemma receive_get s i b k tgt mx r ch p m f :
  Client.chans_ok (Client.pending (cli s)) (Client.chans (cli s)) -> Client.recv (cli s) = Client.RLoop ->
  s2c s = [ctl_frame p; f] -> Decode p = Ok m ->
  Client.calls (cli s) !! i = Some (Client.CallWait (Client.OGet b k tgt mx) r ch) ->
  Client.pending (cli s) !! r = Some ch ->
  Op m = OpGetMeta -> ReqID m = r -> DataOffset m = Some (f_SharedOffset f) ->
  Size m = blen (f_Payload f) -> blen (f_Payload f) <= mx -> 0 <= f_SharedOffset f ->
  f_SharedOffset f + blen (f_Payload f) <= blen (Client.shared (cli s)) ->
  blen (Client.shared (cli s)) < 2 ^ 63 ->
  exists c' t, run_by (act v) [AClientRecv true; AClientRecv true; AClient (Client.LWait i Client.WResult true)] s =
      Some {| srv := srv s; cli := c'; c2s := c2s s; s2c := [] |} /\
    Client.calls c' !! i = Some (Client.CallDone (Client.RRef
      {| Client.Offset := f_SharedOffset f; Client.RefSize := blen (f_Payload f); Client.token := t |})) /\
    Client.slice (Client.shared c') (f_SharedOffset f) (blen (f_Payload f)) = f_Payload f /\
    Client.releaseFns c' !! t = Some {| Client.b_id := Client.nextBorrow (cli s); Client.b_frame := f |} /\
    Client.recv c' = Client.RLoop /\ Client.chans_ok (Client.pending c') (Client.chans c') /\
    t = u64 (Client.nextToken (cli s) + 1).
Proof.
  intros Hok Hr Hq Hd Hi Hp Hop Hid Hoff Hsz Hmx Hpos Hroom Hfit.
  set (c1 := Client.upd_recv (cli s) (Client.recvErr (cli s)) (Client.RBorrow m)).
  assert (H1 : Client.exec (cli s) (Client.LRecv (Some (ctl_frame p))) = Some (Some c1)).
  { cbn [Client.exec]. rewrite Hr. unfold Client.recv_control. simpl. rewrite Hd, Hop. done. }
  destruct (Client.get_places c1 i b k tgt mx r ch m f) as (c' & t & Hrun & Hcalls & Hsl & Hrel & Hsent & _ & Htok); try done.
  assert (Hb : exists c2, Client.exec c1 (Client.LBorrow (Some f) true) = Some (Some c2)).
  { destruct (Client.exec_chans c1 (Client.LBorrow (Some f) true) Hok) as (x & Hx & _).
    cbn [Client.exec] in Hx |- *. change (Client.recv c1) with (Client.RBorrow m) in *. cbv beta iota in Hx |- *.
    destruct (Client.recv_borrow c1 m (Some f) true) as [c2|] eqn:E; [by exists c2|done]. }
  destruct Hb as [c2 H2]. cbn [Client.exec_all] in Hrun. rewrite H2 in Hrun.
  change ((x ← Client.exec c2 (Client.LWait i Client.WResult true); Some (default c2 x)) = Some c') in Hrun.
  pose proof (ClientIds.exec_shape _ _ _ H2) as Hk2. simpl in Hk2.
  destruct (Client.exec c2 (Client.LWait i Client.WResult true)) as [[c3|]|] eqn:H3;
    simpl in Hrun; [|injection Hrun as <-|done].
  2: { rewrite (ClientIds.keeps_calls _ _ Hk2) in Hcalls. simpl in Hcalls. by rewrite Hi in Hcalls. }
  injection Hrun as ->.
  assert (Hs2 : Client.sent c2 = Client.sent (cli s) /\ Client.sent c' = Client.sent (cli s)).
  { split; [|done]. destruct (ClientIds.keeps_sent _ _ Hk2) as [n Hn].
    pose proof (ClientIds.exec_shape _ _ _ H3) as (o & r' & ch' & c4 & q & _ & -> & Hk3).
    destruct (ClientIds.keeps_sent _ _ Hk3) as [n' Hn']. simpl in Hsent. rewrite Hn', Hn in Hsent. simpl in Hn.
    apply (f_equal length) in Hsent. rewrite !length_app, !length_replicate in Hsent. simpl in Hsent.
    assert (n = 0%nat) as -> by lia. by rewrite app_nil_r in Hn. }
  destruct Hs2 as [Hs2 Hs3].
  pose proof (ClientIds.exec_passive _ _ _ H3) as [Hr3 _ _ _].
  assert (Hr2 : Client.recv c2 = Client.RLoop).
  { cbn [Client.exec] in H2. change (Client.recv c1) with (Client.RBorrow m) in H2. unfold Client.recv_borrow in H2.
    destruct (Client.deliver _ _ _) as [[c4 del]|] eqn:Ed; [|done].
    destruct (ClientIds.deliver_results _ _ _ _ _ Ed) as (Hx & _). injection H2 as <-.
    by destruct del. }
  exists c', t. split.
  { cbn [run_by act]. rewrite Hq, Hr. cbn [client_recv]. unfold client_step at 1. rewrite H1.
    cbn [s2c cli Client.recv c1 Client.upd_recv client_recv]. fold c1. unfold client_step at 1. cbn [cli]. rewrite H2.
    cbn [act]. unfold client_step. cbn [cli]. rewrite H3. cbn [Client.sent c1 Client.upd_recv srv c2s s2c].
    rewrite Hs2, Hs3, !drop_all. unfold frames. simpl. by rewrite !app_nil_r. }
  assert (Hcs : Client.chans_ok (Client.pending c') (Client.chans c')); [|by rewrite Hr3].
  destruct (Client.exec_chans c1 (Client.LBorrow (Some f) true) Hok) as (x & Hx & Hc2). rewrite H2 in Hx.
  injection Hx as <-.
  destruct (Client.exec_chans c2 (Client.LWait i Client.WResult true) Hc2) as (x & Hx & Hc3). rewrite H3 in Hx.
  by injection Hx as <-.
Qed.

(** What the caller passes, and the object there is. *)
Record get_possible s (b k : string) (off mx : Z) (obj : Object) : Prop := {
  gp_config : config_ok (cli s);
  gp_names : utf8 b /\ utf8 k;
  gp_ints : int64 off /\ int64 mx;
  gp_checked : Client.precheck (cli s) (Client.OGet b k off mx) = None;
  gp_object : st_GetObject (store (srv s)) (TrimSpace b) (TrimSpace k) = Some obj;
  gp_size : 0 < size_of obj <= mx;
  gp_next : 0 <= Client.nextReqID (cli s) /\ Client.nextReqID (cli s) + 1 < 2 ^ 64;
  gp_token : 0 <= Client.nextToken (cli s) /\ Client.nextToken (cli s) + 1 < 2 ^ 64;
  gp_credits : 0 < credits (srv s) < 2 ^ 63;
}.

Lemma get_possible_facts s b k off mx obj :
  get_possible s b k off mx obj ->
  TrimSpace b <> EmptyString /\ TrimSpace k <> EmptyString /\ 0 <= off /\ 0 <= mx /\
  off + mx <= blen (Client.shared (cli s)).
Proof.
  intros [[Hlen _ _] _ [Ho Hm] Hpre _ _ _ _ _]. pose proof (blen_nonneg (Client.shared (cli s))) as Hpos.
  unfold int64 in *. simpl in Hpre. destruct (Client.validateRef _ _) eqn:Ev in Hpre; [done|].
  destruct (String.eqb (TrimSpace b) "") eqn:Eb; [done|].
  destruct (String.eqb (TrimSpace k) "") eqn:Ek; [done|].
  apply Client.validateRef_exact in Ev; simpl in *; [|lia..].
  split_and!; try lia; by apply String.eqb_neq.
Qed.

(** The service receives a GET and answers it. *)
Lemma serve_get s p m obj off :
  main (srv s) = Looping -> closed (srv s) = false -> c2s s = [ctl_frame p] -> s2c s = [] ->
  Decode p = Ok m -> Op m = OpGetReq -> 0 < ReqID m < 2 ^ 64 -> 0 < credits (srv s) ->
  DataOffset m = Some off -> 0 <= off < 2 ^ 63 ->
  TrimSpace (Bucket m) <> EmptyString -> TrimSpace (Key m) <> EmptyString ->
  st_GetObject (store (srv s)) (TrimSpace (Bucket m)) (TrimSpace (Key m)) = Some obj ->
  0 < size_of obj < 2 ^ 63 -> Max m = 0 \/ size_of obj <= Max m ->
  let j := length (gets (srv s)) in
  exists z' q, run_by (act v) [AServerRecv true; AServer (LBegin j true); AServer (LCredit j); AServer (LSend j true true)] s =
      Some {| srv := z'; cli := cli s; c2s := [];
              s2c := [ctl_frame q; {| f_Payload := Body obj; f_SharedOffset := off |}] |} /\
    Decode q = Ok (get_meta (ReqID m) (size_of obj) off) /\ credits z' = credits (srv s) - 1 /\
    main z' = Looping /\ closed z' = false.
Proof.
  intros Hm Hc Hq Hq' Hd Hop Hr Hcr Hoff Hpos Hb Hk Hobj Hsz Hmx. cbv zeta.
  set (z1 := with_main (with_gets (srv s) (gets (srv s) ++ [GetStart m])) Looping).
  assert (H1 : exec v (srv s) (LRecv (Some (ctl_frame p)) true) = Some z1).
  { simpl. rewrite Hm. unfold serveConn, recvControl. simpl. rewrite Hd. unfold dispatch. rewrite Hop. simpl.
    unfold handleGetAsync. by rewrite (proj2 (Z.eqb_neq _ _)) by lia. }
  destruct (get_delivers v z1 (length (gets (srv s))) m obj off) as (z' & q & Hrun & Hdq & Hout & Hcr' & _ & Hmain & Hclosed);
    try done; [simpl; by rewrite list_lookup_middle|lia|].
  exists z', q. split.
  - cbn [run_by act]. rewrite Hq, Hm. cbn [server_recv]. unfold server_step at 1. rewrite H1. cbn [mbind option_bind].
    set (s1 := {| srv := z1; cli := cli s; c2s := []; s2c := _ |}).
    match goal with |- _ = ?r =>
      change (run_by (act v) (AServer <$> [LBegin (length (gets (srv s))) true; LCredit (length (gets (srv s)));
        LSend (length (gets (srv s))) true true]) s1 = r) end.
    rewrite (run_own _ s1 z') by (done || by repeat constructor).
    unfold s1. cbn [srv cli c2s s2c]. rewrite Hout, drop_appended, Hq', drop_all.
    unfold frames. simpl. unfold data_frames.
    change (blen (Body obj)) with (size_of obj). by rewrite (proj2 (Z.eqb_neq _ _)) by lia.
  - by rewrite Hmain, Hclosed.
Qed.

(** The steps of one GET, call [i] of the client and goroutine [j] of the service. *)
Definition get_steps (b k : string) (off mx : Z) (i j : nat) : list (action St) :=
  [AClient (Client.LStart (Client.OGet b k off mx)); AClient (Client.LSend i Client.Sent)] ++
  [AServerRecv true; AServer (LBegin j true); AServer (LCredit j); AServer (LSend j true true)] ++
  [AClientRecv true; AClientRecv true; AClient (Client.LWait i Client.WResult true)].

Lemma run_get_steps b k off mx i j s s1 s2 s3 :
  run_by (act v) [AClient (Client.LStart (Client.OGet b k off mx)); AClient (Client.LSend i Client.Sent)] s = Some s1 ->
  run_by (act v) [AServerRecv true; AServer (LBegin j true); AServer (LCredit j); AServer (LSend j true true)] s1 = Some s2 ->
  run_by (act v) [AClientRecv true; AClientRecv true; AClient (Client.LWait i Client.WResult true)] s2 = Some s3 ->
  run_by (act v) (get_steps b k off mx i j) s = Some s3.
Proof. intros H1 H2 H3. unfold get_steps. exact (eq_trans (run_by_app _ _ _ _ H1) (eq_trans (run_by_app _ _ _ _ H2) H3)). Qed.

(** A caller releases its reference: the frame and the credit go back. *)
Lemma release_returns s ref bb :
  idle s -> Client.token ref <> 0 -> Client.releaseFns (cli s) !! Client.token ref = Some bb ->
  - 1 <= credits (srv s) < 2 ^ 63 - 1 ->
  exists s', run_by (act v) [AClient (Client.LRelease ref true); AServerRecv true] s = Some s' /\ idle s' /\
    credits (srv s') = credits (srv s) + 1 /\
    Client.released (cli s') = Client.released (cli s) ++ [Client.b_id bb] /\
    Client.releaseFns (cli s') = delete (Client.token ref) (Client.releaseFns (cli s)).
Proof.
  intros [Hm Hc Hq Hq' Hr Hch] Ht Hrel Hcr.
  destruct (Decode_Encode (Client.ack_message 1) ack_wf) as (p & Hp & Hd); [done|].
  eexists. split.
  - cbn [run_by act]. unfold client_step. cbn [Client.exec]. unfold Client.Release.
    rewrite (proj2 (Z.eqb_neq _ _) Ht), Hrel. cbn [Client.release_ack Client.sendAck Client.sent Client.upd_sent
      Client.release_frame Client.upd_release cli c2s].
    rewrite drop_app_length, Hq. unfold frames. cbn [fmap list_fmap concat sent_frames app].
    rewrite Hp. cbn [app srv]. rewrite Hm. unfold server_step. simpl. rewrite Hm. unfold serveConn, recvControl. simpl.
    rewrite Hd. simpl. rewrite drop_all. unfold frames. simpl. rewrite app_nil_r. reflexivity.
  - simpl. split; [|split; [|done]]; [|rewrite i64_id by lia; done]. by constructor.
Qed.

(** C6: one GET, end to end: from any state in which nothing is under way, a GET of an
    object that is not empty can be carried through.  With a credit left, the object
    within the caller's limit and the limit within the region ([get_possible]), the steps
    of the GET, when each is taken in its turn and succeeds ([get_steps]: the call, its
    request, the service's goroutine, the two frames of the answer, the result), are all
    enabled and bring the caller a reference at the offset it asked for; the shared memory
    holds the object's bytes there, and one credit is used.  Then releasing the reference,
    and the service's receiving of the credit, are enabled too; they give the credit back
    and leave nothing under way again.  (A GET of an empty
    object does not get this far: [empty_get_swallows_reply].) *)
Theorem get_and_release_cycle s b k off mx obj :
  idle s -> get_possible s b k off mx obj ->
  let i := length (Client.calls (cli s)) in
  let ref := {| Client.Offset := off; Client.RefSize := size_of obj; Client.token := Client.nextToken (cli s) + 1 |} in
  exists s1 s2, run_by (act v) (get_steps b k off mx i (length (gets (srv s)))) s = Some s1 /\
    Client.calls (cli s1) !! i = Some (Client.CallDone (Client.RRef ref)) /\
    Client.slice (Client.shared (cli s1)) off (size_of obj) = Body obj /\
    credits (srv s1) = credits (srv s) - 1 /\ idle s1 /\
    run_by (act v) [AClient (Client.LRelease ref true); AServerRecv true] s1 = Some s2 /\
    credits (srv s2) = credits (srv s) /\ idle s2.
Proof.
  intros [Hm Hc Hq Hq' Hr Hch] Hgp. cbv zeta.
  destruct (get_possible_facts _ _ _ _ _ _ Hgp) as (Hb & Hk & H1 & H2 & H3).
  destruct Hgp as [Hcf [Hub Huk] [Ho Hmx] Hpre Hobj Hsz [Hn0 Hn] [Ht0 Ht] Hcr]. unfold int64 in *.
  set (o := Client.OGet b k off mx) in *.
  destruct (start_and_send s o Hpre eq_refl Hn0 Hn Hch) as (c1 & ch & p & Hrun1 & Hd & Hi & Hp & Hch1 & Hr1 & Hsh & Hnx).
  { apply (request_wf M Obj); [done|exact (conj Hub (conj Huk (conj Ho Hmx)))|lia]. }
  rewrite Hq in Hrun1. set (s1 := {| srv := srv s; cli := c1; c2s := _; s2c := _ |}) in Hrun1.
  destruct (serve_get s1 p _ obj off Hm Hc eq_refl Hq' Hd) as (z' & q & Hrun2 & Hdq & Hcz & Hmz & Hclz);
    try done; simpl; try lia.
  set (s2 := {| srv := z'; cli := _; c2s := _; s2c := _ |}) in Hrun2.
  destruct (receive_get s2 (length (Client.calls (cli s))) b k off mx (Client.nextReqID (cli s) + 1) ch q
    (get_meta (Client.nextReqID (cli s) + 1) (size_of obj) off) {| f_Payload := Body obj; f_SharedOffset := off |})
    as (c3 & t & Hrun3 & Hc3 & Hsl & Hrel & Hr3 & Hch3 & Htok); try done; simpl; try lia; try (by rewrite Hr1).
  { unfold size_of in *. lia. } { rewrite Hsh. unfold size_of in *. lia. } { rewrite Hsh. apply Hcf. }
  assert (t = Client.nextToken (cli s) + 1) as ->.
  { rewrite Htok. simpl. rewrite Hnx. apply u64_id. lia. }
  change (credits z' = credits (srv s) - 1) in Hcz.
  set (s3 := {| srv := z'; cli := c3; c2s := []; s2c := [] |}).
  assert (Hidle : idle s3) by (by constructor).
  destruct (release_returns s3 {| Client.Offset := off; Client.RefSize := size_of obj;
    Client.token := Client.nextToken (cli s) + 1 |}
    {| Client.b_id := Client.nextBorrow c1; Client.b_frame := {| f_Payload := Body obj; f_SharedOffset := off |} |}
    Hidle) as (s4 & Hrun4 & Hidle4 & Hcr4 & _);
    [simpl; lia|exact Hrel|simpl; rewrite Hcz; lia|].
  exists s3, s4. split.
  { exact (run_get_steps _ _ _ _ _ _ _ _ _ _ Hrun1 Hrun2 Hrun3). }
  split_and!; try done. rewrite Hcr4. simpl. rewrite Hcz. lia.
Qed.
End EndToEnd.

(** ** Where the stream is lost, and witnesses: the standalone server's own store *)

#[local] Existing Instances LoadedStore.MemoryStore_store LoadedStore.MemoryStore_laws.

Definition demo_time : Time := {| instant := 10 ^ 9; utc := true |}.
Definition demo_body : list byte := bytes_of_string "hello".

(** "b/k" holds five bytes, "b/empty" none. *)
Definition demo_store : LoadedStore.MemoryStore :=
  (LoadedStore.PutLoadedObject
    (LoadedStore.PutLoadedObject LoadedStore.NewMemoryStore "b" "k" demo_body demo_time demo_time).1
    "b" "empty" [] demo_time demo_time).1.

Definition demo_start : system LoadedStore.MemoryStore :=
  connect demo_store 0 (Client.newClient (replicate 16 x00) 0 4).

(** The hello of [New], answered. *)
Definition demo_hello : list (action LoadedStore.MemoryStore) :=
  [AClient (Client.LStart Client.OHello); AClient (Client.LSend 0 Client.Sent); AServerRecv true;
   AClientRecv true; AClient (Client.LWait 0 Client.WResult true)].

Definition demo_empty_get : list (action LoadedStore.MemoryStore) :=
  [AClient (Client.LStart (Client.OGet "b" "empty" 0 8)); AClient (Client.LSend 1 Client.Sent); AServerRecv true;
   AServer (LBegin 0 true); AServer (LCredit 0); AServer (LSend 0 true true); AClientRecv true;
   AClient (Client.LStart (Client.OEnsure "c")); AClient (Client.LSend 2 Client.Sent); AServerRecv true;
   AClientRecv true; AClient (Client.LWait 1 Client.WResult true); AServerRecv true].

(** A GET of an empty object loses the place in the stream: the service sends a meta
    and, the payload being empty, no data; the client takes the next reply, here that of
    an EnsureBucket, for the data. The GET fails, the reply is gone, and the other call
    waits although nothing is under way and both loops wait for a message. *)
Theorem empty_get_swallows_reply :
  exists s, run_by (act Std) (demo_hello ++ demo_empty_get) demo_start = Some s /\
  Client.calls (cli s) !! 1%nat = Some (Client.CallDone (Client.RErr (Client.EPayloadSize 27 0))) /\
  Client.calls (cli s) !! 2%nat = Some (Client.CallWait (Client.OEnsure "c") 3 2) /\
  Client.pending (cli s) !! 3 = Some 2%nat /\ st_BucketExists (store (srv s)) "c" = true /\
  c2s s = [] /\ s2c s = [] /\ main (srv s) = Looping /\ Client.recv (cli s) = Client.RLoop.
Proof. eexists. split; [vm_compute; reflexivity|]. vm_compute. done. Qed.

(** A PUT whose context ends between its request and its payload ends the connection:
    the service takes the next request for the payload and closes. *)
Theorem partial_put_ends_connection :
  exists s, run_by (act Std) (demo_hello ++
    [AClient (Client.LStart (Client.OPut "b" "k" {| Client.Offset := 0; Client.RefSize := 4; Client.token := 0 |}));
     AClient (Client.LSend 1 (Client.SentInPart Client.ECtx)); AServerRecv true;
     AClient (Client.LStart (Client.OEnsure "c")); AClient (Client.LSend 2 Client.Sent); AServerRecv true])
    demo_start = Some s /\
  main (srv s) = Closing /\ st_BucketExists (store (srv s)) "c" = false /\ s2c s = [].
Proof. eexists. split; [vm_compute; reflexivity|]. vm_compute. done. Qed.

(** *** Witnesses *)

Definition demo_obj (b k : string) (d : list byte) : Prop := d = demo_body.

(** A store whose objects are all [demo_body]. *)
Definition sound_store : LoadedStore.MemoryStore :=
  (LoadedStore.PutLoadedObject LoadedStore.NewMemoryStore "b" "k" demo_body demo_time demo_time).1.

Lemma sound_store_ok : objects_ok demo_obj sound_store.
Proof.
  intros b k o Ho. assert (Hl : st_GetObject sound_store b k = if decide ((b, k) = ("b", "k")%string)
    then Some (LoadedStore.PutLoadedObject LoadedStore.NewMemoryStore "b" "k" demo_body demo_time demo_time).2
    else None).
  { change (st_GetObject sound_store b k) with (LoadedStore.GetObject sound_store b k).
    unfold sound_store. rewrite LoadedStore.GetObject_lookup, LoadedStore.put_lookup.
    case_decide; [done|]. unfold lookup_object. simpl. by rewrite lookup_empty. }
  rewrite Hl in Ho. case_decide; [|done]. injection Ho as <-. split; [done|]. split; vm_compute; done.
Qed.

Definition demo_get : list (action LoadedStore.MemoryStore) := get_steps "b" "k" 4 8 1 0.

Lemma demo_calm l : l = demo_hello ++ demo_get \/ l = demo_hello ++ take 8 demo_get -> Forall (calm 0 demo_obj) l.
Proof.
  assert (Hu : forall a, is_ascii a = true -> utf8 (String a "")) by (intros; by apply utf8_1; [|constructor]).
  assert (Hall : Forall (calm 0 demo_obj) (demo_hello ++ demo_get)).
  { unfold demo_hello, demo_get, get_steps. cbn [app].
    repeat (apply Forall_cons; split; [try exact I; try done|]); [|constructor].
    simpl. split_and!; try (by apply Hu); unfold int64; lia. }
  intros [->| ->]; [done|]. apply Forall_app in Hall as [H1 H2]. apply Forall_app. split; [done|].
  by apply Forall_take.
Qed.

Definition demo_mem : list byte := replicate 16 x00.
Definition demo_after (l : list (action LoadedStore.MemoryStore)) : system LoadedStore.MemoryStore :=
  after_by (act Std) (connect sound_store 0 (Client.newClient demo_mem 0 4)) l.

Lemma demo_runs l :
  l = demo_hello ++ demo_get \/ l = demo_hello ++ take 8 demo_get ->
  run_by (act Std) l (connect sound_store 0 (Client.newClient demo_mem 0 4)) = Some (demo_after l) ->
  runs Std 0 demo_obj demo_mem 0 4 sound_store l (demo_after l).
Proof.
  intros Hl Hrun. split; [by apply demo_calm|]. split; [by destruct Hl as [-> | ->]|].
  split; [apply sound_store_ok|]. split_and!; try done; unfold int64; lia.
Qed.

Lemma outstanding_within_hello_witness :
  outstanding (demo_after (demo_hello ++ demo_get)) <= 1.
Proof.
  pose proof (outstanding_within_hello Std 0 demo_obj demo_mem 0 4 sound_store (demo_hello ++ demo_get)
    (demo_after (demo_hello ++ demo_get))
    (demo_runs _ (or_introl eq_refl) ltac:(vm_compute; reflexivity))) as Hle.
  assert (Hh : zsum hello_credits (Client.sent (cli (demo_after (demo_hello ++ demo_get)))) = 1)
    by (vm_compute; reflexivity).
  rewrite Hh in Hle. pose proof (Z.le_max_l 0 (credits (srv (demo_after (demo_hello ++ demo_get))))) as H1.
  pose proof (zsum_nonneg frame_grant (c2s (demo_after (demo_hello ++ demo_get))) frame_grant_nonneg) as H2.
  lia.
Defined.

Lemma get_returns_named_object_witness :
  exists d bb l1 l2, d = demo_body /\
  Client.releaseFns (cli (demo_after (demo_hello ++ demo_get))) !! 1 = Some bb /\
  Client.b_frame bb = {| f_Payload := d; f_SharedOffset := 4 |} /\
  out (srv (demo_after (demo_hello ++ demo_get))) = l1 ++ OutData d 4 :: l2 /\
  Client.slice (window demo_mem (l1 ++ [OutData d 4])) 4 (blen d) = d.
Proof.
  destruct (get_returns_named_object Std 0 demo_obj demo_mem 0 4 sound_store (demo_hello ++ take 8 demo_get)
    (demo_after (demo_hello ++ take 8 demo_get)) (demo_after (demo_hello ++ demo_get)) 1 "b" "k" 4 8 2 1
    Client.WResult true {| Client.Offset := 4; Client.RefSize := 5; Client.token := 1 |})
    as (d & bb & H1 & _ & _ & _ & _ & _ & H2 & H3 & l1 & l2 & H4 & H5);
    [apply demo_runs; [by right|vm_compute; reflexivity]|vm_compute; reflexivity..|].
  exists d, bb, l1, l2. split; [exact H1|split; [exact H2|split; [exact H3|split; [exact H4|]]]].
  exact (H5 0%nat (Forall_nil_2 _)).
Defined.

Lemma demo_idle : idle (demo_after demo_hello).
Proof.
  assert (HI : runs Std 0 demo_obj demo_mem 0 4 sound_store demo_hello (demo_after demo_hello)).
  { split; [|split; [done|split; [apply sound_store_ok|]]].
    - pose proof (demo_calm _ (or_introl eq_refl)) as Hc. by apply Forall_app in Hc as [Hc _].
    - split_and!; try (unfold int64; lia); [done|vm_compute; reflexivity]. }
  apply runs_inv in HI as [HI _]. constructor; try (vm_compute; reflexivity). apply HI.
Qed.

Lemma get_and_release_cycle_witness :
  exists s1 s2, run_by (act Std) demo_get (demo_after demo_hello) = Some s1 /\
  Client.slice (Client.shared (cli s1)) 4 5 = demo_body /\ credits (srv s1) = 0 /\
  run_by (act Std) [AClient (Client.LRelease {| Client.Offset := 4; Client.RefSize := 5; Client.token := 1 |} true);
    AServerRecv true] s1 = Some s2 /\ credits (srv s2) = 1.
Proof.
  destruct (get_and_release_cycle Std 0 demo_obj (demo_after demo_hello) "b" "k" 4 8
    (LoadedStore.PutLoadedObject LoadedStore.NewMemoryStore "b" "k" demo_body demo_time demo_time).2 demo_idle)
    as (s1 & s2 & H1 & _ & H2 & H3 & _ & H4 & H5 & _).
  - assert (Hu : forall a, is_ascii a = true -> utf8 (String a "")) by (intros; by apply utf8_1; [|constructor]).
    constructor; try (vm_compute; intuition (congruence || reflexivity)); try (split; by apply Hu).
    constructor; vm_compute; intuition congruence.
  - exists s1, s2. split; [exact H1|split; [exact H2|split; [exact H3|split; [exact H4|exact H5]]]].
Defined.
