(* ===== verification/ZcopyService.v ===== *)
(** * A whole zcopy service (internal/s3rdmaserver/zcopy, internal/inmems3/zcopy: Service)

    ZcopyServer.v is one connection.  Here is the [Service]: its accept loop, a goroutine
    of [serveConn] per accepted connection, all of them over the same store, which the
    HTTP handlers and the control server use too.  A connection's part of the state is
    that of ZcopyServer.v, its steps are ZcopyServer.v's on the store of the moment, and
    [connections_run_alone] is the lemma by which what is proved of a run of that model
    holds of every connection of a service.

    What a connection can do besides [MessageConn] is asked with type assertions: its
    dynamic type is the pair of the two answers. *)

From S2P Require Import Prelude Trans StoreIface Json ZcopyProto ZcopyServer.
From S2P Require LoadedStore.

(** ** The service *)

(** The two interfaces a connection's type may implement. *)
Record conn_type := { is_borrowing : bool; is_offset_sender : bool }.

Inductive init_err := ENoBorrow | ENoOffsetSender.
Inductive serve_err := EListenerNil | EStoreNil | EAccept.

Section Service.
Context {St : Type} `{ObjectStore St}.

(** The [Service] value; a listener or a store may be nil (a nil store under
    internal/inmems3, which does not check for it, has no step here). *)
Record Service := {
  listener : bool;             (* not nil *)
  sv_store : option St;
  sv_max : Z;
  sv_timeouts : Timeouts;
}.

Definition NewService (ln : bool) (s : option St) (max : Z) (t : Timeouts) : Service :=
  {| listener := ln; sv_store := s; sv_max := max; sv_timeouts := normalized t |}.

(** [newZCopyConn]: the connection's state and its timeouts, or the refusal. *)
Definition newConn (s : St) (max : Z) (ct : conn_type) (t : Timeouts) : zcopyConn St * Timeouts + init_err :=
  let timeouts := normalized t in
  if negb (is_borrowing ct) then inr ENoBorrow
  else if negb (is_offset_sender ct) then inr ENoOffsetSender
  else inl (newZCopyConn s max, timeouts).

(** ** Its goroutines *)

(** A goroutine of [serveConn]: started, past [newZCopyConn], or returned because that
    failed.  One whose [main] is [ConnClosed] has returned too. *)
Inductive handler_pc :=
| HStart
| HServing (c : zcopyConn St) (t : Timeouts)
| HRefused (e : init_err).

Record handler := {
  h_type : conn_type;
  h_pc : handler_pc;
  h_closes : nat;              (* calls of conn.Close *)
}.

Inductive serve_pc := ServeIdle | Accepting | ServeReturned (e : serve_err).

Record world := {
  svc : Service;
  serving : serve_pc;
  handlers : list handler;
  listener_closes : nat;
}.

Definition start (s : Service) : world :=
  {| svc := s; serving := ServeIdle; handlers := []; listener_closes := 0 |}.

Definition set_store (w : world) (s : St) : world :=
  {| svc := {| listener := listener (svc w); sv_store := Some s; sv_max := sv_max (svc w);
               sv_timeouts := sv_timeouts (svc w) |};
     serving := serving w; handlers := handlers w; listener_closes := listener_closes w |}.
Definition set_serving (w : world) (p : serve_pc) : world :=
  {| svc := svc w; serving := p; handlers := handlers w; listener_closes := listener_closes w |}.
Definition set_handlers (w : world) (l : list handler) : world :=
  {| svc := svc w; serving := serving w; handlers := l; listener_closes := listener_closes w |}.

Definition with_hpc (h : handler) (p : handler_pc) (closes : nat) : handler :=
  {| h_type := h_type h; h_pc := p; h_closes := h_closes h + closes |}.

(** [Serve], up to its loop.  Without its checks (internal/inmems3) a nil listener is
    used, and the step is not possible. *)
Definition Serve (v : server) (w : world) : option world :=
  match v with
  | Std =>
    Some (set_serving w
      (if negb (listener (svc w)) then ServeReturned EListenerNil
       else match sv_store (svc w) with None => ServeReturned EStoreNil | Some _ => Accepting end))
  | Inmem => if listener (svc w) then Some (set_serving w Accepting) else None
  end.

(** One turn of its loop: an accepted connection, or the listener's error. *)
Definition accept (w : world) (r : option conn_type) : world :=
  match r with
  | None => set_serving w (ServeReturned EAccept)
  | Some ct => set_handlers w (handlers w ++ [{| h_type := ct; h_pc := HStart; h_closes := 0 |}])
  end.

(** [Close]: of a nil listener it does nothing in one service and fails in the other. *)
Definition Close (v : server) (w : world) : option world :=
  if listener (svc w) then
    Some {| svc := svc w; serving := serving w; handlers := handlers w;
            listener_closes := S (listener_closes w) |}
  else match v with Std => Some w | Inmem => None end.

(** [serveConn], up to its loop: a connection that is refused is closed. *)
Definition begin_conn (s : St) (w : world) (h : handler) : handler :=
  match newConn s (sv_max (svc w)) (h_type h) (sv_timeouts (svc w)) with
  | inl (c, t) => with_hpc h (HServing c t) 0
  | inr e => with_hpc h (HRefused e) 1
  end.

(** The deferred function closes the connection in its last step. *)
Definition closes_of (l : label St) : nat := match l with LFinish => 1 | _ => 0 end.

(** ** Steps *)

Inductive step :=
| WServe
| WAccept (r : option conn_type)
| WBegin (i : nat)
| WConn (i : nat) (l : label St)      (* a step of ZcopyServer.v, on connection i *)
| WStore (s : St)                     (* other users of the store *)
| WClose.

Definition act (v : server) (a : step) (w : world) : option world :=
  match a with
  | WServe => match serving w with ServeIdle => Serve v w | _ => None end
  | WAccept r => match serving w with Accepting => Some (accept w r) | _ => None end
  | WBegin i =>
    match handlers w !! i, sv_store (svc w) with
    | Some h, Some s =>
      match h_pc h with
      | HStart => Some (set_handlers w (<[i := begin_conn s w h]> (handlers w)))
      | _ => None
      end
    | _, _ => None
    end
  | WConn i (LStore _) => None
  | WConn i l =>
    match handlers w !! i, sv_store (svc w) with
    | Some h, Some s =>
      match h_pc h with
      | HServing c t =>
        match exec v (with_store c s) l with
        | Some c' =>
          Some (set_store (set_handlers w (<[i := with_hpc h (HServing c' t) (closes_of l)]> (handlers w)))
                          (store c'))
        | None => None
        end
      | _ => None
      end
    | _, _ => None
    end
  | WStore s => match sv_store (svc w) with Some _ => Some (set_store w s) | None => None end
  | WClose => Close v w
  end.
End Service.
Arguments Service St : clear implicits.
Arguments world St : clear implicits.
Arguments handler St : clear implicits.
Arguments step St : clear implicits.

Definition inmem_newService {St} (ln : bool) (s : option St) (max : Z) : Service St :=
  {| listener := ln; sv_store := s; sv_max := max;
     sv_timeouts := {| t_Control := 10 * 10 ^ 9; t_Data := 30 * 10 ^ 9; t_Idle := 30 * 10 ^ 9 |} |}.
Definition inmem_Serve {St} `{ObjectStore St} : world St -> option (world St) := Serve Inmem.
Definition inmem_Close {St} `{ObjectStore St} : world St -> option (world St) := Close Inmem.

(** ** Projection onto one connection *)

(** The steps of connection [i] in a run of the service. *)
Definition conn_steps {St} (i : nat) (l : list (step St)) : list (label St) :=
  omap (fun a => match a with WConn j x => if decide (j = i) then Some x else None | _ => None end) l.

(** A run of one connection without the others' changes of the store. *)
Definition own_steps {St} (ls : list (label St)) : list (label St) :=
  List.filter (fun x => match x with LStore _ => false | _ => true end) ls.

Section Facts.
Context {St : Type} `{ObjectStoreLaws St}.
Implicit Types (w : world St) (h : handler St).

Lemma exec_all_snoc v c ls c1 x : exec_all v c ls = Some c1 -> exec_all v c (ls ++ [x]) = exec v c1 x.
Proof. intros Hc. rewrite (exec_all_app v c ls [x] c1 Hc). simpl. by destruct (exec v c1 x). Qed.

(** *** A connection returns in its last step, and only then *)

Definition finished (m : main_pc) : nat := match m with ConnClosed => 1 | _ => 0 end.

Lemma continue_running (r : zcopyConn St * bool) : finished (main (continue_if r)) = 0%nat.
Proof. by destruct r as [c []]. Qed.

Lemma dispatch_running (c : zcopyConn St) m ok : finished (main (dispatch c m ok)) = 0%nat.
Proof.
  unfold dispatch, handlePut, handleGetAsync, finishPut. repeat case_match; try done; apply continue_running.
Qed.

Lemma exec_finished v (c : zcopyConn St) x c' :
  exec v c x = Some c' -> finished (main c') = (finished (main c) + closes_of x)%nat.
Proof.
  intros Hex. destruct x as [r ok|r ok|i ok|i|i ok1 ok2| |s]; simpl in Hex.
  - destruct (main c) eqn:Hm; simplify_eq. unfold serveConn.
    destruct (recvControl r); [apply dispatch_running|done].
  - destruct (main c) eqn:Hm; simplify_eq. unfold handlePut_payload.
    destruct (recvPayloadAt_end _ _ _); [apply continue_running|done].
  - destruct (gets c !! i) as [[msg| | |]|]; [|done..].
    destruct (handleGet c msg ok) as [c1 g1] eqn:Eg. injection Hex as <-.
    destruct (handleGet_quiet _ _ _ _ _ Eg) as (_ & _ & _ & Hm & _). simpl. rewrite Hm. lia.
  - destruct (gets c !! i) as [[|reqID payload off| |]|]; [done| |done..].
    destruct (waitCredit v c) as [[c1 taken]|] eqn:Ew; simpl in Hex; [|done]. injection Hex as <-.
    destruct (waitCredit_same _ _ _ _ Ew) as (_ & _ & _ & Hm & _). simpl. rewrite Hm. lia.
  - destruct (gets c !! i) as [[| |reqID payload off|]|]; [done|done| |done..]. injection Hex as <-.
    destruct (sendGetPayload_out c reqID payload off ok1 ok2) as (_ & _ & _ & Hm & _). simpl. rewrite Hm. lia.
  - destruct (main c) eqn:Hm; try done. destruct (forallb _ _); [|done]. by injection Hex as <-.
  - injection Hex as <-. simpl. lia.
Qed.

(** What connection [i] has done in the run [l] of the service that left the store [s]. *)
Definition alone v (s0 : St) max l (s : option St) (i : nat) h : Prop :=
  h_closes h = match h_pc h with
    | HStart => 0%nat
    | HRefused _ => 1%nat
    | HServing c _ => finished (main c) end /\
  match h_pc h with
  | HStart => conn_steps i l = []
  | HServing c _ =>
    exists s1 ls, s = Some s1 /\ own_steps ls = conn_steps i l /\
      exec_all v (newZCopyConn s0 max) ls = Some (with_store c s1)
  | HRefused _ => conn_steps i l = []
  end.

Record inv v (s0 : St) max l w : Prop := {
  i_max : sv_max (svc w) = max;
  i_handlers : forall i h, handlers w !! i = Some h -> alone v s0 max l (sv_store (svc w)) i h;
  i_later : forall i, (length (handlers w) <= i)%nat -> conn_steps i l = [];
}.

Lemma conn_steps_app i (l1 l2 : list (step St)) : conn_steps i (l1 ++ l2) = conn_steps i l1 ++ conn_steps i l2.
Proof. apply omap_app. Qed.

Lemma own_steps_app (l1 l2 : list (label St)) : own_steps (l1 ++ l2) = own_steps l1 ++ own_steps l2.
Proof. apply List.filter_app. Qed.

(** A step in which connection [i] does not move, but the store may change. *)
Lemma alone_store v s0 max l s s' i h a :
  conn_steps i [a] = [] -> (is_Some s -> is_Some s') -> alone v s0 max l s i h ->
  alone v s0 max (l ++ [a]) s' i h.
Proof.
  intros Ha Hs [Hc Hp]. split; [done|]. rewrite !conn_steps_app, Ha, !app_nil_r.
  destruct (h_pc h) as [|c t|e] eqn:E; [done| |done].
  destruct Hp as (s1 & ls & -> & H2 & H3). destruct Hs as [s2 ->]; [done|].
  exists s2, (ls ++ [LStore s2]). split; [done|]. split.
  - by rewrite own_steps_app, H2, app_nil_r.
  - by rewrite (exec_all_snoc _ _ _ _ _ H3).
Qed.

(** A step that moves no connection keeps the invariant. *)
Lemma inv_still v s0 max l a w w' :
  inv v s0 max l w -> (forall i, conn_steps i [a] = []) -> sv_max (svc w') = sv_max (svc w) ->
  (is_Some (sv_store (svc w)) -> is_Some (sv_store (svc w'))) ->
  (forall i h, handlers w' !! i = Some h -> handlers w !! i = Some h \/
     (conn_steps i l = [] /\ alone v s0 max [] (sv_store (svc w')) i h)) ->
  (length (handlers w) <= length (handlers w'))%nat -> inv v s0 max (l ++ [a]) w'.
Proof.
  intros [I1 I2 I3] Ha Hm Hs Hh Hlen. split.
  - congruence.
  - intros i h Hi. destruct (Hh i h Hi) as [Hi'|[Hl [Hc Hp]]].
    + eapply alone_store; eauto.
    + split; [done|]. rewrite !conn_steps_app, Ha, Hl. done.
  - intros i Hi. rewrite conn_steps_app, Ha, app_nil_r. apply I3. lia.
Qed.

(** A step of connection [i]: the others see a change of the store. *)
Lemma conn_inv v s0 max l w i h c t s x c' :
  inv v s0 max l w -> handlers w !! i = Some h -> sv_store (svc w) = Some s -> h_pc h = HServing c t ->
  (forall s1, x <> LStore s1) -> exec v (with_store c s) x = Some c' ->
  inv v s0 max (l ++ [WConn i x])
    (set_store (set_handlers w (<[i := with_hpc h (HServing c' t) (closes_of x)]> (handlers w))) (store c')).
Proof.
  intros [I1 I2 I3] Hi Hs Hp Hx Hex.
  assert (Hlt : (i < length (handlers w))%nat) by (by eapply lookup_lt_Some).
  split; simpl; [done| |].
  - intros j h' Hj. apply list_lookup_insert_Some in Hj as [(<- & <- & _)|(Hne & Hj)].
    + destruct (I2 i h Hi) as [Hc Ha]. rewrite Hp in Hc, Ha. destruct Ha as (s1 & ls & H1 & H2 & H3).
      rewrite Hs in H1. simplify_eq. split.
      * simpl. rewrite Hc. by rewrite (exec_finished _ _ _ _ Hex).
      * simpl. exists (store c'), (ls ++ [x]). split_and!; [done| |].
        -- rewrite own_steps_app, conn_steps_app, H2. f_equal. simpl. rewrite decide_True by done.
           by destruct x; try (by destruct (Hx s)).
        -- rewrite (exec_all_snoc _ _ _ _ _ H3), Hex. by destruct c'.
    + eapply alone_store; [|done|by eapply I2]. simpl. by rewrite decide_False.
  - intros j Hj. rewrite length_insert in Hj. rewrite conn_steps_app, (I3 j) by done. simpl.
    rewrite decide_False; [done|]. lia.
Qed.

(** A step of connection [i] is one of ZcopyServer.v on the store of the moment. *)
Lemma act_conn v i x w w' :
  act v (WConn i x) w = Some w' ->
  exists h c t s c', handlers w !! i = Some h /\ sv_store (svc w) = Some s /\ h_pc h = HServing c t /\
    (forall s1, x <> LStore s1) /\ exec v (with_store c s) x = Some c' /\
    w' = set_store (set_handlers w (<[i := with_hpc h (HServing c' t) (closes_of x)]> (handlers w))) (store c').
Proof.
  intros Ha. assert (Hx : forall s1, x <> LStore s1) by (by destruct x).
  assert (Ha' : match handlers w !! i, sv_store (svc w) with
    | Some h, Some s => match h_pc h with
      | HServing c t => match exec v (with_store c s) x with
        | Some c' => Some (set_store (set_handlers w (<[i := with_hpc h (HServing c' t) (closes_of x)]>
            (handlers w))) (store c'))
        | None => None end
      | _ => None end
    | _, _ => None end = Some w') by (by destruct x). clear Ha.
  destruct (handlers w !! i) as [h|]; [|done]. destruct (sv_store (svc w)) as [s|]; [|done].
  destruct (h_pc h) as [|c t|] eqn:Hp; try done.
  destruct (exec v (with_store c s) x) as [c'|] eqn:Hex; simplify_eq. by exists h, c, t, s, c'.
Qed.

Lemma service_act_inv v s0 max l a w w' :
  inv v s0 max l w -> act v a w = Some w' -> inv v s0 max (l ++ [a]) w'.
Proof.
  intros HI Ha. assert (I1 := i_max _ _ _ _ _ HI). destruct a as [|r|i|i x|s|]; simpl in Ha.
  - destruct (serving w); try done. unfold Serve in Ha. destruct v.
    + destruct (listener (svc w)); simplify_eq. eapply inv_still; eauto.
    + simplify_eq. eapply inv_still; eauto.
  - destruct (serving w); simplify_eq. destruct r as [ct|]; [|by eapply inv_still; eauto].
    eapply inv_still; eauto; simpl; [|rewrite length_app; lia].
    intros i h Hi. apply lookup_snoc_Some in Hi as [[_ Hi]|[-> <-]]; [by left|]. right.
    split; [by apply (i_later _ _ _ _ _ HI)|done].
  - destruct (handlers w !! i) as [h|] eqn:Hi; [|done]. destruct (sv_store (svc w)) as [s|] eqn:Hs; [|done].
    destruct (h_pc h) eqn:Hp; simplify_eq. destruct (i_handlers _ _ _ _ _ HI i h Hi) as [Hc Hl].
    rewrite Hp in Hc, Hl. eapply inv_still; eauto; simpl; [|by rewrite length_insert].
    intros j h' Hj. apply list_lookup_insert_Some in Hj as [(<- & <- & _)|(Hne & Hj)]; [right|by left].
    split; [done|]. unfold begin_conn, newConn. destruct (is_borrowing (h_type h)), (is_offset_sender (h_type h));
      (split; simpl; [by rewrite Hc|]); try done.
    exists s, [LStore s]. done.
  - apply act_conn in Ha as (h & c & t & s & c' & Hi & Hs & Hp & Hx & Hex & ->). by eapply conn_inv.
  - destruct (sv_store (svc w)) as [s'|] eqn:Hs; simplify_eq. eapply inv_still; eauto.
  - unfold Close in Ha. destruct (listener (svc w)); [|destruct v]; simplify_eq; eapply inv_still; eauto.
Qed.

Lemma run_service v s0 max l0 l w w' :
  inv v s0 max l0 w -> run_by (act v) l w = Some w' -> inv v s0 max (l0 ++ l) w'.
Proof.
  revert l0 w. induction l as [|a l IH]; intros l0 w HI; simpl; [intros [= <-]; by rewrite app_nil_r|].
  destruct (act v a w) as [w1|] eqn:E; [|done]. intros Hrun.
  rewrite (app_assoc l0 [a] l : l0 ++ a :: l = _). eapply IH; [|done]. by eapply service_act_inv.
Qed.

Lemma inv_start v s0 s : sv_store s = Some s0 -> inv v s0 (sv_max s) [] (start s).
Proof. by split. Qed.
End Facts.

Section Properties.
Context {St : Type} `{ObjectStoreLaws St}.
Implicit Types (w : world St) (h : handler St).

(** ** Properties *)

(** Each connection of a service runs as if it were alone, with the others' work on the
    store between its steps. *)
Lemma connections_run_alone v (sv : Service St) s0 l w i h c t :
  sv_store sv = Some s0 -> run_by (act v) l (start sv) = Some w ->
  handlers w !! i = Some h -> h_pc h = HServing c t ->
  exists s ls, sv_store (svc w) = Some s /\ own_steps ls = conn_steps i l /\
    exec_all v (newZCopyConn s0 (sv_max sv)) ls = Some (with_store c s).
Proof.
  intros Hs Hrun Hi Hp. destruct (i_handlers _ _ _ _ _ (run_service v s0 _ [] l _ _ (inv_start v s0 sv Hs) Hrun) i h Hi)
    as [_ Hl].
  rewrite Hp in Hl. destruct Hl as (s & ls & H1 & H2 & H3). by exists s, ls.
Qed.

Lemma grants_own (ls : list (label St)) : zsum grant ls = zsum grant (own_steps ls).
Proof. induction ls as [|x ls IH]; [done|]. simpl. rewrite IH. by destruct x. Qed.

(** C7: Flow control, for every connection of a service: whatever its client sends and
    the other connections do, the data messages sent to a client, with those a goroutine
    is about to send, never exceed the credits that client has granted, and its credit
    counter is never negative (the grants being countable in 63 bits). *)
Theorem service_within_grants v (sv : Service St) s0 l w i h c t :
  sv_store sv = Some s0 -> run_by (act v) l (start sv) = Some w ->
  handlers w !! i = Some h -> h_pc h = HServing c t ->
  zsum grant (conn_steps i l) < 2 ^ 63 ->
  0 <= credits c /\
  zsum is_data (out c) + zsum is_sending (gets c) + credits c <= zsum grant (conn_steps i l).
Proof.
  intros Hs Hrun Hi Hp Hfit.
  destruct (connections_run_alone v sv s0 l w i h c t Hs Hrun Hi Hp) as (s & ls & _ & H2 & H3).
  rewrite <- H2, <- grants_own in *.
  destruct (exec_all_flow v _ ls _ 0 H3) as [Hlo Hhi]; [|lia|].
  - unfold flow. simpl. lia.
  - simpl in *. lia.
Qed.

(** C8: A service changes no object: after any run in which nobody else touches the
    store, over any number of connections and whatever they ask for, every object that
    could be read can still be read, the same, and no object is new; only buckets may
    have been created. *)
Theorem service_keeps_objects v (sv : Service St) s0 l w s b k :
  sv_store sv = Some s0 -> run_by (act v) l (start sv) = Some w -> sv_store (svc w) = Some s ->
  forallb (fun a => match a with WStore _ => false | _ => true end) l = true ->
  st_GetObject s b k = st_GetObject s0 b k.
Proof.
  assert (Hstep : forall a w w' s, act v a w = Some w' -> sv_store (svc w) = Some s ->
    match a with WStore _ => false | _ => true end = true ->
    exists s', sv_store (svc w') = Some s' /\ st_GetObject s' b k = st_GetObject s b k).
  { clear l w s. intros a w w' s Ha Hs Hn. destruct a as [|r|i|i x|s1|]; try done; simpl in Ha.
    - unfold Serve in Ha. repeat case_match; simplify_eq/=; eauto.
    - destruct r; repeat case_match; simplify_eq/=; eauto.
    - repeat case_match; simplify_eq/=; eauto.
    - apply act_conn in Ha as (h & c & t & s1 & c' & _ & Hs1 & _ & Hx & Hex & ->). simplify_eq.
      exists (store c'). split; [done|]. by rewrite (exec_objects _ _ _ _ b k Hex Hx).
    - unfold Close in Ha. repeat case_match; simplify_eq/=; eauto. }
  intros Hs0. change (sv_store (svc (start sv)) = Some s0) in Hs0. revert Hs0. generalize (start sv) as w0.
  revert s0. induction l as [|a l IH]; intros s0 w0 Hs0; simpl; [by intros [= <-] ?; simplify_eq|].
  destruct (act v a w0) as [w1|] eqn:E; [|done]. intros Hrun Hs [Ha Hl]%andb_prop.
  destruct (Hstep a w0 w1 s0 E Hs0 Ha) as (s1 & H1 & <-). by eapply IH.
Qed.

(** C32: Every accepted connection is closed exactly once, by its own goroutine: when it
    is refused because its type lacks an interface, or when [serveConn] returns; until
    then it is not closed, not even by the service's [Close]. *)
Theorem connection_is_closed_once v (sv : Service St) s0 l w i h :
  sv_store sv = Some s0 -> run_by (act v) l (start sv) = Some w -> handlers w !! i = Some h ->
  h_closes h = match h_pc h with
    | HStart => 0%nat
    | HRefused _ => 1%nat
    | HServing c _ => match main c with ConnClosed => 1%nat | _ => 0%nat end
    end.
Proof.
  intros Hs Hrun Hi.
  by destruct (i_handlers _ _ _ _ _ (run_service v s0 _ [] l _ _ (inv_start v s0 sv Hs) Hrun) i h Hi) as [Hc _].
Qed.
End Properties.

(** ** Concrete runs *)

#[local] Existing Instances LoadedStore.MemoryStore_store LoadedStore.MemoryStore_laws.

Definition both : conn_type := {| is_borrowing := true; is_offset_sender := true |}.

Definition demo_service : Service LoadedStore.MemoryStore :=
  NewService true (Some demo_store) 0 {| t_Control := 0; t_Data := 0; t_Idle := 0 |}.

(** Two clients: the second creates a bucket while the first gets an object; a third
    connection cannot send to an offset; then the service is closed. *)
Definition two_clients : list (step LoadedStore.MemoryStore) :=
  [WServe; WAccept (Some both); WAccept (Some both); WBegin 1;
   WAccept (Some {| is_borrowing := true; is_offset_sender := false |}); WBegin 2; WBegin 0;
   WConn 0 (LRecv (Some (frame_of (request OpHelloReq 1 2 0 0 None))) true);
   WConn 1 (LRecv (Some (frame_of evil_payload)) true);
   WConn 0 (LRecv (Some (frame_of (request OpGetReq 2 0 0 0 (Some 64)))) true);
   WConn 0 (LBegin 0 true); WClose; WConn 1 (LRecv None true); WConn 0 (LCredit 0);
   WConn 0 (LSend 0 true true); WConn 1 LFinish].

Definition demo_world : world LoadedStore.MemoryStore := after_by (act Std) (start demo_service) two_clients.

Definition conn_at {St} (w : world St) (i : nat) : option (zcopyConn St) :=
  match handlers w !! i with
  | Some h => match h_pc h with HServing c _ => Some c | _ => None end
  | None => None
  end.

Lemma two_clients_run : run_by (act Std) two_clients (start demo_service) = Some demo_world.
Proof. unfold demo_world. apply (after_run (act Std) (start demo_service) two_clients). vm_compute. reflexivity. Qed.

(** The first client gets its object after [Close]; the second connection has been
    closed, once, and the third was refused. *)
Example demo_result :
  (fun c => length (out c)) <$> conn_at demo_world 0 = Some 3%nat /\
  h_closes <$> handlers demo_world = [0%nat; 1%nat; 1%nat] /\ listener_closes demo_world = 1%nat.
Proof. by vm_compute. Qed.

Lemma first_client : exists h c t, handlers demo_world !! 0%nat = Some h /\ h_pc h = HServing c t /\
  credits c = 1 /\ length (out c) = 3%nat.
Proof. eexists _, _, _. split; [vm_compute; reflexivity|]. split; [vm_compute; reflexivity|]. by vm_compute. Qed.

Lemma demo_grants : zsum grant (conn_steps 0 two_clients) = 2.
Proof. by vm_compute. Qed.

Lemma demo_left : exists s, sv_store (svc demo_world) = Some s /\ st_BucketExists s "evil" = true.
Proof. eexists. split; [vm_compute; reflexivity|]. by vm_compute. Qed.

Lemma service_within_grants_witness : exists h c t,
  handlers demo_world !! 0%nat = Some h /\ h_pc h = HServing c t /\
  0 <= credits c /\ zsum is_data (out c) + zsum is_sending (gets c) + credits c <= 2.
Proof.
  destruct first_client as (h & c & t & Hi & Hp & _). exists h, c, t. split; [exact Hi|]. split; [exact Hp|].
  pose proof (service_within_grants Std demo_service demo_store two_clients demo_world 0 h c t
    eq_refl two_clients_run Hi Hp) as Hg. rewrite demo_grants in Hg. apply Hg. lia.
Defined.

Lemma service_keeps_objects_witness : exists s,
  sv_store (svc demo_world) = Some s /\ st_BucketExists s "evil" = true /\
  st_GetObject s "b" "k" = st_GetObject demo_store "b" "k".
Proof.
  destruct demo_left as (s & Hs & Hb). exists s. split; [exact Hs|]. split; [exact Hb|].
  apply (service_keeps_objects Std demo_service demo_store two_clients demo_world s "b" "k");
    [reflexivity|apply two_clients_run|exact Hs|reflexivity].
Defined.

Lemma connection_is_closed_once_witness : exists h,
  handlers demo_world !! 1%nat = Some h /\ h_closes h = 1%nat.
Proof.
  assert (Hh : exists h c t, handlers demo_world !! 1%nat = Some h /\ h_pc h = HServing c t /\ main c = ConnClosed).
  { eexists _, _, _. split; [vm_compute; reflexivity|]. split; [vm_compute; reflexivity|]. by vm_compute. }
  destruct Hh as (h & c & t & Hi & Hp & Hm). exists h. split; [exact Hi|].
  rewrite (connection_is_closed_once Std demo_service demo_store two_clients demo_world 1 h
    eq_refl two_clients_run Hi), Hp, Hm. reflexivity.
Defined.
