(* ===== verification/VerbsConfig.v ===== *)
(** * Configuration and wire records of the RDMA transport
    (pkg/rdma/verbs.go and the pure parts of pkg/rdma/verbs_linux_cgo.go)

    The options and their normalisation, the addresses, the conversion of Go
    durations to the C code's milliseconds, and the two packed records the peers
    exchange: the descriptor of the remote-write window and the notification that
    follows a remote write. *)

From S2P Require Import Prelude.

(** ** Options *)

Definition DefaultVerbsFramePayloadSize : Z := 64 * 1024.
Definition DefaultVerbsSendQueueDepth : Z := 64.
Definition DefaultVerbsRecvQueueDepth : Z := 64.
Definition DefaultVerbsInlineThreshold : Z := 0.
Definition DefaultVerbsSendSignalInterval : Z := 1.
Definition DefaultVerbsLowCPUSendSignalInterval : Z := 16.

(** The memory of a Go slice: the address of its first byte and its length. *)
Record slice := { s_addr : Z; s_len : Z }.
Definition nil_slice : slice := {| s_addr := 0; s_len := 0 |}.

Record VerbsOptions := {
  FramePayloadSize : Z;
  SendQueueDepth : Z;
  RecvQueueDepth : Z;
  InlineThreshold : Z;
  LowCPU : bool;
  SendSignalInterval : Z;
  SharedRWMemory : slice;
}.

Record verbsConfig := {
  framePayloadSize : Z;
  sendQueueDepth : Z;
  recvQueueDepth : Z;
  inlineThreshold : Z;
  sendSignalIntvl : Z;
  lowCPU : bool;
  sharedRWMemory : slice;
}.

Inductive CfgErr :=
| ErrFramePayloadSize | ErrSendQueueDepth | ErrRecvQueueDepth | ErrInlineThreshold
| ErrSendSignalInterval | ErrSharedRWMemory
| ErrUnsupportedNetwork | ErrInvalidAddress | ErrMissingPort.

(** [cfg.x = d; if o.X > 0 { cfg.x = o.X }] *)
Definition or_default (v d : Z) : Z := if 0 <? v then v else d.

Definition normalize (o : VerbsOptions) : res CfgErr verbsConfig :=
  if FramePayloadSize o <? 0 then Err ErrFramePayloadSize
  else if SendQueueDepth o <? 0 then Err ErrSendQueueDepth
  else if RecvQueueDepth o <? 0 then Err ErrRecvQueueDepth
  else if InlineThreshold o <? 0 then Err ErrInlineThreshold
  else if SendSignalInterval o <? 0 then Err ErrSendSignalInterval
  else
    let frame := or_default (FramePayloadSize o) DefaultVerbsFramePayloadSize in
    let intvl0 := if LowCPU o then DefaultVerbsLowCPUSendSignalInterval
                  else DefaultVerbsSendSignalInterval in
    let cfg shared :=
      {| framePayloadSize := frame;
         sendQueueDepth := or_default (SendQueueDepth o) DefaultVerbsSendQueueDepth;
         recvQueueDepth := or_default (RecvQueueDepth o) DefaultVerbsRecvQueueDepth;
         inlineThreshold := or_default (InlineThreshold o) DefaultVerbsInlineThreshold;
         sendSignalIntvl := or_default (SendSignalInterval o) intvl0;
         lowCPU := LowCPU o;
         sharedRWMemory := shared |} in
    if 0 <? s_len (SharedRWMemory o) then
      if s_len (SharedRWMemory o) <? frame then Err ErrSharedRWMemory
      else Ok (cfg (SharedRWMemory o))
    else Ok (cfg nil_slice).

(** ** Addresses *)

Fixpoint LastIndexByte (s : string) (c : ascii) : option nat :=
  match s with
  | EmptyString => None
  | String a s' =>
    match LastIndexByte s' c with
    | Some i => Some (S i)
    | None => if Ascii.eqb a c then Some O else None
    end
  end.

(** [net.SplitHostPort] and [net.JoinHostPort]; [None] is any of its errors. *)
Definition SplitHostPort (hostport : string) : option (string * string) :=
  match LastIndexByte hostport ":" with
  | None => None
  | Some i =>
    let finish (host : string) (j k : nat) :=
      match IndexByte (str_drop j hostport) "[", IndexByte (str_drop k hostport) "]" with
      | None, None => Some (host, str_drop (S i) hostport)
      | _, _ => None
      end in
    match hostport with
    | String "[" _ =>
      match IndexByte hostport "]" with
      | None => None
      | Some e => if (S e =? i)%nat then finish (str_drop 1 (str_take e hostport)) 1%nat (S e)
                  else None
      end
    | _ =>
      let host := str_take i hostport in
      match IndexByte host ":" with
      | Some _ => None
      | None => finish host 0%nat 0%nat
      end
    end
  end.

Definition JoinHostPort (host port : string) : string :=
  match IndexByte host ":" with
  | Some _ => String "[" (host +:+ String "]" (String ":" port))
  | None => host +:+ String ":" port
  end.

Definition supported_network (network : string) : bool :=
  existsb (String.eqb network)
    [""; "tcp"; "tcp4"; "tcp6"; "rdma"; "rdma4"; "rdma6"]%string.

Definition splitHostPortListenAddress (network address : string) : res CfgErr (string * string) :=
  if negb (supported_network network) then Err ErrUnsupportedNetwork
  else match SplitHostPort address with
       | None => Err ErrInvalidAddress
       | Some (host, port) => if String.eqb port "" then Err ErrMissingPort else Ok (host, port)
       end.

Definition splitHostPortAddress (network address : string) : res CfgErr (string * string) :=
  if negb (supported_network network) then Err ErrUnsupportedNetwork
  else match SplitHostPort address with
       | None => Err ErrInvalidAddress
       | Some (host, port) =>
         if String.eqb port "" then Err ErrMissingPort
         else Ok (if String.eqb host "" then "127.0.0.1"%string else host, port)
       end.

(** ** Timeouts: nanoseconds to the C code's [int] milliseconds *)

Definition Millisecond : Z := 1000000.

Definition rdmaDurationToTimeoutMillis (d : Z) : Z :=
  if d <=? 0 then 0
  else
    let ms := d / Millisecond in
    let ms := if negb (d mod Millisecond =? 0) then ms + 1 else ms in
    let ms := if ms <? 1 then 1 else ms in
    if 2147483647 <? ms then 2147483647 else ms.

(** ** The capacity of the receive window a connection allocates itself *)

Definition GO_RDMA_RW_RECV_CAP_MIN_BYTES : Z := 256 * 1024.
Definition GO_RDMA_RW_RECV_CAP_MAX_BYTES : Z := 4 * 1024 * 1024.
Definition GO_RDMA_RW_RECV_CAP_FRAMES : Z := 32.
Definition GO_RDMA_RW_RECV_SLOTS : Z := 8.

Definition go_rdma_choose_rw_recv_cap (frame_cap : Z) : Z :=
  let cap := u64 (frame_cap * GO_RDMA_RW_RECV_CAP_FRAMES) in
  let cap := if cap <? GO_RDMA_RW_RECV_CAP_MIN_BYTES then GO_RDMA_RW_RECV_CAP_MIN_BYTES else cap in
  let cap := if GO_RDMA_RW_RECV_CAP_MAX_BYTES <? cap then GO_RDMA_RW_RECV_CAP_MAX_BYTES else cap in
  u32 cap.

(** ** The packed records (little-endian hosts) *)

Definition GO_RDMA_RW_DESC_MAGIC : Z := 0x5244574445534331.
Definition GO_RDMA_RW_NOTIFY_MAGIC : Z := 0x5244574e4f544659.
Definition GO_RDMA_RW_NOTIFY_KIND_WRITE : Z := 1.
Definition GO_RDMA_RW_NOTIFY_KIND_WRITE_AT : Z := 2.

Record go_rdma_rw_desc := {
  d_magic : Z;
  d_addr : Z;
  d_rkey : Z;
  d_cap : Z;
  d_slots : Z;
}.

Definition desc_bytes (d : go_rdma_rw_desc) : list byte :=
  le_put 8 (d_magic d) ++ le_put 8 (d_addr d) ++ le_put 4 (d_rkey d) ++
  le_put 4 (d_cap d) ++ le_put 4 (d_slots d).

Definition bytes_desc (l : list byte) : go_rdma_rw_desc :=
  {| d_magic := le_get (take 8 l);
     d_addr := le_get (take 8 (drop 8 l));
     d_rkey := le_get (take 4 (drop 16 l));
     d_cap := le_get (take 4 (drop 20 l));
     d_slots := le_get (take 4 (drop 24 l)) |}.

Definition sizeof_desc : Z := 28.

Record go_rdma_rw_notify := {
  n_magic : Z;
  n_kind : Z;
  n_length : Z;
  n_slot : Z;
}.

Definition notify_bytes (n : go_rdma_rw_notify) : list byte :=
  le_put 8 (n_magic n) ++ le_put 4 (n_kind n) ++ le_put 4 (n_length n) ++ le_put 4 (n_slot n).

Definition rdmaWriteNotifyMagic : Z := 0x5244574e4f544659.
Definition rdmaWriteNotifyKind : Z := 1.
Definition rdmaWriteNotifyKindAt : Z := 2.
Definition rdmaWriteNotifySize : Z := 20.

(** [Some (length, token, at)], or [None] for the Go [ok = false]. *)
Definition parseWriteNotifyFrame (frame : list byte) : option (Z * Z * bool) :=
  if negb (blen frame =? rdmaWriteNotifySize) then None
  else if negb (le_get (take 8 frame) =? rdmaWriteNotifyMagic) then None
  else
    let kind := le_get (take 4 (drop 8 frame)) in
    if negb (kind =? rdmaWriteNotifyKind) && negb (kind =? rdmaWriteNotifyKindAt) then None
    else Some (le_get (take 4 (drop 12 frame)), le_get (take 4 (drop 16 frame)),
               kind =? rdmaWriteNotifyKindAt).

(** ** Properties *)

Definition cfg_valid (c : verbsConfig) : Prop :=
  0 < framePayloadSize c /\ 0 < sendQueueDepth c /\ 0 < recvQueueDepth c /\
  0 <= inlineThreshold c /\ 0 < sendSignalIntvl c /\
  (s_len (sharedRWMemory c) = 0 \/ framePayloadSize c <= s_len (sharedRWMemory c)).

Definition opts_refused (o : VerbsOptions) : Prop :=
  FramePayloadSize o < 0 \/ SendQueueDepth o < 0 \/ RecvQueueDepth o < 0 \/
  InlineThreshold o < 0 \/ SendSignalInterval o < 0 \/
  (0 < s_len (SharedRWMemory o) < or_default (FramePayloadSize o) DefaultVerbsFramePayloadSize).

Lemma or_default_pos v d : 0 < d -> 0 < or_default v d.
Proof. unfold or_default. intros. case_match; bool_facts; lia. Qed.

(** Normalising the verbs options either refuses them, exactly when a size, a depth, the inline threshold or the interval is negative or the shared memory is smaller than a frame, or yields a configuration the transport accepts: positive frame size, queue depths and signal interval, and a shared region that holds at least one frame. *)
Theorem normalize_valid o :
  match normalize o with
  | Ok c => cfg_valid c /\ ~ opts_refused o /\
            (SendSignalInterval o = 0 -> sendSignalIntvl c = if LowCPU o then 16 else 1)
  | Err _ => opts_refused o
  end.
Proof.
  unfold normalize, opts_refused.
  assert (Hf : 0 < or_default (FramePayloadSize o) DefaultVerbsFramePayloadSize)
    by (apply or_default_pos; done).
  repeat (case_match; simplify_eq; bool_facts; try (clear Hf; lia)).
  all: unfold cfg_valid; simpl.
  all: assert (0 <= or_default (InlineThreshold o) DefaultVerbsInlineThreshold)
    by (unfold or_default, DefaultVerbsInlineThreshold; case_match; bool_facts; lia).
  all: split_and!; try done; try (apply or_default_pos; by destruct (LowCPU o)); try lia.
  all: try (intros ->; by destruct (LowCPU o)).
Qed.

Lemma normalized_cfg o c : normalize o = Ok c -> cfg_valid c.
Proof. intros E. pose proof (normalize_valid o) as HN. rewrite E in HN. apply HN. Qed.

(** *** Addresses *)

Lemma IndexByte_None_app s k c :
  IndexByte (s +:+ k) c = None <-> IndexByte s c = None /\ IndexByte k c = None.
Proof.
  induction s as [|a s IH]; simpl; [tauto|]. destruct (Ascii.eqb a c); [split; [done|tauto]|].
  rewrite !fmap_None. tauto.
Qed.

Lemma IndexByte_None_cons a s c :
  IndexByte (String a s) c = None <-> a <> c /\ IndexByte s c = None.
Proof.
  simpl. destruct (Ascii.eqb_spec a c); [split; [done|tauto]|]. rewrite fmap_None. tauto.
Qed.

Lemma LastIndexByte_None s c : IndexByte s c = None -> LastIndexByte s c = None.
Proof.
  induction s as [|a s IH]; [done|]. rewrite IndexByte_None_cons. intros [Ha Hs]. simpl.
  rewrite (IH Hs). destruct (Ascii.eqb_spec a c); congruence.
Qed.

Lemma LastIndexByte_app s k c :
  IndexByte k c = None -> LastIndexByte (s +:+ String c k) c = Some (String.length s).
Proof.
  intros Hk. induction s as [|a s IH]; simpl; [|by rewrite IH].
  by rewrite (LastIndexByte_None _ _ Hk), Ascii.eqb_refl.
Qed.

Lemma str_app_cons s a k : s +:+ String a k = (s +:+ String a "") +:+ k.
Proof. induction s as [|b s IH]; [done|]. exact (f_equal (String b) IH). Qed.

Lemma str_app_length s k : String.length (s +:+ k) = (String.length s + String.length k)%nat.
Proof. induction s as [|b s IH]; [done|]. exact (f_equal S IH). Qed.

(** The parts of a host or a port that never confuse the splitter. *)
Definition no_byte (c : ascii) (s : string) : Prop := IndexByte s c = None.

Lemma split_join host port :
  no_byte "[" host -> no_byte "]" host ->
  no_byte ":" port -> no_byte "[" port -> no_byte "]" port ->
  SplitHostPort (JoinHostPort host port) = Some (host, port).
Proof.
  unfold no_byte. intros Hh1 Hh2 Hp Hp1 Hp2. unfold JoinHostPort, SplitHostPort.
  destruct (IndexByte host ":") as [n|] eqn:Hcolon.
  - change (String "[" (host +:+ String "]" (String ":" port)))
      with (String "[" host +:+ String "]" (String ":" port)).
    rewrite (str_app_cons (String "[" host) "]"), (LastIndexByte_app _ port) by done.
    rewrite <- (str_app_cons (String "[" host) "]").
    cbn [String.app].
    change (String "[" (host +:+ String "]" (String ":" port)))
      with (String "[" host +:+ String "]" (String ":" port)).
    rewrite (IndexByte_app (String "[" host)) by (apply IndexByte_None_cons; done).
    rewrite str_app_length. cbn [String.length].
    rewrite (proj2 (Nat.eqb_eq _ _)) by lia.
    assert (Hend : str_drop (S (S (String.length host)))
                     (String "[" host +:+ String "]" (String ":" port)) = String ":" port).
    { apply (str_drop_S_app (String "[" host)). }
    rewrite Hend.
    change (str_drop 1 (String "[" host +:+ String "]" (String ":" port)))
      with (host +:+ String "]" (String ":" port)).
    rewrite (proj2 (IndexByte_None_app host _ "[")) by
      (rewrite !IndexByte_None_cons; done).
    rewrite (proj2 (IndexByte_None_cons ":" port "]")) by done.
    do 2 f_equal.
    + change (S (String.length host)) with (String.length (String "[" host)).
      by rewrite str_take_app.
    + replace (S (S (String.length host) + 1)) with (S (S (S (String.length host)))) by lia.
      rewrite (str_app_cons (String "[" host)).
      replace (S (S (String.length host))) with (String.length (String "[" host +:+ String "]" ""))
        by (rewrite str_app_length; simpl; lia).
      apply str_drop_S_app.
  - rewrite (LastIndexByte_app _ port) by done. rewrite str_take_app, Hcolon.
    rewrite str_drop_S_app. cbn [str_drop].
    rewrite (proj2 (IndexByte_None_app host _ "[")) by (rewrite IndexByte_None_cons; done).
    rewrite (proj2 (IndexByte_None_app host _ "]")) by (rewrite IndexByte_None_cons; done).
    destruct host as [|a host]; [done|].
    assert (a <> "["%char) by (by apply IndexByte_None_cons in Hh1 as [? _]).
    cbn [String.app]. destruct a as [[] [] [] [] [] [] [] []]; done.
Qed.

(** Splitting a dialled address undoes net.JoinHostPort for every host and port without brackets, IPv6 hosts included: the host comes back as written, an empty host becomes the loopback address, and a listener keeps it empty; only an unsupported network or an empty port is refused. *)
Theorem address_roundtrip network host port :
  no_byte "[" host -> no_byte "]" host ->
  no_byte ":" port -> no_byte "[" port -> no_byte "]" port ->
  splitHostPortAddress network (JoinHostPort host port) =
    (if negb (supported_network network) then Err ErrUnsupportedNetwork
     else if String.eqb port "" then Err ErrMissingPort
     else Ok (if String.eqb host "" then "127.0.0.1"%string else host, port)) /\
  splitHostPortListenAddress network (JoinHostPort host port) =
    (if negb (supported_network network) then Err ErrUnsupportedNetwork
     else if String.eqb port "" then Err ErrMissingPort else Ok (host, port)).
Proof.
  intros. unfold splitHostPortAddress, splitHostPortListenAddress.
  rewrite split_join by done. done.
Qed.

Lemma address_roundtrip_witness :
  splitHostPortAddress "tcp" "[fe80::1]:7471" = Ok ("fe80::1"%string, "7471"%string) /\
  splitHostPortListenAddress "tcp" "[fe80::1]:7471" = Ok ("fe80::1"%string, "7471"%string).
Proof. apply (address_roundtrip "tcp" "fe80::1" "7471"); reflexivity. Defined.

(** A positive duration becomes the least number of milliseconds that is not shorter, within the C int range: it is never rounded down to a shorter wait nor to the 0 that would poll once, and only durations beyond 2^31-1 ms are capped. *)
Theorem timeout_is_ceiling d :
  let ms := rdmaDurationToTimeoutMillis d in
  0 <= ms < 2 ^ 31 /\ (ms = 0 <-> d <= 0) /\
  (0 < d -> (ms - 1) * Millisecond < d /\ (d <= ms * Millisecond \/ ms = 2 ^ 31 - 1)).
Proof.
  unfold rdmaDurationToTimeoutMillis, Millisecond. cbv zeta.
  destruct (d <=? 0) eqn:E0; bool_facts; [lia|].
  pose proof (Z.div_mod d 1000000 ltac:(lia)). pose proof (Z.mod_pos_bound d 1000000 ltac:(lia)).
  set (q := d / 1000000) in *. set (r := d mod 1000000) in *. clearbody q r.
  destruct (negb (r =? 0)) eqn:E1; bool_facts.
  all: repeat case_match; bool_facts; lia.
Qed.

(** *** The packed records *)

Lemma drop_le_put n z l : drop n (le_put n z ++ l) = l.
Proof. rewrite <- (length_le_put n z) at 1. by rewrite drop_app_length. Qed.

Lemma take_le_put n z l : take n (le_put n z ++ l) = le_put n z.
Proof. rewrite <- (length_le_put n z) at 1. by rewrite take_app_length. Qed.

Lemma take_le_put_all n z : take n (le_put n z) = le_put n z.
Proof. rewrite <- (length_le_put n z) at 1. by rewrite firstn_all. Qed.

Lemma drop_le_put_add n m z l : drop (n + m) (le_put n z ++ l) = drop m l.
Proof. by rewrite <- drop_drop, drop_le_put. Qed.

Lemma length_notify_bytes n : length (notify_bytes n) = 20%nat.
Proof. unfold notify_bytes. by rewrite !length_app, !length_le_put. Qed.

Lemma length_desc_bytes d : length (desc_bytes d) = 28%nat.
Proof. unfold desc_bytes. by rewrite !length_app, !length_le_put. Qed.

Lemma le_get_put_small n z : 0 <= z < 256 ^ Z.of_nat n -> le_get (le_put n z) = z.
Proof. intros. rewrite le_get_put. by apply Z.mod_small. Qed.

(** The peer's [parseWriteNotifyFrame] reads back what the C code writes. *)
Lemma parse_notify kind len slot :
  kind = GO_RDMA_RW_NOTIFY_KIND_WRITE \/ kind = GO_RDMA_RW_NOTIFY_KIND_WRITE_AT ->
  0 <= len < 2 ^ 32 -> 0 <= slot < 2 ^ 32 ->
  parseWriteNotifyFrame (notify_bytes {| n_magic := GO_RDMA_RW_NOTIFY_MAGIC; n_kind := kind;
                                         n_length := len; n_slot := slot |}) =
  Some (len, slot, kind =? GO_RDMA_RW_NOTIFY_KIND_WRITE_AT).
Proof.
  intros Hk Hl Hs. unfold parseWriteNotifyFrame, blen. rewrite length_notify_bytes.
  unfold notify_bytes. cbn [n_magic n_kind n_length n_slot].
  assert (Hkr : 0 <= kind < 256 ^ 4) by (destruct Hk as [->| ->]; done).
  rewrite take_le_put, drop_le_put.
  change 16%nat with (8 + (4 + 4))%nat. change 12%nat with (8 + 4)%nat.
  rewrite !drop_le_put_add, !drop_le_put, !take_le_put.
  rewrite take_le_put_all.
  rewrite !le_get_put_small; try done.
  destruct Hk as [->| ->]; done.
Qed.

Lemma bytes_desc_bytes d :
  0 <= d_magic d < 2 ^ 64 -> 0 <= d_addr d < 2 ^ 64 -> 0 <= d_rkey d < 2 ^ 32 ->
  0 <= d_cap d < 2 ^ 32 -> 0 <= d_slots d < 2 ^ 32 -> bytes_desc (desc_bytes d) = d.
Proof.
  intros. destruct d as [m a k c s]. unfold bytes_desc, desc_bytes. cbn [d_magic d_addr d_rkey d_cap d_slots] in *.
  rewrite take_le_put, drop_le_put, take_le_put.
  change 24%nat with (8 + (8 + (4 + 4)))%nat. change 20%nat with (8 + (8 + 4))%nat.
  change 16%nat with (8 + (8 + 0))%nat.
  rewrite !drop_le_put_add, drop_0, !drop_le_put. rewrite !take_le_put.
  rewrite take_le_put_all.
  by rewrite !le_get_put_small.
Qed.

(** The notification of a remote write and the window descriptor survive the wire: the receiver's parser returns the length, the slot or offset and the kind the sender wrote, for every value that fits the fields, a frame of another length, magic or kind is not a notification, and a descriptor's bytes decode to the descriptor. *)
Theorem wire_records_roundtrip :
  (forall kind len slot,
     kind = GO_RDMA_RW_NOTIFY_KIND_WRITE \/ kind = GO_RDMA_RW_NOTIFY_KIND_WRITE_AT ->
     0 <= len < 2 ^ 32 -> 0 <= slot < 2 ^ 32 ->
     parseWriteNotifyFrame (notify_bytes {| n_magic := GO_RDMA_RW_NOTIFY_MAGIC; n_kind := kind;
                                            n_length := len; n_slot := slot |}) =
     Some (len, slot, kind =? GO_RDMA_RW_NOTIFY_KIND_WRITE_AT)) /\
  (forall frame len token at_,
     parseWriteNotifyFrame frame = Some (len, token, at_) ->
     frame = notify_bytes {| n_magic := GO_RDMA_RW_NOTIFY_MAGIC;
                             n_kind := if at_ : bool then GO_RDMA_RW_NOTIFY_KIND_WRITE_AT
                                       else GO_RDMA_RW_NOTIFY_KIND_WRITE;
                             n_length := len; n_slot := token |}) /\
  (forall d,
     0 <= d_magic d < 2 ^ 64 -> 0 <= d_addr d < 2 ^ 64 -> 0 <= d_rkey d < 2 ^ 32 ->
     0 <= d_cap d < 2 ^ 32 -> 0 <= d_slots d < 2 ^ 32 -> bytes_desc (desc_bytes d) = d).
Proof.
  split; [apply parse_notify|]. split; [|apply bytes_desc_bytes].
  intros frame len token at_. unfold parseWriteNotifyFrame.
  destruct (blen frame =? rdmaWriteNotifySize) eqn:Elen; simpl; [|done].
  destruct (le_get (take 8 frame) =? rdmaWriteNotifyMagic) eqn:Emag; simpl; [|done].
  case_match eqn:Ek; [done|]. intros [= <- <- <-]. apply Z.eqb_eq in Elen, Emag.
  unfold blen, rdmaWriteNotifySize in Elen.
  assert (Hlen : length frame = 20%nat) by lia. clear Elen.
  apply andb_false_iff in Ek. rewrite !negb_false_iff, !Z.eqb_eq in Ek.
  assert (Hput : forall n l, length l = n -> le_put n (le_get l) = l)
    by (intros n l <-; apply le_put_get).
  unfold notify_bytes. cbn [n_magic n_kind n_length n_slot].
  change GO_RDMA_RW_NOTIFY_MAGIC with rdmaWriteNotifyMagic. rewrite <- Emag.
  assert (Hkind : (if le_get (take 4 (drop 8 frame)) =? rdmaWriteNotifyKindAt
           then GO_RDMA_RW_NOTIFY_KIND_WRITE_AT else GO_RDMA_RW_NOTIFY_KIND_WRITE) =
          le_get (take 4 (drop 8 frame))).
  { destruct Ek as [->| ->]; done. }
  rewrite Hkind, !Hput by (rewrite ?length_take, ?length_drop, Hlen; done).
  do 20 (destruct frame as [|? frame]; [done|]). by destruct frame.
Qed.

Lemma wire_records_roundtrip_witness :
  parseWriteNotifyFrame (notify_bytes {| n_magic := GO_RDMA_RW_NOTIFY_MAGIC;
    n_kind := GO_RDMA_RW_NOTIFY_KIND_WRITE; n_length := 70000; n_slot := 3 |}) = Some (70000, 3, false) /\
  bytes_desc (desc_bytes {| d_magic := GO_RDMA_RW_DESC_MAGIC; d_addr := 2 ^ 40; d_rkey := 5;
                            d_cap := 4096; d_slots := 8 |}) =
    {| d_magic := GO_RDMA_RW_DESC_MAGIC; d_addr := 2 ^ 40; d_rkey := 5; d_cap := 4096; d_slots := 8 |}.
Proof.
  destruct wire_records_roundtrip as (Hn & _ & Hd). split.
  - apply Hn; [by left|done|done].
  - by apply Hd.
Defined.

(** ** The build without RDMA (verbs_stub.go): nothing can be opened *)

Module Stub.
Inductive stub_err := EContext | EBackendUnavailable.

Definition verbsBackendEnabled : bool := false.
Definition Open (ctxErr : bool) : stub_err := if ctxErr then EContext else EBackendUnavailable.
Definition newVerbsMessageListener : stub_err := EBackendUnavailable.
End Stub.
