(* ===== verification/VerbsConn.v ===== *)
(** * A verbs connection: its state, the device below it, and waiting for completions
    (pkg/rdma/verbs_linux_cgo.go)

    [conn] is the C struct go_rdma_conn.  libibverbs, librdmacm and the operating
    system are the class [Host]: one function per call the code makes, on an opaque
    world.  [HostLaws] states what the code relies on: a reliable connection reports
    its signaled work requests in posting order, a receive completion consumes the
    oldest posted receive, and the device writes only to posted receive buffers.
    Code runs in a state monad with errno results; every loop has fuel, and an
    exhausted one is a result of its own, so that theorems can exclude it. *)

From S2P Require Import Prelude VerbsConfig.

(** ** The state *)

Definition EIO : Z := 5.
Definition EBADF : Z := 9.
Definition EAGAIN : Z := 11.
Definition ENOMEM : Z := 12.
Definition EINVAL : Z := 22.
Definition EPROTO : Z := 71.
Definition EMSGSIZE : Z := 90.
Definition ENOTSUP : Z := 95.

Definition GO_RDMA_POLL_SPINS : Z := 2.
Definition GO_RDMA_POLL_SLEEP_US : Z := 1000.

(** [errno != 0 ? errno : d] *)
Definition errno_or (e d : Z) : Z := if e =? 0 then d else e.

(** The fields set when the connection is created. *)
Record conn_cfg := {
  send_depth : Z;
  send_signal_interval : Z;
  recv_depth : Z;
  frame_cap : Z;
  inline_threshold : Z;
  send_cq_null : bool;
  recv_cq_null : bool;
  comp_channels : bool;
  rw_recv_buf : Z;
  rw_recv_mr : bool;
  rw_recv_rkey : Z;
  rw_recv_cap : Z;
  rw_recv_slots : Z;
}.

(** The fields that change.  [send_buf] is the staging ring, slot by slot;
    [notify_depth] is 0 until the receive slots are allocated. *)
Record conn := {
  id_open : bool;
  cfg : conn_cfg;
  send_buf : gmap Z (list byte);
  send_completed : Z;
  tx_prod : Z;
  notify_slots : bool;
  notify_depth : Z;
  last_notify_slot : Z;
  has_last_notify_slot : bool;
  peer_rw_addr : Z;
  peer_rw_rkey : Z;
  peer_rw_cap : Z;
  peer_rw_slots : Z;
  rw_send_seq : Z;
  rw_ready : bool;
}.

Definition set_send (c : conn) (buf : gmap Z (list byte)) (done prod : Z) : conn :=
  {| id_open := id_open c; cfg := cfg c; send_buf := buf; send_completed := done; tx_prod := prod;
     notify_slots := notify_slots c; notify_depth := notify_depth c;
     last_notify_slot := last_notify_slot c; has_last_notify_slot := has_last_notify_slot c;
     peer_rw_addr := peer_rw_addr c; peer_rw_rkey := peer_rw_rkey c; peer_rw_cap := peer_rw_cap c;
     peer_rw_slots := peer_rw_slots c; rw_send_seq := rw_send_seq c; rw_ready := rw_ready c |}.

Definition set_send_buf (c : conn) buf : conn := set_send c buf (send_completed c) (tx_prod c).
Definition set_send_completed (c : conn) d : conn := set_send c (send_buf c) d (tx_prod c).
Definition set_tx_prod (c : conn) p : conn := set_send c (send_buf c) (send_completed c) p.

Definition set_recv (c : conn) (slots : bool) (depth last : Z) (has : bool) : conn :=
  {| id_open := id_open c; cfg := cfg c; send_buf := send_buf c; send_completed := send_completed c;
     tx_prod := tx_prod c; notify_slots := slots; notify_depth := depth;
     last_notify_slot := last; has_last_notify_slot := has;
     peer_rw_addr := peer_rw_addr c; peer_rw_rkey := peer_rw_rkey c; peer_rw_cap := peer_rw_cap c;
     peer_rw_slots := peer_rw_slots c; rw_send_seq := rw_send_seq c; rw_ready := rw_ready c |}.

Definition set_last (c : conn) (last : Z) (has : bool) : conn :=
  set_recv c (notify_slots c) (notify_depth c) last has.

Definition set_peer (c : conn) (addr rkey cap slots seq : Z) (ready : bool) : conn :=
  {| id_open := id_open c; cfg := cfg c; send_buf := send_buf c; send_completed := send_completed c;
     tx_prod := tx_prod c; notify_slots := notify_slots c; notify_depth := notify_depth c;
     last_notify_slot := last_notify_slot c; has_last_notify_slot := has_last_notify_slot c;
     peer_rw_addr := addr; peer_rw_rkey := rkey; peer_rw_cap := cap;
     peer_rw_slots := slots; rw_send_seq := seq; rw_ready := ready |}.

(** ** The device *)

Inductive opcode := IBV_WR_SEND | IBV_WR_RDMA_WRITE.

(** Where a work request's scatter-gather element points. *)
Inductive sge :=
| SgeStaging (slot : Z)       (* send_buf, registered as send_mr *)
| SgeInline                   (* the caller's payload, copied into the request when posted *)
| SgePayloadMR (addr : Z)     (* the caller's payload, registered for this message *)
| SgeRecvMR (addr : Z).       (* the caller's payload, inside the registered window *)

(** [wr_data] is what the element points at when the request is posted. *)
Record send_wr := {
  wr_id : Z;
  wr_opcode : opcode;
  wr_signaled : bool;
  wr_inline : bool;
  wr_sge : sge;
  wr_data : list byte;
  wr_remote_addr : Z;
  wr_rkey : Z;
}.

Record ibv_wc := {
  wc_success : bool;
  wc_is_recv : bool;
  wc_id : Z;
  wc_byte_len : Z;
}.

Inductive cq := SendCQ | RecvCQ.
Inductive poll_cq_result := PollWC (wc : ibv_wc) | PollNone | PollErr (errno : Z).
Inductive poll_fd_result := FdReady | FdTimeout | FdIntr | FdErr (errno : Z).
Inductive CtxErr := Canceled | DeadlineExceeded.

(** The calls the code makes into the libraries, the kernel and the caller's
    context.  [option Z] is [None] for success and [Some errno] for failure. *)
Class Host (W : Type) := {
  poll_budget : nat;
  ibv_post_send : send_wr -> W -> option Z * W;
  ibv_poll_cq : cq -> W -> poll_cq_result * W;
  ibv_req_notify_cq : cq -> W -> option Z * W;
  ibv_get_cq_event : cq -> W -> option Z * W;
  poll_fd : cq -> Z -> W -> poll_fd_result * W;
  now_monotonic_us : W -> res Z Z * W;
  sleep_us : Z -> W -> option Z * W;
  ibv_reg_mr : Z -> Z -> W -> bool * W;
  ibv_dereg_mr : W -> option Z * W;
  rdma_post_recv : Z -> W -> option Z * W;
  alloc_notify_slots : Z -> W -> option Z * W;
  alloc_notify_buf : Z -> W -> option Z * W;
  reg_notify_buf : Z -> W -> option Z * W;
  ctx_Err : W -> option CtxErr * W;
  ctx_until_deadline : W -> option Z * W;
  slot_address : Z -> Z;
  slot_memory : W -> Z -> list byte;
  rw_memory : W -> list byte;
}.

(** ** The monad *)

Inductive outcome (E A : Type) :=
| Ret (a : A)
| Fail (e : E)
| Blocked      (* still waiting for the device after [poll_budget] polls *)
| Diverged.    (* a loop ran out of its fuel *)
Arguments Ret {E A} a.
Arguments Fail {E A} e.
Arguments Blocked {E A}.
Arguments Diverged {E A}.

Definition M (W S E A : Type) : Type := S -> W -> outcome E A * S * W.

Definition ret {W S E A} (a : A) : M W S E A := fun s w => (Ret a, s, w).
Definition fail {W S E A} (e : E) : M W S E A := fun s w => (Fail e, s, w).
Definition blocked {W S E A} : M W S E A := fun s w => (Blocked, s, w).
Definition diverged {W S E A} : M W S E A := fun s w => (Diverged, s, w).
Definition bind {W S E A B} (m : M W S E A) (k : A -> M W S E B) : M W S E B :=
  fun s w =>
    match m s w with
    | (Ret a, s', w') => k a s' w'
    | (Fail e, s', w') => (Fail e, s', w')
    | (Blocked, s', w') => (Blocked, s', w')
    | (Diverged, s', w') => (Diverged, s', w')
    end.
Definition get {W S E} : M W S E S := fun s w => (Ret s, s, w).
Definition modify {W S E} (f : S -> S) : M W S E unit := fun s w => (Ret tt, f s, w).
Definition host {W S E A} (f : W -> A * W) : M W S E A :=
  fun s w => let '(a, w') := f w in (Ret a, s, w').
Definition peek {W S E A} (f : W -> A) : M W S E A := fun s w => (Ret (f w), s, w).

(** The result code of a call, as a value. *)
Definition catch {W S E A} (m : M W S E A) : M W S E (res E A) :=
  fun s w =>
    match m s w with
    | (Ret a, s', w') => (Ret (Ok a), s', w')
    | (Fail e, s', w') => (Ret (Err e), s', w')
    | (Blocked, s', w') => (Blocked, s', w')
    | (Diverged, s', w') => (Diverged, s', w')
    end.

(** A host call whose failure is returned as [errno != 0 ? errno : EIO]. *)
Definition host_rc {W S} (f : W -> option Z * W) : M W S Z unit :=
  fun s w => match f w with
             | (None, w') => (Ret tt, s, w')
             | (Some e, w') => (Fail (errno_or e EIO), s, w')
             end.

(** The same with the default [d]. *)
Definition host_rc_or {W S} (d : Z) (f : W -> option Z * W) : M W S Z unit :=
  fun s w => match f w with
             | (None, w') => (Ret tt, s, w')
             | (Some e, w') => (Fail (errno_or e d), s, w')
             end.

Definition guard {W S E} (b : bool) (e : E) : M W S E unit :=
  if b then fail e else ret tt.

Declare Scope m_scope.
Delimit Scope m_scope with m.
Notation "'let!' x := c1 'in' c2" := (bind c1 (fun x => c2))
  (at level 10, x pattern, c1 at level 200, c2 at level 200) : m_scope.
Notation "c1 ;; c2" := (bind c1 (fun _ => c2))
  (at level 100, c2 at level 200, right associativity) : m_scope.
#[global] Open Scope m_scope.

(** ** Waiting for a completion *)

Section waiting.
Context {W : Type} `{Host W}.
#[local] Abbreviation C := (M W conn Z).

(** [conn == NULL || conn->id == NULL] *)
Definition check_open : C unit :=
  let! c := get in guard (negb (id_open c)) EBADF.

(** [EAGAIN] once the deadline has passed; without one there is no check. *)
Definition check_deadline (deadline : option Z) : C unit :=
  match deadline with
  | None => ret tt
  | Some d =>
    let! r := host now_monotonic_us in
    match r with
    | Err e => fail (errno_or e EIO)
    | Ok now => guard (d <=? now) EAGAIN
    end
  end.

(** The time [poll] may sleep, in milliseconds; -1 without a deadline. *)
Definition event_wait_ms (deadline : option Z) : C Z :=
  match deadline with
  | None => ret (-1)
  | Some d =>
    let! r := host now_monotonic_us in
    match r with
    | Err e => fail (errno_or e EIO)
    | Ok now =>
      if d <=? now then fail EAGAIN
      else let wait_ms := i32 (Z.quot (d - now + 999) 1000) in
           ret (if wait_ms <? 1 then 1 else wait_ms)
    end
  end.

(** [do { prc = poll(&pfd, 1, wait_ms) } while (prc < 0 && errno == EINTR)] *)
Fixpoint poll_uninterrupted (fuel : nat) (q : cq) (wait_ms : Z) : C poll_fd_result :=
  match fuel with
  | O => blocked
  | S fuel' =>
    let! r := host (poll_fd q wait_ms) in
    match r with FdIntr => poll_uninterrupted fuel' q wait_ms | _ => ret r end
  end.

(** Arm the queue if it is not armed, and poll it once more. *)
Definition arm_queue (q : cq) (armed : bool) : C (option ibv_wc) :=
  if armed then ret None
  else host_rc (ibv_req_notify_cq q);;
       let! r := host (ibv_poll_cq q) in
       match r with
       | PollWC wc => ret (Some wc)
       | PollErr e => fail (errno_or e EIO)
       | PollNone => ret None
       end.

(** Sleep on the queue's channel until an event or the deadline. *)
Definition sleep_for_event (q : cq) (deadline : option Z) : C unit :=
  let! wait_ms := event_wait_ms deadline in
  let! prc := poll_uninterrupted poll_budget q wait_ms in
  match prc with
  | FdTimeout => fail EAGAIN
  | FdErr e => fail (errno_or e EIO)
  | _ => host_rc (ibv_get_cq_event q)
  end.

Fixpoint poll_loop (fuel : nat) (q : cq) (deadline : option Z) (spins : Z) (armed : bool)
  : C ibv_wc :=
  match fuel with
  | O => blocked
  | S fuel' =>
    let! r := host (ibv_poll_cq q) in
    match r with
    | PollWC wc => ret wc
    | PollErr e => fail (errno_or e EIO)
    | PollNone =>
      check_deadline deadline;;
      if spins <? GO_RDMA_POLL_SPINS then poll_loop fuel' q deadline (spins + 1) armed
      else
        let! c := get in
        if comp_channels (cfg c) then
          let! found := arm_queue q armed in
          match found with
          | Some wc => ret wc
          | None => sleep_for_event q deadline;; poll_loop fuel' q deadline 0 false
          end
        else host_rc (sleep_us GO_RDMA_POLL_SLEEP_US);; poll_loop fuel' q deadline spins armed
    end
  end.

Definition go_rdma_poll_cq_with_timeout (q : cq) (timeout_ms : Z) : C ibv_wc :=
  let! c := get in
  guard (match q with SendCQ => send_cq_null (cfg c) | RecvCQ => recv_cq_null (cfg c) end) EINVAL;;
  let! deadline :=
    (if 0 <=? timeout_ms then
       let! r := host now_monotonic_us in
       match r with
       | Err e => fail (errno_or e EIO)
       | Ok now => ret (Some (now + timeout_ms * 1000))
       end
     else ret None) in
  poll_loop poll_budget q deadline 0 false.

Definition go_rdma_wait_send_completion_with_id (timeout_ms : Z) : C Z :=
  let! wc := go_rdma_poll_cq_with_timeout SendCQ timeout_ms in
  guard (negb (wc_success wc)) EIO;;
  ret (wc_id wc).

Definition go_rdma_wait_recv_completion (timeout_ms : Z) : C ibv_wc :=
  let! wc := go_rdma_poll_cq_with_timeout RecvCQ timeout_ms in
  guard (negb (wc_success wc)) EIO;;
  ret wc.

Definition go_rdma_reap_data_send_completion (timeout_ms : Z) : C unit :=
  check_open;;
  let! id := go_rdma_wait_send_completion_with_id timeout_ms in
  let wr32 := u32 id in
  let done := u32 (wr32 + 1) in
  modify (fun c => if 0 <? i32 (done - send_completed c) then set_send_completed c done else c).

(** [while (tx_prod - send_completed >= send_depth) reap] *)
Fixpoint wait_local_loop (fuel : nat) (timeout_ms : Z) : C unit :=
  let! c := get in
  if send_depth (cfg c) <=? u32 (tx_prod c - send_completed c) then
    match fuel with
    | O => diverged
    | S fuel' => go_rdma_reap_data_send_completion timeout_ms;; wait_local_loop fuel' timeout_ms
    end
  else ret tt.

Definition go_rdma_wait_local_send_slot (timeout_ms : Z) : C unit :=
  check_open;;
  let! c := get in
  guard (send_depth (cfg c) =? 0) EINVAL;;
  wait_local_loop (Z.to_nat (u32 (tx_prod c - send_completed c))) timeout_ms.

(** [while ((int32_t)(target - send_completed) > 0) reap] *)
Fixpoint wait_until_loop (fuel : nat) (target timeout_ms : Z) : C unit :=
  let! c := get in
  if 0 <? i32 (target - send_completed c) then
    match fuel with
    | O => diverged
    | S fuel' => go_rdma_reap_data_send_completion timeout_ms;; wait_until_loop fuel' target timeout_ms
    end
  else ret tt.

Definition go_rdma_wait_send_completed_until (target timeout_ms : Z) : C unit :=
  check_open;;
  let! c := get in
  wait_until_loop (Z.to_nat (i32 (target - send_completed c))) target timeout_ms.
End waiting.

(** ** What the device promises *)

(** The history of the send queue: the requests posted, and for every successful
    completion the number (in posting order) of the request it reports. *)
Inductive nic_event := EvPost (wr : send_wr) | EvReap (n : nat).

Definition posted (tr : list nic_event) : list send_wr :=
  omap (fun e => match e with EvPost wr => Some wr | EvReap _ => None end) tr.

(** How many requests are known to be complete. *)
Fixpoint completed_from (n : nat) (tr : list nic_event) : nat :=
  match tr with
  | [] => n
  | EvPost _ :: tr' => completed_from n tr'
  | EvReap k :: tr' => completed_from (S k) tr'
  end.
Definition completed (tr : list nic_event) : nat := completed_from 0 tr.

(** [n] is the oldest signaled request that has not been reported. *)
Definition next_signaled (tr : list nic_event) (n : nat) : Prop :=
  (completed tr <= n)%nat /\ (exists wr, posted tr !! n = Some wr /\ wr_signaled wr = true) /\
  (forall k wr, (completed tr <= k < n)%nat -> posted tr !! k = Some wr -> wr_signaled wr = false).

(** What the laws speak of: [trace] is the history of the send queue, [rq] the
    posted receives (their [wr_id]s, oldest first). *)
Class HostGhost (W : Type) := {
  trace : W -> list nic_event;
  rq : W -> list Z;
}.

(** A step leaves the receive buffers that are not posted alone (buffer [i] is
    posted under the id [i + 1]). *)
Definition untouched {W} `{Host W, HostGhost W} (w w' : W) : Prop :=
  forall i, (i + 1) ∉ rq w -> (i + 1) ∉ rq w' -> slot_memory w' i = slot_memory w i.

Definition frame {W} `{Host W, HostGhost W} (w w' : W) : Prop :=
  trace w' = trace w /\ rq w' = rq w /\ untouched w w'.

Class HostLaws (W : Type) `{Host W, HostGhost W} : Prop := {
  post_send_law wr w r w' : ibv_post_send wr w = (r, w') ->
    rq w' = rq w /\ untouched w w' /\
    match r with None => trace w' = trace w ++ [EvPost wr] | Some _ => trace w' = trace w end;
  poll_send_law w r w' : ibv_poll_cq SendCQ w = (r, w') ->
    rq w' = rq w /\ untouched w w' /\
    match r with
    | PollWC wc =>
      if wc_success wc
      then exists n wr, next_signaled (trace w) n /\ posted (trace w) !! n = Some wr /\
                        wc_id wc = wr_id wr /\ trace w' = trace w ++ [EvReap n]
      else trace w' = trace w
    | _ => trace w' = trace w
    end;
  poll_recv_law w r w' : ibv_poll_cq RecvCQ w = (r, w') ->
    trace w' = trace w /\ untouched w w' /\
    match r with
    | PollWC wc => rq w = wc_id wc :: rq w'
    | _ => rq w' = rq w
    end;
  post_recv_law i w r w' : rdma_post_recv i w = (r, w') ->
    trace w' = trace w /\ untouched w w' /\
    match r with None => rq w' = rq w ++ [i] | Some _ => rq w' = rq w end;
  req_notify_law q w r w' : ibv_req_notify_cq q w = (r, w') -> frame w w';
  get_event_law q w r w' : ibv_get_cq_event q w = (r, w') -> frame w w';
  poll_fd_law q ms w r w' : poll_fd q ms w = (r, w') -> frame w w';
  now_law w r w' : now_monotonic_us w = (r, w') -> frame w w';
  sleep_law us w r w' : sleep_us us w = (r, w') -> frame w w';
  reg_mr_law a n w r w' : ibv_reg_mr a n w = (r, w') -> frame w w';
  dereg_mr_law w r w' : ibv_dereg_mr w = (r, w') -> frame w w';
  alloc_slots_law n w r w' : alloc_notify_slots n w = (r, w') -> frame w w';
  alloc_buf_law i w r w' : alloc_notify_buf i w = (r, w') -> frame w w';
  reg_buf_law i w r w' : reg_notify_buf i w = (r, w') -> frame w w';
  ctx_Err_law w r w' : ctx_Err w = (r, w') -> frame w w';
  ctx_until_law w r w' : ctx_until_deadline w = (r, w') -> frame w w';
}.

(** ** Reasoning about the monad *)

Definition wp {W S E A} (m : M W S E A) (Q : outcome E A -> S -> W -> Prop) (s : S) (w : W) : Prop :=
  let '(o, s', w') := m s w in Q o s' w'.

(** Continue with [k] on a value; any other result ends the computation. *)
Definition seq_post {W S E A B} (k : A -> M W S E B) (Q : outcome E B -> S -> W -> Prop)
  : outcome E A -> S -> W -> Prop :=
  fun o s w => match o with
               | Ret a => wp (k a) Q s w
               | Fail e => Q (Fail e) s w
               | Blocked => Q Blocked s w
               | Diverged => Q Diverged s w
               end.

Section wp_rules.
Context {W S E : Type}.
Implicit Types (s : S) (w : W).

Lemma wp_mono {A} (m : M W S E A) (P Q : outcome E A -> S -> W -> Prop) s w :
  wp m P s w -> (forall o s' w', P o s' w' -> Q o s' w') -> wp m Q s w.
Proof. unfold wp. destruct (m s w) as [[o s'] w']. auto. Qed.

Lemma wp_bind {A B} (m : M W S E A) (k : A -> M W S E B) Q s w :
  wp m (seq_post k Q) s w -> wp (bind m k) Q s w.
Proof. unfold wp, bind, seq_post. destruct (m s w) as [[[a|e| |] s'] w']; done. Qed.

Lemma wp_bind_inv {A B} (m : M W S E A) (k : A -> M W S E B) Q s w :
  wp (bind m k) Q s w -> wp m (seq_post k Q) s w.
Proof. unfold wp, bind, seq_post. destruct (m s w) as [[[a|e| |] s'] w']; done. Qed.

Lemma wp_ret {A} (a : A) (Q : outcome E A -> S -> W -> Prop) s w : Q (Ret a) s w -> wp (ret a) Q s w.
Proof. done. Qed.
Lemma wp_fail {A} (e : E) (Q : outcome E A -> S -> W -> Prop) s w : Q (Fail e) s w -> wp (fail e) Q s w.
Proof. done. Qed.
Lemma wp_get (Q : outcome E S -> S -> W -> Prop) s w : Q (Ret s) s w -> wp get Q s w.
Proof. done. Qed.
Lemma wp_peek {A} (f : W -> A) (Q : outcome E A -> S -> W -> Prop) s w :
  Q (Ret (f w)) s w -> wp (peek f) Q s w.
Proof. done. Qed.
Lemma wp_modify f (Q : outcome E unit -> S -> W -> Prop) s w :
  Q (Ret tt) (f s) w -> wp (modify f) Q s w.
Proof. done. Qed.

Lemma wp_host {A} (f : W -> A * W) (Q : outcome E A -> S -> W -> Prop) s w :
  (forall a w', f w = (a, w') -> Q (Ret a) s w') -> wp (host f) Q s w.
Proof. unfold wp, host. destruct (f w) as [a w'] eqn:E1. auto. Qed.

Lemma wp_host_rc (f : W -> option Z * W) (Q : outcome Z unit -> S -> W -> Prop) s w :
  (forall w', f w = (None, w') -> Q (Ret tt) s w') ->
  (forall e w', f w = (Some e, w') -> Q (Fail (errno_or e EIO)) s w') -> wp (host_rc f) Q s w.
Proof. unfold wp, host_rc. destruct (f w) as [[e|] w'] eqn:E1; auto. Qed.

Lemma wp_guard b (e : E) (Q : outcome E unit -> S -> W -> Prop) s w :
  (b = true -> Q (Fail e) s w) -> (b = false -> Q (Ret tt) s w) -> wp (guard b e) Q s w.
Proof. unfold guard. destruct b; intros H1 H2; [by apply wp_fail, H1|by apply wp_ret, H2]. Qed.

Lemma wp_catch {A} (m : M W S E A) (Q : outcome E (res E A) -> S -> W -> Prop) s w :
  wp m (fun o s' w' => match o with
                       | Ret a => Q (Ret (Ok a)) s' w'
                       | Fail e => Q (Ret (Err e)) s' w'
                       | Blocked => Q Blocked s' w'
                       | Diverged => Q Diverged s' w'
                       end) s w ->
  wp (catch m) Q s w.
Proof. unfold wp, catch. destruct (m s w) as [[[a|e| |] s'] w']; done. Qed.

(** A postcondition every result satisfies passes through a sequence. *)
Lemma wp_seq {A B} (m : M W S E A) (k : A -> M W S E B) (P : S -> W -> Prop) Q s w :
  wp m (fun _ => P) s w ->
  (forall s' w', P s' w' -> Q (Blocked : outcome E B) s' w' /\ Q Diverged s' w' /\ forall e, Q (Fail e) s' w') ->
  (forall a s' w', P s' w' -> wp (k a) Q s' w') -> wp (bind m k) Q s w.
Proof.
  intros Hm HQ Hk. apply wp_bind. eapply wp_mono; [exact Hm|].
  intros [a|e| |] s' w' HP; simpl; [by apply Hk|by apply HQ..].
Qed.
End wp_rules.

(** Step through a computation: each rule leaves the continuation as the goal. *)
Ltac wp_step :=
  lazymatch goal with
  | |- wp (bind _ _) _ _ _ => apply wp_bind
  | |- seq_post _ _ (Ret _) _ _ => unfold seq_post; cbv beta
  | |- wp (ret _) _ _ _ => apply wp_ret
  | |- wp (fail _) _ _ _ => apply wp_fail
  | |- wp get _ _ _ => apply wp_get
  | |- wp (modify _) _ _ _ => apply wp_modify
  | |- wp (guard _ _) _ _ _ => apply wp_guard; intros ?
  | |- wp (catch _) _ _ _ => apply wp_catch
  end; cbn [seq_post] in *.
Ltac wp_steps := repeat wp_step.

(** ** Waiting keeps the state *)

Section waiting_facts.
Context {W : Type} `{!Host W, !HostGhost W, !HostLaws W}.
Implicit Types (c : conn) (w : W).

#[local] Abbreviation C := (M W conn Z).

Lemma frame_refl w : frame w w.
Proof. done. Qed.

Lemma untouched_trans w1 w2 w3 :
  untouched w1 w2 -> untouched w2 w3 -> rq w2 = rq w1 \/ rq w2 = rq w3 -> untouched w1 w3.
Proof.
  intros H12 H23 Heq i Hi1 Hi3.
  assert ((i + 1) ∉ rq w2) by (destruct Heq as [-> | ->]; done).
  by rewrite (H23 i), (H12 i).
Qed.

Lemma frame_trans w1 w2 w3 : frame w1 w2 -> frame w2 w3 -> frame w1 w3.
Proof.
  intros (T1 & R1 & U1) (T2 & R2 & U2). split_and!; [congruence..|].
  eapply untouched_trans; eauto.
Qed.

(** What polling a queue does to the history. *)
Definition polled (q : cq) (o : outcome Z ibv_wc) (w w' : W) : Prop :=
  match o with
  | Ret wc =>
    untouched w w' /\
    match q with
    | SendCQ => rq w' = rq w /\
        if wc_success wc
        then exists n wr, next_signaled (trace w) n /\ posted (trace w) !! n = Some wr /\
                          wc_id wc = wr_id wr /\ trace w' = trace w ++ [EvReap n]
        else trace w' = trace w
    | RecvCQ => trace w' = trace w /\ rq w = wc_id wc :: rq w'
    end
  | Diverged => False
  | _ => frame w w'
  end.

Lemma polled_frame q o w1 w2 w3 : frame w1 w2 -> polled q o w2 w3 -> polled q o w1 w3.
Proof.
  intros (T1 & R1 & U1). unfold polled. destruct o as [wc|e| |]; [|by apply frame_trans..|done].
  intros [U2 Hq]. split; [eapply untouched_trans; eauto|].
  destruct q; by rewrite <- ?T1, <- ?R1.
Qed.

(** Computations that change neither the connection nor the history. *)
Definition quiet {A} (m : C A) : Prop :=
  forall c w, wp m (fun o c' w' => c' = c /\ frame w w' /\ o <> Diverged) c w.

Lemma quiet_ret {A} (a : A) : quiet (ret a).
Proof. intros c w. apply wp_ret. split_and!; done. Qed.
Lemma quiet_fail {A} e : quiet (fail e : C A).
Proof. intros c w. apply wp_fail. split_and!; done. Qed.
Lemma quiet_blocked {A} : quiet (blocked : C A).
Proof. intros c w. unfold wp, blocked. split_and!; done. Qed.
Lemma quiet_get : quiet get.
Proof. intros c w. apply wp_get. split_and!; done. Qed.
Lemma quiet_guard b e : quiet (guard b e).
Proof. destruct b; [apply quiet_fail|apply quiet_ret]. Qed.
Lemma quiet_bind {A B} (m : C A) (k : A -> C B) :
  quiet m -> (forall a, quiet (k a)) -> quiet (bind m k).
Proof.
  intros Hm Hk c w. apply wp_bind. eapply wp_mono; [apply Hm|].
  intros [a|e| |] c' w' (-> & F1 & ND); simpl; [|by split_and!..].
  eapply wp_mono; [apply Hk|]. intros o c' w'' (-> & F2 & ?).
  split_and!; [done|by eapply frame_trans|done].
Qed.
Lemma quiet_host {A} (f : W -> A * W) :
  (forall w r w', f w = (r, w') -> frame w w') -> quiet (host f).
Proof. intros Hf c w. apply wp_host. intros a w' E1. split_and!; eauto. Qed.
Lemma quiet_host_rc_or d (f : W -> option Z * W) :
  (forall w r w', f w = (r, w') -> frame w w') -> quiet (host_rc_or d f).
Proof.
  intros Hf c w. unfold wp, host_rc_or. destruct (f w) as [[e|] w'] eqn:E1; split_and!; eauto.
Qed.
Lemma quiet_host_rc (f : W -> option Z * W) :
  (forall w r w', f w = (r, w') -> frame w w') -> quiet (host_rc f).
Proof. intros Hf c w. apply wp_host_rc; intros; split_and!; eauto. Qed.

Create HintDb quiet.
#[local] Hint Resolve quiet_ret quiet_fail quiet_blocked quiet_get quiet_guard : quiet.

Lemma check_open_quiet : quiet check_open.
Proof. apply quiet_bind; auto with quiet. Qed.

Lemma check_deadline_quiet d : quiet (check_deadline d).
Proof.
  destruct d as [d|]; [|apply quiet_ret]. apply quiet_bind.
  - apply quiet_host. intros ???. apply now_law.
  - intros [now|e]; auto with quiet.
Qed.

Lemma event_wait_ms_quiet d : quiet (event_wait_ms d).
Proof.
  destruct d as [d|]; [|apply quiet_ret]. apply quiet_bind.
  - apply quiet_host. intros ???. apply now_law.
  - intros [now|e]; [case_match|]; auto with quiet.
Qed.

Lemma poll_uninterrupted_quiet fuel q ms : quiet (poll_uninterrupted fuel q ms).
Proof.
  induction fuel as [|fuel IH]; [apply quiet_blocked|]. apply quiet_bind.
  - apply quiet_host. intros ???. apply poll_fd_law.
  - intros []; auto with quiet.
Qed.

(** One poll either finds a completion or leaves the history alone. *)
Lemma wp_poll_once q Q c w :
  (forall wc w', polled q (Ret wc) w w' -> Q (Ret (PollWC wc)) c w') ->
  (forall r w', frame w w' -> (forall wc, r <> PollWC wc) -> Q (Ret r) c w') ->
  wp (host (ibv_poll_cq q) : C poll_cq_result) Q c w.
Proof.
  intros Hwc Hno. apply wp_host. intros r w' E1. destruct q.
  - destruct (poll_send_law _ _ _ E1) as (R1 & U1 & HT).
    destruct r; [apply Hwc; split_and!; done|apply Hno; [split_and!; done|done]..].
  - destruct (poll_recv_law _ _ _ E1) as (R1 & U1 & HT).
    destruct r; [apply Hwc; split_and!; done|apply Hno; [split_and!; done|done]..].
Qed.

Lemma wp_quiet {A} (m : C A) Q c w :
  quiet m -> (forall o w', frame w w' -> o <> Diverged -> Q o c w') -> wp m Q c w.
Proof. intros Hm HQ. eapply wp_mono; [apply Hm|]. intros o c' w' (-> & F & ND). auto. Qed.

Lemma sleep_for_event_quiet q d : quiet (sleep_for_event q d).
Proof.
  apply quiet_bind; [apply event_wait_ms_quiet|intros ms].
  apply quiet_bind; [apply poll_uninterrupted_quiet|intros prc].
  destruct prc; auto with quiet; apply quiet_host_rc; intros ???; apply get_event_law.
Qed.

(** Polling and waiting finds a completion or changes nothing. *)
Definition poll_post (q : cq) (c : conn) (w : W) : outcome Z ibv_wc -> conn -> W -> Prop :=
  fun o c' w' => c' = c /\ polled q o w w'.

Lemma poll_post_frame q c w w' o c' w'' :
  frame w w' -> poll_post q c w' o c' w'' -> poll_post q c w o c' w''.
Proof. intros F [-> HP]. split; [done|by eapply polled_frame]. Qed.

Lemma wp_quiet_poll {A} (m : C A) (k : A -> C ibv_wc) q c w :
  quiet m -> (forall a w', frame w w' -> wp (k a) (poll_post q c w) c w') ->
  wp (bind m k) (poll_post q c w) c w.
Proof.
  intros Hm Hk. apply wp_bind. apply wp_quiet; [done|]. intros o w' F ND.
  destruct o; simpl; try (by split); auto.
Qed.

Lemma wp_poll_then q (k : poll_cq_result -> C ibv_wc) c w :
  (forall wc w', polled q (Ret wc) w w' -> wp (k (PollWC wc)) (poll_post q c w) c w') ->
  (forall r w', frame w w' -> (forall wc, r <> PollWC wc) -> wp (k r) (poll_post q c w) c w') ->
  wp (bind (host (ibv_poll_cq q)) k) (poll_post q c w) c w.
Proof. intros H1 H2. apply wp_bind, wp_poll_once; intros; simpl; auto. Qed.

Lemma wp_arm_queue q armed (k : option ibv_wc -> C ibv_wc) c w :
  (forall wc w', polled q (Ret wc) w w' -> wp (k (Some wc)) (poll_post q c w) c w') ->
  (forall w', frame w w' -> wp (k None) (poll_post q c w) c w') ->
  wp (bind (arm_queue q armed) k) (poll_post q c w) c w.
Proof.
  intros Hwc Hno. unfold arm_queue. apply wp_bind. destruct armed; [apply wp_ret, Hno, frame_refl|].
  apply wp_bind, wp_quiet.
  { apply quiet_host_rc. intros ???. apply req_notify_law. }
  intros o w1 F1 ND. destruct o; cbn [seq_post]; try (by split).
  apply wp_bind, wp_poll_once; cbn [seq_post].
  - intros wc w2 HP. apply wp_ret. cbn [seq_post]. apply Hwc. by eapply polled_frame.
  - intros r w2 F2 Hr. pose proof (frame_trans _ _ _ F1 F2).
    destruct r as [wc| |e]; [by destruct (Hr wc)|apply wp_ret; by apply Hno|by apply wp_fail].
Qed.

Lemma poll_loop_spec fuel q d spins armed c w :
  wp (poll_loop fuel q d spins armed) (poll_post q c w) c w.
Proof.
  revert spins armed w. induction fuel as [|fuel IH]; intros spins armed w; cbn [poll_loop].
  { split; [done|apply frame_refl]. }
  apply wp_poll_then.
  { intros wc w' HP. apply wp_ret. by split. }
  intros r w' F1 Hr. destruct r as [wc| |e]; [by destruct (Hr wc)| |by apply wp_fail; split].
  eapply wp_mono; [|intros o c' w''; by apply poll_post_frame, F1].
  apply wp_quiet_poll; [apply check_deadline_quiet|]. intros _ w1 F2.
  assert (Hback : forall spins armed w2, frame w1 w2 ->
    wp (poll_loop fuel q d spins armed) (poll_post q c w1) c w2).
  { intros s a w2 F3. eapply wp_mono; [apply IH|]. intros ???. by apply poll_post_frame. }
  eapply wp_mono; [|intros o c' w''; by apply poll_post_frame, F2].
  case_match; [apply Hback, frame_refl|]. apply wp_bind, wp_get. cbn [seq_post].
  destruct (comp_channels (cfg c)).
  - apply wp_arm_queue; [intros wc w2 HP; by apply wp_ret|]. intros w2 F3.
    eapply wp_mono; [|intros o c' w''; by apply poll_post_frame, F3].
    apply wp_quiet_poll; [apply sleep_for_event_quiet|]. intros _ w3 F4.
    eapply wp_mono; [apply IH|]. intros ???. by apply poll_post_frame.
  - apply wp_quiet_poll; [apply quiet_host_rc; intros ???; apply sleep_law|].
    intros _ w2 F3. by apply Hback.
Qed.

Lemma poll_cq_spec q ms c w : wp (go_rdma_poll_cq_with_timeout q ms) (poll_post q c w) c w.
Proof.
  unfold go_rdma_poll_cq_with_timeout. apply wp_quiet_poll; [apply quiet_get|]. intros c0 w0 F0.
  eapply wp_mono; [|intros o c' w''; by apply poll_post_frame, F0].
  apply wp_quiet_poll; [apply quiet_guard|]. intros _ w1 F1.
  eapply wp_mono; [|intros o c' w''; by apply poll_post_frame, F1].
  apply wp_quiet_poll.
  { case_match; [|apply quiet_ret]. apply quiet_bind.
    - apply quiet_host. intros ???. apply now_law.
    - intros []; auto with quiet. }
  intros d w2 F2. eapply wp_mono; [apply poll_loop_spec|].
  intros o c' w''. by apply poll_post_frame.
Qed.
End waiting_facts.
