(* ===== verification/VerbsErr.v ===== *)
(** * Error texts across C and Go, and the small helpers of verbs_linux_cgo.go

    A C function reports an error by a code and a text it allocates (go_rdma_set_err,
    go_rdma_set_errno); the Go caller makes an error of the two and frees the text
    (rdmaCError, takeCString).  The other files leave the texts out; here they are,
    over a heap of C strings, with what is leaked where a caller drops the text.  Below
    are the clock, the sleep, the choice of a completion queue and the diagnostic
    switch. *)

From S2P Require Import Prelude Strconv VerbsConn.

#[local] Open Scope go_scope.

(** ** C strings *)

(** The strings that have been allocated and not freed, by their address; 0 is NULL. *)
Record cheap := { live : gmap Z string; next : Z }.

Definition heap_ok (h : cheap) : Prop := 0 < next h /\ forall p, is_Some (live h !! p) -> 0 < p < next h.

(** malloc or strdup, and the text then written there; [ok]: whether there is memory. *)
Definition alloc (ok : bool) (s : string) (h : cheap) : Z * cheap :=
  if ok then (next h, {| live := <[next h := s]> (live h); next := next h + 1 |}) else (0, h).

(** vsnprintf of [text] into [size] bytes: the length of the whole, and what is stored. *)
Definition vsnprintf (size : Z) (text : string) : Z * string :=
  (string_len text, String.substring 0 (Z.to_nat (size - 1)) text).

(** One report: what the format makes, [None] when vsnprintf fails, and whether the
    allocation succeeds. *)
Record report := { r_text : option string; r_memory : bool }.

(** [err_out]: [None] for NULL, or else what it points at holds. *)
Definition go_rdma_set_err (r : report) (x : option Z * cheap) : option Z * cheap :=
  let '(err_out, h) := x in
  match err_out with
  | None => (None, h)
  | Some _ =>
    match r_text r with
    | None => (Some 0, h)
    | Some text =>
      let '(n, stack_buf) := vsnprintf 512 text in
      if n <? 512 then
        let '(p, h1) := alloc (r_memory r) stack_buf h in (Some p, h1)
      else
        let need := n + 1 in
        let '(p, h1) := alloc (r_memory r) (vsnprintf need text).2 h in
        if p =? 0 then (Some 0, h1) else (Some p, h1)
    end
  end.

(** [strerror]: the C library's text of a code. *)
Definition go_rdma_set_errno (strerror : Z -> string) (op : string) (errno : Z) (memory : bool) (x : option Z * cheap)
    : option Z * cheap :=
  go_rdma_set_err {| r_text := Some (op +:+ ": " +:+ strerror errno); r_memory := memory |} x.

(** [None]: the pointer is not that of a live string. *)
Definition takeCString (p : Z) (h : cheap) : option (string * cheap) :=
  if p =? 0 then Some (""%string, h)
  else match live h !! p with
       | Some s => Some (s, {| live := delete p (live h); next := next h |})
       | None => None
       end.

Definition rdmaCError (op : string) (rc : Z) (cErr : Z) (h : cheap) : option (string * cheap) :=
  '(msg, h1) ← takeCString cErr h;
  Some (if negb (String.eqb msg "") then "rdma verbs " +:+ op +:+ ": " +:+ msg
        else if negb (rc =? 0) then "rdma verbs " +:+ op +:+ " failed: rc=" +:+ fmt_d rc
        else "rdma verbs " +:+ op +:+ " failed", h1).

(** ** A call from Go *)

(** What a C function reports while it runs, in order, and what it returns. *)
Record c_call := { reports : list report; rc : Z }.

(** [var cErr *C.char; rc := C.f(..., &cErr)] *)
Definition run_c (c : c_call) (h : cheap) : Z * cheap :=
  let '(p, h1) := fold_left (fun x r => go_rdma_set_err r x) (reports c) (Some 0, h) in (default 0 p, h1).

(** How the methods of verbsMessageConn end; [ctx_err]: the text of ctx.Err(). *)
Definition finish (op : string) (ctx_err : option string) (c : c_call) (h : cheap) : option (option string * cheap) :=
  let '(cErr, h1) := run_c c h in
  if rc c =? 0 then Some (None, h1)
  else if rc c =? EAGAIN then
    Some (Some (default "context deadline exceeded"%string ctx_err), h1)
  else
    '(e, h2) ← rdmaCError op (rc c) cErr h1;
    Some (Some e, h2).

(** discardOpenResult, of the text. *)
Definition discard_text (cErr : Z) (h : cheap) : option cheap :=
  if cErr =? 0 then Some h
  else match live h !! cErr with
       | Some _ => Some {| live := delete cErr (live h); next := next h |}
       | None => None
       end.

(** ** The clock and the sleep *)

(** The result of clock_gettime, in seconds and nanoseconds; [None] when it fails. *)
Definition go_rdma_now_monotonic_us (ts : option (Z * Z)) : Z :=
  match ts with None => -1 | Some (sec, nsec) => i64 (i64 (sec * 1000000) + Z.quot nsec 1000) end.

(** A call of nanosleep: it sleeps to the end, is interrupted with some time left, or fails. *)
Inductive nap := NapDone | NapInterrupted (remains : Z * Z) | NapFails.

(** The loop over its calls; [None]: it is still sleeping after them. *)
Fixpoint nap_loop (naps : list nap) (ts : Z * Z) : option Z :=
  match naps with
  | [] => None
  | NapDone :: _ => Some 0
  | NapInterrupted remains :: naps' => nap_loop naps' remains
  | NapFails :: _ => Some (-1)
  end.

Definition timespec_of (us : Z) : Z * Z := (Z.quot us 1000000, Z.rem us 1000000 * 1000).

Definition go_rdma_sleep_us (us : Z) (naps : list nap) : option Z :=
  if us <=? 0 then Some 0 else nap_loop naps (timespec_of us).

(** What the calls have slept when each of them returns, [None] as above: an interrupted
    call has slept what is not left. *)
Definition nanos (ts : Z * Z) : Z := ts.1 * 10 ^ 9 + ts.2.
Fixpoint slept (naps : list nap) (ts : Z * Z) : Z :=
  match naps with
  | [] | NapFails :: _ => 0
  | NapDone :: _ => nanos ts
  | NapInterrupted remains :: naps' => nanos ts - nanos remains + slept naps' remains
  end.

(** ** Completion queues *)

(** A connection's queues, when it has an id: its own, and those of the id. *)
Record queues := { own_send : option Z; own_recv : option Z; id_send : option Z; id_recv : option Z }.

(** [conn]: [None] for NULL or a connection without an id. *)
Definition go_rdma_send_cq (conn : option queues) : option Z :=
  match conn with
  | None => None
  | Some q => match own_send q with Some cq => Some cq | None => id_send q end
  end.
Definition go_rdma_recv_cq (conn : option queues) : option Z :=
  match conn with
  | None => None
  | Some q => match own_recv q with Some cq => Some cq | None => id_recv q end
  end.

(** ** The diagnostic switch *)

Definition rdmaWriteDiagEnv : string := "AWS_RDMA_RW_DIAG".

Definition rdmaWriteDiagEnabled (LookupEnv : string -> option string) : bool :=
  match LookupEnv rdmaWriteDiagEnv with
  | None => false
  | Some v => match ParseBool (TrimSpace v) with Some b => b | None => false end
  end.

(** ** Properties *)

Lemma substring_all s n : (String.length s <= n)%nat -> String.substring 0 n s = s.
Proof.
  revert n. induction s as [|a s IH]; intros n Hn; [by destruct n|]. destruct n as [|n]; simpl in Hn; [lia|].
  simpl. by rewrite IH by lia.
Qed.

Lemma string_len_length s : string_len s = Z.of_nat (String.length s).
Proof. induction s as [|a s IH]; [done|]. cbn [string_len String.length]. rewrite IH. lia. Qed.

Lemma vsnprintf_fits size text : string_len text < size -> (vsnprintf size text).2 = text.
Proof. intros H. apply substring_all. rewrite string_len_length in H. lia. Qed.

(** However long a text is, it is reported whole. *)
Lemma set_err_spec r p h :
  heap_ok h -> go_rdma_set_err r (Some p, h) =
    match r_text r with
    | Some text => let '(q, h1) := alloc (r_memory r) text h in (Some q, h1)
    | None => (Some 0, h)
    end.
Proof.
  intros [Hn _]. unfold go_rdma_set_err. destruct (r_text r) as [text|]; [|done].
  unfold vsnprintf at 1. destruct (Z.ltb_spec (string_len text) 512) as [Hl|Hl].
  - pose proof (vsnprintf_fits 512 text Hl) as E. unfold vsnprintf in E. simpl in E. cbn [Z.to_nat Z.sub] in *. by rewrite E.
  - rewrite vsnprintf_fits by lia. unfold alloc. destruct (r_memory r); [|done].
    by rewrite (proj2 (Z.eqb_neq _ _)) by lia.
Qed.

Lemma alloc_ok ok s h : heap_ok h -> heap_ok (alloc ok s h).2.
Proof.
  intros [Hn Hl]. unfold alloc. destruct ok; [|done]. split; simpl; [lia|]. intros p.
  destruct (decide (p = next h)) as [->|Hne]; [lia|]. rewrite lookup_insert_ne by done. intros Hp%Hl. lia.
Qed.

(** The text of an error, as it is written from what was reported. *)
Definition error_text (op : string) (rc : Z) (r : option report) : string :=
  match r with
  | Some {| r_text := Some text; r_memory := true |} =>
    if String.eqb text "" then "rdma verbs " +:+ op +:+ " failed: rc=" +:+ fmt_d rc
    else "rdma verbs " +:+ op +:+ ": " +:+ text
  | _ => "rdma verbs " +:+ op +:+ " failed: rc=" +:+ fmt_d rc
  end.

Lemma finish_fails op ctx_err rs code h p h1 :
  code <> 0 -> code <> EAGAIN -> run_c {| reports := rs; rc := code |} h = (p, h1) ->
  finish op ctx_err {| reports := rs; rc := code |} h = match rdmaCError op code p h1 with Some (e, h2) => Some (Some e, h2) | None => None end.
Proof.
  intros H0 H1 Hrun. unfold finish. rewrite Hrun. cbn [rc]. rewrite (proj2 (Z.eqb_neq code 0)), (proj2 (Z.eqb_neq code EAGAIN)) by done.
  by destruct (rdmaCError _ _ _ _) as [[]|].
Qed.

(** A live text is written and freed; without one the code is written. *)
Lemma CError_text op code p s h :
  p <> 0 -> code <> 0 -> live h !! p = None ->
  rdmaCError op code p {| live := <[p := s]> (live h); next := next h |} =
  Some (error_text op code (Some {| r_text := Some s; r_memory := true |}), h).
Proof.
  intros Hp Hc Hf. unfold rdmaCError, takeCString, error_text. rewrite (proj2 (Z.eqb_neq p 0)) by done. cbn [live next].
  rewrite lookup_insert_eq, delete_insert_id by done. cbn [mbind option_bind]. rewrite (proj2 (Z.eqb_neq code 0)) by done.
  destruct h. by destruct (String.eqb s "").
Qed.

Lemma CError_code op code h : code <> 0 -> rdmaCError op code 0 h = Some (error_text op code None, h).
Proof. intros Hc. unfold rdmaCError, takeCString. simpl. by rewrite (proj2 (Z.eqb_neq code 0)). Qed.

Lemma next_free h : heap_ok h -> next h <> 0 /\ live h !! next h = None.
Proof. intros [Hn Hl]. split; [lia|]. apply eq_None_not_Some. intros Hs%Hl. lia. Qed.

(** C40: A call of a C function that fails with a code other than EAGAIN, after at most one
    report: the Go error has the whole text that was reported, however long it is, or the
    code when there is none (nothing was reported, the format failed, there was no
    memory); and the text is freed: the heap has the strings it had before. *)
Theorem error_text_delivered op ctx_err h (r : option report) code :
  heap_ok h -> code <> 0 -> code <> EAGAIN ->
  exists n, finish op ctx_err {| reports := match r with Some x => [x] | None => [] end; rc := code |} h =
    Some (Some (error_text op code r), {| live := live h; next := n |}).
Proof.
  intros Hh H0 H1. destruct (next_free h Hh) as [Hn Hf].
  assert (Hcode : run_c {| reports := match r with Some x => [x] | None => [] end; rc := code |} h = (0, h) ->
    error_text op code r = error_text op code None -> exists n, finish op ctx_err
      {| reports := match r with Some x => [x] | None => [] end; rc := code |} h =
      Some (Some (error_text op code r), {| live := live h; next := n |})).
  { intros Hrun Ht. exists (next h). rewrite (finish_fails _ _ _ _ _ _ _ H0 H1 Hrun). cbn [rc].
    rewrite CError_code, Ht by done. by destruct h. }
  destruct r as [[[text|] memory]|]; [|apply Hcode; [|done]..]; [|unfold run_c; cbn [reports fold_left]; by rewrite set_err_spec|done].
  destruct memory; [|apply Hcode; [|done]; unfold run_c; cbn [reports fold_left]; by rewrite set_err_spec].
  exists (next h + 1). rewrite (finish_fails _ _ _ _ h (next h) (alloc true text h).2 H0 H1).
  - pose proof (CError_text op code (next h) text {| live := live h; next := next h + 1 |} Hn H0 Hf) as E.
    cbn [rc]. unfold alloc. cbn [snd live next] in *. by rewrite E.
  - unfold run_c. cbn [reports fold_left]. by rewrite set_err_spec.
Qed.

(** The callers that turn EAGAIN into an error of the context drop the text with it: a
    function that reports and returns EAGAIN (go_rdma_wait_cm_event does, for an open and
    for an accepted connection) leaves a string that is never freed. *)
Theorem eagain_text_leaks op ctx_err h text :
  heap_ok h ->
  finish op ctx_err {| reports := [{| r_text := Some text; r_memory := true |}]; rc := EAGAIN |} h =
    Some (Some (default "context deadline exceeded"%string ctx_err),
          {| live := <[next h := text]> (live h); next := next h + 1 |}).
Proof. intros Hh. unfold finish, run_c. cbn [rc reports fold_left]. by rewrite set_err_spec. Qed.

(** Of two reports in one call the first is leaked, and the second delivered. *)
Theorem second_report_leaks_first op ctx_err h t1 t2 code :
  heap_ok h -> code <> 0 -> code <> EAGAIN -> t2 <> ""%string ->
  exists n, finish op ctx_err {| reports := [{| r_text := Some t1; r_memory := true |};
                                             {| r_text := Some t2; r_memory := true |}]; rc := code |} h =
    Some (Some ("rdma verbs " +:+ op +:+ ": " +:+ t2), {| live := <[next h := t1]> (live h); next := n |}).
Proof.
  intros Hh H0 H1 Ht. set (h1 := (alloc true t1 h).2). pose proof (alloc_ok true t1 h Hh) as Hh1. fold h1 in Hh1.
  destruct (next_free h1 Hh1) as [Hn Hf]. exists (next h1 + 1).
  rewrite (finish_fails _ _ _ _ h (next h1) (alloc true t2 h1).2 H0 H1).
  - pose proof (CError_text op code (next h1) t2 {| live := live h1; next := next h1 + 1 |} Hn H0 Hf) as E.
    cbn [rc]. unfold alloc at 1. cbn [snd live next] in *. rewrite E. unfold error_text.
    by rewrite (proj2 (String.eqb_neq t2 "") Ht).
  - unfold run_c. cbn [reports fold_left]. rewrite set_err_spec by done. cbn [r_text r_memory].
    change (alloc true t1 h) with (next h, h1). cbv beta iota. by rewrite set_err_spec.
Qed.

(** A sleep that succeeds has lasted as long as it was asked to, however often it was
    interrupted. *)
Theorem sleep_lasts us naps :
  go_rdma_sleep_us us naps = Some 0 -> 0 < us -> slept naps (timespec_of us) = us * 1000.
Proof.
  unfold go_rdma_sleep_us. intros Hs Hus. rewrite (proj2 (Z.leb_gt us 0)) in Hs by done.
  assert (Hgo : forall ts, nap_loop naps ts = Some 0 -> slept naps ts = nanos ts).
  { clear. induction naps as [|[|remains|] naps IH]; intros ts; simpl; [done|done| |done]. intros H%IH. lia. }
  rewrite (Hgo _ Hs). unfold nanos, timespec_of. simpl. pose proof (Z.quot_rem' us 1000000). lia.
Qed.

(** ** Runs *)

Lemma error_text_delivered_witness :
  let h := {| live := ∅; next := 1 |} in
  let text := String.concat "" (replicate 600 "x"%string) in
  exists n, finish "send" None {| reports := [{| r_text := Some text; r_memory := true |}]; rc := 5 |} h =
    Some (Some ("rdma verbs send: " +:+ text), {| live := ∅; next := n |}).
Proof.
  apply (error_text_delivered "send" None {| live := ∅; next := 1 |}
    (Some {| r_text := Some (String.concat "" (replicate 600 "x"%string)); r_memory := true |}) 5); [|done|done].
  split; [done|]. intros p [s Hs]. done.
Defined.

Example diagnostics :
  rdmaWriteDiagEnabled (fun _ => Some " true "%string) = true /\ rdmaWriteDiagEnabled (fun _ => Some "yes"%string) = false /\
  rdmaWriteDiagEnabled (fun _ => None) = false.
Proof. by vm_compute. Qed.
