(* ===== verification/VerbsRing.v ===== *)
(** * The accounting of the send ring (pkg/rdma/verbs_linux_cgo.go)

    The connection counts posted and completed requests in two uint32 counters that
    wrap; the invariant ties them to the device's history, across wrap-around, and
    the waiting loops are shown to keep it, to end, and to leave what they promise. *)

From S2P Require Import Prelude VerbsConfig VerbsConn.

(** ** Counters modulo 2^32 *)

Lemma u32_window a b : 0 <= a - b < 2 ^ 32 -> u32 (u32 a - u32 b) = a - b.
Proof. intros Hab. unfold u32. rewrite <- Zminus_mod. by apply Z.mod_small. Qed.

Lemma i32_window a b : - 2 ^ 31 <= a - b < 2 ^ 31 -> i32 (u32 a - u32 b) = a - b.
Proof.
  intros Hab. unfold i32, u32.
  rewrite <- (Zplus_mod_idemp_l (_ - _)), <- Zminus_mod, Zplus_mod_idemp_l.
  rewrite Z.mod_small; lia.
Qed.

Lemma u32_succ a : u32 (u32 a + 1) = u32 (a + 1).
Proof. unfold u32. by rewrite Zplus_mod_idemp_l. Qed.

(** ** The history *)

Lemma posted_app tr1 tr2 : posted (tr1 ++ tr2) = posted tr1 ++ posted tr2.
Proof. apply omap_app. Qed.

Lemma completed_from_app n tr1 tr2 :
  completed_from n (tr1 ++ tr2) = completed_from (completed_from n tr1) tr2.
Proof. revert n. induction tr1 as [|[wr|k] tr1 IH]; simpl; auto. Qed.

Lemma completed_post tr wr : completed (tr ++ [EvPost wr]) = completed tr.
Proof. unfold completed. by rewrite completed_from_app. Qed.

Lemma completed_reap tr k : completed (tr ++ [EvReap k]) = S k.
Proof. unfold completed. by rewrite completed_from_app. Qed.

Lemma posted_post tr wr : posted (tr ++ [EvPost wr]) = posted tr ++ [wr].
Proof. by rewrite posted_app. Qed.

Lemma posted_reap tr k : posted (tr ++ [EvReap k]) = posted tr.
Proof. rewrite posted_app. apply app_nil_r. Qed.

(** ** The invariant *)

Section ring.
Context {W : Type} `{!Host W, !HostGhost W, !HostLaws W}.
Implicit Types (c : conn) (w : W).
#[local] Abbreviation C := (M W conn Z).

Definition n_posted (w : W) : Z := Z.of_nat (length (posted (trace w))).
Definition n_done (w : W) : Z := Z.of_nat (completed (trace w)).

Record ring_inv (c : conn) (w : W) : Prop := {
  ri_depth : 0 < send_depth (cfg c) < 2 ^ 31;
  ri_prod : tx_prod c = u32 (n_posted w);
  ri_done : send_completed c = u32 (n_done w);
  ri_le : n_done w <= n_posted w;
  ri_window : n_posted w - n_done w <= send_depth (cfg c);
  ri_ids : forall i wr, posted (trace w) !! i = Some wr -> wr_id wr = u32 (Z.of_nat i);
  (* a full ring holds a request that will be reported *)
  ri_progress : n_posted w - n_done w = send_depth (cfg c) ->
    exists i wr, (completed (trace w) <= i)%nat /\ posted (trace w) !! i = Some wr /\
                 wr_signaled wr = true;
  (* the staging slot of a request in flight still holds what was posted *)
  ri_staged : (send_depth (cfg c) | 2 ^ 32) -> forall i wr k,
    (completed (trace w) <= i)%nat -> posted (trace w) !! i = Some wr ->
    wr_sge wr = SgeStaging k ->
    k = u32 (Z.of_nat i) mod send_depth (cfg c) /\
    take (length (wr_data wr)) (default [] (send_buf c !! k)) = wr_data wr;
}.

Lemma ring_outstanding c w :
  ring_inv c w -> u32 (tx_prod c - send_completed c) = n_posted w - n_done w.
Proof. intros []. rewrite ri_prod0, ri_done0. apply u32_window. lia. Qed.

Lemma ring_outstanding_i32 c w :
  ring_inv c w -> i32 (tx_prod c - send_completed c) = n_posted w - n_done w.
Proof. intros []. rewrite ri_prod0, ri_done0. apply i32_window. lia. Qed.

(** The ring only depends on the history and on three fields. *)
Lemma ring_inv_frame c c' w w' :
  ring_inv c w -> trace w' = trace w -> cfg c' = cfg c ->
  tx_prod c' = tx_prod c -> send_completed c' = send_completed c ->
  send_buf c' = send_buf c -> ring_inv c' w'.
Proof.
  intros [] HT Hc Hp Hd Hb.
  split; unfold n_posted, n_done in *; rewrite ?HT, ?Hc, ?Hp, ?Hd, ?Hb; done.
Qed.

(** [w'] extends [w] by completions only, and only the counter of the
    connection has moved. *)
Definition advanced (c : conn) (w : W) (c' : conn) (w' : W) : Prop :=
  c' = set_send_completed c (send_completed c') /\
  (exists ks, trace w' = trace w ++ (EvReap <$> ks)) /\
  (completed (trace w) <= completed (trace w'))%nat /\ rq w' = rq w /\ untouched w w'.

Lemma set_send_completed_id c : c = set_send_completed c (send_completed c).
Proof. by destruct c. Qed.

Lemma advanced_frame c w w' : frame w w' -> advanced c w c w'.
Proof.
  intros (HT & HR & HU). split_and!; [apply set_send_completed_id| |by rewrite HT|done..].
  exists []. by rewrite HT, app_nil_r.
Qed.

Lemma posted_reaps tr ks : posted (tr ++ (EvReap <$> ks)) = posted tr.
Proof.
  revert tr. induction ks as [|k ks IH]; intros tr; simpl; [by rewrite app_nil_r|].
  rewrite (cons_middle _ tr), app_assoc, IH. apply posted_reap.
Qed.

Lemma advanced_posted c w c' w' : advanced c w c' w' -> posted (trace w') = posted (trace w).
Proof. intros (_ & [ks ->] & _). apply posted_reaps. Qed.

Lemma advanced_n_posted c w c' w' : advanced c w c' w' -> n_posted w' = n_posted w.
Proof. unfold n_posted. intros HA. by erewrite advanced_posted. Qed.

Lemma advanced_trans c1 w1 c2 w2 c3 w3 :
  advanced c1 w1 c2 w2 -> advanced c2 w2 c3 w3 -> advanced c1 w1 c3 w3.
Proof.
  intros (Hc1 & [ks1 T1] & L1 & R1 & U1) (Hc2 & [ks2 T2] & L2 & R2 & U2).
  split_and!; [by rewrite Hc2, Hc1| |lia|congruence|eapply untouched_trans; eauto].
  exists (ks1 ++ ks2). by rewrite T2, T1, fmap_app, app_assoc.
Qed.

(** Reaping one completion. *)
Lemma reap_spec ms c w :
  ring_inv c w ->
  wp (go_rdma_reap_data_send_completion ms : C unit)
     (fun o c' w' => advanced c w c' w' /\ ring_inv c' w' /\ o <> Diverged /\
        (o = Ret tt -> (completed (trace w) < completed (trace w'))%nat)) c w.
Proof.
  intros HI. unfold go_rdma_reap_data_send_completion.
  assert (HF : forall (o : outcome Z unit) w', frame w w' -> o <> Diverged -> o <> Ret tt ->
    advanced c w c w' /\ ring_inv c w' /\ o <> Diverged /\
    (o = Ret tt -> (completed (trace w) < completed (trace w'))%nat)).
  { intros o w' F ??. split_and!; [by apply advanced_frame| |done|done].
    eapply ring_inv_frame; try done. apply F. }
  apply wp_bind, wp_quiet; [apply check_open_quiet|]. intros o w1 F1 ND.
  destruct o as [[]|e| |]; cbn [seq_post]; [|by apply HF..].
  apply wp_bind. unfold go_rdma_wait_send_completion_with_id. apply wp_bind.
  eapply wp_mono; [apply poll_cq_spec|]. intros o c1 w2 [-> HP].
  eapply polled_frame in HP; [|exact F1]. clear w1 F1 ND.
  destruct o as [wc|e| |]; cbn [seq_post]; [|by apply HF..|done].
  destruct HP as (U2 & R2 & HT).
  apply wp_bind, wp_guard; intros Hs; cbn [seq_post].
  { apply negb_true_iff in Hs. rewrite Hs in HT. by apply HF. }
  apply negb_false_iff in Hs. rewrite Hs in HT. clear HF Hs.
  destruct HT as (k & wr & (Hk & _ & _) & Hwr & Hid & HT).
  apply wp_ret. cbn [seq_post]. apply wp_modify.
  pose proof HI as [Hdep Hprod Hdone Hle Hwin Hids Hprog Hst].
  assert (Hlt : (k < length (posted (trace w)))%nat) by (by apply lookup_lt_Some in Hwr).
  assert (Hdn : u32 (u32 (wc_id wc) + 1) = u32 (Z.of_nat k + 1)).
  { rewrite Hid, (Hids k wr Hwr), !u32_succ. done. }
  unfold n_posted, n_done in *.
  assert (Hgt : (0 <? i32 (u32 (u32 (wc_id wc) + 1) - send_completed c)) = true).
  { rewrite Hdn, Hdone, i32_window by lia. apply Z.ltb_lt. lia. }
  rewrite Hgt, Hdn.
  assert (HA : advanced c w (set_send_completed c (u32 (Z.of_nat k + 1))) w2).
  { split_and!; [done|exists [k]; done|rewrite HT, completed_reap; lia|done..]. }
  split; [exact HA|]. split; [|split; [done|intros _; rewrite HT, completed_reap; lia]].
  split; unfold n_posted, n_done; rewrite ?HT, ?completed_reap, ?posted_reap; try done.
  - simpl. f_equal. lia.
  - lia.
  - simpl. lia.
  - simpl. lia.
  - intros Hd i wr' s Hi. apply Hst; [done|lia].
Qed.

(** What the loops promise. *)
Definition waits (P : conn -> W -> Prop) (c : conn) (w : W) (o : outcome Z unit) c' w' : Prop :=
  advanced c w c' w' /\ ring_inv c' w' /\ o <> Diverged /\ (o = Ret tt -> P c' w').

Lemma waits_trans (P : conn -> W -> Prop) c w c1 w1 o c' w' :
  advanced c w c1 w1 -> waits P c1 w1 o c' w' -> waits P c w o c' w'.
Proof. intros HA (HA' & HI & HD & HP). split_and!; auto. by eapply advanced_trans. Qed.

Lemma waits_stop (P : conn -> W -> Prop) c w (o : outcome Z unit) :
  ring_inv c w -> o <> Diverged -> (o = Ret tt -> P c w) -> waits P c w o c w.
Proof. intros. split_and!; try done. apply advanced_frame. done. Qed.

Lemma wp_reap_then (P : conn -> W -> Prop) (k : C unit) ms c w :
  ring_inv c w ->
  (forall c1 w1, advanced c w c1 w1 -> ring_inv c1 w1 ->
     (completed (trace w) < completed (trace w1))%nat -> wp k (waits P c1 w1) c1 w1) ->
  wp (bind (go_rdma_reap_data_send_completion ms) (fun _ => k)) (waits P c w) c w.
Proof.
  intros HI Hk. apply wp_bind. eapply wp_mono; [by apply reap_spec|].
  intros o c1 w1 (HA & HI1 & HD & HL).
  destruct o as [[]|e| |]; cbn [seq_post]; [|by split_and!..].
  eapply wp_mono; [apply Hk; auto|]. intros ???. by apply waits_trans.
Qed.

Lemma wait_local_loop_spec fuel ms c w :
  ring_inv c w -> n_posted w - n_done w <= Z.of_nat fuel ->
  wp (wait_local_loop fuel ms : C unit)
     (waits (fun c' w' => n_posted w' - n_done w' < send_depth (cfg c')) c w) c w.
Proof.
  revert c w. induction fuel as [|fuel IH]; intros c w HI Hf; cbn [wait_local_loop].
  all: apply wp_bind, wp_get; cbn [seq_post]; rewrite (ring_outstanding c w HI).
  all: case_match; bool_facts; [|apply wp_ret, waits_stop; done].
  { destruct HI. lia. }
  apply wp_reap_then; [done|]. intros c1 w1 HA HI1 Hlt. apply IH; [done|].
  rewrite (advanced_n_posted _ _ _ _ HA). unfold n_done in *. lia.
Qed.

Lemma wait_local_send_slot_spec ms c w :
  ring_inv c w ->
  wp (go_rdma_wait_local_send_slot ms : C unit)
     (waits (fun c' w' => n_posted w' - n_done w' < send_depth (cfg c')) c w) c w.
Proof.
  intros HI. unfold go_rdma_wait_local_send_slot, check_open.
  apply wp_bind, wp_bind, wp_get. cbn [seq_post].
  apply wp_guard; intros Hopen; cbn [seq_post]; [by apply waits_stop|].
  apply wp_bind, wp_get; cbn [seq_post]. apply wp_bind.
  apply wp_guard; intros Hdep; cbn [seq_post]; [by apply waits_stop|].
  apply wait_local_loop_spec; [done|]. rewrite (ring_outstanding c w HI).
  destruct HI. lia.
Qed.

Lemma wait_until_loop_spec fuel target ms c w :
  ring_inv c w -> target = tx_prod c -> n_posted w - n_done w <= Z.of_nat fuel ->
  wp (wait_until_loop fuel target ms : C unit)
     (waits (fun c' w' => n_done w' = n_posted w') c w) c w.
Proof.
  revert c w. induction fuel as [|fuel IH]; intros c w HI -> Hf; cbn [wait_until_loop].
  all: apply wp_bind, wp_get; cbn [seq_post]; rewrite (ring_outstanding_i32 c w HI).
  all: case_match; bool_facts;
    [|apply wp_ret, waits_stop; try done; intros _; destruct HI; lia].
  { lia. }
  apply wp_reap_then; [done|]. intros c1 w1 HA HI1 Hlt. apply IH; [done| |].
  - destruct HA as [-> _]. done.
  - rewrite (advanced_n_posted _ _ _ _ HA). unfold n_done in *. lia.
Qed.

Lemma wait_send_completed_until_spec ms c w :
  ring_inv c w ->
  wp (go_rdma_wait_send_completed_until (tx_prod c) ms : C unit)
     (waits (fun c' w' => n_done w' = n_posted w') c w) c w.
Proof.
  intros HI. unfold go_rdma_wait_send_completed_until, check_open.
  apply wp_bind, wp_bind, wp_get. cbn [seq_post].
  apply wp_guard; intros Hopen; cbn [seq_post]; [by apply waits_stop|].
  apply wp_bind, wp_get; cbn [seq_post].
  apply wait_until_loop_spec; [done..|]. rewrite (ring_outstanding_i32 c w HI).
  destruct HI. lia.
Qed.
End ring.
