(* ===== verification/VerbsSend.v ===== *)
(** * Sending: frames, messages and remote writes (pkg/rdma/verbs_linux_cgo.go)

    A message up to a frame travels as SEND frames staged in the send ring; a larger
    one, or one addressed to an offset of the peer's window, as RDMA WRITEs followed
    by a notification frame once every write has completed. *)

From S2P Require Import Prelude VerbsConfig VerbsConn VerbsRing.

(** A C pointer to caller memory, with the bytes it points at. *)
Record cptr := { p_addr : Z; p_bytes : list byte }.

Definition ptr_add (p : cptr) (off : Z) : cptr :=
  {| p_addr := p_addr p + off; p_bytes := drop (Z.to_nat off) (p_bytes p) |}.

(** The first [n] bytes at [p]. *)
Definition ptr_read (p : cptr) (n : Z) : list byte := take (Z.to_nat n) (p_bytes p).

(** [memcpy(buf, data, len)]: the rest of the buffer stays. *)
Definition memcpy (old data : list byte) : list byte := data ++ drop (length data) old.

Section send.
Context {W : Type} `{!Host W}.
#[local] Abbreviation C := (M W conn Z).

Definition staging_read (c : conn) (slot n : Z) : list byte :=
  take (Z.to_nat n) (default [] (send_buf c !! slot)).

Definition stage (slot : Z) (data : list byte) : C unit :=
  modify (fun c => set_send_buf c (<[slot := memcpy (default [] (send_buf c !! slot)) data]>
                                     (send_buf c))).

(** Post a request under the next id and count it. *)
Definition post_wr (mk : conn -> send_wr) : C unit :=
  let! c := get in
  host_rc (ibv_post_send (mk c));;
  modify (fun c => set_tx_prod c (u32 (tx_prod c + 1))).

Definition needs_signal (c : conn) (force_signal : bool) : bool :=
  let outstanding := u32 (tx_prod c - send_completed c) in
  if force_signal then true
  else if send_signal_interval (cfg c) <=? 1 then true
  else if u32 (tx_prod c + 1) mod send_signal_interval (cfg c) =? 0 then true
  else send_depth (cfg c) <=? u32 (outstanding + 1).

Definition go_rdma_send_frame (payload : option cptr) (payload_len : Z) (force_signal : bool)
    (timeout_ms : Z) : C unit :=
  check_open;;
  let! c0 := get in
  guard (frame_cap (cfg c0) <? payload_len) EMSGSIZE;;
  guard (send_depth (cfg c0) =? 0) EINVAL;;
  go_rdma_wait_local_send_slot timeout_ms;;
  let! c := get in
  let local_slot := tx_prod c mod send_depth (cfg c) in
  let need_signal := needs_signal c force_signal in
  let inline := (0 <? inline_threshold (cfg c)) && (payload_len <=? inline_threshold (cfg c)) in
  let frame_wr (src : sge) (data : list byte) :=
    {| wr_id := tx_prod c; wr_opcode := IBV_WR_SEND; wr_signaled := need_signal;
       wr_inline := inline; wr_sge := src; wr_data := data;
       wr_remote_addr := 0; wr_rkey := 0 |} in
  let staged := fun c => frame_wr (SgeStaging local_slot) (staging_read c local_slot payload_len) in
  match payload with
  | Some p =>
    if inline && (0 <? payload_len) then
      post_wr (fun _ => frame_wr SgeInline (ptr_read p payload_len))
    else if 0 <? payload_len then
      stage local_slot (ptr_read p payload_len);; post_wr staged
    else post_wr staged
  | None => post_wr staged
  end.

Fixpoint send_chunks (fuel : nat) (payload : cptr) (total_len offset timeout_ms : Z) : C unit :=
  if offset <? total_len then
    match fuel with
    | O => diverged
    | S fuel' =>
      let! c := get in
      let remaining := total_len - offset in
      let chunk_len := if remaining <? frame_cap (cfg c) then remaining else frame_cap (cfg c) in
      let force_signal := total_len <=? u32 (offset + chunk_len) in
      go_rdma_send_frame (Some (ptr_add payload offset)) chunk_len force_signal timeout_ms;;
      send_chunks fuel' payload total_len (u32 (offset + chunk_len)) timeout_ms
    end
  else ret tt.

Definition go_rdma_send_message (payload : option cptr) (total_len timeout_ms : Z) : C unit :=
  check_open;;
  if total_len =? 0 then ret tt
  else match payload with
       | None => fail EINVAL
       | Some p =>
         let! c := get in
         guard (frame_cap (cfg c) =? 0) EINVAL;;
         send_chunks (Z.to_nat total_len) p total_len 0 timeout_ms
       end.

(** Does the chunk at [addr] lie in the connection's own registered window? *)
Definition in_rw_recv_mr (c : conn) (addr chunk_len : Z) : bool :=
  let g := cfg c in
  let rw_total := u64 (rw_recv_cap g * rw_recv_slots g) in
  let rel := addr - rw_recv_buf g in
  negb (rw_recv_buf g =? 0) && rw_recv_mr g && (0 <? rw_recv_cap g) && (0 <? rw_recv_slots g) &&
  (rw_total / rw_recv_slots g =? rw_recv_cap g) && (rw_recv_buf g <=? addr) &&
  (rel <=? rw_total) && (chunk_len <=? rw_total - rel).

(** One RDMA WRITE of the chunk at [p] to [remote_addr]. *)
Definition write_chunk (p : cptr) (chunk_len remote_addr : Z) (use_payload_mr : bool) : C unit :=
  let! c := get in
  let write_wr (src : sge) (data : list byte) :=
    {| wr_id := tx_prod c; wr_opcode := IBV_WR_RDMA_WRITE; wr_signaled := true;
       wr_inline := false; wr_sge := src; wr_data := data;
       wr_remote_addr := remote_addr; wr_rkey := peer_rw_rkey c |} in
  if use_payload_mr then
    post_wr (fun _ => write_wr (SgePayloadMR (p_addr p)) (ptr_read p chunk_len))
  else if in_rw_recv_mr c (p_addr p) chunk_len then
    post_wr (fun _ => write_wr (SgeRecvMR (p_addr p)) (ptr_read p chunk_len))
  else
    let local_slot := tx_prod c mod send_depth (cfg c) in
    stage local_slot (ptr_read p chunk_len);;
    post_wr (fun c => write_wr (SgeStaging local_slot) (staging_read c local_slot chunk_len)).

Fixpoint write_chunks (fuel : nat) (payload : cptr) (total_len remote_base : Z)
    (use_payload_mr : bool) (offset timeout_ms : Z) : C unit :=
  if offset <? total_len then
    match fuel with
    | O => diverged
    | S fuel' =>
      let! c := get in
      let remaining := total_len - offset in
      let chunk_len := if remaining <? frame_cap (cfg c) then remaining else frame_cap (cfg c) in
      go_rdma_wait_local_send_slot timeout_ms;;
      write_chunk (ptr_add payload offset) chunk_len (u64 (remote_base + offset)) use_payload_mr;;
      write_chunks fuel' payload total_len remote_base use_payload_mr
                   (u32 (offset + chunk_len)) timeout_ms
    end
  else ret tt.

(** The writes, the wait for all of them, and the notification. *)
Definition write_and_notify (payload : cptr) (total_len remote_base kind token : Z)
    (use_payload_mr : bool) (timeout_ms : Z) : C unit :=
  write_chunks (Z.to_nat total_len) payload total_len remote_base use_payload_mr 0 timeout_ms;;
  let! c := get in
  go_rdma_wait_send_completed_until (tx_prod c) timeout_ms;;
  let notify := {| n_magic := GO_RDMA_RW_NOTIFY_MAGIC; n_kind := kind;
                   n_length := total_len; n_slot := token |} in
  go_rdma_send_message (Some {| p_addr := 0; p_bytes := notify_bytes notify |})
                       rdmaWriteNotifySize timeout_ms.

(** The [cleanup:] label: wait for requests that may still read the payload,
    and unregister it; the first error is the one returned. *)
Definition rw_cleanup (use_payload_mr : bool) (writes_start : Z) (final : res Z unit) : C unit :=
  let result (r : res Z unit) : C unit := match r with Ok _ => ret tt | Err e => fail e end in
  let first (r1 r2 : res Z unit) := match r1 with Ok _ => r2 | Err _ => r1 end in
  if use_payload_mr then
    let! c := get in
    let! waited :=
      (if 0 <? i32 (tx_prod c - writes_start)
       then catch (go_rdma_wait_send_completed_until (tx_prod c) (-1))
       else ret (Ok tt)) in
    let! dereg := catch (host_rc ibv_dereg_mr) in
    result (first (first final waited) dereg)
  else result final.

Definition peer_unavailable (c : conn) : bool :=
  negb (rw_ready c) || (peer_rw_addr c =? 0) || (peer_rw_rkey c =? 0) ||
  (peer_rw_cap c =? 0) || (peer_rw_slots c =? 0).

Definition go_rdma_send_message_rw (payload : option cptr) (total_len timeout_ms : Z) : C unit :=
  check_open;;
  if total_len =? 0 then ret tt
  else match payload with
       | None => fail EINVAL
       | Some p =>
         let! c := get in
         guard (peer_unavailable c) ENOTSUP;;
         guard (peer_rw_cap c <? total_len) EMSGSIZE;;
         guard (frame_cap (cfg c) =? 0) EINVAL;;
         let! use_payload_mr := host (ibv_reg_mr (p_addr p) total_len) in
         let slot := rw_send_seq c mod peer_rw_slots c in
         let remote_base := u64 (peer_rw_addr c + slot * peer_rw_cap c) in
         let! final := catch
           (write_and_notify p total_len remote_base GO_RDMA_RW_NOTIFY_KIND_WRITE slot
                             use_payload_mr timeout_ms;;
            modify (fun c => set_peer c (peer_rw_addr c) (peer_rw_rkey c) (peer_rw_cap c)
                               (peer_rw_slots c) (u32 (rw_send_seq c + 1)) (rw_ready c))) in
         rw_cleanup use_payload_mr (tx_prod c) final
       end.

Definition go_rdma_send_message_rw_at (payload : option cptr) (total_len remote_offset timeout_ms : Z)
  : C unit :=
  check_open;;
  if total_len =? 0 then ret tt
  else match payload with
       | None => fail EINVAL
       | Some p =>
         let! c := get in
         guard (peer_unavailable c) ENOTSUP;;
         let peer_total := u64 (peer_rw_cap c * peer_rw_slots c) in
         guard ((peer_total =? 0) || (2 ^ 32 - 1 <? peer_total)) EINVAL;;
         guard (peer_total <? u64 (remote_offset + total_len)) EMSGSIZE;;
         guard (frame_cap (cfg c) =? 0) EINVAL;;
         let! use_payload_mr := host (ibv_reg_mr (p_addr p) total_len) in
         let remote_base := u64 (peer_rw_addr c + remote_offset) in
         let! final := catch
           (write_and_notify p total_len remote_base GO_RDMA_RW_NOTIFY_KIND_WRITE_AT remote_offset
                             use_payload_mr timeout_ms) in
         rw_cleanup use_payload_mr (tx_prod c) final
       end.
End send.

(** ** What sending does to the ring *)

(** Does the element point at memory of the connection or of the request itself,
    so that the caller may reuse its payload? *)
Definition sge_owned (s : sge) : bool :=
  match s with SgeStaging _ | SgeInline => true | SgePayloadMR _ | SgeRecvMR _ => false end.

(** The requests that carry a message: SEND frames, all full but the last, which
    is signaled. *)
Fixpoint frames_of (cap : Z) (wrs : list send_wr) (data : list byte) : Prop :=
  match wrs with
  | [] => False
  | wr :: wrs' =>
    wr_opcode wr = IBV_WR_SEND /\ sge_owned (wr_sge wr) = true /\
    match wrs' with
    | [] => wr_data wr = data /\ 0 < blen data <= cap /\ wr_signaled wr = true
    | _ => wr_data wr = take (Z.to_nat cap) data /\ cap < blen data /\
           frames_of cap wrs' (drop (Z.to_nat cap) data)
    end
  end.

(** The requests that carry a remote write: contiguous from [addr]. *)
Fixpoint writes_of (cap rkey addr : Z) (wrs : list send_wr) (data : list byte) : Prop :=
  match wrs with
  | [] => data = []
  | wr :: wrs' =>
    wr_opcode wr = IBV_WR_RDMA_WRITE /\ wr_signaled wr = true /\ wr_rkey wr = rkey /\
    wr_remote_addr wr = u64 addr /\ data <> [] /\
    wr_data wr = take (Z.to_nat cap) data /\
    writes_of cap rkey (addr + cap) wrs' (drop (Z.to_nat cap) data)
  end.

Section send_facts.
Context {W : Type} `{!Host W, !HostGhost W, !HostLaws W}.
Implicit Types (c : conn) (w : W).
#[local] Abbreviation C := (M W conn Z).

(** [wrs] were posted between [w] and [w']; only the send side moved. *)
Definition sent (c : conn) (w : W) (wrs : list send_wr) (c' : conn) (w' : W) : Prop :=
  posted (trace w') = posted (trace w) ++ wrs /\
  (exists ext, trace w' = trace w ++ ext) /\
  (completed (trace w) <= completed (trace w'))%nat /\
  rq w' = rq w /\ untouched w w' /\
  c' = set_peer (set_send c (send_buf c') (send_completed c') (tx_prod c'))
         (peer_rw_addr c) (peer_rw_rkey c) (peer_rw_cap c) (peer_rw_slots c)
         (rw_send_seq c') (rw_ready c).

Lemma sent_frame c w w' : frame w w' -> sent c w [] c w'.
Proof.
  intros (T1 & R1 & U1). split_and!; try done.
  - by rewrite T1, app_nil_r.
  - exists []. by rewrite T1, app_nil_r.
  - by rewrite T1.
  - by destruct c.
Qed.

Lemma sent_advanced c w c' w' : advanced c w c' w' -> sent c w [] c' w'.
Proof.
  intros HA. pose proof (advanced_posted _ _ _ _ HA) as HP.
  destruct HA as (Hc & [ks T1] & L1 & R1 & U1). split_and!; try done.
  - by rewrite app_nil_r.
  - by eexists.
  - rewrite Hc. by destruct c.
Qed.

Lemma sent_trans c1 w1 l1 c2 w2 l2 c3 w3 :
  sent c1 w1 l1 c2 w2 -> sent c2 w2 l2 c3 w3 -> sent c1 w1 (l1 ++ l2) c3 w3.
Proof.
  intros (P1 & [e1 T1] & L1 & R1 & U1 & C1) (P2 & [e2 T2] & L2 & R2 & U2 & C2). split_and!.
  - by rewrite P2, P1, app_assoc.
  - exists (e1 ++ e2). by rewrite T2, T1, app_assoc.
  - lia.
  - congruence.
  - eapply untouched_trans; eauto.
  - rewrite C2, C1. by destruct c1.
Qed.

Lemma sent_cfg c w l c' w' : sent c w l c' w' -> cfg c' = cfg c.
Proof. by intros (_ & _ & _ & _ & _ & ->). Qed.

Lemma sent_n_posted c w l c' w' : sent c w l c' w' -> n_posted w' = n_posted w + blen l.
Proof. intros [HP _]. unfold n_posted, blen. rewrite HP, length_app. lia. Qed.

(** The result of sending: the invariant, no divergence, and [P] of the
    requests posted and the final state when the call succeeds. *)
Definition sends (P : list send_wr -> conn -> W -> Prop) (c : conn) (w : W)
    (o : outcome Z unit) (c' : conn) (w' : W) : Prop :=
  ring_inv c' w' /\ o <> Diverged /\
  exists wrs, sent c w wrs c' w' /\ (o = Ret tt -> P wrs c' w').

Lemma sends_stop (P : list send_wr -> conn -> W -> Prop) c w (o : outcome Z unit) :
  ring_inv c w -> o <> Diverged -> (o = Ret tt -> P [] c w) -> sends P c w o c w.
Proof. intros. split_and!; try done. exists []. split; [by apply sent_frame|done]. Qed.

Lemma wp_sends_bind (m : C unit) (k : C unit) (P Q : list send_wr -> conn -> W -> Prop) c w :
  wp m (sends P c w) c w ->
  (forall wrs c1 w1, ring_inv c1 w1 -> sent c w wrs c1 w1 -> P wrs c1 w1 ->
     wp k (sends (fun l c' w' => Q (wrs ++ l) c' w') c1 w1) c1 w1) ->
  wp (bind m (fun _ => k)) (sends Q c w) c w.
Proof.
  intros Hm Hk. apply wp_bind. eapply wp_mono; [exact Hm|].
  intros [[]|e| |] c1 w1 (HI & HD & wrs & HS & HP); cbn [seq_post].
  - eapply wp_mono; [apply (Hk wrs c1 w1 HI HS); auto|].
    intros o c2 w2 (HI2 & HD2 & l & HS2 & HQ). split_and!; try done.
    exists (wrs ++ l). split; [by eapply sent_trans|done].
  - split_and!; try done. by exists wrs.
  - split_and!; try done. by exists wrs.
  - done.
Qed.

Lemma wp_waits_sends (m : C unit) (P : conn -> W -> Prop) c w :
  wp m (waits P c w) c w -> wp m (sends (fun l c' w' => l = [] /\ P c' w') c w) c w.
Proof.
  intros Hm. eapply wp_mono; [exact Hm|]. intros o c' w' (HA & HI & HD & HP).
  split_and!; try done. exists []. split; [by apply sent_advanced|auto].
Qed.

Lemma wp_guard_sends b e (k : C unit) (Q : list send_wr -> conn -> W -> Prop) c w :
  ring_inv c w -> (b = false -> wp k (sends Q c w) c w) ->
  wp (bind (guard b e) (fun _ => k)) (sends Q c w) c w.
Proof.
  intros HI Hk. apply wp_bind, wp_guard; intros Hb; cbn [seq_post]; [|auto].
  by apply sends_stop.
Qed.

Lemma wp_get_sends (k : conn -> C unit) (Q : list send_wr -> conn -> W -> Prop) c w :
  wp (k c) (sends Q c w) c w -> wp (bind get k) (sends Q c w) c w.
Proof. intros. by apply wp_bind, wp_get. Qed.

Lemma wp_open_sends (k : C unit) (Q : list send_wr -> conn -> W -> Prop) c w :
  ring_inv c w -> wp k (sends Q c w) c w ->
  wp (bind check_open (fun _ => k)) (sends Q c w) c w.
Proof.
  intros HI Hk. unfold check_open. apply wp_bind, wp_bind, wp_get. cbn [seq_post].
  apply wp_guard; intros Hb; cbn [seq_post]; [by apply sends_stop|done].
Qed.

(** *** The staging ring *)

(** Requests in flight and the next one use different slots, when the depth
    divides the range of the counter. *)
Lemma slots_differ depth i n :
  (depth | 2 ^ 32) -> 0 < depth -> 0 < n - i < depth -> u32 i mod depth <> u32 n mod depth.
Proof.
  intros Hd Hpos Hlt. unfold u32. rewrite !Z.mod_mod_divide by done. intros Heq.
  assert (Hm : (n - i) mod depth = 0) by (by rewrite Zminus_mod, Heq, Z.sub_diag).
  rewrite Z.mod_small in Hm; lia.
Qed.

Lemma stage_ring c w data :
  ring_inv c w -> n_posted w - n_done w < send_depth (cfg c) ->
  let slot := tx_prod c mod send_depth (cfg c) in
  ring_inv (set_send_buf c (<[slot := memcpy (default [] (send_buf c !! slot)) data]>
                              (send_buf c))) w.
Proof.
  intros HI Hroom slot. pose proof HI as [Hdep Hprod Hdone Hle Hwin Hids Hprog Hst].
  split; try done. intros Hd i wr k Hi Hwr Hk.
  destruct (Hst Hd i wr k Hi Hwr Hk) as [Hslot Hdata]. split; [done|].
  assert (Hlt : (i < length (posted (trace w)))%nat) by (by apply lookup_lt_Some in Hwr).
  unfold n_posted, n_done in *.
  assert (Hne : slot <> k).
  { unfold slot. rewrite Hslot, Hprod. intros Heq. symmetry in Heq. revert Heq.
    apply slots_differ; [done|lia|lia]. }
  cbn [set_send_buf set_send send_buf]. by rewrite lookup_insert_ne.
Qed.

Lemma post_ring c w w' wr :
  ring_inv c w -> n_posted w - n_done w < send_depth (cfg c) ->
  wr_id wr = tx_prod c ->
  (n_posted w + 1 - n_done w = send_depth (cfg c) -> wr_signaled wr = true) ->
  (forall k, wr_sge wr = SgeStaging k -> k = tx_prod c mod send_depth (cfg c) /\
     take (length (wr_data wr)) (default [] (send_buf c !! k)) = wr_data wr) ->
  trace w' = trace w ++ [EvPost wr] ->
  ring_inv (set_tx_prod c (u32 (tx_prod c + 1))) w'.
Proof.
  intros HI Hroom Hid Hsig Hsl HT. pose proof HI as [Hdep Hprod Hdone Hle Hwin Hids Hprog Hst].
  unfold n_posted, n_done in *.
  split; unfold n_posted, n_done; rewrite ?HT, ?completed_post, ?posted_post, ?length_app;
    cbn [set_tx_prod set_send cfg tx_prod send_completed send_buf length]; try lia.
  - rewrite Hprod, u32_succ. f_equal. lia.
  - intros i wr' [Hi|[Hi1 Hi2]]%lookup_app_Some; [by apply Hids|].
    apply list_lookup_singleton_Some in Hi2 as [Hi2 <-]. rewrite Hid, Hprod. f_equal. lia.
  - intros Hfull. exists (length (posted (trace w))), wr. split; [lia|].
    split; [by rewrite lookup_app_r, Nat.sub_diag by lia|apply Hsig; lia].
  - intros Hd i wr' k Hi [Hwr|[Hi1 Hi2]]%lookup_app_Some Hk; [by apply Hst|].
    apply list_lookup_singleton_Some in Hi2 as [Hi2 <-].
    assert (Hin : i = length (posted (trace w))) by lia.
    rewrite Hin, <- Hprod. by apply Hsl.
Qed.

Lemma post_wr_spec (mk : conn -> send_wr) c w :
  ring_inv c w -> n_posted w - n_done w < send_depth (cfg c) ->
  wr_id (mk c) = tx_prod c ->
  (n_posted w + 1 - n_done w = send_depth (cfg c) -> wr_signaled (mk c) = true) ->
  (forall k, wr_sge (mk c) = SgeStaging k -> k = tx_prod c mod send_depth (cfg c) /\
     take (length (wr_data (mk c))) (default [] (send_buf c !! k)) = wr_data (mk c)) ->
  wp (post_wr mk : C unit) (sends (fun l _ _ => l = [mk c]) c w) c w.
Proof.
  intros HI Hroom Hid Hsig Hsl. unfold post_wr. apply wp_bind, wp_get. cbn [seq_post].
  apply wp_bind, wp_host_rc; cbn [seq_post].
  - intros w' (R1 & U1 & T1)%post_send_law. apply wp_modify.
    split; [by eapply post_ring|]. split; [done|]. exists [mk c]. split; [|done].
    split_and!; try done.
    + by rewrite T1, posted_post.
    + by eexists.
    + rewrite T1, completed_post. done.
  - intros e w' (R1 & U1 & T1)%post_send_law.
    split; [by eapply ring_inv_frame|]. split; [done|]. exists []. split; [|done].
    by apply sent_frame.
Qed.

Lemma needs_signal_force c : needs_signal c true = true.
Proof. done. Qed.

(** A request that fills the ring is always signaled. *)
Lemma needs_signal_full c w force :
  ring_inv c w -> n_posted w + 1 - n_done w = send_depth (cfg c) -> needs_signal c force = true.
Proof.
  intros HI Hfull. unfold needs_signal. rewrite (ring_outstanding c w HI).
  destruct force; [done|]. case_match; [done|]. case_match; [done|].
  destruct HI. rewrite u32_id by lia. apply Z.leb_le. lia.
Qed.

Lemma staging_read_memcpy c slot (data : list byte) n :
  blen data = n ->
  staging_read (set_send_buf c (<[slot := memcpy (default [] (send_buf c !! slot)) data]>
                                  (send_buf c))) slot n = data.
Proof.
  intros Hn. unfold staging_read, set_send_buf, set_send; cbn [send_buf].
  rewrite lookup_insert_eq. cbn [default]. unfold memcpy, blen in *.
  replace (Z.to_nat n) with (length data) by lia. apply take_app_length.
Qed.

Lemma length_ptr_read p n : 0 <= n <= blen (p_bytes p) -> blen (ptr_read p n) = n.
Proof. unfold blen, ptr_read. intros. rewrite length_take. lia. Qed.

(** Staging a chunk and posting the request that reads it. *)
Lemma stage_post_spec (mk : conn -> send_wr) (data : list byte) n c w :
  let slot := tx_prod c mod send_depth (cfg c) in
  ring_inv c w -> n_posted w - n_done w < send_depth (cfg c) -> blen data = n ->
  (forall c', tx_prod c' = tx_prod c -> wr_id (mk c') = tx_prod c /\
     wr_data (mk c') = staging_read c' slot n /\ wr_sge (mk c') = SgeStaging slot /\
     (n_posted w + 1 - n_done w = send_depth (cfg c) -> wr_signaled (mk c') = true)) ->
  wp (bind (stage slot data) (fun _ => post_wr mk) : C unit)
     (sends (fun l _ _ => exists c1, l = [mk c1] /\ tx_prod c1 = tx_prod c /\
                                  peer_rw_rkey c1 = peer_rw_rkey c /\
                                  staging_read c1 slot n = data) c w) c w.
Proof.
  intros slot HI Hroom Hn Hmk. unfold stage. apply wp_bind, wp_modify. cbn [seq_post].
  set (c1 := set_send_buf c _).
  assert (HI1 : ring_inv c1 w) by (by apply stage_ring).
  assert (Hrd : staging_read c1 slot n = data) by (by apply staging_read_memcpy).
  destruct (Hmk c1 eq_refl) as (Hid & Hdata & Hsge & Hsig).
  eapply wp_mono; [apply (post_wr_spec mk c1 w); try done|].
  - intros k Hk. rewrite Hsge in Hk. injection Hk as <-. split; [done|].
    rewrite Hdata. unfold staging_read in *. rewrite Hrd.
    transitivity (take (length data) (take (Z.to_nat n) (default [] (send_buf c1 !! slot)))).
    + rewrite take_take. f_equal. unfold blen in Hn. lia.
    + rewrite Hrd. by rewrite firstn_all.
  - intros o c2 w2 (HI2 & HD & wrs & HS & HP). split_and!; try done. exists wrs. split.
    + destruct HS as (P1 & T1 & L1 & R1 & U1 & C1). split_and!; done.
    + intros Ho. exists c1. split_and!; auto.
Qed.

(** *** Frames *)

Definition is_frame (c : conn) (data : list byte) (force : bool) (wr : send_wr) : Prop :=
  wr_opcode wr = IBV_WR_SEND /\ wr_data wr = data /\ (force = true -> wr_signaled wr = true) /\
  sge_owned (wr_sge wr) = true.

Lemma send_frame_spec p n force ms c w :
  ring_inv c w -> 0 < n <= blen (p_bytes p) ->
  wp (go_rdma_send_frame (Some p) n force ms : C unit)
     (sends (fun l _ _ => n <= frame_cap (cfg c) /\
                          exists wr, l = [wr] /\ is_frame c (ptr_read p n) force wr) c w) c w.
Proof.
  intros HI Hn. unfold go_rdma_send_frame. apply wp_open_sends; [done|].
  apply wp_get_sends, wp_guard_sends; [done|]. intros Hcap. apply Z.ltb_ge in Hcap.
  apply wp_guard_sends; [done|]. intros _.
  eapply wp_sends_bind; [apply wp_waits_sends, wait_local_send_slot_spec, HI|].
  intros ? c1 w1 HI1 HS1 [-> Hroom]. pose proof (sent_cfg _ _ _ _ _ HS1) as Hcfg.
  apply wp_get_sends. set (slot := tx_prod c1 mod send_depth (cfg c1)).
  pose proof (needs_signal_full c1 w1 force HI1) as Hfull.
  assert (Hforce : force = true -> needs_signal c1 force = true) by (by intros ->).
  replace (0 <? n) with true by (symmetry; apply Z.ltb_lt; lia).
  destruct ((0 <? inline_threshold (cfg c1)) && (n <=? inline_threshold (cfg c1))); cbn [andb].
  - eapply wp_mono; [by apply post_wr_spec|].
    intros o c2 w2 (HI2 & HD & wrs & HS & HP). split_and!; try done. exists wrs.
    split; [done|]. intros Ho. rewrite app_nil_l, (HP Ho). split; [done|].
    eexists. split; [done|]. unfold is_frame; cbn; split_and!; auto.
  - eapply wp_mono; [apply (stage_post_spec _ _ n); try done|].
    + apply length_ptr_read. lia.
    + intros o c2 w2 (HI2 & HD & wrs & HS & HP). split_and!; try done. exists wrs.
      split; [done|]. intros Ho. destruct (HP Ho) as (c' & -> & _ & _ & Hrd).
      split; [done|]. eexists. split; [done|]. unfold is_frame; cbn; split_and!; auto.
Qed.

Lemma drop_drop_Z (l : list byte) i j :
  0 <= i -> 0 <= j -> drop (Z.to_nat j) (drop (Z.to_nat i) l) = drop (Z.to_nat (i + j)) l.
Proof. intros. rewrite drop_drop. f_equal. lia. Qed.

Lemma blen_drop (l : list byte) i : 0 <= i <= blen l -> blen (drop (Z.to_nat i) l) = blen l - i.
Proof. unfold blen. intros. rewrite length_drop. lia. Qed.

Lemma blen_take (l : list byte) i : 0 <= i <= blen l -> blen (take (Z.to_nat i) l) = i.
Proof. unfold blen. intros. rewrite length_take. lia. Qed.

(** The chunk at [offset]: its length, and what is left after it. *)
Lemma chunk_facts cap total offset :
  0 < cap -> 0 <= offset -> offset < total -> total < 2 ^ 32 ->
  let chunk := if total - offset <? cap then total - offset else cap in
  0 < chunk /\ chunk <= cap /\ offset + chunk <= total /\ u32 (offset + chunk) = offset + chunk /\
  ((total <=? u32 (offset + chunk)) = false -> chunk = cap) /\
  ((total <=? u32 (offset + chunk)) = true -> offset + chunk = total).
Proof.
  intros Hc Ho Hlt Ht. cbv zeta.
  assert (u32 (offset + if total - offset <? cap then total - offset else cap) =
          offset + if total - offset <? cap then total - offset else cap) as ->.
  { apply u32_id. case_match; bool_facts; lia. }
  repeat case_match; bool_facts; split_and!; intros; bool_facts; lia.
Qed.

Lemma send_chunks_spec fuel p total offset ms c w :
  ring_inv c w -> 0 < frame_cap (cfg c) -> 0 <= offset < total -> total < 2 ^ 32 ->
  total <= blen (p_bytes p) -> total - offset <= Z.of_nat fuel ->
  wp (send_chunks fuel p total offset ms : C unit)
     (sends (fun l _ _ => frames_of (frame_cap (cfg c)) l
                            (take (Z.to_nat (total - offset)) (drop (Z.to_nat offset) (p_bytes p))))
            c w) c w.
Proof.
  revert offset c w. induction fuel as [|fuel IH]; intros offset c w HI Hcap Ho Ht Hp Hf;
    cbn [send_chunks]; (replace (offset <? total) with true by (symmetry; apply Z.ltb_lt; lia)).
  { lia. }
  apply wp_get_sends.
  destruct (chunk_facts (frame_cap (cfg c)) total offset) as (H1 & H2 & H3 & Hu & Hno & Hyes);
    [lia..|].
  set (chunk := if total - offset <? _ then _ else _) in *.
  assert (Hbl : blen (p_bytes (ptr_add p offset)) = blen (p_bytes p) - offset).
  { apply blen_drop. lia. }
  eapply wp_sends_bind; [apply send_frame_spec; [done|rewrite Hbl; lia]|].
  intros wrs c1 w1 HI1 HS1 (_ & wr & -> & Hop & Hdata & Hsig & Hown).
  pose proof (sent_cfg _ _ _ _ _ HS1) as Hcfg. rewrite Hu in *.
  unfold ptr_read, ptr_add in Hdata; cbn [p_bytes] in Hdata.
  destruct (total <=? offset + chunk) eqn:Elast.
  - (* the last chunk *)
    specialize (Hyes eq_refl).
    destruct fuel; cbn [send_chunks]; (replace (offset + chunk <? total) with false
      by (symmetry; apply Z.ltb_ge; lia)); apply wp_ret, sends_stop; try done; intros _;
      simpl; rewrite Hdata; (replace (total - offset) with chunk by lia);
      rewrite blen_take by (rewrite blen_drop; lia); split_and!; auto; lia.
  - specialize (Hno eq_refl). apply Z.leb_gt in Elast.
    eapply wp_mono; [apply IH; rewrite ?Hcfg; try done; lia|].
    intros o c2 w2 (HI2 & HD & l & HS & HP). split_and!; try done. exists l. split; [done|].
    intros Hret. specialize (HP Hret). rewrite Hcfg in HP.
    assert (Hl : l <> []) by (by intros ->). destruct l as [|wr' l]; [done|].
    cbn [app]. change (frames_of ?cap (?a :: ?b :: ?r) ?d) with
      (wr_opcode a = IBV_WR_SEND /\ sge_owned (wr_sge a) = true /\ wr_data a = take (Z.to_nat cap) d /\ cap < blen d /\
       frames_of cap (b :: r) (drop (Z.to_nat cap) d)).
    rewrite blen_take by (rewrite blen_drop; lia). rewrite Hdata, Hno, take_take.
    split_and!; [done|done|f_equal; lia|lia|].
    rewrite skipn_firstn_comm, drop_drop_Z by lia. rewrite Hno in HP.
    replace (Z.to_nat (total - offset) - Z.to_nat (frame_cap (cfg c)))%nat
      with (Z.to_nat (total - (offset + frame_cap (cfg c)))) by lia. exact HP.
Qed.

Lemma send_message_spec p total ms c w :
  ring_inv c w -> 0 <= frame_cap (cfg c) -> 0 < total < 2 ^ 32 -> total <= blen (p_bytes p) ->
  wp (go_rdma_send_message (Some p) total ms : C unit)
     (sends (fun l _ _ => frames_of (frame_cap (cfg c)) l (ptr_read p total)) c w) c w.
Proof.
  intros HI Hcap Ht Hp. unfold go_rdma_send_message. apply wp_open_sends; [done|].
  replace (total =? 0) with false by (symmetry; apply Z.eqb_neq; lia).
  apply wp_get_sends, wp_guard_sends; [done|]. intros Hc. apply Z.eqb_neq in Hc.
  eapply wp_mono; [apply send_chunks_spec; try done; lia|].
  by rewrite Z.sub_0_r.
Qed.

(** *** Remote writes *)

Lemma sent_peer c w l c' w' : sent c w l c' w' ->
  peer_rw_rkey c' = peer_rw_rkey c /\ peer_rw_addr c' = peer_rw_addr c /\
  peer_rw_cap c' = peer_rw_cap c /\ peer_rw_slots c' = peer_rw_slots c /\ rw_ready c' = rw_ready c.
Proof. by intros (_ & _ & _ & _ & _ & ->). Qed.

Lemma write_chunk_spec p n addr use_mr c w :
  ring_inv c w -> n_posted w - n_done w < send_depth (cfg c) -> 0 < n <= blen (p_bytes p) ->
  wp (write_chunk p n addr use_mr : C unit)
     (sends (fun l _ _ => exists wr, l = [wr] /\ wr_opcode wr = IBV_WR_RDMA_WRITE /\
               wr_signaled wr = true /\ wr_rkey wr = peer_rw_rkey c /\
               wr_remote_addr wr = addr /\ wr_data wr = ptr_read p n) c w) c w.
Proof.
  intros HI Hroom Hn. unfold write_chunk. apply wp_get_sends.
  set (slot := tx_prod c mod send_depth (cfg c)).
  destruct use_mr; [|destruct (in_rw_recv_mr c (p_addr p) n)].
  1,2: eapply wp_mono; [by apply post_wr_spec|];
    intros o c2 w2 (HI2 & HD & wrs & HS & HP); split_and!; try done; exists wrs;
    (split; [done|]); intros Ho; rewrite (HP Ho); by eexists.
  eapply wp_mono; [apply (stage_post_spec _ _ n); try done|].
  + apply length_ptr_read. lia.
  + intros o c2 w2 (HI2 & HD & wrs & HS & HP). split_and!; try done. exists wrs.
    split; [done|]. intros Ho. destruct (HP Ho) as (c' & -> & _ & _ & Hrd).
    eexists. split; [done|]. by split_and!.
Qed.

Lemma write_chunks_spec fuel p total base use_mr offset ms c w :
  ring_inv c w -> 0 < frame_cap (cfg c) -> 0 <= offset <= total -> total < 2 ^ 32 ->
  total <= blen (p_bytes p) -> total - offset <= Z.of_nat fuel ->
  wp (write_chunks fuel p total base use_mr offset ms : C unit)
     (sends (fun l _ _ => writes_of (frame_cap (cfg c)) (peer_rw_rkey c) (base + offset) l
                            (take (Z.to_nat (total - offset)) (drop (Z.to_nat offset) (p_bytes p))))
            c w) c w.
Proof.
  revert offset c w. induction fuel as [|fuel IH]; intros offset c w HI Hcap Ho Ht Hp Hf;
    cbn [write_chunks]; destruct (offset <? total) eqn:Elt; bool_facts; try lia.
  1,3: apply wp_ret, sends_stop; try done; intros _; by replace (total - offset) with 0 by lia.
  apply wp_get_sends.
  destruct (chunk_facts (frame_cap (cfg c)) total offset) as (H1 & H2 & H3 & Hu & Hno & Hyes);
    [lia..|].
  set (chunk := if total - offset <? _ then _ else _) in *.
  assert (Hbl : blen (p_bytes (ptr_add p offset)) = blen (p_bytes p) - offset).
  { apply blen_drop. lia. }
  eapply wp_sends_bind; [apply wp_waits_sends, wait_local_send_slot_spec, HI|].
  intros ? c0 w0 HI0 HS0 [-> Hroom].
  eapply wp_sends_bind; [apply write_chunk_spec; [done..|rewrite Hbl; lia]|].
  intros wrs c1 w1 HI1 HS1 (wr & -> & Hop & Hsig & Hkey & Haddr & Hdata).
  pose proof (sent_trans _ _ _ _ _ _ _ _ HS0 HS1) as HS01.
  pose proof (sent_cfg _ _ _ _ _ HS01) as Hcfg.
  pose proof (sent_peer _ _ _ _ _ HS01) as [Hrk _].
  pose proof (sent_peer _ _ _ _ _ HS0) as [Hrk0 _].
  rewrite Hu in *. unfold ptr_read, ptr_add in Hdata; cbn [p_bytes] in Hdata.
  eapply wp_mono; [apply IH; rewrite ?Hcfg; try done; lia|].
  intros o c2 w2 (HI2 & HD & l & HS & HP). split_and!; try done. exists l. split; [done|].
  intros Hret. specialize (HP Hret). rewrite Hcfg, Hrk in HP. cbn [app writes_of].
  rewrite Hkey, Hrk0, Hdata, take_take. split_and!; try done.
  - intros Hnil%(f_equal blen). rewrite blen_take in Hnil; [|rewrite blen_drop; lia].
    change (total - offset = 0) in Hnil. lia.
  - f_equal. subst chunk. case_match; bool_facts; lia.
  - rewrite skipn_firstn_comm, drop_drop_Z by lia.
    destruct (total <=? offset + chunk) eqn:Elast; bool_facts.
    + specialize (Hyes eq_refl). rewrite Hyes, Z.sub_diag in HP. destruct l; [|by destruct HP as (_&_&_&_&[]&_)].
      simpl. replace (Z.to_nat (total - offset) - Z.to_nat (frame_cap (cfg c)))%nat with 0%nat by lia.
      done.
    + rewrite (Hno eq_refl) in HP.
      replace (Z.to_nat (total - offset) - Z.to_nat (frame_cap (cfg c)))%nat
        with (Z.to_nat (total - (offset + frame_cap (cfg c)))) by lia.
      by rewrite Z.add_assoc in HP.
Qed.

(** Every request posted up to some point was known to be complete there; [ws]
    came before that point and [ns] after it. *)
Definition completed_between (w : W) (ws ns : list send_wr) (w' : W) : Prop :=
  exists t1 t2, trace w' = trace w ++ t1 ++ t2 /\ posted t1 = ws /\ posted t2 = ns /\
                completed (trace w ++ t1) = length (posted (trace w ++ t1)) /\
                (completed (trace w ++ t1) <= completed (trace w'))%nat.

Lemma sent_ext c w l c' w' : sent c w l c' w' ->
  exists ext, trace w' = trace w ++ ext /\ posted ext = l.
Proof.
  intros (HP & [ext HT] & _). exists ext. split; [done|].
  rewrite HT, posted_app in HP. by apply app_inv_head in HP.
Qed.

Lemma completed_between_intro c w ws c1 w1 ns c' w' :
  sent c w ws c1 w1 -> n_done w1 = n_posted w1 -> sent c1 w1 ns c' w' ->
  completed_between w ws ns w'.
Proof.
  intros HS1 Hdone HS2. destruct (sent_ext _ _ _ _ _ HS1) as (t1 & HT1 & HP1).
  destruct (sent_ext _ _ _ _ _ HS2) as (t2 & HT2 & HP2). exists t1, t2.
  rewrite HT2, HT1, <- app_assoc. split_and!; try done; rewrite <- HT1.
  - unfold n_done, n_posted in Hdone. lia.
  - rewrite app_assoc, <- HT1, <- HT2. apply HS2.
Qed.

(** What a remote write that succeeded has posted. *)
Definition remote_write (p : cptr) (total base kind token : Z) (c : conn) (w : W)
    (l : list send_wr) (w' : W) : Prop :=
  exists ws ns, l = ws ++ ns /\
    writes_of (frame_cap (cfg c)) (peer_rw_rkey c) base ws (ptr_read p total) /\
    frames_of (frame_cap (cfg c)) ns
      (notify_bytes {| n_magic := GO_RDMA_RW_NOTIFY_MAGIC; n_kind := kind;
                       n_length := total; n_slot := token |}) /\
    completed_between w ws ns w'.

Lemma write_and_notify_spec p total base kind token use_mr ms c w :
  ring_inv c w -> 0 < frame_cap (cfg c) -> 0 < total < 2 ^ 32 -> total <= blen (p_bytes p) ->
  wp (write_and_notify p total base kind token use_mr ms : C unit)
     (sends (fun l _ w' => remote_write p total base kind token c w l w') c w) c w.
Proof.
  intros HI Hcap Ht Hp. unfold write_and_notify.
  eapply wp_sends_bind; [apply write_chunks_spec; try done; lia|].
  intros ws c1 w1 HI1 HS1 Hws. rewrite Z.add_0_r, Z.sub_0_r, drop_0 in Hws.
  apply wp_get_sends.
  eapply wp_sends_bind; [apply wp_waits_sends, wait_send_completed_until_spec, HI1|].
  intros ? c2 w2 HI2 HS2 [-> Hdone].
  pose proof (sent_trans _ _ _ _ _ _ _ _ HS1 HS2) as HS12. rewrite app_nil_r in HS12.
  pose proof (sent_cfg _ _ _ _ _ HS12) as Hcfg.
  eapply wp_mono; [apply send_message_spec; rewrite ?Hcfg; try done; try lia;
                   cbn [p_bytes]; unfold blen; by rewrite length_notify_bytes|].
  intros o c3 w3 (HI3 & HD & ns & HS3 & HP). split_and!; try done. exists ns. split; [done|].
  intros Hret. specialize (HP Hret). rewrite Hcfg in HP. exists ws, ns.
  split_and!; try done.
  - by eapply completed_between_intro.
Qed.

Lemma sends_weaken (P Q : list send_wr -> conn -> W -> Prop) c w o c' w' :
  sends P c w o c' w' -> (forall l, P l c' w' -> Q l c' w') -> sends Q c w o c' w'.
Proof. intros (HI & HD & l & HS & HP) HPQ. split_and!; try done. exists l. auto. Qed.

Lemma wp_host_sends {A} (f : W -> A * W) (k : A -> C unit) (Q : list send_wr -> conn -> W -> Prop) c w :
  (forall w r w', f w = (r, w') -> frame w w') -> ring_inv c w ->
  (forall r w', frame w w' -> ring_inv c w' -> wp (k r) (sends Q c w') c w') ->
  wp (bind (host f) k) (sends Q c w) c w.
Proof.
  intros Hf HI Hk. apply wp_bind, wp_host. intros r w1 E1. cbn [seq_post].
  assert (F : frame w w1) by eauto.
  assert (HI1 : ring_inv c w1) by (eapply ring_inv_frame; try done; apply F).
  eapply wp_mono; [apply Hk; done|]. intros o c' w' (HI' & HD & l & HS & HP).
  split_and!; try done. exists l. split; [|done].
  apply (sent_trans c w [] c w1 l c' w'); [by apply sent_frame|done].
Qed.

(** The cleanup posts nothing and turns no error into success. *)
Lemma rw_cleanup_spec use_mr start final c w :
  ring_inv c w ->
  wp (rw_cleanup use_mr start final : C unit)
     (sends (fun l _ _ => l = [] /\ final = Ok tt) c w) c w.
Proof.
  intros HI. unfold rw_cleanup. destruct use_mr.
  2: { destruct final as [[]|e]; [apply wp_ret|apply wp_fail]; by apply sends_stop. }
  apply wp_bind, wp_get. cbn [seq_post]. apply wp_bind.
  assert (Hdereg : forall waited c1 w1, ring_inv c1 w1 -> sent c w [] c1 w1 ->
    wp (bind (catch (host_rc ibv_dereg_mr)) (fun dereg =>
          match (match (match final with Ok _ => waited | Err _ => final end) with
                 | Ok _ => dereg | Err _ => match final with Ok _ => waited | Err _ => final end
                 end) with Ok _ => ret tt | Err e => fail e end) : C unit)
       (sends (fun l _ _ => l = [] /\ final = Ok tt) c w) c1 w1).
  { intros waited c1 w1 HI1 HS1. apply wp_bind, wp_catch.
    assert (Hend : forall w2 r, frame w1 w2 ->
      wp ((match r with Ok _ => ret tt | Err e => fail e end) : C unit)
         (sends (fun l _ _ => l = [] /\ (r = Ok tt)) c w) c1 w2).
    { intros w2 r F. pose proof (sent_trans _ _ _ _ _ _ _ _ HS1 (sent_frame c1 w1 w2 F)) as HS2.
      assert (HI2 : ring_inv c1 w2) by (eapply ring_inv_frame; try done; apply F).
      destruct r as [[]|e]; [apply wp_ret|apply wp_fail]; split_and!; try done; by exists []. }
    apply wp_host_rc; [intros w2 E2|intros e w2 E2]; cbn [seq_post];
      (eapply wp_mono; [apply Hend; by eapply dereg_mr_law|]);
      intros o c' w' HS; (eapply sends_weaken; [exact HS|]); intros l [-> Hr];
      (split; [done|]); destruct final as [[]|]; done. }
  destruct (0 <? _).
  - apply wp_catch. eapply wp_mono; [by apply wait_send_completed_until_spec|].
    intros [[]|e| |] c1 w1 (HA & HI1 & HD & _); cbn [seq_post]; try done.
    + apply Hdereg; [done|by apply sent_advanced].
    + apply Hdereg; [done|by apply sent_advanced].
    + split_and!; try done. exists []. split; [by apply sent_advanced|done].
  - apply wp_ret. cbn [seq_post]. apply Hdereg; [done|]. by apply sent_frame.
Qed.

Lemma wp_with_cleanup (m : C unit) use_mr start (P : list send_wr -> conn -> W -> Prop) c w :
  wp m (sends P c w) c w ->
  (forall l c1 w1 c2 w2, P l c1 w1 -> sent c1 w1 [] c2 w2 -> P l c2 w2) ->
  wp (bind (catch m) (fun final => rw_cleanup use_mr start final)) (sends P c w) c w.
Proof.
  intros Hm HP. apply wp_bind, wp_catch. eapply wp_mono; [exact Hm|].
  assert (Hk : forall final c1 w1 wrs, ring_inv c1 w1 -> sent c w wrs c1 w1 ->
    (final = Ok tt -> P wrs c1 w1) ->
    wp (rw_cleanup use_mr start final) (sends P c w) c1 w1).
  { intros final c1 w1 wrs HI1 HS1 Hok. eapply wp_mono; [by apply rw_cleanup_spec|].
    intros o c2 w2 (HI2 & HD2 & l & HS2 & Hl). split_and!; try done. exists (wrs ++ l).
    split; [by eapply sent_trans|]. intros Hret. destruct (Hl Hret) as [-> Hfin].
    rewrite app_nil_r. eauto. }
  intros [[]|e| |] c1 w1 (HI1 & HD & wrs & HS & HPw); cbn [seq_post].
  - eapply Hk; eauto.
  - eapply Hk; eauto. done.
  - split_and!; try done. by exists wrs.
  - done.
Qed.

Lemma completed_between_sent w ws ns c1 w1 c2 w2 :
  completed_between w ws ns w1 -> sent c1 w1 [] c2 w2 -> completed_between w ws ns w2.
Proof.
  intros (t1 & t2 & HT & H1 & H2 & H3 & H4) HS.
  destruct (sent_ext _ _ _ _ _ HS) as (ext & HT2 & Hext).
  exists t1, (t2 ++ ext). split_and!; try done.
  - by rewrite HT2, HT, <- !app_assoc.
  - by rewrite posted_app, Hext, app_nil_r.
  - etrans; [exact H4|]. apply HS.
Qed.

Lemma remote_write_sent p total base kind token c w l c1 w1 c2 w2 :
  remote_write p total base kind token c w l w1 -> sent c1 w1 [] c2 w2 ->
  remote_write p total base kind token c w l w2.
Proof.
  intros (ws & ns & Hl & Hw & Hn & HC) HS. exists ws, ns. split_and!; try done.
  by eapply completed_between_sent.
Qed.

Lemma remote_write_frame p total base kind token c w w0 l w' :
  frame w w0 -> remote_write p total base kind token c w0 l w' ->
  remote_write p total base kind token c w l w'.
Proof. intros (HT & _) H0. unfold remote_write, completed_between in *. by rewrite <- HT. Qed.

(** A slot of the peer's window, or an offset in it. *)
Lemma send_message_rw_at_spec p total off ms c w :
  ring_inv c w -> 0 <= frame_cap (cfg c) -> 0 < total < 2 ^ 32 -> total <= blen (p_bytes p) ->
  wp (go_rdma_send_message_rw_at (Some p) total off ms : C unit)
     (sends (fun l _ w' => peer_unavailable c = false /\
               0 < u64 (peer_rw_cap c * peer_rw_slots c) < 2 ^ 32 /\
               u64 (off + total) <= u64 (peer_rw_cap c * peer_rw_slots c) /\
               remote_write p total (u64 (peer_rw_addr c + off)) GO_RDMA_RW_NOTIFY_KIND_WRITE_AT off
                            c w l w') c w) c w.
Proof.
  intros HI Hcap Ht Hp. unfold go_rdma_send_message_rw_at. apply wp_open_sends; [done|].
  replace (total =? 0) with false by (symmetry; apply Z.eqb_neq; lia).
  apply wp_get_sends. apply wp_guard_sends; [done|]. intros Hpeer.
  apply wp_guard_sends; [done|]. intros Htot. apply wp_guard_sends; [done|]. intros Hend.
  apply wp_guard_sends; [done|]. intros Hfc. apply orb_false_iff in Htot as [Ht0 Ht1].
  apply Z.eqb_neq in Hfc, Ht0. apply Z.ltb_ge in Hend, Ht1.
  apply wp_host_sends; [intros ???; apply reg_mr_law|done|]. intros use_mr w0 F HI0.
  pose proof (u64_range (peer_rw_cap c * peer_rw_slots c)).
  eapply wp_mono; [apply wp_with_cleanup;
    [apply write_and_notify_spec; try done; lia|intros *; apply remote_write_sent]|].
  intros o c' w' HS. eapply sends_weaken; [exact HS|]. intros l HR.
  split_and!; try done; try lia. by eapply remote_write_frame.
Qed.

Lemma send_message_rw_spec p total ms c w :
  ring_inv c w -> 0 <= frame_cap (cfg c) -> 0 < total < 2 ^ 32 -> total <= blen (p_bytes p) ->
  let slot := rw_send_seq c mod peer_rw_slots c in
  wp (go_rdma_send_message_rw (Some p) total ms : C unit)
     (sends (fun l _ w' => peer_unavailable c = false /\ total <= peer_rw_cap c /\
               remote_write p total (u64 (peer_rw_addr c + slot * peer_rw_cap c))
                 GO_RDMA_RW_NOTIFY_KIND_WRITE slot c w l w') c w) c w.
Proof.
  intros HI Hcap Ht Hp slot. unfold go_rdma_send_message_rw. apply wp_open_sends; [done|].
  replace (total =? 0) with false by (symmetry; apply Z.eqb_neq; lia).
  apply wp_get_sends. apply wp_guard_sends; [done|]. intros Hpeer.
  apply wp_guard_sends; [done|]. intros Hend.
  apply wp_guard_sends; [done|]. intros Hfc. apply Z.eqb_neq in Hfc. apply Z.ltb_ge in Hend.
  apply wp_host_sends; [intros ???; apply reg_mr_law|done|]. intros use_mr w0 F HI0.
  eapply wp_mono; [apply (wp_with_cleanup _ _ _ (fun l _ w' =>
      remote_write p total (u64 (peer_rw_addr c + slot * peer_rw_cap c))
        GO_RDMA_RW_NOTIFY_KIND_WRITE slot c w0 l w'));
    [|intros *; apply remote_write_sent]|].
  - eapply wp_sends_bind; [apply write_and_notify_spec; try done; lia|].
    intros wrs c1 w1 HI1 HS1 HR. apply wp_modify. split; [by eapply ring_inv_frame|].
    split; [done|]. exists []. rewrite app_nil_r. split; [|done].
    split_and!; try done; [by rewrite app_nil_r|exists []; by rewrite app_nil_r].
  - intros o c' w' HS. eapply sends_weaken; [exact HS|]. intros l HR.
    split_and!; try done. by eapply remote_write_frame.
Qed.
End send_facts.
