(* ===== verification/VerbsSim.v ===== *)
(** * A device that satisfies the laws

    A small executable device: requests complete as soon as they are polled for,
    received messages come from a list.  It instantiates the interface of VerbsConn.v,
    so the laws are consistent and the theorems about connections apply to real runs. *)

From S2P Require Import Prelude VerbsConfig VerbsConn VerbsRing.

Record sim := {
  s_trace : list nic_event;
  s_rq : list Z;
  s_incoming : list (list byte);
  s_slots : gmap Z (list byte);
  s_rw : list byte;
  s_mr : bool;
}.

(** The oldest signaled request at or after position [i]. *)
Fixpoint find_signaled (i : nat) (l : list send_wr) : option (nat * send_wr) :=
  match l with
  | [] => None
  | wr :: l' => if wr_signaled wr then Some (i, wr) else find_signaled (S i) l'
  end.

Definition sim_trace (s : sim) (e : nic_event) : sim :=
  {| s_trace := s_trace s ++ [e]; s_rq := s_rq s; s_incoming := s_incoming s;
     s_slots := s_slots s; s_rw := s_rw s; s_mr := s_mr s |}.

Definition sim_rq (s : sim) rq incoming slots : sim :=
  {| s_trace := s_trace s; s_rq := rq; s_incoming := incoming;
     s_slots := slots; s_rw := s_rw s; s_mr := s_mr s |}.

Definition sim_poll (q : cq) (s : sim) : poll_cq_result * sim :=
  match q with
  | SendCQ =>
    let done := completed (s_trace s) in
    match find_signaled done (drop done (posted (s_trace s))) with
    | None => (PollNone, s)
    | Some (n, wr) =>
      (PollWC {| wc_success := true; wc_is_recv := false; wc_id := wr_id wr; wc_byte_len := 0 |},
       sim_trace s (EvReap n))
    end
  | RecvCQ =>
    match s_rq s, s_incoming s with
    | id :: rq', b :: bs =>
      (PollWC {| wc_success := true; wc_is_recv := true; wc_id := id; wc_byte_len := blen b |},
       sim_rq s rq' bs (<[id - 1 := b]> (s_slots s)))
    | _, _ => (PollNone, s)
    end
  end.

#[export] Instance sim_host : Host sim := {|
  poll_budget := 8;
  ibv_post_send wr s := (None, sim_trace s (EvPost wr));
  ibv_poll_cq := sim_poll;
  ibv_req_notify_cq _ s := (None, s);
  ibv_get_cq_event _ s := (None, s);
  poll_fd _ _ s := (FdTimeout, s);
  now_monotonic_us s := (Ok 0, s);
  sleep_us _ s := (None, s);
  ibv_reg_mr _ _ s := (s_mr s, s);
  ibv_dereg_mr s := (None, s);
  rdma_post_recv id s := (None, sim_rq s (s_rq s ++ [id]) (s_incoming s) (s_slots s));
  alloc_notify_slots _ s := (None, s);
  alloc_notify_buf _ s := (None, s);
  reg_notify_buf _ s := (None, s);
  ctx_Err s := (None, s);
  ctx_until_deadline s := (None, s);
  slot_address i := 1048576 + 4096 * i;
  slot_memory s i := default [] (s_slots s !! i);
  rw_memory s := s_rw s;
|}.

#[export] Instance sim_ghost : HostGhost sim := {| trace := s_trace; rq := s_rq |}.

Lemma find_signaled_spec i l n wr :
  find_signaled i l = Some (n, wr) ->
  (i <= n)%nat /\ l !! (n - i)%nat = Some wr /\ wr_signaled wr = true /\
  (forall k x, (k < n - i)%nat -> l !! k = Some x -> wr_signaled x = false).
Proof.
  revert i. induction l as [|x l IH]; intros i; simpl; [done|].
  destruct (wr_signaled x) eqn:Ex.
  - intros [= <- <-]. rewrite Nat.sub_diag. split_and!; [lia|done|done|lia].
  - intros (H1 & H2 & H3 & H4)%IH. replace (n - i)%nat with (S (n - S i)) by lia.
    split_and!; [lia|done|done|]. intros [|k] y Hk; simpl; [by intros [= <-]|].
    apply H4. lia.
Qed.

Lemma sim_next_signaled tr n wr :
  find_signaled (completed tr) (drop (completed tr) (posted tr)) = Some (n, wr) ->
  next_signaled tr n /\ posted tr !! n = Some wr.
Proof.
  intros (H1 & H2 & H3 & H4)%find_signaled_spec. rewrite lookup_drop in H2.
  replace (completed tr + (n - completed tr))%nat with n in H2 by lia.
  split; [|done]. split; [done|]. split; [by eexists|].
  intros k x Hk Hx. apply (H4 (k - completed tr)%nat x); [lia|].
  rewrite lookup_drop. by replace (completed tr + (k - completed tr))%nat with k by lia.
Qed.

#[export] Instance sim_laws : HostLaws sim.
Proof.
  split; try (intros; simplify_eq/=; by apply frame_refl).
  - intros wr w r w' [= <- <-]. by split_and!.
  - intros w r w'. cbn [ibv_poll_cq sim_host sim_poll].
    destruct (find_signaled _ _) as [[n wr]|] eqn:E1; intros [= <- <-]; [|by split_and!].
    apply sim_next_signaled in E1 as [E1 E2]. split_and!; try done. exists n, wr. by split_and!.
  - intros w r w'. cbn [ibv_poll_cq sim_host sim_poll].
    destruct (s_rq w) as [|id q] eqn:Eq, (s_incoming w) as [|b bs] eqn:Ei; intros [= <- <-];
      try by (split_and!).
    split_and!; try done. intros i Hi _. cbn. rewrite lookup_insert_ne; [done|].
    intros <-. apply Hi. cbn [rq sim_ghost]. rewrite Eq. apply elem_of_cons. left. lia.
  - intros i w r w' [= <- <-]. by split_and!.
Qed.

(** A connection with a four-slot ring of small frames, and its world. *)
Definition sim_cfg : conn_cfg :=
  {| send_depth := 4; send_signal_interval := 16; recv_depth := 2; frame_cap := 32;
     inline_threshold := 0; send_cq_null := false; recv_cq_null := false; comp_channels := true;
     rw_recv_buf := 4096; rw_recv_mr := true; rw_recv_rkey := 7; rw_recv_cap := 128;
     rw_recv_slots := 1 |}.

Definition sim_conn : conn :=
  {| id_open := true; cfg := sim_cfg; send_buf := ∅; send_completed := 0; tx_prod := 0;
     notify_slots := false; notify_depth := 0; last_notify_slot := 0; has_last_notify_slot := false;
     peer_rw_addr := 8192; peer_rw_rkey := 9; peer_rw_cap := 128; peer_rw_slots := 1;
     rw_send_seq := 0; rw_ready := true |}.

Definition sim_world : sim :=
  {| s_trace := []; s_rq := []; s_incoming := []; s_slots := ∅; s_rw := []; s_mr := true |}.
