(* ===== verification/VerbsSafe.v ===== *)
(** * What the send path guarantees

    The theorems about VerbsSend.v: the ring's accounting over any sequence of
    calls, the staged data of requests in flight, the frames and writes a message
    becomes, and the peer memory a remote write leaves. *)

From S2P Require Import Prelude VerbsConfig VerbsConn VerbsRing VerbsSend VerbsSim.

(** ** Sequences of calls *)

Inductive send_call :=
| CallSend (p : cptr) (timeout_ms : Z)
| CallRW (p : cptr) (timeout_ms : Z)
| CallRWAt (p : cptr) (remote_offset timeout_ms : Z).

Definition call_ptr (x : send_call) : cptr :=
  match x with CallSend p _ | CallRW p _ | CallRWAt p _ _ => p end.

(** The Go wrappers pass the payload with its length as a uint32. *)
Definition run_call {W} `{!Host W} (x : send_call) : M W conn Z unit :=
  let total := u32 (blen (p_bytes (call_ptr x))) in
  match x with
  | CallSend p ms => go_rdma_send_message (Some p) total ms
  | CallRW p ms => go_rdma_send_message_rw (Some p) total ms
  | CallRWAt p off ms => go_rdma_send_message_rw_at (Some p) total off ms
  end.

(** One call after another, whatever each of them returns. *)
Fixpoint run_calls {W} `{!Host W} (l : list send_call) : M W conn Z unit :=
  match l with
  | [] => ret tt
  | x :: l' => let! _ := catch (run_call x) in run_calls l'
  end.

Section safe.
Context {W : Type} `{!Host W, !HostGhost W, !HostLaws W}.
Implicit Types (c : conn) (w : W).
#[local] Abbreviation C := (M W conn Z).

(** A connection as it is created, on a device that has posted nothing. *)
Definition fresh (c : conn) (w : W) : Prop :=
  0 < send_depth (cfg c) < 2 ^ 31 /\ 0 <= frame_cap (cfg c) /\
  tx_prod c = 0 /\ send_completed c = 0 /\ trace w = [].

Lemma fresh_ring c w : fresh c w -> ring_inv c w.
Proof.
  intros (Hd & _ & Hp & Hc & HT).
  split; unfold n_posted, n_done; rewrite ?HT; simpl; try done; try lia.
Qed.

Lemma run_call_spec x c w :
  ring_inv c w -> 0 <= frame_cap (cfg c) -> blen (p_bytes (call_ptr x)) < 2 ^ 32 ->
  wp (run_call x : C unit) (sends (fun _ _ _ => True) c w) c w.
Proof.
  intros HI Hcap Hlt. unfold run_call. pose proof (blen_nonneg (p_bytes (call_ptr x))).
  rewrite u32_id by lia.
  assert (Hw : forall P (m : C unit), wp m (sends P c w) c w ->
                                 wp m (sends (fun _ _ _ => True) c w) c w).
  { intros P m Hm. eapply wp_mono; [exact Hm|]. intros ???. intros HS. by eapply sends_weaken. }
  destruct (decide (blen (p_bytes (call_ptr x)) = 0)) as [H0|Hne].
  - destruct x; simpl in *; rewrite H0;
      apply wp_open_sends; try done; apply wp_ret; by apply sends_stop.
  - destruct x as [p ms|p ms|p off ms]; simpl in *; eapply Hw;
      [apply send_message_spec|apply send_message_rw_spec|apply send_message_rw_at_spec]; done || lia.
Qed.

Lemma run_calls_spec l c w :
  ring_inv c w -> 0 <= frame_cap (cfg c) -> Forall (fun x => blen (p_bytes (call_ptr x)) < 2 ^ 32) l ->
  wp (run_calls l : C unit) (fun o c' w' => ring_inv c' w' /\ o <> Diverged /\ cfg c' = cfg c) c w.
Proof.
  intros HI Hcap HF. revert c w HI Hcap. induction HF as [|x l Hx HF IH]; intros c w HI Hcap; simpl.
  { by apply wp_ret. }
  apply wp_bind, wp_catch. eapply wp_mono; [by apply run_call_spec|].
  intros o c1 w1 (HI1 & HD & wrs & HS & _). pose proof (sent_cfg _ _ _ _ _ HS) as Hcfg.
  destruct o as [[]|e| |]; cbn [seq_post]; try done.
  all: (eapply wp_mono; [apply IH; rewrite ?Hcfg; done|]); intros ? c' ? (? & ? & Hc');
    rewrite Hcfg in Hc'; done.
Qed.

(** C11: Over any sequence of send calls on a fresh connection, whatever each returns, no call loops forever, the two wrapping counters differ by exactly the requests in flight, there are never more of them than the queue's depth, every request carries its number modulo 2^32, and a full ring always holds a signaled request, so that the wait for a slot can be answered. *)
Theorem send_ring_accounting l c w :
  fresh c w -> Forall (fun x => blen (p_bytes (call_ptr x)) < 2 ^ 32) l ->
  wp (run_calls l : C unit)
     (fun o c' w' =>
        o <> Diverged /\
        u32 (tx_prod c' - send_completed c') = n_posted w' - n_done w' /\
        0 <= n_posted w' - n_done w' <= send_depth (cfg c) /\
        (forall i wr, posted (trace w') !! i = Some wr -> wr_id wr = u32 (Z.of_nat i)) /\
        (n_posted w' - n_done w' = send_depth (cfg c) ->
           exists i wr, (completed (trace w') <= i)%nat /\ posted (trace w') !! i = Some wr /\
                        wr_signaled wr = true)) c w.
Proof.
  intros HF Hl. eapply wp_mono; [apply run_calls_spec; [by apply fresh_ring|apply HF|done]|].
  intros o c' w' (HI & HD & Hcfg). rewrite <- Hcfg. split; [done|].
  rewrite (ring_outstanding c' w' HI). destruct HI. split_and!; auto; lia.
Qed.

(** C12: When the queue depth divides 2^32 (the default 64 does), no send call ever overwrites the staging slot of a request that is still in flight: every staged request posted and not known complete finds in its slot exactly the bytes it was posted with. *)
Theorem staged_data_is_stable l c w :
  fresh c w -> (send_depth (cfg c) | 2 ^ 32) ->
  Forall (fun x => blen (p_bytes (call_ptr x)) < 2 ^ 32) l ->
  wp (run_calls l : C unit)
     (fun _ c' w' => forall i wr k,
        (completed (trace w') <= i)%nat -> posted (trace w') !! i = Some wr ->
        wr_sge wr = SgeStaging k ->
        take (length (wr_data wr)) (default [] (send_buf c' !! k)) = wr_data wr) c w.
Proof.
  intros HF Hd Hl. eapply wp_mono; [apply run_calls_spec; [by apply fresh_ring|apply HF|done]|].
  intros o c' w' (HI & _ & Hcfg) i wr k Hi Hwr Hk. rewrite <- Hcfg in Hd.
  by apply (ri_staged c' w' HI Hd i wr k).
Qed.

(** The frames of a message, put together again. *)
Lemma frames_of_concat cap wrs data :
  0 <= cap -> frames_of cap wrs data ->
  concat (wr_data <$> wrs) = data /\
  Forall (fun wr => wr_opcode wr = IBV_WR_SEND /\ 0 < blen (wr_data wr) <= cap) wrs /\
  (exists wr, last wrs = Some wr /\ wr_signaled wr = true) /\
  Forall (fun wr => sge_owned (wr_sge wr) = true) wrs.
Proof.
  intros Hcap. revert data. induction wrs as [|wr wrs IH]; intros data; [done|].
  destruct wrs as [|wr' wrs]; cbn [frames_of].
  - intros (Hop & Hown & <- & Hlen & Hsig). simpl. rewrite app_nil_r. split_and!; try done.
    + by apply list.Forall_singleton.
    + by eexists.
    + by apply list.Forall_singleton.
  - intros (Hop & Hown & Hd & Hlen & Hrest). destruct (IH _ Hrest) as (Hc & HF & Hlast & Hall).
    split_and!.
    + rewrite fmap_cons. cbn [concat]. rewrite Hc, Hd. apply take_drop.
    + constructor; [|done]. split; [done|]. rewrite Hd, blen_take by lia.
      destruct (decide (cap = 0)) as [->|]; [|lia].
      exfalso. clear -Hrest HF Hc. inversion HF as [|?? [_ Hx] _]. lia.
    + destruct Hlast as (x & Hx & Hs). exists x. by rewrite last_cons_cons.
    + by constructor.
Qed.

(** A message sent with SEND frames reaches the queue whole and in order: the requests posted by a successful call are SEND frames of at most a frame's capacity each whose data, put end to end, is the message, the last of them signaled, and nothing else is posted; the call changes only the send side of the connection. *)
Theorem send_message_frames p total ms c w :
  ring_inv c w -> 0 <= frame_cap (cfg c) -> 0 < total < 2 ^ 32 -> total <= blen (p_bytes p) ->
  wp (go_rdma_send_message (Some p) total ms : C unit)
     (fun o c' w' => o = Ret tt ->
        exists wrs, sent c w wrs c' w' /\
          concat (wr_data <$> wrs) = take (Z.to_nat total) (p_bytes p) /\
          Forall (fun wr => wr_opcode wr = IBV_WR_SEND /\ 0 < blen (wr_data wr) <= frame_cap (cfg c)) wrs /\
          (exists wr, last wrs = Some wr /\ wr_signaled wr = true)) c w.
Proof.
  intros HI Hcap Ht Hp. eapply wp_mono; [by apply send_message_spec|].
  intros o c' w' (_ & _ & wrs & HS & HP) Ho. exists wrs. split; [done|].
  destruct (frames_of_concat (frame_cap (cfg c)) wrs (ptr_read p total)) as (?&?&?&_); auto.
Qed.
End safe.

(** ** The peer's memory *)

(** The effect of one RDMA WRITE on the window that starts at address [base]. *)
Definition write_remote (base : Z) (m : list byte) (wr : send_wr) : list byte :=
  splice (Z.to_nat (wr_remote_addr wr - base)) (wr_data wr) m.

(** The writes of one message leave its bytes at the address they start from. *)
Lemma apply_writes cap rkey base ws : forall off data m,
  0 < cap -> 0 <= base -> base + blen m <= 2 ^ 64 -> 0 <= off -> off + blen data <= blen m ->
  writes_of cap rkey (base + off) ws data ->
  foldl (write_remote base) m ws = splice (Z.to_nat off) data m.
Proof.
  induction ws as [|wr ws IH]; intros off data m Hc Hb Hm Ho Hd; cbn [writes_of foldl].
  { intros ->. by rewrite splice_nil. }
  intros (_ & _ & _ & Haddr & Hne & Hdata & Hrest).
  assert (Hpos : 0 < blen data) by (pose proof (blen_nonneg data); rewrite <- blen_zero in Hne; lia).
  rewrite u64_id in Haddr by lia. unfold write_remote at 2. rewrite Haddr.
  replace (base + off - base) with off by lia.
  assert (Hsplit : data = take (Z.to_nat cap) data ++ drop (Z.to_nat cap) data)
    by (by rewrite take_drop).
  assert (Hlen : (length (take (Z.to_nat cap) data) <= length data)%nat) by (rewrite length_take; lia).
  unfold blen in *.
  destruct (decide (Z.of_nat (length data) <= cap)) as [Hshort|Hlong].
  - rewrite firstn_all2 in Hdata by lia. rewrite skipn_all2 in Hrest by lia.
    destruct ws; [|by destruct Hrest as (_ & _ & _ & _ & [] & _)]. by rewrite Hdata.
  - rewrite (IH (off + cap) (drop (Z.to_nat cap) data)); try lia.
    + assert (Hl1 : length (wr_data wr) = Z.to_nat cap) by (rewrite Hdata, length_take; lia).
      replace (Z.to_nat (off + cap)) with (Z.to_nat off + length (wr_data wr))%nat by lia.
      rewrite splice_splice; [by rewrite Hdata, take_drop|].
      rewrite length_drop. lia.
    + rewrite length_splice; [lia|]. rewrite Hdata, length_take. lia.
    + rewrite length_splice; [rewrite length_drop; lia|]. rewrite Hdata, length_take. lia.
    + by rewrite Z.add_assoc.
Qed.

(** Every write lies between the start and the end of its message's range. *)
Lemma writes_in_range cap rkey addr ws data :
  0 < cap -> 0 <= addr -> addr + blen data <= 2 ^ 64 -> writes_of cap rkey addr ws data ->
  Forall (fun wr => wr_opcode wr = IBV_WR_RDMA_WRITE /\ wr_rkey wr = rkey /\
                    addr <= wr_remote_addr wr /\
                    wr_remote_addr wr + blen (wr_data wr) <= addr + blen data /\
                    0 < blen (wr_data wr) <= cap) ws.
Proof.
  intros Hc. revert addr data. induction ws as [|wr ws IH]; intros addr data Ha He; [done|].
  cbn [writes_of]. intros (Hop & _ & Hk & Haddr & Hne & Hd & Hrest).
  assert (Hpos : 0 < blen data) by (pose proof (blen_nonneg data); rewrite <- blen_zero in Hne; lia).
  rewrite u64_id in Haddr by lia.
  assert (Hlen : blen (wr_data wr) = Z.min cap (blen data)).
  { rewrite Hd. unfold blen. rewrite length_take. lia. }
  constructor; [split_and!; done || lia|].
  destruct (decide (blen data <= cap)) as [Hs|Hl].
  - unfold blen in Hs. rewrite skipn_all2 in Hrest by lia.
    destruct ws; [done|by destruct Hrest as (_ & _ & _ & _ & [] & _)].
  - assert (Hrl : blen (drop (Z.to_nat cap) data) = blen data - cap) by (apply blen_drop; lia).
    eapply Forall_impl; [apply (IH (addr + cap) (drop (Z.to_nat cap) data)); try done; lia|].
    intros x (? & ? & ? & ? & ?). split_and!; done || lia.
Qed.

Section remote.
Context {W : Type} `{!Host W, !HostGhost W, !HostLaws W}.
Implicit Types (c : conn) (w : W).
#[local] Abbreviation C := (M W conn Z).

(** The window the peer announced lies in its address space. *)
Definition peer_window_ok (c : conn) : Prop :=
  0 <= peer_rw_addr c /\ 0 <= peer_rw_cap c < 2 ^ 32 /\ 0 <= peer_rw_slots c < 2 ^ 32 /\
  peer_rw_addr c + peer_rw_cap c * peer_rw_slots c <= 2 ^ 64.

(** The effect of a write of [total] bytes of [p] at [off], from [w] to [w']. *)
Definition wrote_at (p : cptr) (total off : Z) (c : conn) (w w' : W) : Prop :=
  exists ws ns,
  posted (trace w') = posted (trace w) ++ ws ++ ns /\
  completed_between w ws ns w' /\
  off + total <= peer_rw_cap c * peer_rw_slots c /\
  Forall (fun wr => wr_opcode wr = IBV_WR_RDMA_WRITE /\ wr_rkey wr = peer_rw_rkey c /\
            peer_rw_addr c + off <= wr_remote_addr wr /\
            wr_remote_addr wr + blen (wr_data wr) <= peer_rw_addr c + off + total) ws /\
  (forall m, blen m = peer_rw_cap c * peer_rw_slots c ->
     foldl (write_remote (peer_rw_addr c)) m ws =
     splice (Z.to_nat off) (take (Z.to_nat total) (p_bytes p)) m) /\
  concat (wr_data <$> ns) =
    notify_bytes {| n_magic := GO_RDMA_RW_NOTIFY_MAGIC;
                    n_kind := GO_RDMA_RW_NOTIFY_KIND_WRITE_AT;
                    n_length := total; n_slot := off |} /\
  (20 <= frame_cap (cfg c) -> length ns = 1%nat) /\
  (forall i wr, (completed (trace w') <= i)%nat -> posted (trace w') !! i = Some wr ->
     (length (posted (trace w)) <= i)%nat -> sge_owned (wr_sge wr) = true) /\
  Forall (fun wr => wr_opcode wr = IBV_WR_SEND) ns.

Lemma send_message_rw_at_effect p total off ms c w :
  ring_inv c w -> 0 <= frame_cap (cfg c) -> 0 < total < 2 ^ 32 -> total <= blen (p_bytes p) ->
  0 <= off < 2 ^ 32 -> peer_window_ok c ->
  wp (go_rdma_send_message_rw_at (Some p) total off ms : C unit)
     (fun o _ w' => o = Ret tt -> wrote_at p total off c w w') c w.
Proof.
  intros HI Hcap Ht Hp Ho (Ha & Hpc & Hps & Hwin).
  eapply wp_mono; [by apply send_message_rw_at_spec|].
  intros o c' w' (_ & _ & l & HS & HP) Hret.
  destruct (HP Hret) as (_ & Htot & Hend & ws & ns & -> & Hws & Hns & HC). clear HP.
  assert (Hcap' : frame_cap (cfg c) <> 0).
  { intros Hz. rewrite Hz in Hns. destruct ns as [|n ns]; [done|].
    apply frames_of_concat in Hns as (_ & HF & _); [|done]. inversion HF as [|?? [_ Hx] _]. lia. }
  rewrite (u64_id (off + total)) in Hend by lia.
  assert (Hpt : 0 <= peer_rw_cap c * peer_rw_slots c < 2 ^ 64) by nia.
  rewrite (u64_id (peer_rw_cap c * peer_rw_slots c)) in Hend, Htot by lia.
  rewrite (u64_id (peer_rw_addr c + off)) in Hws by lia.
  assert (Hlen : blen (ptr_read p total) = total) by (apply length_ptr_read; lia).
  destruct (frames_of_concat (frame_cap (cfg c)) ns _ Hcap Hns) as (Hcat & Hsz & _ & Hown).
  exists ws, ns. split; [by destruct HS as [-> _]|]. split; [done|]. split; [lia|]. split_and!.
  - pose proof (writes_in_range (frame_cap (cfg c)) (peer_rw_rkey c) (peer_rw_addr c + off) ws
                  (ptr_read p total)) as HR.
    rewrite Hlen in HR. eapply Forall_impl; [apply HR; [lia..|done]|].
    intros x (? & ? & ? & ? & ?). by split_and!.
  - intros m Hm. change (take (Z.to_nat total) (p_bytes p)) with (ptr_read p total).
    apply (apply_writes (frame_cap (cfg c)) (peer_rw_rkey c)); rewrite ?Hlen; try lia.
    exact Hws.
  - exact Hcat.
  - intros H20. destruct ns as [|n [|n' ns]]; [done|done|].
    destruct Hns as (_ & _ & _ & Hlt & _). unfold blen in Hlt.
    rewrite length_notify_bytes in Hlt. lia.
  - intros i wr Hi Hwr Hold. rewrite (proj1 HS) in Hwr.
    destruct HC as (t1 & t2 & HT & Ht1 & Ht2 & Hdone & Hmono).
    assert (Hi2 : (length (posted (trace w)) + length ws <= i)%nat).
    { rewrite posted_app, Ht1, length_app in Hdone. lia. }
    rewrite app_assoc, lookup_app_r in Hwr by (rewrite length_app; lia).
    rewrite Forall_forall in Hown. apply Hown. by apply list_elem_of_lookup_2 in Hwr.
  - eapply Forall_impl; [exact Hsz|]. by intros x [? _].
Qed.

(** A successful write at an offset puts the payload, and nothing else, at that offset of the peer's window: the requests posted are RDMA WRITEs inside the addressed range under the peer's key, whose effect on the window is the payload spliced in at the offset, followed by the frames of one notification that carries the length and the offset; the notification is posted only after every write has completed, and no request still in flight from this call points at the caller's memory. *)
Theorem remote_write_at_offset p total off ms c w :
  ring_inv c w -> 0 <= frame_cap (cfg c) -> 0 < total < 2 ^ 32 -> total <= blen (p_bytes p) ->
  0 <= off < 2 ^ 32 -> peer_window_ok c ->
  wp (go_rdma_send_message_rw_at (Some p) total off ms : C unit)
     (fun o _ w' => o = Ret tt -> wrote_at p total off c w w') c w.
Proof. apply send_message_rw_at_effect. Qed.
End remote.

(** ** Runs on the simulated device *)

Definition sample_ptr (n : nat) : cptr :=
  {| p_addr := 65536; p_bytes := (fun i => byte_of_Z (Z.of_nat i)) <$> seq 0 n |}.

Lemma sim_fresh : fresh sim_conn sim_world.
Proof. unfold fresh. by vm_compute. Qed.

Lemma send_ring_accounting_witness :
  wp (run_calls [CallSend (sample_ptr 300) (-1); CallRWAt (sample_ptr 100) 20 (-1);
                 CallRW (sample_ptr 500) (-1)] : M sim conn Z unit)
     (fun o c' w' => o <> Diverged /\ n_posted w' - n_done w' <= 4) sim_conn sim_world.
Proof.
  eapply wp_mono; [apply (send_ring_accounting _ _ _ sim_fresh)|].
  - repeat (constructor; [by vm_compute|]). constructor.
  - intros o c' w' (HD & _ & [_ Hle] & _). by split.
Defined.

Lemma staged_data_is_stable_witness :
  wp (run_calls [CallSend (sample_ptr 300) (-1); CallSend (sample_ptr 90) (-1)] : M sim conn Z unit)
     (fun _ c' w' => forall i wr k, (completed (trace w') <= i)%nat ->
        posted (trace w') !! i = Some wr -> wr_sge wr = SgeStaging k ->
        take (length (wr_data wr)) (default [] (send_buf c' !! k)) = wr_data wr) sim_conn sim_world.
Proof.
  apply (staged_data_is_stable _ _ _ sim_fresh).
  - by exists (2 ^ 30).
  - repeat (constructor; [by vm_compute|]). constructor.
Defined.

Lemma send_message_frames_witness :
  (go_rdma_send_message (Some (sample_ptr 300)) 300 (-1) sim_conn sim_world).1.1 = Ret tt /\
  wp (go_rdma_send_message (Some (sample_ptr 300)) 300 (-1) : M sim conn Z unit)
     (fun o c' w' => o = Ret tt -> exists wrs, sent sim_conn sim_world wrs c' w' /\
        concat (wr_data <$> wrs) = take 300 (p_bytes (sample_ptr 300))) sim_conn sim_world.
Proof.
  split; [by vm_compute|].
  eapply wp_mono; [apply (send_message_frames (sample_ptr 300) 300 (-1) sim_conn sim_world)|].
  - apply fresh_ring, sim_fresh.
  - done.
  - done.
  - by vm_compute.
  - intros o c' w' Hall Ho. destruct (Hall Ho) as (wrs & HS & Hc & _). by exists wrs.
Defined.

Lemma remote_write_at_offset_witness :
  (go_rdma_send_message_rw_at (Some (sample_ptr 100)) 100 20 (-1) sim_conn sim_world).1.1 = Ret tt /\
  wp (go_rdma_send_message_rw_at (Some (sample_ptr 100)) 100 20 (-1) : M sim conn Z unit)
     (fun o _ w' => o = Ret tt -> exists ws ns, posted (trace w') = ws ++ ns /\
        foldl (write_remote 8192) (replicate 128 x00) ws =
        splice 20 (p_bytes (sample_ptr 100)) (replicate 128 x00)) sim_conn sim_world.
Proof.
  split; [by vm_compute|].
  eapply wp_mono; [apply (remote_write_at_offset (sample_ptr 100) 100 20 (-1) sim_conn sim_world)|].
  - apply fresh_ring, sim_fresh.
  - done.
  - done.
  - by vm_compute.
  - done.
  - done.
  - intros o c' w' Hall Ho. destruct (Hall Ho) as (ws & ns & HP & _ & _ & _ & Hm & _).
    exists ws, ns. split; [exact HP|]. exact (Hm (replicate 128 x00) eq_refl).
Defined.

(** A connection whose depth, 3, does not divide 2^32, about to post its
    2^32-th request. *)
Definition wrap_conn : conn :=
  {| id_open := true;
     cfg := {| send_depth := 3; send_signal_interval := 16; recv_depth := 2; frame_cap := 32;
               inline_threshold := 0; send_cq_null := false; recv_cq_null := false;
               comp_channels := true; rw_recv_buf := 4096; rw_recv_mr := true; rw_recv_rkey := 7;
               rw_recv_cap := 128; rw_recv_slots := 1 |};
     send_buf := ∅; send_completed := 2 ^ 32 - 1; tx_prod := 2 ^ 32 - 1;
     notify_slots := false; notify_depth := 0; last_notify_slot := 0; has_last_notify_slot := false;
     peer_rw_addr := 8192; peer_rw_rkey := 9; peer_rw_cap := 128; peer_rw_slots := 1;
     rw_send_seq := 0; rw_ready := true |}.

(** With a queue depth that does not divide 2^32, which normalize accepts, the staging slot repeats when the request counter wraps: two messages sent one after the other are both in flight and both staged in slot 0, so the first one's buffer holds the second's bytes before the device has read it. *)
Theorem wrap_slot_collision :
  let a := {| p_addr := 0; p_bytes := [x61] |} in
  let b := {| p_addr := 0; p_bytes := [x62] |} in
  let '(o, c', w') := (run_calls [CallSend a (-1); CallSend b (-1)] : M sim conn Z unit)
                        wrap_conn sim_world in
  o = Ret tt /\ completed (trace w') = 0%nat /\
  (fun wr => (wr_data wr, wr_sge wr)) <$> posted (trace w') =
    [([x61], SgeStaging 0); ([x62], SgeStaging 0)] /\
  send_buf c' !! 0 = Some [x62].
Proof. vm_compute. split_and!; reflexivity. Qed.
