(* ===== verification/VerbsRecv.v ===== *)
(** * Receiving: posted slots, frames, and the handshake (pkg/rdma/verbs_linux_cgo.go)

    Frames arrive in the receive slots, which the code posts to the device under
    [index + 1] and reposts one at a time; the slot handed to the caller last is
    remembered until it is reposted.  A remote write arrives in the connection's
    window; its notification is a frame.  The handshake exchanges the windows. *)

From S2P Require Import Prelude VerbsConfig VerbsConn VerbsRing VerbsSend.

Section recv.
Context {W : Type} `{!Host W}.
#[local] Abbreviation C := (M W conn Z).

Definition go_rdma_post_notify_recv_slot (idx : Z) : C unit :=
  check_open;;
  let! c := get in
  guard (negb (notify_slots c) || (notify_depth c <=? idx)) EINVAL;;
  host_rc (rdma_post_recv (idx + 1)).

Fixpoint init_slots (fuel : nat) (i : Z) : C unit :=
  match fuel with
  | O => ret tt
  | S fuel' =>
    host_rc_or ENOMEM (alloc_notify_buf i);;
    host_rc (reg_notify_buf i);;
    go_rdma_post_notify_recv_slot i;;
    init_slots fuel' (i + 1)
  end.

Definition go_rdma_init_notify_slots (depth : Z) : C unit :=
  check_open;;
  guard (depth =? 0) EINVAL;;
  let! c := get in
  if notify_slots c then
    guard (negb (notify_depth c =? depth)) EINVAL
  else
    host_rc_or ENOMEM (alloc_notify_slots depth);;
    modify (fun c => set_recv c true depth (last_notify_slot c) (has_last_notify_slot c));;
    guard (frame_cap (cfg c) =? 0) EINVAL;;
    init_slots (Z.to_nat depth) 0.

Definition go_rdma_release_last_recv_slot : C unit :=
  check_open;;
  let! c := get in
  if has_last_notify_slot c then
    go_rdma_post_notify_recv_slot (last_notify_slot c);;
    modify (fun c => set_last c (last_notify_slot c) false)
  else ret tt.

(** The slot a frame is in and its length. *)
Record recv_frame := { fr_slot : Z; fr_len : Z }.

Definition go_rdma_recv_frame (timeout_ms : Z) : C recv_frame :=
  check_open;;
  let! c := get in
  guard (negb (notify_slots c)) EINVAL;;
  go_rdma_release_last_recv_slot;;
  let! wc := go_rdma_wait_recv_completion timeout_ms in
  guard (negb (wc_is_recv wc)) EPROTO;;
  guard ((wc_id wc =? 0) || (notify_depth c <? wc_id wc)) EIO;;
  let notify_idx := u32 (wc_id wc - 1) in
  guard (frame_cap (cfg c) <? wc_byte_len wc) EPROTO;;
  modify (fun c => set_last c notify_idx true);;
  ret {| fr_slot := notify_idx; fr_len := wc_byte_len wc |}.

Definition go_rdma_repost_recv : C unit :=
  check_open;;
  let! c := get in
  guard (negb (has_last_notify_slot c)) EINVAL;;
  go_rdma_release_last_recv_slot.

(** The bytes of a frame, read from its slot. *)
Definition frame_bytes (fr : recv_frame) (w : W) : list byte :=
  take (Z.to_nat (fr_len fr)) (slot_memory w (fr_slot fr)).

(** *** The handshake *)

Definition local_desc (c : conn) : go_rdma_rw_desc :=
  {| d_magic := GO_RDMA_RW_DESC_MAGIC; d_addr := rw_recv_buf (cfg c); d_rkey := rw_recv_rkey (cfg c);
     d_cap := rw_recv_cap (cfg c); d_slots := rw_recv_slots (cfg c) |}.

Definition go_rdma_exchange_rw_desc (timeout_ms : Z) : C unit :=
  check_open;;
  let! c := get in
  if rw_ready c then ret tt
  else
    guard ((rw_recv_buf (cfg c) =? 0) || negb (rw_recv_mr (cfg c)) || (rw_recv_cap (cfg c) =? 0)) EINVAL;;
    go_rdma_send_message (Some {| p_addr := 0; p_bytes := desc_bytes (local_desc c) |})
                         sizeof_desc timeout_ms;;
    let! fr := go_rdma_recv_frame timeout_ms in
    guard (negb (fr_len fr =? sizeof_desc)) EPROTO;;
    let! payload := peek (frame_bytes fr) in
    let peer := bytes_desc payload in
    go_rdma_release_last_recv_slot;;
    guard (negb (d_magic peer =? GO_RDMA_RW_DESC_MAGIC) || (d_addr peer =? 0) || (d_rkey peer =? 0) ||
           (d_cap peer =? 0) || (d_slots peer =? 0)) EPROTO;;
    modify (fun c => set_peer c (d_addr peer) (d_rkey peer) (d_cap peer) (d_slots peer)
                       (rw_send_seq c) true).

Definition go_rdma_ensure_ready (timeout_ms : Z) : C unit :=
  check_open;;
  let! c := get in
  (if notify_slots c then ret tt else go_rdma_init_notify_slots (recv_depth (cfg c)));;
  let! c := get in
  if rw_ready c then ret tt else go_rdma_exchange_rw_desc timeout_ms.

(** *** The window *)

Definition window_unavailable (c : conn) : bool :=
  negb (rw_ready c) || (rw_recv_buf (cfg c) =? 0) || negb (rw_recv_mr (cfg c)) ||
  (rw_recv_cap (cfg c) =? 0).

(** The address of the payload in the window. *)
Definition go_rdma_get_rw_recv_payload (slot payload_len : Z) : C Z :=
  check_open;;
  let! c := get in
  guard (window_unavailable c) ENOTSUP;;
  guard ((rw_recv_slots (cfg c) =? 0) || (rw_recv_slots (cfg c) <=? slot)) EINVAL;;
  guard (rw_recv_cap (cfg c) <? payload_len) EMSGSIZE;;
  ret (rw_recv_buf (cfg c) + slot * rw_recv_cap (cfg c)).

Definition go_rdma_get_rw_recv_payload_at (remote_offset payload_len : Z) : C Z :=
  check_open;;
  let! c := get in
  guard (window_unavailable c || (rw_recv_slots (cfg c) =? 0)) ENOTSUP;;
  let rw_total := u64 (rw_recv_cap (cfg c) * rw_recv_slots (cfg c)) in
  guard (rw_total <? u64 (remote_offset + payload_len)) EMSGSIZE;;
  ret (rw_recv_buf (cfg c) + remote_offset).
End recv.

(** ** The receive slots *)

Section recv_facts.
Context {W : Type} `{!Host W, !HostGhost W, !HostLaws W}.
Implicit Types (c : conn) (w : W).
#[local] Abbreviation C := (M W conn Z).

(** The id of the slot lent to the caller. *)
Definition held (c : conn) : list Z :=
  if has_last_notify_slot c then [last_notify_slot c + 1] else [].

(** Every slot is posted at most once, and never while it is lent. *)
Record recv_inv (c : conn) (w : W) : Prop := {
  rv_slots : notify_slots c = true;
  rv_depth : 0 < notify_depth c < 2 ^ 32;
  rv_nodup : NoDup (held c ++ rq w);
  rv_range : Forall (fun id => 1 <= id <= notify_depth c) (held c ++ rq w);
}.

(** What a receive operation may change: the lent slot and the posted slots. *)
Definition recvs {A} (P : A -> conn -> W -> Prop) (c : conn) (w : W)
    (o : outcome Z A) (c' : conn) (w' : W) : Prop :=
  recv_inv c' w' /\ o <> Diverged /\ trace w' = trace w /\
  c' = set_last c (last_notify_slot c') (has_last_notify_slot c') /\
  (forall a, o = Ret a -> P a c' w').

Lemma set_last_id c : c = set_last c (last_notify_slot c) (has_last_notify_slot c).
Proof. by destruct c. Qed.

Lemma recvs_stop {A} (P : A -> conn -> W -> Prop) c w o :
  recv_inv c w -> o <> Diverged -> (forall a, o = Ret a -> P a c w) -> recvs P c w o c w.
Proof. intros. split_and!; try done. apply set_last_id. Qed.

Lemma recv_inv_frame c w w' : recv_inv c w -> frame w w' -> recv_inv c w'.
Proof. intros [] (_ & HR & _). by split; rewrite ?HR. Qed.

Lemma recvs_trans {A B} (P : A -> conn -> W -> Prop) (Q : B -> conn -> W -> Prop) c w o1 c1 w1 o c' w' :
  recvs P c w o1 c1 w1 -> recvs Q c1 w1 o c' w' -> recvs Q c w o c' w'.
Proof.
  intros (_ & _ & T1 & C1 & _) (HI & HD & T2 & C2 & HQ). split_and!; try done.
  - congruence.
  - by rewrite C2, C1.
Qed.

Lemma wp_recvs_bind {A B} (m : C A) (k : A -> C B) (P : A -> conn -> W -> Prop)
    (Q : B -> conn -> W -> Prop) c w :
  wp m (recvs P c w) c w ->
  (forall a c1 w1, recvs P c w (Ret a) c1 w1 -> P a c1 w1 -> wp (k a) (recvs Q c1 w1) c1 w1) ->
  wp (bind m k) (recvs Q c w) c w.
Proof.
  intros Hm Hk. apply wp_bind. eapply wp_mono; [exact Hm|].
  intros [a|e| |] c1 w1 HR; cbn [seq_post].
  - eapply wp_mono; [apply Hk; [exact HR|by apply HR]|]. intros ???. by eapply recvs_trans.
  - destruct HR as (? & ? & ? & ? & _). split_and!; done.
  - destruct HR as (? & ? & ? & ? & _). split_and!; done.
  - by destruct HR as (_ & [] & _).
Qed.

Lemma wp_recvs_quiet {A B} (m : C A) (k : A -> C B) (Q : B -> conn -> W -> Prop) c w :
  recv_inv c w -> quiet m ->
  (forall a w', frame w w' -> recv_inv c w' -> wp (k a) (recvs Q c w') c w') ->
  wp (bind m k) (recvs Q c w) c w.
Proof.
  intros HI Hm Hk. apply (wp_recvs_bind _ _ (fun _ c' w' => c' = c /\ frame w w')).
  - apply wp_quiet; [done|]. intros o w' F HD. split_and!; try done.
    + by eapply recv_inv_frame.
    + apply F.
    + apply set_last_id.
  - intros a c1 w1 HR [-> F]. apply Hk; [done|apply HR].
Qed.

Lemma wp_recvs_get {B} (k : conn -> C B) (Q : B -> conn -> W -> Prop) c w :
  wp (k c) (recvs Q c w) c w -> wp (bind get k) (recvs Q c w) c w.
Proof. intros. by apply wp_bind, wp_get. Qed.

Lemma wp_recvs_guard {B} b e (k : C B) (Q : B -> conn -> W -> Prop) c w :
  recv_inv c w -> (b = false -> wp k (recvs Q c w) c w) ->
  wp (bind (guard b e) (fun _ => k)) (recvs Q c w) c w.
Proof.
  intros HI Hk. apply wp_bind, wp_guard; intros Hb; cbn [seq_post]; [|auto]. by apply recvs_stop.
Qed.

Lemma wp_recvs_open {B} (k : C B) (Q : B -> conn -> W -> Prop) c w :
  recv_inv c w -> wp k (recvs Q c w) c w -> wp (bind check_open (fun _ => k)) (recvs Q c w) c w.
Proof.
  intros HI Hk. unfold check_open. apply wp_bind, wp_bind, wp_get. cbn [seq_post].
  apply wp_guard; intros; cbn [seq_post]; [by apply recvs_stop|done].
Qed.

Lemma held_none c last : held (set_last c last false) = [].
Proof. done. Qed.

(** Releasing gives the lent slot back to the device, behind the posted ones. *)
Lemma release_last_spec c w :
  recv_inv c w ->
  wp (go_rdma_release_last_recv_slot : C unit)
     (recvs (fun _ c' w' => has_last_notify_slot c' = false /\ rq w' = rq w ++ held c) c w) c w.
Proof.
  intros HI. unfold go_rdma_release_last_recv_slot. apply wp_recvs_open; [done|].
  apply wp_recvs_get. unfold held. destruct (has_last_notify_slot c) eqn:Ehas.
  2: { apply wp_ret, recvs_stop; try done. intros. by rewrite app_nil_r. }
  pose proof HI as [Hs Hd Hnd Hr]. unfold held in Hnd, Hr. rewrite Ehas in Hnd, Hr.
  apply wp_bind. unfold go_rdma_post_notify_recv_slot.
  unfold check_open. apply wp_bind, wp_bind, wp_get. cbn [seq_post].
  apply wp_guard; intros Hopen; cbn [seq_post]; [by apply recvs_stop|].
  apply wp_bind, wp_get; cbn [seq_post]. apply wp_bind, wp_guard; intros Hg; cbn [seq_post];
    [by apply recvs_stop|].
  apply wp_host_rc; cbn [seq_post].
  - intros w' (T1 & _ & R1)%post_recv_law. apply wp_modify. split_and!; try done.
    split; try done; cbn [held set_last set_recv has_last_notify_slot app]; rewrite R1.
    + by rewrite Permutation_app_comm.
    + by rewrite Permutation_app_comm.
  - intros e w' (T1 & _ & R1)%post_recv_law. split_and!; try done; [|apply set_last_id].
    split; rewrite ?R1; try done; unfold held; by rewrite Ehas.
Qed.

Lemma recv_frame_spec ms c w :
  recv_inv c w ->
  wp (go_rdma_recv_frame ms : C recv_frame)
     (recvs (fun fr c' w' =>
               has_last_notify_slot c' = true /\ last_notify_slot c' = fr_slot fr /\
               0 <= fr_slot fr < notify_depth c /\ fr_len fr <= frame_cap (cfg c) /\
               rq w ++ held c = fr_slot fr + 1 :: rq w') c w) c w.
Proof.
  intros HI. unfold go_rdma_recv_frame. apply wp_recvs_open; [done|]. apply wp_recvs_get.
  apply wp_recvs_guard; [done|]. intros _.
  eapply wp_recvs_bind; [by apply release_last_spec|].
  intros [] c1 w1 HR1 [Hhas Hrq]. pose proof HR1 as (HI1 & _ & _ & Hc1 & _).
  assert (Hdep : notify_depth c1 = notify_depth c) by (by rewrite Hc1).
  unfold go_rdma_wait_recv_completion. apply wp_bind, wp_bind.
  eapply wp_mono; [apply poll_cq_spec|]. intros o c2 w2 [-> HP].
  assert (Hsame : forall w', frame w1 w' -> forall (o : outcome Z recv_frame), o <> Diverged ->
    (forall a, o <> Ret a) -> recvs (fun fr c' w' =>
               has_last_notify_slot c' = true /\ last_notify_slot c' = fr_slot fr /\
               0 <= fr_slot fr < notify_depth c /\ fr_len fr <= frame_cap (cfg c) /\
               rq w ++ held c = fr_slot fr + 1 :: rq w') c1 w1 o c1 w').
  { intros w' F o' ? Ho. split_and!; try done; [by eapply recv_inv_frame|apply F|apply set_last_id|].
    intros a ->. by destruct (Ho a). }
  destruct o as [wc|e| |]; cbn [seq_post]; [|by apply Hsame..|done].
  destruct HP as (_ & T2 & R2).
  pose proof HI1 as [Hs Hd Hnd Hr]. unfold held in Hnd, Hr. rewrite Hhas in Hnd, Hr. simpl in Hnd, Hr.
  rewrite R2 in Hnd, Hr. apply NoDup_cons in Hnd as [Hnin Hnd]. apply Forall_cons in Hr as [Hid Hr].
  assert (HI2 : recv_inv c1 w2).
  { split; try done; unfold held; by rewrite Hhas. }
  assert (Hlost : forall e, recvs (fun fr c' w' =>
               has_last_notify_slot c' = true /\ last_notify_slot c' = fr_slot fr /\
               0 <= fr_slot fr < notify_depth c /\ fr_len fr <= frame_cap (cfg c) /\
               rq w ++ held c = fr_slot fr + 1 :: rq w') c1 w1 (Fail e) c1 w2).
  { intros e. split_and!; try done. apply set_last_id. }
  apply wp_bind, wp_guard; intros Hg0; cbn [seq_post]; [by apply Hlost|]. apply wp_ret. cbn [seq_post].
  apply wp_bind, wp_guard; intros Hg1; cbn [seq_post]; [by apply Hlost|].
  apply wp_bind, wp_guard; intros Hg2; cbn [seq_post]; [by apply Hlost|].
  apply wp_bind, wp_guard; intros Hg3; cbn [seq_post]; [by apply Hlost|]. apply Z.ltb_ge in Hg3.
  apply wp_bind, wp_modify. cbn [seq_post]. apply wp_ret.
  assert (Hidx : u32 (wc_id wc - 1) = wc_id wc - 1) by (apply u32_id; lia).
  rewrite Hidx. split_and!; try done.
  - split; try done; cbn [held set_last set_recv has_last_notify_slot last_notify_slot app];
      rewrite ?Z.sub_add; [by apply NoDup_cons|by apply Forall_cons].
  - intros fr [= <-]. cbn [fr_slot fr_len]. rewrite <- Hdep, Z.sub_add, <- R2.
    split_and!; try done; try lia.
Qed.

Lemma repost_recv_spec c w :
  recv_inv c w ->
  wp (go_rdma_repost_recv : C unit)
     (recvs (fun _ c' w' => has_last_notify_slot c = true /\ has_last_notify_slot c' = false /\
                            rq w' = rq w ++ held c) c w) c w.
Proof.
  intros HI. unfold go_rdma_repost_recv. apply wp_recvs_open; [done|]. apply wp_recvs_get.
  apply wp_recvs_guard; [done|]. intros Hh. apply negb_false_iff in Hh.
  eapply wp_mono; [by apply release_last_spec|].
  intros o c' w' (? & ? & ? & ? & HP). split_and!; try done. intros a Ho. by destruct (HP a Ho).
Qed.
End recv_facts.
