(* ===== verification/VerbsMsg.v ===== *)
(** * The message connection of the Go API (pkg/rdma/verbs_linux_cgo.go, pkg/rdma/conn.go)

    [vconn] is verbsMessageConn: the C connection and the parameters the Go side consults.
    A method is one step.  That is not the connection's own doing: it takes its lock for
    reading only, which keeps Close out but not a second send or receive; sends are one
    at a time because the callers see to it (the client's sendLoop, SendQueue.v; the
    service's sendMu, ZcopyServer.v), receives because each end has one loop that
    receives.  The receive methods return views of transport memory; a view is read in
    the world of its use. *)

From S2P Require Import Prelude VerbsConfig VerbsConn VerbsRing VerbsSend VerbsRecv.

Inductive GoErr :=
| ErrCtx (e : CtxErr)
| ErrClosed
| ErrC (op : string) (rc : Z)
| ErrSharedOffset | ErrSlot | ErrLength | ErrFrameRange | ErrMultiFrame.

Record vconn := {
  cc : option conn;
  v_framePayloadSize : Z;
  v_inlineThreshold : Z;
  v_ready : bool;
  v_sharedRWMemory : slice;
}.

Definition set_cc (s : vconn) (c : option conn) (ready : bool) : vconn :=
  {| cc := c; v_framePayloadSize := v_framePayloadSize s; v_inlineThreshold := v_inlineThreshold s;
     v_ready := ready; v_sharedRWMemory := v_sharedRWMemory s |}.

(** A Go slice of transport memory: a frame in its slot, or part of the window. *)
Inductive view :=
| VEmpty
| VFrame (fr : recv_frame)
| VWindow (addr len : Z).

Record BorrowedMessage := {
  Payload : view;
  SharedOffset : Z;
  release : bool;     (* release is RepostFrame, or nil *)
}.

(** 500 ms *)
Definition readPollInterval : Z := 500 * Millisecond.

Section msg.
Context {W : Type} `{!Host W}.
#[local] Abbreviation C := (M W conn Z).
#[local] Abbreviation G := (M W vconn GoErr).

(** The result code of a C function on the connection. *)
Definition call_c {A} (m : C A) : G (res Z A) :=
  fun s w =>
    match cc s with
    | None => (Ret (Err EBADF), s, w)
    | Some c =>
      match m c w with
      | (Ret a, c', w') => (Ret (Ok a), set_cc s (Some c') (v_ready s), w')
      | (Fail e, c', w') => (Ret (Err e), set_cc s (Some c') (v_ready s), w')
      | (Blocked, c', w') => (Blocked, set_cc s (Some c') (v_ready s), w')
      | (Diverged, c', w') => (Diverged, set_cc s (Some c') (v_ready s), w')
      end
    end.

(** [if err := ctx.Err(); err != nil { return err }] *)
Definition check_ctx : G unit :=
  let! e := host ctx_Err in
  match e with Some x => fail (ErrCtx x) | None => ret tt end.

(** [if c.cc == nil { return net.ErrClosed }] *)
Definition check_closed : G unit :=
  let! s := get in
  match cc s with None => fail ErrClosed | Some _ => ret tt end.

Definition rdmaContextTimeoutMillisWithDefault (defaultTimeout : Z) : G Z :=
  check_ctx;;
  let! deadline := host ctx_until_deadline in
  match deadline with
  | None => ret (if defaultTimeout <=? 0 then -1 else rdmaDurationToTimeoutMillis defaultTimeout)
  | Some remain =>
    if remain <=? 0 then fail (ErrCtx DeadlineExceeded)
    else ret (rdmaDurationToTimeoutMillis remain)
  end.

Definition rdmaContextTimeoutMillis : G Z := rdmaContextTimeoutMillisWithDefault 0.

(** A result code as an error: EAGAIN is the context's, or a deadline. *)
Definition rc_error {A} (op : string) (rc : Z) : G A :=
  if rc =? EAGAIN then
    let! e := host ctx_Err in
    match e with
    | Some x => fail (ErrCtx x)
    | None => fail (ErrCtx DeadlineExceeded)
    end
  else fail (ErrC op rc).

Definition of_rc {A} (op : string) (r : res Z A) : G A :=
  match r with Ok a => ret a | Err rc => rc_error op rc end.

Definition ensureReady : G unit :=
  let! s := get in
  if v_ready s then ret tt
  else
    check_closed;;
    let! timeoutMS := rdmaContextTimeoutMillis in
    let! r := call_c (go_rdma_ensure_ready timeoutMS) in
    of_rc "ensure_ready" r;;
    modify (fun s => set_cc s (cc s) true).

(** [&payload[0]], or nil for an empty payload. *)
Definition payload_ptr (payload : cptr) : option cptr :=
  if 0 <? blen (p_bytes payload) then Some payload else None.

Definition SendMessage (payload : cptr) : G unit :=
  check_ctx;;
  check_closed;;
  ensureReady;;
  let! timeoutMS := rdmaContextTimeoutMillis in
  let! s := get in
  let n := blen (p_bytes payload) in
  let send := call_c (go_rdma_send_message (payload_ptr payload) (u32 n) timeoutMS) in
  let rwCutover := if v_inlineThreshold s <? v_framePayloadSize s
                   then v_framePayloadSize s else v_inlineThreshold s in
  if rwCutover <? n then
    let! r := call_c (go_rdma_send_message_rw (payload_ptr payload) (u32 n) timeoutMS) in
    match r with
    | Ok _ => ret tt
    | Err rc =>
      if (rc =? EMSGSIZE) || (rc =? ENOTSUP) then
        let! r2 := send in of_rc "send" r2
      else rc_error "rw_send" rc
    end
  else let! r := send in of_rc "send" r.

Definition SendMessageAt (payload : cptr) (sharedOffset : Z) : G unit :=
  check_ctx;;
  guard (sharedOffset <? 0) ErrSharedOffset;;
  check_closed;;
  ensureReady;;
  let! timeoutMS := rdmaContextTimeoutMillis in
  let! r := call_c (go_rdma_send_message_rw_at (payload_ptr payload) (u32 (blen (p_bytes payload)))
                      (u32 sharedOffset) timeoutMS) in
  of_rc "rw_send_at" r.

(** The frame with its total length and offset. *)
Definition RecvFrame : G (recv_frame * Z * Z) :=
  check_ctx;;
  check_closed;;
  ensureReady;;
  let! timeoutMS := rdmaContextTimeoutMillisWithDefault readPollInterval in
  let! r := call_c (go_rdma_recv_frame timeoutMS) in
  let! fr := of_rc "recv" r in
  let total := fr_len fr in
  let offset := 0 in
  guard ((total <? 0) || (offset <? 0) || (fr_len fr <? 0) || (total <? offset + fr_len fr))
        ErrFrameRange;;
  ret (fr, total, offset).

Definition repostRecvSlot : G unit :=
  let! r := call_c go_rdma_repost_recv in
  match r with Ok _ => ret tt | Err rc => fail (ErrC "repost_recv" rc) end.

Definition RepostFrame : G unit := check_closed;; repostRecvSlot.

Definition getRWRecvPayload (slot length : Z) : G view :=
  guard (slot <? 0) ErrSlot;;
  guard (length <? 0) ErrLength;;
  if length =? 0 then ret VEmpty
  else
    check_closed;;
    let! r := call_c (go_rdma_get_rw_recv_payload (u32 slot) (u32 length)) in
    match r with
    | Ok addr => ret (VWindow addr length)
    | Err rc => fail (ErrC "rw_recv_payload" rc)
    end.

Definition getRWRecvPayloadAt (sharedOffset length : Z) : G view :=
  guard (sharedOffset <? 0) ErrSharedOffset;;
  guard (length <? 0) ErrLength;;
  if length =? 0 then ret VEmpty
  else
    check_closed;;
    let! r := call_c (go_rdma_get_rw_recv_payload_at (u32 sharedOffset) (u32 length)) in
    match r with
    | Ok addr => ret (VWindow addr length)
    | Err rc => fail (ErrC "rw_recv_payload_at" rc)
    end.

Definition view_slice (v : view) : slice :=
  match v with
  | VEmpty => nil_slice
  | VFrame fr => {| s_addr := slot_address (fr_slot fr); s_len := fr_len fr |}
  | VWindow addr len => {| s_addr := addr; s_len := len |}
  end.

(** Where [payload] lies in the shared memory, or -1. *)
Definition sharedMemoryOffset (shared payload : slice) : Z :=
  if (s_len payload =? 0) || (s_len shared =? 0) then -1
  else if s_addr payload <? s_addr shared then -1
  else
    let rel := s_addr payload - s_addr shared in
    if u64 (s_len shared - s_len payload) <? rel then -1 else rel.

(** What RecvBorrowedMessage makes of a frame. *)
Definition borrow_frame (fr : recv_frame) : G BorrowedMessage :=
  let! payload := peek (frame_bytes fr) in
  let! s := get in
  match parseWriteNotifyFrame payload with
  | Some (rwLen, rwToken, rwAt) =>
    let! rw :=
      (if rwAt : bool then
         let! v := getRWRecvPayloadAt rwToken rwLen in ret (v, rwToken)
       else
         let! v := getRWRecvPayload rwToken rwLen in
         ret (v, sharedMemoryOffset (v_sharedRWMemory s) (view_slice v))) in
    RepostFrame;;
    ret {| Payload := rw.1; SharedOffset := rw.2; release := false |}
  | None =>
    ret {| Payload := VFrame fr;
           SharedOffset := sharedMemoryOffset (v_sharedRWMemory s) (view_slice (VFrame fr));
           release := true |}
  end.

(** The loop retries a receive that timed out while the context is alive. *)
Fixpoint recv_borrowed_loop (fuel : nat) : G BorrowedMessage :=
  match fuel with
  | O => blocked
  | S fuel' =>
    check_ctx;;
    let! r := catch RecvFrame in
    match r with
    | Err (ErrCtx DeadlineExceeded) => check_ctx;; recv_borrowed_loop fuel'
    | Err e => fail e
    | Ok (fr, frameTotalN, offsetN) =>
      guard (negb (frameTotalN =? fr_len fr) || negb (offsetN =? 0)) ErrMultiFrame;;
      borrow_frame fr
    end
  end.

Definition RecvBorrowedMessage : G BorrowedMessage :=
  check_ctx;; recv_borrowed_loop poll_budget.

(** [BorrowedMessage.Release]: the message has lost its release function whatever
    that function returns. *)
Definition Release (m : BorrowedMessage) : G (BorrowedMessage * res GoErr unit) :=
  if release m then
    let! r := catch RepostFrame in
    ret ({| Payload := Payload m; SharedOffset := SharedOffset m; release := false |}, r)
  else ret (m, Ok tt).

(** The bytes of a view of a connection whose window starts at [base]. *)
Definition read_view (base : Z) (v : view) (w : W) : list byte :=
  match v with
  | VEmpty => []
  | VFrame fr => frame_bytes fr w
  | VWindow addr len => take (Z.to_nat len) (drop (Z.to_nat (addr - base)) (rw_memory w))
  end.

Definition window_base (s : vconn) : Z :=
  match cc s with Some c => rw_recv_buf (cfg c) | None => 0 end.

Definition RecvMessage : G (list byte) :=
  let! msg := RecvBorrowedMessage in
  let! s := get in
  let! out := peek (read_view (window_base s) (Payload msg)) in
  let! r := Release msg in
  match r.2 with Ok _ => ret out | Err e => fail e end.

Definition Close : G unit :=
  check_closed;; modify (fun s => set_cc s None false).
End msg.
