(* ===== verification/VerbsEnd.v ===== *)
(** * What the receive path and the two ends together guarantee

    The receive slots over any sequence of operations, the frame lent to a caller,
    the delivery of a remote write, and the behaviour of the Go methods around them. *)

From S2P Require Import Prelude VerbsConfig VerbsConn VerbsRing VerbsSend VerbsSim VerbsSafe.
From S2P Require Import VerbsRecv VerbsMsg.

(** ** Sequences of operations on a connection *)

Inductive conn_call :=
| OpRecv (timeout_ms : Z)
| OpRepost
| OpSend (x : send_call).

Definition run_op {W} `{!Host W} (x : conn_call) : M W conn Z unit :=
  match x with
  | OpRecv ms => let! _ := go_rdma_recv_frame ms in ret tt
  | OpRepost => go_rdma_repost_recv
  | OpSend y => run_call y
  end.

Fixpoint run_ops {W} `{!Host W} (l : list conn_call) : M W conn Z unit :=
  match l with
  | [] => ret tt
  | x :: l' => let! _ := catch (run_op x) in run_ops l'
  end.

Definition op_ok (x : conn_call) : Prop :=
  match x with OpSend y => blen (p_bytes (call_ptr y)) < 2 ^ 32 | _ => True end.

Section ends.
Context {W : Type} `{!Host W, !HostGhost W, !HostLaws W}.
Implicit Types (c : conn) (w : W).
#[local] Abbreviation C := (M W conn Z).

(** Both sides of a connection in order. *)
Definition conn_inv (c : conn) (w : W) : Prop :=
  ring_inv c w /\ recv_inv c w /\ 0 <= frame_cap (cfg c).

Lemma recvs_conn_inv {A} (P : A -> conn -> W -> Prop) c w o c' w' :
  conn_inv c w -> recvs P c w o c' w' -> conn_inv c' w'.
Proof.
  intros (HI & _ & Hcap) (HR & _ & HT & Hc & _). split_and!; [|done|by rewrite Hc].
  eapply ring_inv_frame; [done|done|by rewrite Hc..].
Qed.

Lemma sent_conn_inv c w l c' w' : conn_inv c w -> ring_inv c' w' -> sent c w l c' w' -> conn_inv c' w'.
Proof.
  intros (_ & [] & Hcap) HI (_ & _ & _ & HR & _ & Hc). split_and!; [done| |by rewrite Hc].
  assert (Hsame : notify_slots c' = notify_slots c /\ notify_depth c' = notify_depth c /\
                  held c' = held c) by (by rewrite Hc).
  destruct Hsame as (Hs1 & Hs2 & Hs3). by split; rewrite ?Hs1, ?Hs2, ?Hs3, ?HR.
Qed.

Lemma run_op_inv x c w :
  conn_inv c w -> op_ok x ->
  wp (run_op x : C unit) (fun o c' w' => conn_inv c' w' /\ o <> Diverged) c w.
Proof.
  intros HI Hx. destruct x as [ms| |y]; simpl.
  - apply wp_bind. eapply wp_mono; [apply recv_frame_spec, HI|].
    intros o c1 w1 HR. pose proof (recvs_conn_inv _ _ _ _ _ _ HI HR).
    destruct o as [fr|e| |]; cbn [seq_post]; [by apply wp_ret|done..|by destruct HR as (_ & [] & _)].
  - eapply wp_mono; [apply repost_recv_spec, HI|].
    intros o c1 w1 HR. split; [by eapply recvs_conn_inv|apply HR].
  - eapply wp_mono; [apply run_call_spec; [apply HI|apply HI|exact Hx]|].
    intros o c1 w1 (HI1 & HD & l & HS & _). split; [by eapply sent_conn_inv|done].
Qed.

Lemma run_ops_inv l c w :
  conn_inv c w -> Forall op_ok l ->
  wp (run_ops l : C unit) (fun o c' w' => conn_inv c' w' /\ o <> Diverged) c w.
Proof.
  intros HI HF. revert c w HI. induction HF as [|x l Hx HF IH]; intros c w HI; simpl.
  { by apply wp_ret. }
  apply wp_bind, wp_catch. eapply wp_mono; [by apply run_op_inv|].
  intros o c1 w1 [HI1 HD]. destruct o as [[]|e| |]; cbn [seq_post]; try done; by apply IH.
Qed.

(** *** Allocating the slots *)

(** The slots [0 .. i-1] are posted, in order. *)
Definition posted_up_to (i : Z) (w : W) : Prop := rq w = Z.of_nat <$> seq 1 (Z.to_nat i).

Lemma posted_up_to_succ i w w' :
  0 <= i -> posted_up_to i w -> rq w' = rq w ++ [i + 1] -> posted_up_to (i + 1) w'.
Proof.
  unfold posted_up_to. intros Hi H1 H2. rewrite H2, H1.
  replace (Z.to_nat (i + 1)) with (S (Z.to_nat i)) by lia.
  rewrite seq_S, fmap_app. simpl. do 2 f_equal. lia.
Qed.

Lemma init_slots_spec fuel i c w :
  0 <= i -> posted_up_to i w ->
  wp (init_slots fuel i : C unit)
     (fun o c' w' => c' = c /\ trace w' = trace w /\ o <> Diverged /\
                     (o = Ret tt -> posted_up_to (i + Z.of_nat fuel) w')) c w.
Proof.
  revert i w. induction fuel as [|fuel IH]; intros i w Hi Hp; cbn [init_slots].
  { apply wp_ret. split_and!; try done. intros _. by rewrite Z.add_0_r. }
  assert (Hstep : forall m (k : C unit) w0, quiet m -> trace w0 = trace w -> rq w0 = rq w ->
    (forall w1, trace w1 = trace w -> rq w1 = rq w ->
       wp k (fun o c' w' => c' = c /\ trace w' = trace w /\ o <> Diverged /\
              (o = Ret tt -> posted_up_to (i + Z.of_nat (S fuel)) w')) c w1) ->
    wp (bind (m : C unit) (fun _ => k)) (fun o c' w' => c' = c /\ trace w' = trace w /\ o <> Diverged /\
              (o = Ret tt -> posted_up_to (i + Z.of_nat (S fuel)) w')) c w0).
  { intros m k w0 Hq T0 R0 Hk. apply wp_bind, wp_quiet; [done|].
    intros o w1 (T1 & R1 & _) HD. destruct o as [[]|e| |]; cbn [seq_post].
    - apply Hk; congruence.
    - split_and!; try done. congruence.
    - split_and!; try done. congruence.
    - done. }
  apply Hstep; [apply quiet_host_rc_or; intros ???; apply alloc_buf_law|done|done|]. intros w1 T1 R1.
  apply Hstep; [apply quiet_host_rc; intros ???; apply reg_buf_law|done|done|]. intros w2 T2 R2.
  unfold go_rdma_post_notify_recv_slot, check_open.
  apply wp_bind, wp_bind, wp_bind, wp_get. cbn [seq_post].
  apply wp_guard; intros; cbn [seq_post]; [by split_and!|].
  apply wp_bind, wp_get; cbn [seq_post].
  apply wp_bind, wp_guard; intros; cbn [seq_post]; [by split_and!|].
  apply wp_host_rc; cbn [seq_post].
  - intros w3 (T3 & _ & R3)%post_recv_law. eapply wp_mono.
    + apply (IH (i + 1)); [lia|]. eapply posted_up_to_succ; [done|exact Hp|]. by rewrite R3, R2.
    + intros o c' w' (Hc & T4 & HD & HP). split_and!; try done; [congruence|].
      intros Ho. specialize (HP Ho). by replace (i + Z.of_nat (S fuel)) with (i + 1 + Z.of_nat fuel) by lia.
  - intros e w3 (T3 & _ & R3)%post_recv_law. split_and!; try done. congruence.
Qed.

(** A new connection whose receive slots are not allocated yet. *)
Definition unready (c : conn) (w : W) : Prop :=
  fresh c w /\ rq w = [] /\ notify_slots c = false /\ has_last_notify_slot c = false.

Lemma init_notify_spec depth c w :
  unready c w -> depth < 2 ^ 32 -> 0 <= depth ->
  wp (go_rdma_init_notify_slots depth : C unit)
     (fun o c' w' => o <> Diverged /\ (o = Ret tt -> conn_inv c' w' /\ notify_depth c' = depth)) c w.
Proof.
  intros (HF & HR & Hns & Hhl) Hd1 Hd0. unfold go_rdma_init_notify_slots, check_open.
  apply wp_bind, wp_bind, wp_get. cbn [seq_post]. apply wp_guard; intros; cbn [seq_post]; [done|].
  apply wp_bind, wp_guard; intros Hdep; cbn [seq_post]; [done|]. apply Z.eqb_neq in Hdep.
  apply wp_bind, wp_get. cbn [seq_post]. rewrite Hns. apply wp_bind, wp_quiet.
  { apply quiet_host_rc_or. intros ???. apply alloc_slots_law. }
  intros o w1 (T1 & R1 & _) HD. destruct o as [[]|e| |]; cbn [seq_post]; try done.
  apply wp_bind, wp_modify. cbn [seq_post].
  set (c1 := set_recv c true depth _ _).
  apply wp_bind, wp_guard; intros; cbn [seq_post]; [done|].
  eapply wp_mono; [apply (init_slots_spec (Z.to_nat depth) 0 c1); [done|by unfold posted_up_to; rewrite R1, HR]|].
  intros o c' w' (-> & T2 & HD2 & HP). split; [done|]. intros Ho. specialize (HP Ho).
  split; [|done]. rewrite Z2Nat.id, Z.add_0_l in HP by done. unfold posted_up_to in HP.
  split_and!; [|split|apply HF]; try done.
  - apply fresh_ring. unfold fresh in *. rewrite T2, T1. exact HF.
  - simpl. lia.
  - unfold held. cbn [has_last_notify_slot c1 set_recv]. rewrite Hhl. simpl. rewrite HP.
    apply NoDup_fmap_2; [apply _|apply NoDup_seq].
  - unfold held. cbn [has_last_notify_slot notify_depth c1 set_recv]. rewrite Hhl. simpl. rewrite HP.
    apply Forall_fmap, Forall_forall. intros x Hx%elem_of_seq. simpl. lia.
Qed.

(** C13: Once the receive slots are allocated, no sequence of receives, reposts and sends, failing or not, ever posts a slot twice or posts the slot that is lent to the caller: the lent slot and the posted slots are always distinct and within the allocated ones, no operation loops forever, and the send ring keeps its accounting. *)
Theorem receive_slots_accounted depth l c w :
  unready c w -> 0 <= depth < 2 ^ 32 -> Forall op_ok l ->
  wp (bind (go_rdma_init_notify_slots depth) (fun _ => run_ops l) : C unit)
     (fun o c' w' => o <> Diverged /\
        (o = Ret tt ->
           NoDup (held c' ++ rq w') /\
           Forall (fun id => 1 <= id <= notify_depth c') (held c' ++ rq w') /\
           u32 (tx_prod c' - send_completed c') = n_posted w' - n_done w')) c w.
Proof.
  intros HU [Hd0 Hd1] Hl. apply wp_bind. eapply wp_mono; [by apply init_notify_spec|].
  intros o c1 w1 [HD HP]. destruct o as [[]|e| |]; cbn [seq_post]; try done.
  destruct (HP eq_refl) as [HI _]. eapply wp_mono; [by apply run_ops_inv|].
  intros o c2 w2 [(HI2 & [] & _) HD2]. split; [done|]. intros _.
  split_and!; try done. by apply ring_outstanding.
Qed.

(** C14: The frame a receive hands out stays as it is while the caller works: its slot is an allocated one, its length is within the frame capacity, the slot is not posted to the device, and after any sequence of sends on the connection the slot still is not posted and the frame's bytes are the ones received. *)
Theorem borrowed_frame_is_stable ms calls c w :
  conn_inv c w -> Forall (fun x => blen (p_bytes (call_ptr x)) < 2 ^ 32) calls ->
  wp (go_rdma_recv_frame ms : C recv_frame)
     (fun o c1 w1 => forall fr, o = Ret fr ->
        0 <= fr_slot fr < notify_depth c /\ fr_len fr <= frame_cap (cfg c) /\
        ((fr_slot fr + 1) ∉ rq w1) /\
        wp (run_calls calls : C unit)
           (fun _ _ w2 => ((fr_slot fr + 1) ∉ rq w2) /\ frame_bytes fr w2 = frame_bytes fr w1) c1 w1) c w.
Proof.
  intros HI HF. eapply wp_mono; [apply recv_frame_spec, HI|].
  intros o c1 w1 HR fr ->. pose proof (recvs_conn_inv _ _ _ _ _ _ HI HR) as HI1.
  destruct HR as (HI2 & _ & _ & _ & HP). destruct (HP fr eq_refl) as (Hh & Hl & Hs & Hc & Hrq).
  assert (Hnin : (fr_slot fr + 1) ∉ rq w1).
  { destruct HI2 as [_ _ Hnd _]. unfold held in Hnd. rewrite Hh, Hl in Hnd.
    by apply NoDup_cons in Hnd as [? _]. }
  split_and!; try lia; try done. clear - HI1 HF Hnin HostLaws0. revert c1 w1 HI1 Hnin.
  induction HF as [|x l Hx HF IH]; intros c1 w1 HI1 Hnin; simpl; [by apply wp_ret|].
  apply wp_bind, wp_catch. eapply wp_mono; [apply run_call_spec; [apply HI1|apply HI1|done]|].
  intros o c2 w2 (HI2 & HD & wrs & HS & _).
  pose proof HS as (_ & _ & _ & HR2 & HU & _).
  assert (Hb : frame_bytes fr w2 = frame_bytes fr w1).
  { unfold frame_bytes. f_equal. apply HU; by rewrite ?HR2. }
  assert (HI3 : conn_inv c2 w2) by (by eapply sent_conn_inv).
  destruct o as [[]|e| |]; cbn [seq_post]; try (by rewrite HR2).
  all: (eapply wp_mono; [apply IH; [done|by rewrite HR2]|]); intros ? ? ? [? ->]; done.
Qed.
End ends.

(** ** The Go methods *)

Section go_methods.
Context {W : Type} `{!Host W, !HostGhost W, !HostLaws W}.
Implicit Types (s : vconn) (c : conn) (w : W).
#[local] Abbreviation G := (M W vconn GoErr).

Lemma wp_call {A} (m : M W conn Z A) (Q : outcome GoErr (res Z A) -> vconn -> W -> Prop) s c w :
  cc s = Some c ->
  wp m (fun o c' w' => let s' := set_cc s (Some c') (v_ready s) in
          match o with
          | Ret a => Q (Ret (Ok a)) s' w'
          | Fail e => Q (Ret (Err e)) s' w'
          | Blocked => Q Blocked s' w'
          | Diverged => Q Diverged s' w'
          end) c w ->
  wp (call_c m) Q s w.
Proof.
  intros Hc. unfold wp, call_c. rewrite Hc. by destruct (m c w) as [[[a|e| |] c'] w'].
Qed.

Lemma wp_true {S E A} (m : M W S E A) (Q : outcome E A -> S -> W -> Prop) (x : S) w :
  (forall o x' w', Q o x' w') -> wp m Q x w.
Proof. intros HQ. unfold wp. destruct (m x w) as [[o x'] w']. apply HQ. Qed.

(** Postconditions about values only pass through errors and waits. *)
Definition on_value {A} (P : A -> vconn -> W -> Prop) : outcome GoErr A -> vconn -> W -> Prop :=
  fun o s w => match o with Ret a => P a s w | _ => True end.

Lemma wp_value_bind {A B} (m : G A) (k : A -> G B) (P : A -> vconn -> W -> Prop) Q s w :
  wp m (on_value P) s w -> (forall a s' w', P a s' w' -> wp (k a) (on_value Q) s' w') ->
  wp (bind m k) (on_value Q) s w.
Proof.
  intros Hm Hk. apply wp_bind. eapply wp_mono; [exact Hm|].
  intros [a|e| |] s' w' HP; cbn [seq_post]; [by apply Hk|done..].
Qed.

(** The notification of a write at an offset becomes a view of the window there. *)
Lemma borrow_notify_at fr s c w len off :
  cc s = Some c -> 0 < len < 2 ^ 32 -> 0 <= off < 2 ^ 32 ->
  frame_bytes fr w = notify_bytes {| n_magic := GO_RDMA_RW_NOTIFY_MAGIC;
                                     n_kind := GO_RDMA_RW_NOTIFY_KIND_WRITE_AT;
                                     n_length := len; n_slot := off |} ->
  wp (borrow_frame fr : G BorrowedMessage)
     (on_value (fun m _ _ => m = {| Payload := VWindow (rw_recv_buf (cfg c) + off) len;
                                    SharedOffset := off; release := false |})) s w.
Proof.
  intros Hc Hlen Hoff Hfr. unfold borrow_frame. apply wp_bind, wp_peek. cbn [seq_post].
  apply wp_bind, wp_get. cbn [seq_post]. rewrite Hfr, parse_notify; [|by right|lia|lia].
  change (GO_RDMA_RW_NOTIFY_KIND_WRITE_AT =? GO_RDMA_RW_NOTIFY_KIND_WRITE_AT) with true. cbv iota.
  eapply (wp_value_bind _ _ (fun rw _ _ => rw = (VWindow (rw_recv_buf (cfg c) + off) len, off))).
  - eapply (wp_value_bind _ _ (fun v _ _ => v = VWindow (rw_recv_buf (cfg c) + off) len));
      [|by intros v s' w' ->; apply wp_ret].
    unfold getRWRecvPayloadAt.
    apply wp_bind, wp_guard; intros _; cbn [seq_post]; [done|].
    apply wp_bind, wp_guard; intros _; cbn [seq_post]; [done|].
    replace (len =? 0) with false by (symmetry; apply Z.eqb_neq; lia).
    unfold check_closed. apply wp_bind, wp_bind, wp_get. cbn [seq_post]. rewrite Hc.
    apply wp_ret. cbn [seq_post]. apply wp_bind. eapply wp_call; [done|].
    rewrite !u32_id by lia. unfold go_rdma_get_rw_recv_payload_at, check_open.
    apply wp_bind, wp_bind, wp_get. cbn [seq_post].
    apply wp_guard; intros _; cbn [seq_post]; [by apply wp_fail|].
    apply wp_bind, wp_get. cbn [seq_post].
    apply wp_bind, wp_guard; intros _; cbn [seq_post]; [by apply wp_fail|].
    apply wp_bind, wp_guard; intros _; cbn [seq_post]; [by apply wp_fail|].
    apply wp_ret. cbn [seq_post]. by apply wp_ret.
  - intros rw s' w' ->. eapply (wp_value_bind _ _ (fun _ _ _ => True)).
    + by apply wp_true; intros [].
    + intros _ s2 w2 _. by apply wp_ret.
Qed.
End go_methods.

(** ** From one end to the other *)

(** The window the sender knows is the receiver's. *)
Definition peers (c cr : conn) : Prop :=
  peer_rw_addr c = rw_recv_buf (cfg cr) /\ peer_rw_cap c = rw_recv_cap (cfg cr) /\
  peer_rw_slots c = rw_recv_slots (cfg cr).

(** C5: A payload written at an offset, both below 2^32, arrives there intact: when the
    sender's call succeeds, on a connection that knows its peer's window, it has posted
    its writes and, after they completed, one notification frame; whenever the receiver's
    window holds the effect of these writes and a frame with the notification's bytes
    reaches it, the message it hands out carries that offset, needs no release, and reads
    as exactly the payload sent. *)
Theorem offset_transfer {W} `{!Host W, !HostGhost W, !HostLaws W} {R} `{!Host R, !HostGhost R, !HostLaws R}
    p total off ms (c : conn) (w : W) :
  ring_inv c w -> 20 <= frame_cap (cfg c) -> 0 < total < 2 ^ 32 -> total <= blen (p_bytes p) ->
  0 <= off < 2 ^ 32 -> peer_window_ok c ->
  wp (go_rdma_send_message_rw_at (Some p) total off ms : M W conn Z unit)
     (fun o _ w' => o = Ret tt ->
        exists ws n,
          posted (trace w') = posted (trace w) ++ ws ++ [n] /\ completed_between w ws [n] w' /\
          forall (s : vconn) (cr : conn) (r : R) (fr : recv_frame) m,
            cc s = Some cr -> peers c cr -> blen m = peer_rw_cap c * peer_rw_slots c ->
            rw_memory r = foldl (write_remote (peer_rw_addr c)) m ws ->
            frame_bytes fr r = wr_data n ->
            wp (borrow_frame fr : M R vconn GoErr BorrowedMessage)
               (on_value (fun msg _ _ => SharedOffset msg = off /\ release msg = false /\
                            read_view (window_base s) (Payload msg) r =
                            take (Z.to_nat total) (p_bytes p))) s r) c w.
Proof.
  intros HI Hcap Ht Hp Ho Hwin.
  eapply wp_mono; [apply send_message_rw_at_effect; done || lia|].
  intros o c' w' HP Hret.
  destruct (HP Hret) as (ws & ns & Hpost & HC & Hend & _ & Hmem & Hns & Hone & _).
  specialize (Hone Hcap). destruct ns as [|n [|]]; try done. exists ws, n. split_and!; try done.
  intros s cr r fr m Hcc (Hpa & Hpc & Hps) Hm Hrw Hfr.
  simpl in Hns. rewrite app_nil_r in Hns.
  eapply wp_mono; [eapply (borrow_notify_at fr s cr r total off); try done; congruence|].
  intros [msg|e| |] s' r' HV; try done. cbn [on_value] in *. rewrite HV. cbn.
  split_and!; try done. unfold window_base. rewrite Hcc.
  replace (rw_recv_buf (cfg cr) + off - rw_recv_buf (cfg cr)) with off by lia.
  rewrite Hrw, (Hmem m Hm).
  assert (Hl : Z.to_nat total = length (take (Z.to_nat total) (p_bytes p))).
  { unfold blen in Hp. rewrite length_take. lia. }
  rewrite Hl at 1. apply read_splice. rewrite <- Hl. unfold blen in Hm. lia.
Qed.

(** ** Messages larger than a frame *)

Section go_send.
Context {W : Type} `{!Host W, !HostGhost W, !HostLaws W}.
Implicit Types (s : vconn) (c : conn) (w : W).
#[local] Abbreviation G := (M W vconn GoErr).

Lemma wp_value_host {A B} (f : W -> A * W) (k : A -> G B) Q s w :
  (forall w r w', f w = (r, w') -> frame w w') ->
  (forall a w', frame w w' -> wp (k a) (on_value Q) s w') ->
  wp (bind (host f) k) (on_value Q) s w.
Proof. intros Hf Hk. apply wp_bind, wp_host. intros a w' E1. cbn [seq_post]. eauto. Qed.

Lemma wp_value_check_ctx {B} (k : G B) Q s w :
  (forall w', frame w w' -> wp k (on_value Q) s w') ->
  wp (bind check_ctx (fun _ => k)) (on_value Q) s w.
Proof.
  intros Hk. apply wp_bind. unfold check_ctx. apply wp_bind, wp_host. intros [e|] w' E1; cbn [seq_post].
  - by apply wp_fail.
  - apply wp_ret. cbn [seq_post]. apply Hk. by eapply ctx_Err_law.
Qed.

Lemma wp_value_timeout {B} d (k : Z -> G B) Q s w :
  (forall ms w', frame w w' -> wp (k ms) (on_value Q) s w') ->
  wp (bind (rdmaContextTimeoutMillisWithDefault d) k) (on_value Q) s w.
Proof.
  intros Hk. apply (wp_value_bind _ _ (fun _ s' w' => s' = s /\ frame w w')).
  - unfold rdmaContextTimeoutMillisWithDefault. apply wp_value_check_ctx. intros w1 F1.
    apply wp_value_host; [intros ???; apply ctx_until_law|]. intros [r|] w2 F2.
    + case_match; [by apply wp_fail|apply wp_ret]. split; [done|by eapply frame_trans].
    + apply wp_ret. split; [done|by eapply frame_trans].
  - intros ms s' w' [-> F]. by apply Hk.
Qed.

(** A remote write of more than the peer's slot is refused before anything is posted. *)
Lemma rw_too_large p total ms c w :
  0 < total -> peer_rw_cap c < total ->
  wp (go_rdma_send_message_rw (Some p) total ms : M W conn Z unit)
     (fun o c' w' => (exists e, o = Fail e) /\ c' = c /\ w' = w) c w.
Proof.
  intros H0 Hc. unfold go_rdma_send_message_rw, check_open.
  apply wp_bind, wp_bind, wp_get. cbn [seq_post]. apply wp_guard; intros _; cbn [seq_post]; [eauto|].
  replace (total =? 0) with false by (symmetry; apply Z.eqb_neq; lia).
  apply wp_bind, wp_get. cbn [seq_post].
  apply wp_bind, wp_guard; intros _; cbn [seq_post]; [eauto|].
  apply wp_bind, wp_guard; intros Hg; cbn [seq_post]; [eauto|]. apply Z.ltb_ge in Hg. lia.
Qed.

(** C39: SendMessage of a payload of less than 2^32 bytes that exceeds the frame, the
    cutover (the inline threshold being within a frame) and the peer's slot falls back to
    the SEND path, and a success means it was cut: the queue has received at least two
    SEND frames and no notification, which carry the payload's bytes in their order; since
    every frame is received as a message of its own, the receiver never sees the payload
    as one message. *)
Theorem oversized_message_is_split p s c w :
  cc s = Some c -> v_ready s = true -> ring_inv c w -> 0 < frame_cap (cfg c) ->
  v_framePayloadSize s = frame_cap (cfg c) -> v_inlineThreshold s <= frame_cap (cfg c) ->
  frame_cap (cfg c) < blen (p_bytes p) < 2 ^ 32 -> peer_rw_cap c < blen (p_bytes p) ->
  wp (SendMessage p : G unit)
     (on_value (fun _ _ w' => exists wrs,
        posted (trace w') = posted (trace w) ++ wrs /\ (2 <= length wrs)%nat /\
        Forall (fun wr => wr_opcode wr = IBV_WR_SEND) wrs /\
        concat (wr_data <$> wrs) = p_bytes p)) s w.
Proof.
  intros Hcc Hrdy HI Hcap Hfp Hin Hn Hpc. unfold SendMessage.
  apply wp_value_check_ctx. intros w1 F1. unfold check_closed.
  apply wp_bind, wp_bind, wp_get. cbn [seq_post]. rewrite Hcc. apply wp_ret. cbn [seq_post].
  unfold ensureReady. apply wp_bind, wp_bind, wp_get. cbn [seq_post]. rewrite Hrdy.
  apply wp_ret. cbn [seq_post]. apply wp_value_timeout. intros ms w2 F2.
  pose proof (frame_trans _ _ _ F1 F2) as F. apply wp_bind, wp_get. cbn [seq_post].
  replace (v_inlineThreshold s <? v_framePayloadSize s) with
    (v_inlineThreshold s <? frame_cap (cfg c)) by (by rewrite Hfp).
  replace ((if v_inlineThreshold s <? frame_cap (cfg c) then v_framePayloadSize s
            else v_inlineThreshold s) <? blen (p_bytes p)) with true
    by (symmetry; case_match; bool_facts; apply Z.ltb_lt; lia).
  unfold payload_ptr. replace (0 <? blen (p_bytes p)) with true by (symmetry; apply Z.ltb_lt; lia).
  rewrite u32_id by lia. apply wp_bind. eapply wp_call; [done|].
  eapply wp_mono; [apply rw_too_large; lia|]. intros o c2 w3 ([e ->] & -> & ->). cbn [seq_post].
  case_match; [|unfold rc_error; case_match; [|by apply wp_fail];
                apply wp_bind, wp_host; intros [x|] w4 E4; cbn [seq_post]; by apply wp_fail].
  apply wp_bind. eapply wp_call; [done|].
  assert (HI2 : ring_inv c w2) by (eapply ring_inv_frame; try done; apply F).
  eapply wp_mono; [apply send_message_spec; done || lia|].
  intros o c2 w3 (_ & _ & wrs & HS & HP). destruct o as [[]|e2| |]; cbn [seq_post]; try done.
  2: { unfold of_rc, rc_error. case_match; [|by apply wp_fail].
       apply wp_bind, wp_host; intros [x|] w4 E4; cbn [seq_post]; by apply wp_fail. }
  unfold of_rc. apply wp_ret. cbn [on_value]. specialize (HP eq_refl).
  unfold ptr_read in HP. rewrite firstn_all2 in HP by (unfold blen; lia).
  exists wrs. split; [rewrite (proj1 HS); by destruct F as [-> _]|].
  destruct (frames_of_concat (frame_cap (cfg c)) wrs (p_bytes p)) as (Hcat & HF & _); [lia|done|].
  split_and!; [|by eapply Forall_impl; [exact HF|intros x [? _]]|done].
  destruct wrs as [|x [|y wrs]]; [done| |simpl; lia].
  destruct HP as (_ & _ & _ & Hlen & _). lia.
Qed.
End go_send.

(** After Close every method of a message connection refuses with net.ErrClosed and changes nothing, the second Close included, for a context that is still alive. *)
Theorem closed_connection_refuses {W} `{!Host W} (s : vconn) (w : W) p off :
  (forall x : W, (ctx_Err x).1 = None) -> cc s = None -> 0 <= off -> (0 < poll_budget)%nat ->
  (forall s' c', cc s' = Some c' -> cc (Close s' w).1.2 = None /\ (Close s' w).1.1 = Ret tt) /\
  (SendMessage p s w).1.1 = Fail ErrClosed /\ (SendMessageAt p off s w).1.1 = Fail ErrClosed /\
  (RecvFrame s w).1.1 = Fail ErrClosed /\ (RecvMessage s w).1.1 = Fail ErrClosed /\
  (RepostFrame s w).1.1 = Fail ErrClosed /\ (Close s w).1.1 = Fail ErrClosed.
Proof.
  intros Hctx Hcc Hoff Hb.
  assert (Hck : forall A (k : M W vconn GoErr A) x,
    exists x', bind check_ctx (fun _ => k) s x = k s x').
  { intros A k x. unfold check_ctx, bind, host. specialize (Hctx x).
    destruct (ctx_Err x) as [[e|] x'] eqn:E1; [done|]. by exists x'. }
  assert (Hcl : forall A (k : M W vconn GoErr A) x,
    bind check_closed (fun _ => k) s x = (Fail ErrClosed, s, x)).
  { intros A k x. unfold check_closed, bind, get. by rewrite Hcc. }
  assert (Hfr : forall x, exists x', RecvFrame s x = (Fail ErrClosed, s, x')).
  { intros x. unfold RecvFrame. destruct (Hck _ (bind check_closed (fun _ : unit =>
      bind ensureReady (fun _ : unit =>
      bind (rdmaContextTimeoutMillisWithDefault readPollInterval) (fun timeoutMS =>
      bind (call_c (go_rdma_recv_frame timeoutMS)) (fun r =>
      bind (of_rc "recv" r) (fun fr =>
      bind (guard ((fr_len fr <? 0) || (0 <? 0) || (fr_len fr <? 0) || (fr_len fr <? 0 + fr_len fr))
              ErrFrameRange) (fun _ : unit => ret (fr, fr_len fr, 0)))))))) x) as [x' Hx'].
    exists x'. etrans; [exact Hx'|]. apply Hcl. }
  split_and!.
  - intros s' c' Hs'. unfold Close, check_closed, bind, get. by rewrite Hs'.
  - unfold SendMessage. edestruct Hck as [x' ->]. by rewrite Hcl.
  - unfold SendMessageAt. edestruct Hck as [x' ->].
    replace (off <? 0) with false by (symmetry; apply Z.ltb_ge; lia).
    unfold bind at 1, guard, ret. by rewrite Hcl.
  - by destruct (Hfr w) as [x' ->].
  - unfold RecvMessage, RecvBorrowedMessage.
    assert (Hloop : forall x, exists x', recv_borrowed_loop poll_budget s x = (Fail ErrClosed, s, x')).
    { intros x. destruct poll_budget as [|n]; [lia|]. cbn [recv_borrowed_loop].
      edestruct Hck as [x' ->]. destruct (Hfr x') as [x2 Hx2]. exists x2.
      unfold bind at 1, catch. by rewrite Hx2. }
    unfold bind at 1. edestruct Hck as [x' ->]. by destruct (Hloop x') as [x2 ->].
  - unfold RepostFrame. by rewrite Hcl.
  - unfold Close. by rewrite Hcl.
Qed.

(** ** Runs on the simulated device *)

(** The device of the receiver once the sender's requests have arrived. *)
Definition deliver (base : Z) (from to : sim) : sim :=
  let wrs := posted (s_trace from) in
  let is_send wr := match wr_opcode wr with IBV_WR_SEND => true | IBV_WR_RDMA_WRITE => false end in
  {| s_trace := s_trace to; s_rq := s_rq to;
     s_incoming := s_incoming to ++ (wr_data <$> List.filter is_send wrs);
     s_slots := s_slots to;
     s_rw := foldl (write_remote base) (s_rw to) (List.filter (fun wr => negb (is_send wr)) wrs);
     s_mr := s_mr to |}.

Definition go_conn (c : conn) : vconn :=
  {| cc := Some c; v_framePayloadSize := 32; v_inlineThreshold := 0; v_ready := true;
     v_sharedRWMemory := nil_slice |}.

(** A connection whose two receive slots are posted. *)
Definition ready_world : sim := (go_rdma_init_notify_slots 2 sim_conn sim_world).2.
Definition ready_conn : conn := (go_rdma_init_notify_slots 2 sim_conn sim_world).1.2.

Lemma sim_unready : unready sim_conn sim_world.
Proof. split; [exact sim_fresh|]. by vm_compute. Qed.

Lemma ready_inv : conn_inv ready_conn ready_world.
Proof.
  pose proof (init_notify_spec 2 sim_conn sim_world sim_unready) as HP.
  unfold wp in HP. unfold ready_conn, ready_world.
  destruct (go_rdma_init_notify_slots 2 sim_conn sim_world) as [[o c'] w'] eqn:E1.
  destruct HP as [_ HP]; [done..|]. apply HP.
  assert (Ho : (go_rdma_init_notify_slots 2 sim_conn sim_world).1.1 = Ret tt) by (by vm_compute).
  by rewrite E1 in Ho.
Qed.

Lemma receive_slots_accounted_witness :
  wp (bind (go_rdma_init_notify_slots 2)
        (fun _ => run_ops [OpRecv 0; OpSend (CallSend (sample_ptr 40) (-1)); OpRepost]) : M sim conn Z unit)
     (fun o c' w' => o = Ret tt -> NoDup (held c' ++ rq w')) sim_conn sim_world.
Proof.
  eapply wp_mono; [apply (receive_slots_accounted 2 _ _ _ sim_unready); [done|]|].
  - repeat (constructor; [by vm_compute|]). constructor.
  - intros o c' w' [_ HP] Ho. by apply HP.
Defined.

Definition world_with (msgs : list (list byte)) : sim :=
  {| s_trace := s_trace ready_world; s_rq := s_rq ready_world; s_incoming := msgs;
     s_slots := s_slots ready_world; s_rw := replicate 128 x00; s_mr := true |}.

Lemma world_with_inv msgs : conn_inv ready_conn (world_with msgs).
Proof.
  destruct ready_inv as (HI & [] & Hc). split_and!; [|by split|done].
  by eapply ring_inv_frame.
Qed.

Lemma borrowed_frame_is_stable_witness :
  (go_rdma_recv_frame 0 ready_conn (world_with [[x61; x62]])).1.1 = Ret {| fr_slot := 0; fr_len := 2 |} /\
  wp (go_rdma_recv_frame 0 : M sim conn Z recv_frame)
     (fun o c1 w1 => forall fr, o = Ret fr ->
        wp (run_calls [CallSend (sample_ptr 90) (-1)] : M sim conn Z unit)
           (fun _ _ w2 => ((fr_slot fr + 1) ∉ rq w2) /\ frame_bytes fr w2 = frame_bytes fr w1) c1 w1)
     ready_conn (world_with [[x61; x62]]).
Proof.
  split; [by vm_compute|].
  eapply wp_mono; [apply (borrowed_frame_is_stable 0 [CallSend (sample_ptr 90) (-1)]);
                   [apply world_with_inv|repeat (constructor; [by vm_compute|]); constructor]|].
  intros o c1 w1 HP fr Ho. by apply HP.
Defined.

(** A payload of 100 bytes written at offset 20, received by the other end. *)
Lemma offset_transfer_witness :
  let w' := (go_rdma_send_message_rw_at (Some (sample_ptr 100)) 100 20 (-1) sim_conn sim_world).2 in
  let peer := {| id_open := true;
                 cfg := {| send_depth := 4; send_signal_interval := 16; recv_depth := 2; frame_cap := 32;
                           inline_threshold := 0; send_cq_null := false; recv_cq_null := false;
                           comp_channels := true; rw_recv_buf := 8192; rw_recv_mr := true;
                           rw_recv_rkey := 9; rw_recv_cap := 128; rw_recv_slots := 1 |};
                 send_buf := ∅; send_completed := 0; tx_prod := 0; notify_slots := true;
                 notify_depth := 2; last_notify_slot := 0; has_last_notify_slot := false;
                 peer_rw_addr := 4096; peer_rw_rkey := 7; peer_rw_cap := 128; peer_rw_slots := 1;
                 rw_send_seq := 0; rw_ready := true |} in
  let r := deliver 8192 w' (world_with []) in
  RecvMessage (go_conn peer) r =
    (Ret (p_bytes (sample_ptr 100)), (RecvMessage (go_conn peer) r).1.2, (RecvMessage (go_conn peer) r).2) /\
  wp (go_rdma_send_message_rw_at (Some (sample_ptr 100)) 100 20 (-1) : M sim conn Z unit)
     (fun o _ w' => o = Ret tt -> exists ws n, posted (trace w') = ws ++ [n]) sim_conn sim_world.
Proof.
  split; [by vm_compute|].
  eapply wp_mono; [apply (offset_transfer (R := sim) (sample_ptr 100) 100 20 (-1) sim_conn sim_world)|].
  - apply fresh_ring, sim_fresh.
  - done.
  - done.
  - by vm_compute.
  - done.
  - done.
  - intros o c' w' HP Ho. destruct (HP Ho) as (ws & n & Hpost & _). by exists ws, n.
Defined.

(** 300 bytes do not fit the peer's slot of 128: the receiver gets the first 32. *)
Lemma oversized_message_is_split_witness :
  (SendMessage (sample_ptr 300) (go_conn sim_conn) sim_world).1.1 = Ret tt /\
  (RecvMessage (go_conn ready_conn)
     (deliver 8192 (SendMessage (sample_ptr 300) (go_conn sim_conn) sim_world).2 (world_with []))).1.1 =
    Ret (take 32 (p_bytes (sample_ptr 300))) /\
  wp (SendMessage (sample_ptr 300) : M sim vconn GoErr unit)
     (on_value (fun _ _ w' => exists wrs, posted (trace w') = wrs /\ (2 <= length wrs)%nat))
     (go_conn sim_conn) sim_world.
Proof.
  split; [by vm_compute|]. split; [by vm_compute|].
  eapply wp_mono; [apply (oversized_message_is_split (sample_ptr 300) (go_conn sim_conn) sim_conn sim_world)|].
  - done.
  - done.
  - apply fresh_ring, sim_fresh.
  - done.
  - done.
  - done.
  - by vm_compute.
  - by vm_compute.
  - intros [a|e| |] s' w' HP; try done. destruct HP as (wrs & Hp & Hl & _). by exists wrs.
Defined.

Lemma closed_connection_refuses_witness :
  (SendMessage (sample_ptr 3) (Close (go_conn sim_conn) sim_world).1.2 sim_world).1.1 = Fail ErrClosed.
Proof.
  apply (closed_connection_refuses (Close (go_conn sim_conn) sim_world).1.2 sim_world (sample_ptr 3) 0).
  - reflexivity.
  - reflexivity.
  - lia.
  - simpl. lia.
Defined.

(** The slot a message lends, if it must still be released. *)
Definition lent_slot (o : outcome GoErr BorrowedMessage) : option Z :=
  match o with
  | Ret m => match Payload m with VFrame fr => if release m then Some (fr_slot fr) else None | _ => None end
  | _ => None
  end.

(** Release gives back the slot received last, not the message's own: after two frames have been received in slots 0 and 1, with slot 1 lent and slot 0 already posted again by the second receive, releasing the first message succeeds and posts slot 1, which the second message still refers to, and releasing the second message is then refused. *)
Theorem stale_release_frees_newer :
  let '(o1, s1, w1) := RecvBorrowedMessage (go_conn ready_conn) (world_with [[x61]; [x62]]) in
  let '(o2, s2, w2) := RecvBorrowedMessage s1 w1 in
  lent_slot o1 = Some 0 /\ lent_slot o2 = Some 1 /\ rq w2 = [0 + 1] /\
  match o1, o2 with
  | Ret m1, Ret m2 =>
    let '(o3, s3, w3) := Release m1 s2 w2 in
    let released m := {| Payload := Payload m; SharedOffset := SharedOffset m; release := false |} in
    o3 = Ret (released m1, Ok tt) /\ rq w3 = [0 + 1; 1 + 1] /\
    (Release m2 s3 w3).1.1 = Ret (released m2, Err (ErrC "repost_recv" EINVAL))
  | _, _ => False
  end.
Proof. vm_compute. split_and!; reflexivity. Qed.
