(* ===== verification/VerbsStream.v ===== *)
(** * The verbs transport as a queue of frames

    System.v composes the two programs over a queue: a control message arrives as one
    frame outside the shared region, a payload as one frame with its offset.  Here the
    Go methods on the verbs connection (VerbsMsg.v, over the C code of VerbsSend.v) are
    shown to carry exactly such a queue.  [arrive] is what the peer's device sees of the
    posted requests, in order; [reads_as] says that the peer's RecvBorrowedMessage makes
    the frame of the queue of it. *)

From S2P Require Import Prelude Json ZcopyProto ZcopyServer System.
From S2P Require Import VerbsConfig VerbsConn VerbsRing VerbsSend VerbsSim VerbsSafe.
From S2P Require Import VerbsRecv VerbsMsg VerbsEnd.
From S2P Require Client.

(** ** Sending the messages of the programs *)

Section stream.
Context {W : Type} `{!Host W}.
#[local] Abbreviation G := (M W vconn GoErr).

(** A control message goes through SendMessage, a payload through SendMessageAt; [x.1]
    is where the caller's bytes lie. *)
Definition send_out (x : Z * outmsg) : G unit :=
  match x.2 with
  | OutCtl p => SendMessage {| p_addr := x.1; p_bytes := p |}
  | OutData p off => SendMessageAt {| p_addr := x.1; p_bytes := p |} off
  end.

Fixpoint send_all (l : list (Z * outmsg)) : G unit :=
  match l with
  | [] => ret tt
  | x :: l' => send_out x;; send_all l'
  end.
End stream.

(** What the client sends, as the same messages. *)
Definition client_out (s : Client.sentmsg) : list outmsg :=
  match s with
  | Client.SCtl m => match Encode m with Ok p => [OutCtl p] | Err _ => [] end
  | Client.SData p off => [OutData p off]
  end.

Lemma client_out_frames l : frames sent_frames l = frames out_frames (concat (client_out <$> l)).
Proof.
  induction l as [|s l IH]; [done|]. rewrite fmap_cons. cbn [concat]. rewrite frames_app, <- IH, frames_cons.
  f_equal. destruct s as [m|p off]; unfold frames; simpl; [case_match; simpl|]; by rewrite ?app_nil_r.
Qed.

(** ** What arrives *)

(** The window once all of [wrs] have been executed. *)
Definition window_after (base : Z) (m : list byte) (wrs : list send_wr) : list byte :=
  foldl (fun m wr => match wr_opcode wr with
                     | IBV_WR_RDMA_WRITE => write_remote base m wr
                     | IBV_WR_SEND => m
                     end) m wrs.

(** The frames the peer receives, each with the window at that time. *)
Fixpoint arrive (base : Z) (m : list byte) (wrs : list send_wr) : list (list byte * list byte) :=
  match wrs with
  | [] => []
  | wr :: wrs' =>
    match wr_opcode wr with
    | IBV_WR_RDMA_WRITE => arrive base (write_remote base m wr) wrs'
    | IBV_WR_SEND => (wr_data wr, m) :: arrive base m wrs'
    end
  end.

Lemma arrive_app base m l1 l2 :
  arrive base m (l1 ++ l2) = arrive base m l1 ++ arrive base (window_after base m l1) l2.
Proof.
  revert m. induction l1 as [|wr l1 IH]; intros m; simpl; [done|].
  destruct (wr_opcode wr); simpl; by rewrite IH.
Qed.

Lemma window_after_app base m l1 l2 :
  window_after base m (l1 ++ l2) = window_after base (window_after base m l1) l2.
Proof. apply foldl_app. Qed.

(** Writes alone bring no frame. *)
Lemma arrive_writes base m ws :
  Forall (fun wr => wr_opcode wr = IBV_WR_RDMA_WRITE) ws ->
  arrive base m ws = [] /\ window_after base m ws = foldl (write_remote base) m ws.
Proof.
  intros HF. revert m. induction HF as [|wr ws Hw _ IH]; intros m; simpl; [done|].
  rewrite Hw. apply IH.
Qed.

(** A receive slot does not lie in the shared memory of the connection. *)
Definition slot_outside (shared : slice) (addr len : Z) : Prop :=
  s_len shared = 0 \/ addr + len <= s_addr shared \/
  (len <= s_len shared < 2 ^ 64 /\ s_addr shared + s_len shared <= addr).

Lemma outside_offset shared addr len :
  0 <= len -> slot_outside shared addr len ->
  sharedMemoryOffset shared {| s_addr := addr; s_len := len |} = -1.
Proof.
  intros H0 Hout. unfold sharedMemoryOffset. simpl.
  destruct (len =? 0) eqn:El; [done|]. destruct (s_len shared =? 0) eqn:Es; [done|]. simpl. bool_facts.
  destruct Hout as [?|[?|[? ?]]]; [lia| |].
  - by rewrite (proj2 (Z.ltb_lt _ _)) by lia.
  - rewrite (proj2 (Z.ltb_ge _ _)) by lia.
    rewrite u64_id by lia. by rewrite (proj2 (Z.ltb_lt _ _)) by lia.
Qed.

(** ** A control message is not a notification *)

Lemma encode_not_notify m p : Encode m = Ok p -> 0 < blen p /\ parseWriteNotifyFrame p = None.
Proof.
  unfold Encode. case_match; [done|]. intros E1.
  assert (Hp : exists t, p = x7b :: t) by (injection E1 as <-; by eexists).
  destruct Hp as [t ->]. split; [unfold blen; simpl; lia|].
  unfold parseWriteNotifyFrame. case_match; [done|].
  destruct (negb (le_get (take 8 (x7b :: t)) =? rdmaWriteNotifyMagic)) eqn:E; [done|].
  apply negb_false_iff, Z.eqb_eq in E. exfalso. apply (f_equal (fun z => z mod 256)) in E.
  change (take 8 (x7b :: t)) with (x7b :: take 7 t) in E. cbn [le_get] in E.
  rewrite (Z.mul_comm 256), Z_mod_plus_full in E. vm_compute in E. done.
Qed.

(** ** The peer's side *)

(** A connection in order that lends the frame [fr] to its caller. *)
Record holding (s : vconn) (cr : conn) (addr : Z) (fr : recv_frame) : Prop := {
  h_cc : cc s = Some cr;
  h_open : id_open cr = true;
  h_window : window_unavailable cr = false;
  h_posted : notify_slots cr = true;
  h_has : has_last_notify_slot cr = true;
  h_slot : last_notify_slot cr = fr_slot fr;
  h_depth : fr_slot fr < notify_depth cr;
  h_len : 0 <= fr_len fr;
  h_outside : slot_outside (v_sharedRWMemory s) addr (fr_len fr);
}.

(** The frame [f] is handed out, unless the device refuses to take the slot of the
    notification back. *)
Definition hands_out {R} `{Host R} (f : ZcopyServer.frame) (s : vconn) (fr : recv_frame) (r : R)
    (o : outcome GoErr BorrowedMessage) : Prop :=
  match o with
  | Ret msg => SharedOffset msg = f_SharedOffset f /\ read_view (window_base s) (Payload msg) r = f_Payload f
  | Fail _ => 0 <= f_SharedOffset f /\ (rdma_post_recv (fr_slot fr + 1) r).1 <> None
  | Blocked | Diverged => False
  end.

(** Whatever the peer's device holds besides, a frame with the bytes [x.1] that it
    received when its window was [x.2] is handed out as the frame [f] of the queue. *)
Definition reads_as (c : conn) (f : ZcopyServer.frame) (x : list byte * list byte) : Prop :=
  forall R `(Host R) (s : vconn) (cr : conn) (r : R) (fr : recv_frame),
    holding s cr (slot_address (fr_slot fr)) fr -> peers c cr ->
    frame_bytes fr r = x.1 -> rw_memory r = x.2 ->
    hands_out f s fr r (borrow_frame fr s r).1.1.

(** The window once the payload of a frame is in place. *)
Definition place (m : list byte) (f : ZcopyServer.frame) : list byte :=
  if f_SharedOffset f <? 0 then m else splice (Z.to_nat (f_SharedOffset f)) (f_Payload f) m.

(** A write into the range of one of the frames, which the window contains. *)
Definition write_within (c : conn) (wr : send_wr) (f : ZcopyServer.frame) : Prop :=
  0 <= f_SharedOffset f /\
  f_SharedOffset f + blen (f_Payload f) <= peer_rw_cap c * peer_rw_slots c /\
  peer_rw_addr c + f_SharedOffset f <= wr_remote_addr wr /\
  wr_remote_addr wr + blen (wr_data wr) <= peer_rw_addr c + f_SharedOffset f + blen (f_Payload f).

Definition confined (c : conn) (fs : list ZcopyServer.frame) (wr : send_wr) : Prop :=
  wr_opcode wr = IBV_WR_SEND \/ Exists (write_within c wr) fs.

(** The requests [wrs] bring the frames [fs], whatever the window held, and write
    nothing else. *)
Record carries (c : conn) (wrs : list send_wr) (fs : list ZcopyServer.frame) : Prop := {
  ca_frames m : blen m = peer_rw_cap c * peer_rw_slots c ->
    Forall2 (reads_as c) fs (arrive (peer_rw_addr c) m wrs);
  ca_window m : blen m = peer_rw_cap c * peer_rw_slots c ->
    window_after (peer_rw_addr c) m wrs = foldl place m fs;
  ca_confined : Forall (confined c fs) wrs;
  ca_fits : Forall (fun f => 0 <= f_SharedOffset f ->
    f_SharedOffset f + blen (f_Payload f) <= peer_rw_cap c * peer_rw_slots c) fs;
}.

Lemma carries_nil c : carries c [] [].
Proof. by constructor; [constructor|..]. Qed.

Lemma confined_app c f1 f2 wr : confined c f1 wr \/ confined c f2 wr -> confined c (f1 ++ f2) wr.
Proof. unfold confined. rewrite Exists_app. tauto. Qed.

Lemma place_all_length n fs m :
  Forall (fun f => 0 <= f_SharedOffset f -> f_SharedOffset f + blen (f_Payload f) <= n) fs ->
  blen m = n -> blen (foldl place m fs) = n.
Proof.
  intros HF. revert m. induction HF as [|f fs Hf _ IH]; intros m Hm; simpl; [done|].
  apply IH. unfold place. case_match; bool_facts; [done|].
  unfold blen in *. rewrite length_splice; lia.
Qed.

Lemma carries_app c l1 l2 f1 f2 :
  carries c l1 f1 -> carries c l2 f2 -> carries c (l1 ++ l2) (f1 ++ f2).
Proof.
  intros H1 H2. constructor.
  - intros m Hm. rewrite arrive_app, (ca_window _ _ _ H1 m Hm).
    apply Forall2_app; [by apply H1|]. apply H2, place_all_length; [apply H1|done].
  - intros m Hm. rewrite window_after_app, foldl_app, (ca_window _ _ _ H1 m Hm).
    apply H2, place_all_length; [apply H1|done].
  - apply Forall_app. split; [eapply Forall_impl; [apply H1|]|eapply Forall_impl; [apply H2|]];
      intros wr Hwr; apply confined_app; tauto.
  - apply Forall_app. split; [apply H1|apply H2].
Qed.

Lemma control_reads_as c p m :
  parseWriteNotifyFrame p = None -> reads_as c (ctl_frame p) (p, m).
Proof.
  intros Hn R ? s cr r fr [] _ Hb _. simpl in Hb. unfold borrow_frame, bind, peek, get.
  rewrite Hb, Hn. simpl. split; [by apply outside_offset|done].
Qed.

(** The two calls into C that a notification leads to. *)
Lemma window_call {R} `{Host R} s cr (r : R) addr fr off len :
  holding s cr addr fr -> 0 < len < 2 ^ 32 -> 0 <= off < 2 ^ 32 ->
  0 <= rw_recv_cap (cfg cr) * rw_recv_slots (cfg cr) < 2 ^ 64 ->
  off + len <= rw_recv_cap (cfg cr) * rw_recv_slots (cfg cr) ->
  exists s', holding s' cr addr fr /\
    getRWRecvPayloadAt off len s r = (Ret (VWindow (rw_recv_buf (cfg cr) + off) len), s', r).
Proof.
  intros [] Hlen Hoff Htot Hend. exists (set_cc s (Some cr) (v_ready s)). split; [done|].
  assert (Hs : (rw_recv_slots (cfg cr) =? 0) = false) by (apply Z.eqb_neq; intros Hz; rewrite Hz in *; lia).
  unfold getRWRecvPayloadAt, check_closed, call_c, go_rdma_get_rw_recv_payload_at, check_open, bind, get, guard.
  rewrite (proj2 (Z.ltb_ge off 0)), (proj2 (Z.ltb_ge len 0)), (proj2 (Z.eqb_neq len 0)) by lia.
  cbn [ret]. rewrite h_cc0. cbn [ret]. rewrite h_cc0, h_open0. cbn [negb ret].
  rewrite h_window0, Hs. cbn [orb]. rewrite !u32_id by lia. rewrite !u64_id by lia.
  rewrite (proj2 (Z.ltb_ge _ _)) by lia. done.
Qed.

Lemma repost_call {R} `{Host R} s cr (r : R) addr fr :
  holding s cr addr fr ->
  match (RepostFrame s r).1.1 with
  | Ret _ => True
  | Fail _ => (rdma_post_recv (fr_slot fr + 1) r).1 <> None
  | Blocked | Diverged => False
  end.
Proof.
  intros []. unfold RepostFrame, repostRecvSlot, check_closed, call_c, bind, get. rewrite h_cc0.
  cbn [ret]. unfold go_rdma_repost_recv, go_rdma_release_last_recv_slot, go_rdma_post_notify_recv_slot,
    check_open, bind, get, guard.
  repeat progress (rewrite ?h_cc0, ?h_open0, ?h_has0, ?h_posted0, ?h_slot0; cbn [negb orb ret]).
  rewrite (proj2 (Z.leb_gt _ _)) by lia. unfold host_rc, modify. cbn [ret].
  by destruct (rdma_post_recv _ r) as [[e|] r'].
Qed.

Lemma payload_reads_as c d off n m :
  0 < blen d < 2 ^ 32 -> 0 <= off < 2 ^ 32 -> off + blen d <= blen m < 2 ^ 64 ->
  blen m = peer_rw_cap c * peer_rw_slots c ->
  n = notify_bytes {| n_magic := GO_RDMA_RW_NOTIFY_MAGIC; n_kind := GO_RDMA_RW_NOTIFY_KIND_WRITE_AT;
                      n_length := blen d; n_slot := off |} ->
  reads_as c {| f_Payload := d; f_SharedOffset := off |} (n, splice (Z.to_nat off) d m).
Proof.
  intros Hd Ho Hle Hm Hn R ? s cr r fr Hh (Hpa & Hpc & Hps) Hb Hrw. simpl in Hb, Hrw.
  rewrite Hpc, Hps in Hm.
  destruct (window_call s cr r _ fr off (blen d) Hh) as (s1 & Hh1 & Hcall); [lia..|].
  pose proof (repost_call s1 cr r _ fr Hh1) as Hre.
  unfold borrow_frame, bind at 1, peek. rewrite Hb, Hn. unfold bind at 1, get.
  rewrite parse_notify; [|by right|lia|lia].
  change (GO_RDMA_RW_NOTIFY_KIND_WRITE_AT =? GO_RDMA_RW_NOTIFY_KIND_WRITE_AT) with true. cbv iota.
  unfold bind at 1 2. rewrite Hcall. cbn [ret]. unfold bind.
  destruct (RepostFrame s1 r) as [[[[]|e| |] s2] r2]; simpl in *; try done; [|by split; [lia|]].
  split; [done|]. unfold window_base. rewrite (h_cc _ _ _ _ Hh), Hrw.
  replace (rw_recv_buf (cfg cr) + off - rw_recv_buf (cfg cr)) with off by lia.
  unfold blen at 1. rewrite Nat2Z.id. apply read_splice. unfold blen in Hle. lia.
Qed.

(** ** The sender's side *)

(** [c2] knows the same window of the peer as [c1], under the same configuration. *)
Definition same_peer (c1 c2 : conn) : Prop :=
  cfg c2 = cfg c1 /\ peer_rw_addr c2 = peer_rw_addr c1 /\ peer_rw_cap c2 = peer_rw_cap c1 /\
  peer_rw_slots c2 = peer_rw_slots c1.

Lemma sent_same_peer {W} `{!Host W, !HostGhost W} (c : conn) (w : W) l c' w' :
  sent c w l c' w' -> same_peer c c'.
Proof. by intros (_ & _ & _ & _ & _ & ->). Qed.

Lemma same_peer_carries c1 c2 wrs fs : same_peer c1 c2 -> carries c2 wrs fs -> carries c1 wrs fs.
Proof.
  intros (_ & Ha & Hc & Hs) [Hf Hw Hin Hfit]. rewrite Ha, Hc, Hs in *. constructor.
  - intros m Hm. eapply Forall2_impl; [by apply Hf|]. intros f x Hr R ? s cr r fr Hh (H1 & H2 & H3).
    apply (Hr R _ s cr r fr Hh). unfold peers. by rewrite Ha, Hc, Hs.
  - done.
  - unfold confined, write_within in *. by rewrite Ha, Hc, Hs in Hin.
  - done.
Qed.

Section sending.
Context {W : Type} `{!Host W, !HostGhost W, !HostLaws W}.
Implicit Types (s : vconn) (c : conn) (w : W).
#[local] Abbreviation G := (M W vconn GoErr).

(** A connection that is ready to send, as newVerbsMessageConn and the handshake leave
    it: a frame holds a notification, and the peer's window is known. *)
Record sender s c w : Prop := {
  sd_cc : cc s = Some c;
  sd_ready : v_ready s = true;
  sd_frame : v_framePayloadSize s = frame_cap (cfg c);
  sd_inline : v_inlineThreshold s <= frame_cap (cfg c);
  sd_cap : 20 <= frame_cap (cfg c) < 2 ^ 32;
  sd_window : peer_window_ok c;
  sd_ring : ring_inv c w;
}.

(** The messages the programs send: control messages that fit a frame, payloads whose
    length and offset fit the C code's 32 bits. *)
Definition sendable c (o : outmsg) : Prop :=
  match o with
  | OutCtl p => (exists m, Encode m = Ok p) /\ blen p <= frame_cap (cfg c)
  | OutData p off => blen p < 2 ^ 32 /\ 0 <= off < 2 ^ 32
  end.

Lemma sender_frame s c w w' : sender s c w -> frame w w' -> sender s c w'.
Proof. intros [] F. constructor; try done. eapply ring_inv_frame; try done; apply F. Qed.

Lemma sender_next s c w c' w' :
  sender s c w -> ring_inv c' w' -> same_peer c c' -> sender (set_cc s (Some c') (v_ready s)) c' w'.
Proof.
  intros [] HI (Hc & Ha & Hp & Hs). constructor; simpl; rewrite ?Hc; try done.
  unfold peer_window_ok in *. by rewrite Ha, Hp, Hs.
Qed.

(** What a message that was sent has led to. *)
Definition sent_as s c w (fs : list ZcopyServer.frame) (s' : vconn) (w' : W) : Prop :=
  exists c' wrs, sender s' c' w' /\ same_peer c c' /\
    posted (trace w') = posted (trace w) ++ wrs /\ carries c wrs fs.

Lemma sent_as_frame s c w0 w fs s' w' :
  frame w w0 -> sent_as s c w0 fs s' w' -> sent_as s c w fs s' w'.
Proof. intros (HT & _ & _). unfold sent_as. by rewrite HT. Qed.

Lemma wp_and {S E A} (m : M W S E A) (P Q : outcome E A -> S -> W -> Prop) (x : S) w :
  wp m P x w -> wp m Q x w -> wp m (fun o x' w' => P o x' w' /\ Q o x' w') x w.
Proof. unfold wp. by destruct (m x w) as [[o x'] w']. Qed.

(** A C call whose code becomes the error of the method. *)
Lemma wp_value_rc {A} op (m : M W conn Z A) (Q : A -> vconn -> W -> Prop) s c w :
  cc s = Some c ->
  wp m (fun o c' w' => forall a, o = Ret a -> Q a (set_cc s (Some c') (v_ready s)) w') c w ->
  wp (bind (call_c m) (fun r => of_rc op r)) (on_value Q) s w.
Proof.
  intros Hc Hm. apply wp_bind. eapply wp_call; [exact Hc|]. eapply wp_mono; [exact Hm|].
  intros [a|e| |] c' w' HQ; cbn [seq_post]; try done; unfold of_rc.
  - apply wp_ret. by apply HQ.
  - unfold rc_error. case_match; [|by apply wp_fail].
    apply wp_bind, wp_host. intros [x|] w4 _; cbn [seq_post]; by apply wp_fail.
Qed.

(** The checks the two methods start with, on a connection that is ready. *)
Lemma wp_value_ready (k : Z -> G unit) (Q : unit -> vconn -> W -> Prop) s c w :
  sender s c w ->
  (forall ms w', frame w w' -> sender s c w' -> wp (k ms) (on_value Q) s w') ->
  wp (bind check_closed (fun _ => bind ensureReady (fun _ => bind rdmaContextTimeoutMillis k)))
     (on_value Q) s w.
Proof.
  intros Hs Hk. unfold check_closed. apply wp_bind, wp_bind, wp_get. cbn [seq_post].
  rewrite (sd_cc _ _ _ Hs). apply wp_ret. cbn [seq_post].
  unfold ensureReady. apply wp_bind, wp_bind, wp_get. cbn [seq_post]. rewrite (sd_ready _ _ _ Hs).
  apply wp_ret. cbn [seq_post]. apply wp_value_timeout. intros ms w' F. apply Hk; [done|].
  by eapply sender_frame.
Qed.

(** A frame that fits is one SEND. *)
Lemma one_frame c cap l p :
  frames_of cap l p -> blen p <= cap -> parseWriteNotifyFrame p = None -> carries c l [ctl_frame p].
Proof.
  intros Hl Hle Hn. destruct l as [|wr [|wr' l]]; [done| |destruct Hl as (_ & _ & _ & Hlt & _); lia].
  destruct Hl as (Hop & _ & Hd & _). constructor; simpl; rewrite ?Hop, ?Hd.
  - intros m _. constructor; [by apply control_reads_as|constructor].
  - done.
  - constructor; [by left|constructor].
  - constructor; [done|constructor].
Qed.

(** Writes followed by their notification are one data frame. *)
Lemma one_write c ws ns d off :
  peer_window_ok c -> 0 < blen d < 2 ^ 32 -> 0 <= off < 2 ^ 32 ->
  off + blen d <= peer_rw_cap c * peer_rw_slots c ->
  Forall (fun wr => wr_opcode wr = IBV_WR_RDMA_WRITE /\ wr_rkey wr = peer_rw_rkey c /\
            peer_rw_addr c + off <= wr_remote_addr wr /\
            wr_remote_addr wr + blen (wr_data wr) <= peer_rw_addr c + off + blen d) ws ->
  (forall m, blen m = peer_rw_cap c * peer_rw_slots c ->
     foldl (write_remote (peer_rw_addr c)) m ws = splice (Z.to_nat off) d m) ->
  concat (wr_data <$> ns) =
    notify_bytes {| n_magic := GO_RDMA_RW_NOTIFY_MAGIC; n_kind := GO_RDMA_RW_NOTIFY_KIND_WRITE_AT;
                    n_length := blen d; n_slot := off |} ->
  length ns = 1%nat -> Forall (fun wr => wr_opcode wr = IBV_WR_SEND) ns ->
  carries c (ws ++ ns) [{| f_Payload := d; f_SharedOffset := off |}].
Proof.
  intros (_ & Hc & Hs & _) Hd Ho Hend Hws Hmem Hns Hone Hop.
  destruct ns as [|n [|]]; try done. apply Forall_inv in Hop.
  simpl in Hns. rewrite app_nil_r in Hns.
  assert (Hwr : Forall (fun wr => wr_opcode wr = IBV_WR_RDMA_WRITE) ws)
    by (eapply Forall_impl; [exact Hws|]; by intros x [? _]).
  pose proof (fun m => arrive_writes (peer_rw_addr c) m ws Hwr) as Haw. constructor.
  - intros m Hm. destruct (Haw m) as [Ha Hw]. rewrite arrive_app, Ha, Hw, (Hmem m Hm). simpl. rewrite Hop.
    constructor; [|constructor]. rewrite Hns. eapply payload_reads_as; try done. nia.
  - intros m Hm. destruct (Haw m) as [Ha Hw]. rewrite window_after_app, Hw, (Hmem m Hm). simpl. rewrite Hop.
    unfold place. simpl. by rewrite (proj2 (Z.ltb_ge off 0)) by lia.
  - apply Forall_app. split; [|constructor; [by left|constructor]].
    eapply Forall_impl; [exact Hws|]. intros x (_ & _ & H1 & H2). right. constructor.
    unfold write_within. simpl. lia.
  - constructor; [done|constructor].
Qed.

Lemma ptr_read_all p : ptr_read p (blen (p_bytes p)) = p_bytes p.
Proof. unfold ptr_read. apply firstn_all2. unfold blen. lia. Qed.

Lemma send_control_sends p s c w :
  sender s c w -> sendable c (OutCtl (p_bytes p)) ->
  wp (SendMessage p : G unit) (on_value (fun _ => sent_as s c w [ctl_frame (p_bytes p)])) s w.
Proof.
  intros Hs [[m Hm] Hle]. destruct (encode_not_notify _ _ Hm) as [Hpos Hn].
  pose proof (sd_cap _ _ _ Hs). unfold SendMessage.
  apply wp_value_check_ctx. intros w1 F1.
  apply (wp_value_ready _ _ s c w1); [by eapply sender_frame|]. intros ms w2 F2 Hs2.
  pose proof (frame_trans _ _ _ F1 F2) as F. apply wp_bind, wp_get. cbn [seq_post].
  rewrite (sd_frame _ _ _ Hs). pose proof (sd_inline _ _ _ Hs).
  replace ((if v_inlineThreshold s <? frame_cap (cfg c) then frame_cap (cfg c) else v_inlineThreshold s)
    <? blen (p_bytes p)) with false by (symmetry; case_match; bool_facts; apply Z.ltb_ge; lia).
  unfold payload_ptr. rewrite (proj2 (Z.ltb_lt 0 (blen (p_bytes p)))) by lia. rewrite u32_id by lia.
  eapply wp_value_rc; [apply Hs|]. eapply wp_mono; [apply send_message_spec; [apply Hs2|lia..]|].
  intros o c' w' (HI & _ & wrs & HS & HP) [] Ho. specialize (HP Ho).
  rewrite ptr_read_all in HP. apply (sent_as_frame _ _ w2); [done|].
  pose proof (sent_same_peer _ _ _ _ _ HS) as Hp. exists c', wrs. split_and!.
  - by eapply sender_next.
  - done.
  - apply HS.
  - by eapply one_frame.
Qed.

Lemma send_payload_sends p off s c w :
  sender s c w -> sendable c (OutData (p_bytes p) off) ->
  wp (SendMessageAt p off : G unit) (on_value (fun _ => sent_as s c w (data_frames (p_bytes p) off))) s w.
Proof.
  intros Hs [Hlt Hoff]. pose proof (blen_nonneg (p_bytes p)). pose proof (sd_cap _ _ _ Hs).
  unfold SendMessageAt. apply wp_value_check_ctx. intros w1 F1.
  rewrite (proj2 (Z.ltb_ge off 0)) by lia. apply wp_bind, wp_ret. cbn [seq_post].
  apply (wp_value_ready _ _ s c w1); [by eapply sender_frame|]. intros ms w2 F2 Hs2.
  pose proof (frame_trans _ _ _ F1 F2) as F. rewrite !u32_id by lia.
  eapply wp_value_rc; [apply Hs|]. unfold payload_ptr, data_frames.
  destruct (blen (p_bytes p) =? 0) eqn:E0; bool_facts.
  - rewrite E0. change (0 <? 0) with false. unfold go_rdma_send_message_rw_at, check_open.
    apply wp_bind, wp_bind, wp_get. cbn [seq_post]. apply wp_guard; intros _; cbn [seq_post]; [done|].
    apply wp_ret. intros [] _. apply (sent_as_frame _ _ w2); [done|]. exists c, [].
    split_and!; [|done|by rewrite app_nil_r|apply carries_nil].
    eapply sender_next; [done|apply Hs2|done].
  - rewrite (proj2 (Z.ltb_lt 0 _)) by lia.
    eapply wp_mono; [apply wp_and;
      [apply send_message_rw_at_spec|apply send_message_rw_at_effect]; try apply Hs2; lia|].
    intros o c' w' [(HI & _ & wrs & HS & _) HE] [] Ho. specialize (HE Ho).
    apply (sent_as_frame _ _ w2); [done|].
    destruct HE as (ws & ns & Hpost & _ & Hend & Hws & Hmem & Hns & Hone & _ & Hop).
    exists c', (ws ++ ns). pose proof (sent_same_peer _ _ _ _ _ HS). split_and!; try done.
    + by eapply sender_next.
    + apply one_write; try done; try lia; [apply Hs|].
      intros m Hm. rewrite (Hmem m Hm). f_equal. apply (ptr_read_all p).
Qed.

Lemma send_out_sends x s c w :
  sender s c w -> sendable c x.2 ->
  wp (send_out x : G unit) (on_value (fun _ => sent_as s c w (out_frames x.2))) s w.
Proof.
  intros Hs Hx. unfold send_out. destruct x as [a [p|p off]]; simpl in *.
  - by apply (send_control_sends {| p_addr := a; p_bytes := p |}).
  - by apply (send_payload_sends {| p_addr := a; p_bytes := p |}).
Qed.

Lemma sendable_same_peer c1 c2 o : same_peer c1 c2 -> sendable c1 o -> sendable c2 o.
Proof. intros [Hc _]. unfold sendable. by rewrite Hc. Qed.

Lemma send_all_sends l s c w :
  sender s c w -> Forall (fun x => sendable c x.2) l ->
  wp (send_all l : G unit) (on_value (fun _ => sent_as s c w (frames out_frames (snd <$> l)))) s w.
Proof.
  revert s c w. induction l as [|x l IH]; intros s c w Hs Hl; cbn [send_all].
  { apply wp_ret. exists c, []. split_and!; [done|done|by rewrite app_nil_r|apply carries_nil]. }
  apply Forall_cons in Hl as [Hx Hl].
  eapply wp_value_bind; [by apply send_out_sends|].
  intros [] s1 w1 (c1 & l1 & Hs1 & Hp1 & Ht1 & Hc1).
  eapply wp_mono; [apply (IH s1 c1 w1); [done|]|].
  { eapply Forall_impl; [exact Hl|]. intros y. by apply sendable_same_peer. }
  intros [[]|e| |] s2 w2; try done. intros (c2 & l2 & Hs2 & Hp2 & Ht2 & Hc2).
  exists c2, (l1 ++ l2). split_and!; [done| |by rewrite Ht2, Ht1, app_assoc|].
  - destruct Hp1 as (? & ? & ? & ?), Hp2 as (? & ? & ? & ?). repeat split; congruence.
  - rewrite fmap_cons, frames_cons. apply carries_app; [done|]. by eapply same_peer_carries.
Qed.

(** C3: the verbs transport is the queue the two programs are composed over, for the
    messages it can carry whole ([sendable]): control messages that fit one SEND frame,
    and payloads of less than 2^32 bytes at an offset below 2^32; on a connection that is
    ready, whose frames hold at least a notification and whose inline threshold is within
    a frame ([sender]).  When a sequence of such sends (control messages by SendMessage,
    payloads by SendMessageAt) succeeds, the requests it has posted reach the peer, in
    order, as exactly the frames of the queue, one for each control message and for each
    non-empty payload and nothing else; and RecvBorrowedMessage of a connection in order
    that has received such a frame, its window being as it was when the frame arrived,
    hands out a message with the frame's offset and bytes, unless the device refuses to
    take back the notification's slot.  (A control message that is longer than a frame is
    written to the window or cut, [oversized_message_is_split], and an offset or length
    from 2^32 on is truncated.) *)
Theorem transport_refines_queue l s c w :
  sender s c w -> Forall (fun x => sendable c x.2) l ->
  wp (send_all l : G unit)
     (on_value (fun _ _ w' => exists wrs,
        posted (trace w') = posted (trace w) ++ wrs /\
        forall m, blen m = peer_rw_cap c * peer_rw_slots c ->
          Forall2 (reads_as c) (frames out_frames (snd <$> l)) (arrive (peer_rw_addr c) m wrs))) s w.
Proof.
  intros Hs Hl. eapply wp_mono; [by apply send_all_sends|].
  intros [[]|e| |] s' w'; try done. intros (c' & wrs & _ & _ & Hw & Hc). exists wrs.
  split; [done|]. intros m Hm. by apply Hc.
Qed.
(** *** A payload in the window while others are written *)

(** Requests that write apart from a range leave it as it is. *)
Lemma window_keeps c wrs fs m off n :
  0 <= off -> 0 <= n -> Forall (confined c fs) wrs -> blen m = peer_rw_cap c * peer_rw_slots c ->
  Forall (fun f => f_SharedOffset f < 0 \/
            f_SharedOffset f + blen (f_Payload f) <= off \/ off + n <= f_SharedOffset f) fs ->
  take (Z.to_nat n) (drop (Z.to_nat off) (window_after (peer_rw_addr c) m wrs)) =
  take (Z.to_nat n) (drop (Z.to_nat off) m).
Proof.
  intros Ho Hn Hin Hm Hap. revert m Hm. induction Hin as [|wr wrs Hwr _ IH]; intros m Hm; simpl; [done|].
  destruct (wr_opcode wr) eqn:Eop; [by apply IH|].
  destruct Hwr as [?|Hex]; [congruence|].
  apply list.Exists_exists in Hex as (f & Hf & H1 & H2 & H3 & H4).
  rewrite Forall_forall in Hap. specialize (Hap f Hf). pose proof (blen_nonneg (wr_data wr)).
  assert (Hfit : (Z.to_nat (wr_remote_addr wr - peer_rw_addr c) + length (wr_data wr) <= length m)%nat)
    by (unfold blen in *; lia).
  rewrite IH; [|unfold write_remote, blen in *; by rewrite length_splice].
  apply take_drop_splice; [done|]. unfold blen in *. lia.
Qed.

Lemma apart_frames off n (l : list (Z * outmsg)) :
  Forall (fun x => apart off n x.2) l ->
  Forall (fun f => f_SharedOffset f < 0 \/ f_SharedOffset f + blen (f_Payload f) <= off \/
            off + n <= f_SharedOffset f) (frames out_frames (snd <$> l)).
Proof.
  induction 1 as [|[b [p|p o]] l Hx _ IH]; [constructor| |];
    rewrite fmap_cons, frames_cons; apply Forall_app; (split; [|done]); simpl in *.
  - constructor; [by left|constructor].
  - unfold data_frames. case_match; constructor; [|constructor]. bool_facts. simpl. lia.
Qed.

Lemma send_all_app l1 l2 s w :
  send_all (l1 ++ l2) s w = bind (send_all l1) (fun _ => send_all l2 : G unit) s w.
Proof.
  revert s w. induction l1 as [|x l1 IH]; intros s w; [done|].
  cbn [app send_all]. unfold bind in *. destruct (send_out x s w) as [[[[]|e| |] s1] w1]; [apply IH|done..].
Qed.

(** C4: a payload stays in the peer's window while others are written elsewhere: when a
    sequence of sends of messages the transport can carry whole ([sendable], [sender])
    succeeds in which the messages after a non-empty payload put nothing into the
    payload's range, then from the moment the payload's frame arrives, and between any two
    of the requests that follow, the window holds the payload at its offset. *)
Theorem payload_survives_later_sends l1 a d off l2 s c w :
  sender s c w -> Forall (fun x => sendable c x.2) (l1 ++ (a, OutData d off) :: l2) -> 0 < blen d ->
  Forall (fun x => apart off (blen d) x.2) l2 ->
  wp (send_all (l1 ++ (a, OutData d off) :: l2) : G unit)
     (on_value (fun _ _ w' => exists r1 r2,
        posted (trace w') = posted (trace w) ++ r1 ++ r2 /\
        forall m, blen m = peer_rw_cap c * peer_rw_slots c ->
          (exists x, last (arrive (peer_rw_addr c) m r1) = Some x /\
             reads_as c {| f_Payload := d; f_SharedOffset := off |} x) /\
          forall k, take (length d) (drop (Z.to_nat off)
            (window_after (peer_rw_addr c) m (r1 ++ take k r2))) = d)) s w.
Proof.
  intros Hs Hl Hd Hap.
  assert (Heq : l1 ++ (a, OutData d off) :: l2 = (l1 ++ [(a, OutData d off)]) ++ l2)
    by (by rewrite <- app_assoc).
  rewrite Heq in *. apply Forall_app in Hl as [Hl1 Hl2].
  unfold wp. rewrite send_all_app.
  eapply (wp_value_bind _ _ _ _ s w); [by apply send_all_sends|].
  intros [] s1 w1 (c1 & r1 & Hs1 & Hp1 & Ht1 & [Hf1 Hw1 _ Hfit]).
  eapply wp_mono; [apply (send_all_sends l2 s1 c1 w1); [done|]|].
  { eapply Forall_impl; [exact Hl2|]. intros y. by apply sendable_same_peer. }
  intros [[]|e| |] s2 w2; try done. intros (c2 & r2 & _ & _ & Ht2 & Hc2).
  apply (same_peer_carries _ _ _ _ Hp1) in Hc2. exists r1, r2.
  split; [by rewrite Ht2, Ht1, app_assoc|]. intros m Hm.
  set (f := {| f_Payload := d; f_SharedOffset := off |}).
  assert (Hfs : frames out_frames (snd <$> l1 ++ [(a, OutData d off)]) = frames out_frames (snd <$> l1) ++ [f]).
  { rewrite fmap_app, frames_app. f_equal. unfold frames. simpl. unfold data_frames.
    by rewrite (proj2 (Z.eqb_neq _ 0)) by lia. }
  rewrite Hfs in *. specialize (Hf1 m Hm). split.
  - apply Forall2_app_inv_l in Hf1 as (x1 & x2 & _ & H2 & ->).
    apply Forall2_cons_inv_l in H2 as (x & y & Hx & Hy & ->). apply Forall2_nil_inv_l in Hy as ->.
    exists x. by rewrite last_snoc.
  - intros k. rewrite window_after_app, (Hw1 m Hm).
    pose proof (place_all_length _ _ m Hfit Hm) as Hlen.
    pose proof (Forall_inv (proj2 (proj1 (Forall_app _ _ _) Hl1))) as [_ Hoff]. simpl in Hoff.
    pose proof (window_keeps c (take k r2) _ _ off (blen d) ltac:(lia) ltac:(lia)
      (Forall_take _ _ _ (ca_confined _ _ _ Hc2)) Hlen (apart_frames _ _ _ Hap)) as Hk.
    unfold blen in Hk at 1 2. rewrite !Nat2Z.id in Hk. etrans; [exact Hk|].
    apply Forall_app in Hfit as [Hfit1 Hfit%Forall_inv]. simpl in Hfit.
    rewrite foldl_app. simpl. unfold place at 1. simpl. rewrite (proj2 (Z.ltb_ge off 0)) by lia.
    apply read_splice. pose proof (place_all_length _ _ m Hfit1 Hm). unfold blen in *. lia.
Qed.
End sending.

(** ** A run on the simulated device *)

(** An acknowledgement, as long as a notification, then a payload, nothing for an empty
    one, and an acknowledgement again. *)
Definition sample_ack : list byte :=
  match Encode (Client.ack_message 1) with Ok p => p | Err _ => [] end.
Definition sample_stream : list (Z * outmsg) :=
  [(0, OutCtl sample_ack); (65536, OutData (p_bytes (sample_ptr 100)) 20); (0, OutData [] 5);
   (0, OutCtl sample_ack)].

(** The receiver of the sender's window. *)
Definition sample_peer : conn :=
  {| id_open := true;
     cfg := {| send_depth := 4; send_signal_interval := 16; recv_depth := 2; frame_cap := 32;
               inline_threshold := 0; send_cq_null := false; recv_cq_null := false;
               comp_channels := true; rw_recv_buf := 8192; rw_recv_mr := true;
               rw_recv_rkey := 9; rw_recv_cap := 128; rw_recv_slots := 1 |};
     send_buf := ∅; send_completed := 0; tx_prod := 0; notify_slots := true;
     notify_depth := 2; last_notify_slot := 0; has_last_notify_slot := false;
     peer_rw_addr := 4096; peer_rw_rkey := 7; peer_rw_cap := 128; peer_rw_slots := 1;
     rw_send_seq := 0; rw_ready := true |}.

Lemma sample_sender : sender (go_conn sim_conn) sim_conn sim_world.
Proof. by constructor. Qed.

Lemma sample_sendable : Forall (fun x => sendable sim_conn x.2) sample_stream.
Proof.
  assert (Hack : sendable sim_conn (OutCtl sample_ack)).
  { split; [exists (Client.ack_message 1)|]; by vm_compute. }
  apply Forall_cons; split; [exact Hack|].
  apply Forall_cons; split; [by vm_compute|]. apply Forall_cons; split; [by vm_compute|].
  apply Forall_cons; split; [exact Hack|constructor].
Qed.

Lemma transport_refines_queue_witness :
  blen sample_ack = 20 /\
  (send_all sample_stream (go_conn sim_conn) sim_world).1.1 = Ret tt /\
  (let r := deliver 8192 (send_all sample_stream (go_conn sim_conn) sim_world).2 (world_with []) in
   let recv := RecvMessage in
   (bind recv (fun a => bind recv (fun b => bind recv (fun d => ret [a; b; d])))
      (go_conn sample_peer) r).1.1 = Ret [sample_ack; p_bytes (sample_ptr 100); sample_ack]) /\
  wp (send_all sample_stream : M sim vconn GoErr unit)
     (on_value (fun _ _ w' => exists wrs, posted (trace w') = wrs /\
        Forall2 (reads_as sim_conn)
          [ctl_frame sample_ack; {| f_Payload := p_bytes (sample_ptr 100); f_SharedOffset := 20 |};
           ctl_frame sample_ack]
          (arrive 8192 (replicate 128 x00) wrs))) (go_conn sim_conn) sim_world.
Proof.
  split; [by vm_compute|]. split; [by vm_compute|]. split; [by vm_compute|].
  eapply wp_mono; [apply (transport_refines_queue sample_stream (go_conn sim_conn) sim_conn sim_world)|].
  - apply sample_sender.
  - apply sample_sendable.
  - intros [a|e| |] s' w' HP; try done. destruct HP as (wrs & Hw & Hf). exists wrs.
    split; [exact Hw|]. exact (Hf (replicate 128 x00) eq_refl).
Defined.

(** A payload at 20, an acknowledgement, and a payload before it. *)
Definition sample_tail : list (Z * outmsg) :=
  [(0, OutCtl sample_ack); (131072, OutData (p_bytes (sample_ptr 15)) 5)].
Definition sample_late : list (Z * outmsg) :=
  [] ++ (65536, OutData (p_bytes (sample_ptr 100)) 20) :: sample_tail.

Lemma sample_late_sendable : Forall (fun x => sendable sim_conn x.2) sample_late.
Proof.
  apply Forall_cons; split; [by vm_compute|]. apply Forall_cons; split.
  { split; [exists (Client.ack_message 1)|]; by vm_compute. }
  apply Forall_cons; split; [by vm_compute|constructor].
Qed.

Lemma payload_survives_later_sends_witness :
  (send_all sample_late (go_conn sim_conn) sim_world).1.1 = Ret tt /\
  wp (send_all sample_late : M sim vconn GoErr unit)
     (on_value (fun _ _ w' => exists r1 r2, posted (trace w') = r1 ++ r2 /\
        take 100 (drop 20 (window_after 8192 (replicate 128 x00) (r1 ++ take 2 r2))) =
        p_bytes (sample_ptr 100))) (go_conn sim_conn) sim_world.
Proof.
  split; [by vm_compute|].
  eapply wp_mono; [apply (payload_survives_later_sends [] 65536 (p_bytes (sample_ptr 100)) 20 sample_tail
    (go_conn sim_conn) sim_conn sim_world)|].
  - apply sample_sender.
  - apply sample_late_sendable.
  - by vm_compute.
  - apply Forall_cons; split; [done|]. apply Forall_cons; split; [|constructor].
    right. left. by vm_compute.
  - intros [u|e| |] s' w' HP; try done. destruct HP as (r1 & r2 & Hw & Hf). exists r1, r2.
    split; [exact Hw|]. destruct (Hf (replicate 128 x00) eq_refl) as [_ Hk]. exact (Hk 2%nat).
Defined.
