(* ===== verification/VerbsSetup.v ===== *)
(** * Setting up and tearing down a verbs connection (pkg/rdma/verbs_linux_cgo.go)

    go_rdma_open, go_rdma_listen, go_rdma_accept and the functions that free what they
    acquire.  The calls that create and destroy objects of librdmacm, libibverbs and
    the allocator are the class [CmHost]; what is allocated is kept beside the world in
    a [heap], as a set of resources each named by its owner's serial number and its
    kind.  Acquiring what is held already or releasing what is not sets [fault].
    The handshake runs the code of VerbsRecv.v on the same heap: [accounted] counts the
    receive slots it allocates. *)

From S2P Require Import Prelude VerbsConfig VerbsConn VerbsRing VerbsSend VerbsRecv.

(** ** Resources *)

Inductive kind :=
| KConn | KChannel | KId | KPd | KSendComp | KRecvComp | KSendCQ | KRecvCQ | KQp
| KSendBuf | KSendMR | KRwBuf | KRwMR | KSlots | KSlotBuf (i : Z) | KSlotMR (i : Z)
| KListener | KAddrInfo.

Definition kind_code (k : kind) : Z * Z :=
  match k with
  | KConn => (0, 0) | KChannel => (1, 0) | KId => (2, 0) | KPd => (3, 0) | KSendComp => (4, 0)
  | KRecvComp => (5, 0) | KSendCQ => (6, 0) | KRecvCQ => (7, 0) | KQp => (8, 0)
  | KSendBuf => (9, 0) | KSendMR => (10, 0) | KRwBuf => (11, 0) | KRwMR => (12, 0)
  | KSlots => (13, 0) | KSlotBuf i => (14, i) | KSlotMR i => (15, i)
  | KListener => (16, 0) | KAddrInfo => (17, 0)
  end.

Definition kind_of (c : Z * Z) : option kind :=
  match c with
  | (0, _) => Some KConn | (1, _) => Some KChannel | (2, _) => Some KId | (3, _) => Some KPd
  | (4, _) => Some KSendComp | (5, _) => Some KRecvComp | (6, _) => Some KSendCQ
  | (7, _) => Some KRecvCQ | (8, _) => Some KQp | (9, _) => Some KSendBuf
  | (10, _) => Some KSendMR | (11, _) => Some KRwBuf | (12, _) => Some KRwMR
  | (13, _) => Some KSlots | (14, i) => Some (KSlotBuf i) | (15, i) => Some (KSlotMR i)
  | (16, _) => Some KListener | (17, _) => Some KAddrInfo
  | _ => None
  end.

#[export] Instance kind_eq_dec : EqDecision kind.
Proof. solve_decision. Defined.
#[export] Instance kind_countable : Countable kind.
Proof. apply (inj_countable kind_code kind_of). by intros []. Defined.

Definition resource : Type := Z * kind.

(** [live]: what is allocated.  [ptrs]: the pointer fields of the connection [cur] that
    are not NULL, those of its receive slots included; [cm_id]: its [id]. *)
Record heap := {
  live : gset resource;
  ptrs : gset kind;
  cm_id : option Z;
  cur : Z;
  next : Z;
  fault : bool;
}.

Definition set_live (h : heap) (l : gset resource) (p : gset kind) (f : bool) : heap :=
  {| live := l; ptrs := p; cm_id := cm_id h; cur := cur h; next := next h; fault := fault h || f |}.

Definition own (h : heap) (r : resource) : heap :=
  set_live h ({[r]} ∪ live h) (ptrs h) (bool_decide (r ∈ live h)).
Definition disown (h : heap) (r : resource) : heap :=
  set_live h (live h ∖ {[r]}) (ptrs h) (bool_decide (r ∉ live h)).
Definition set_ptr (h : heap) (k : kind) : heap := set_live h (live h) ({[k]} ∪ ptrs h) false.
Definition clear_ptr (h : heap) (k : kind) : heap := set_live h (live h) (ptrs h ∖ {[k]}) false.
Definition set_cm_id (h : heap) (i : option Z) : heap :=
  {| live := live h; ptrs := ptrs h; cm_id := i; cur := cur h; next := next h; fault := fault h |}.

(** A new resource of its own. *)
Definition own_fresh (h : heap) (k : kind) : heap :=
  own {| live := live h; ptrs := ptrs h; cm_id := cm_id h; cur := cur h; next := next h + 1;
         fault := fault h |} (next h, k).

(** A new connection, zeroed by [calloc]. *)
Definition new_conn (h : heap) : heap :=
  own {| live := live h; ptrs := ∅; cm_id := None; cur := next h; next := next h + 1;
         fault := fault h |} (next h, KConn).

(** ** The libraries *)

Inductive cm_op :=
| OpCalloc | OpCreateEventChannel | OpCreateId | OpResolveAddr (timeout_ms : Z)
| OpResolveRoute (timeout_ms : Z) | OpAllocPd | OpCreateCompChannel | OpCreateCQ (capacity : Z)
| OpCreateQP (max_send_wr max_recv_wr max_inline_data : Z) | OpMalloc (size : Z)
| OpRegMsgs (size : Z) | OpRegWindow (size : Z) (remote_read : bool) | OpConnect | OpAccept
| OpMigrate | OpBind | OpListen (backlog : Z) | OpDisconnect | OpReject | OpDestroy (r : resource).

Inductive cm_event_type :=
| ADDR_RESOLVED | ROUTE_RESOLVED | CONNECT_REQUEST | ESTABLISHED | DISCONNECTED | REJECTED
| CONNECT_ERROR | UNREACHABLE | ADDR_CHANGE | TIMEWAIT_EXIT | OtherEvent.

#[export] Instance cm_event_type_eq_dec : EqDecision cm_event_type.
Proof. solve_decision. Defined.

(** [ev_id] is the serial number of the event's id, [None] for NULL. *)
Record cm_event := { ev_type : cm_event_type; ev_status : Z; ev_id : option Z }.

(** [cm_call]: whether a call succeeds.  [errno] is the thread's errno, [gai] the result
    of rdma_getaddrinfo, [gai_src] and [gai_dst] whether it found addresses,
    [buffer_addr] and [mr_rkey] what the allocation and the registration just made hold. *)
Class CmHost (W : Type) := {
  cm_call : cm_op -> W -> bool * W;
  errno : W -> Z;
  gai : W -> Z * W;
  gai_src : W -> bool;
  gai_dst : W -> bool;
  cm_poll : Z -> W -> poll_fd_result * W;
  get_cm_event : W -> option cm_event * W;
  buffer_addr : W -> Z;
  mr_rkey : W -> Z;
}.

(** ** The handshake's allocations *)

(** An allocation by the connection [cur] into one of its pointer fields. *)
Definition hold (h : heap) (k : kind) : heap := set_ptr (own h (cur h, k)) k.

Definition on_fst {W X A} (f : W -> A * W) (x : W * X) : A * (W * X) :=
  let '(a, w) := f x.1 in (a, (w, x.2)).

Definition counting {W} (k : kind) (f : W -> option Z * W) (x : W * heap) : option Z * (W * heap) :=
  match f x.1 with
  | (None, w) => (None, (w, hold x.2 k))
  | (Some e, w) => (Some e, (w, x.2))
  end.

#[export] Instance accounted {W} `{Host W} : Host (W * heap) := {|
  poll_budget := poll_budget;
  ibv_post_send wr := on_fst (ibv_post_send wr);
  ibv_poll_cq q := on_fst (ibv_poll_cq q);
  ibv_req_notify_cq q := on_fst (ibv_req_notify_cq q);
  ibv_get_cq_event q := on_fst (ibv_get_cq_event q);
  poll_fd q ms := on_fst (poll_fd q ms);
  now_monotonic_us := on_fst now_monotonic_us;
  sleep_us us := on_fst (sleep_us us);
  ibv_reg_mr a n := on_fst (ibv_reg_mr a n);
  ibv_dereg_mr := on_fst ibv_dereg_mr;
  rdma_post_recv i := on_fst (rdma_post_recv i);
  alloc_notify_slots n := counting KSlots (alloc_notify_slots n);
  alloc_notify_buf i := counting (KSlotBuf i) (alloc_notify_buf i);
  reg_notify_buf i := counting (KSlotMR i) (reg_notify_buf i);
  ctx_Err := on_fst ctx_Err;
  ctx_until_deadline := on_fst ctx_until_deadline;
  slot_address := slot_address;
  slot_memory x := slot_memory x.1;
  rw_memory x := rw_memory x.1;
|}.

(** ** The code *)

Definition UINT32_MAX : Z := 2 ^ 32 - 1.
Definition EOVERFLOW : Z := 75.
Definition GO_RDMA_ACCEPT_POLL_TIMEOUT_MS : Z := 100.
Definition GO_RDMA_ACCEPT_HANDSHAKE_TIMEOUT_MS : Z := 15000.

(** The rest of the struct of a connection being set up. *)
Record setup := { rc : conn; manual_resources : bool; rw_recv_external : bool }.

Definition zero_cfg : conn_cfg :=
  {| send_depth := 0; send_signal_interval := 0; recv_depth := 0; frame_cap := 0;
     inline_threshold := 0; send_cq_null := true; recv_cq_null := true; comp_channels := false;
     rw_recv_buf := 0; rw_recv_mr := false; rw_recv_rkey := 0; rw_recv_cap := 0; rw_recv_slots := 0 |}.

Definition zero_conn : conn :=
  {| id_open := false; cfg := zero_cfg; send_buf := ∅; send_completed := 0; tx_prod := 0;
     notify_slots := false; notify_depth := 0; last_notify_slot := 0; has_last_notify_slot := false;
     peer_rw_addr := 0; peer_rw_rkey := 0; peer_rw_cap := 0; peer_rw_slots := 0;
     rw_send_seq := 0; rw_ready := false |}.

Definition zero_setup : setup :=
  {| rc := zero_conn; manual_resources := false; rw_recv_external := false |}.

Definition with_cfg (c : conn) (open : bool) (g : conn_cfg) : conn :=
  {| id_open := open; cfg := g; send_buf := send_buf c; send_completed := send_completed c;
     tx_prod := tx_prod c; notify_slots := notify_slots c; notify_depth := notify_depth c;
     last_notify_slot := last_notify_slot c; has_last_notify_slot := has_last_notify_slot c;
     peer_rw_addr := peer_rw_addr c; peer_rw_rkey := peer_rw_rkey c; peer_rw_cap := peer_rw_cap c;
     peer_rw_slots := peer_rw_slots c; rw_send_seq := rw_send_seq c; rw_ready := rw_ready c |}.

Definition with_rc (s : setup) (c : conn) : setup :=
  {| rc := c; manual_resources := manual_resources s; rw_recv_external := rw_recv_external s |}.

(** [conn->id = id] *)
Definition set_open (s : setup) : setup := with_rc s (with_cfg (rc s) true (cfg (rc s))).

(** The parameters a connection is set up with, and [manual_resources = 1]. *)
Record params := {
  q_frame_cap : Z;
  q_send_wr : Z;
  q_recv_wr : Z;
  q_inline : Z;
  q_signal : Z;
}.

Definition set_params (q : params) (s : setup) : setup :=
  {| rc := with_cfg (rc s) (id_open (rc s))
       {| send_depth := q_send_wr q; send_signal_interval := q_signal q; recv_depth := q_recv_wr q;
          frame_cap := q_frame_cap q; inline_threshold := q_inline q;
          send_cq_null := true; recv_cq_null := true; comp_channels := false;
          rw_recv_buf := 0; rw_recv_mr := false; rw_recv_rkey := 0; rw_recv_cap := 0;
          rw_recv_slots := 0 |};
     manual_resources := true; rw_recv_external := rw_recv_external s |}.

(** The completion queues exist, with their channels. *)
Definition set_cqs (s : setup) : setup :=
  let g := cfg (rc s) in
  with_rc s (with_cfg (rc s) (id_open (rc s))
    {| send_depth := send_depth g; send_signal_interval := send_signal_interval g;
       recv_depth := recv_depth g; frame_cap := frame_cap g; inline_threshold := inline_threshold g;
       send_cq_null := false; recv_cq_null := false; comp_channels := true;
       rw_recv_buf := rw_recv_buf g; rw_recv_mr := rw_recv_mr g; rw_recv_rkey := rw_recv_rkey g;
       rw_recv_cap := rw_recv_cap g; rw_recv_slots := rw_recv_slots g |}).

Definition set_window (buf rkey cap slots : Z) (s : setup) : setup :=
  let g := cfg (rc s) in
  with_rc s (with_cfg (rc s) (id_open (rc s))
    {| send_depth := send_depth g; send_signal_interval := send_signal_interval g;
       recv_depth := recv_depth g; frame_cap := frame_cap g; inline_threshold := inline_threshold g;
       send_cq_null := send_cq_null g; recv_cq_null := recv_cq_null g;
       comp_channels := comp_channels g;
       rw_recv_buf := buf; rw_recv_mr := true; rw_recv_rkey := rkey;
       rw_recv_cap := cap; rw_recv_slots := slots |}).

Definition set_external (s : setup) : setup :=
  {| rc := rc s; manual_resources := manual_resources s; rw_recv_external := true |}.

Section code.
Context {W : Type} `{!Host W, !CmHost W}.
#[local] Abbreviation WH := (W * heap)%type.
#[local] Abbreviation P T := (M WH T Z).

Section any_state.
Context {T : Type}.

Definition heap_get : P T heap := peek snd.
Definition heap_do (f : heap -> heap) : P T unit := fun s x => (Ret tt, s, (x.1, f x.2)).

(** A call: on failure the caller returns [errno != 0 ? errno : d]. *)
Definition call_or (d : Z) (op : cm_op) : P T unit :=
  fun s x =>
    match cm_call op x.1 with
    | (true, w) => (Ret tt, s, (w, x.2))
    | (false, w) => (Fail (errno_or (errno w) d), s, (w, x.2))
    end.
(** A call whose result is not looked at. *)
Definition call_ignore (op : cm_op) : P T unit :=
  fun s x => (Ret tt, s, ((cm_call op x.1).2, x.2)).

(** Allocate into a pointer field of the connection. *)
Definition alloc (d : Z) (op : cm_op) (k : kind) : P T unit :=
  call_or d op;; heap_do (fun h => hold h k).

(** Release a resource. *)
Definition destroy (r : resource) : P T unit :=
  call_ignore (OpDestroy r);; heap_do (fun h => disown h r).

(** [if (conn->field != NULL) { destroy(conn->field); conn->field = NULL }] *)
Definition free_ptr (k : kind) : P T unit :=
  let! h := heap_get in
  if bool_decide (k ∈ ptrs h) then
    destroy (cur h, k);; heap_do (fun h => clear_ptr h k)
  else ret tt.

(** [do { rc = poll(...) } while (rc < 0 && errno == EINTR)] *)
Fixpoint poll_cm_uninterrupted (fuel : nat) (timeout_ms : Z) : P T poll_fd_result :=
  match fuel with
  | O => blocked
  | S fuel' =>
    let! r := host (on_fst (cm_poll timeout_ms)) in
    match r with FdIntr => poll_cm_uninterrupted fuel' timeout_ms | _ => ret r end
  end.

Definition next_cm_event : P T cm_event :=
  let! ev := host (on_fst get_cm_event) in
  match ev with
  | Some e => ret e
  | None => let! x := peek (fun x : WH => errno x.1) in fail (errno_or x EIO)
  end.

Definition go_rdma_wait_cm_event (timeout_ms : Z) (expected : cm_event_type) : P T unit :=
  let! h := heap_get in
  guard (negb (bool_decide (KChannel ∈ ptrs h))) EINVAL;;
  let poll_timeout := if timeout_ms <? 0 then -1 else timeout_ms in
  let! rc := poll_cm_uninterrupted poll_budget poll_timeout in
  match rc with
  | FdTimeout => fail EAGAIN
  | FdErr e => fail (errno_or e EIO)
  | _ =>
    let! event := next_cm_event in
    guard (negb (bool_decide (ev_type event = expected))) EIO;;
    guard (negb (ev_status event =? 0)) EIO
  end.
End any_state.

(** *** Freeing a connection *)

Fixpoint free_slots (n : nat) (i : Z) : P setup unit :=
  match n with
  | O => ret tt
  | S n' => free_ptr (KSlotMR i);; free_ptr (KSlotBuf i);; free_slots n' (i + 1)
  end.

Definition go_rdma_free_conn : P setup unit :=
  let! s := get in
  let! h := heap_get in
  (match cm_id h with Some _ => call_ignore OpDisconnect | None => ret tt end);;
  free_ptr KSendMR;;
  free_ptr KRwMR;;
  (if notify_slots (rc s) then free_slots (Z.to_nat (notify_depth (rc s))) 0;; free_ptr KSlots
   else ret tt);;
  free_ptr KSendBuf;;
  (if rw_recv_external s then heap_do (fun h => clear_ptr h KRwBuf) else free_ptr KRwBuf);;
  (match cm_id h with
   | Some i =>
     (if manual_resources s then
        free_ptr KQp;; free_ptr KSendCQ;; free_ptr KRecvCQ;; free_ptr KSendComp;;
        free_ptr KRecvComp;; free_ptr KPd
      else ret tt);;
     destroy (i, KId);; heap_do (fun h => set_cm_id h None)
   | None => ret tt
   end);;
  free_ptr KChannel;;
  destroy (cur h, KConn).

Definition go_rdma_close : P setup unit := go_rdma_free_conn.

(** *** What go_rdma_open and go_rdma_accept share: the queues and buffers

    [step] is what each does when a call fails: go_rdma_open jumps to its label cleanup,
    go_rdma_accept frees the connection there. *)

(** In go_rdma_accept: [go_rdma_free_conn(conn); return errno != 0 ? errno : d] when [m] fails at a call; a
    code that does not come from errno is returned as it is. *)
Definition accept_step (d : option Z) (m : P setup unit) : P setup unit :=
  let! r := catch m in
  match r with
  | Ok _ => ret tt
  | Err e =>
    go_rdma_free_conn;;
    match d with
    | Some d => let! x := peek (fun x : WH => errno x.1) in fail (errno_or x d)
    | None => fail e
    end
  end.

(** In go_rdma_open: [goto cleanup]. *)
Definition open_step (d : option Z) (m : P setup unit) : P setup unit := m.

Definition cq_capacity (send_wr recv_wr : Z) : Z :=
  let n := i32 (u32 (send_wr + recv_wr + 16)) in if n <? 64 then 64 else n.

Section steps.
Variable step : option Z -> P setup unit -> P setup unit.

Definition create_queues (q : params) : P setup unit :=
  let capacity := cq_capacity (q_send_wr q) (q_recv_wr q) in
  step (Some EIO) (alloc EIO OpAllocPd KPd);;
  step (Some EIO) (alloc EIO OpCreateCompChannel KSendComp);;
  step (Some EIO) (alloc EIO OpCreateCompChannel KRecvComp);;
  step (Some EIO) (alloc EIO (OpCreateCQ capacity) KSendCQ);;
  step (Some EIO) (alloc EIO (OpCreateCQ capacity) KRecvCQ);;
  modify set_cqs;;
  step (Some EIO) (alloc EIO (OpCreateQP (q_send_wr q) (q_recv_wr q) (q_inline q)) KQp).

Definition create_send_ring (q : params) : P setup unit :=
  let send_region_size := u64 (q_frame_cap q * q_send_wr q) in
  step None (guard ((0 <? q_send_wr q) &&
                    negb (send_region_size / q_send_wr q =? q_frame_cap q)) EOVERFLOW);;
  step (Some ENOMEM) (alloc ENOMEM (OpMalloc send_region_size) KSendBuf);;
  step (Some EIO) (alloc EIO (OpRegMsgs send_region_size) KSendMR).

(** The window the connection allocates itself. *)
Definition create_window (q : params) (remote_read : bool) : P setup unit :=
  let rw_recv_cap := go_rdma_choose_rw_recv_cap (q_frame_cap q) in
  let rw_recv_slots := GO_RDMA_RW_RECV_SLOTS in
  let rw_recv_size := u64 (rw_recv_cap * rw_recv_slots) in
  step None (guard ((0 <? rw_recv_slots) &&
                    negb (rw_recv_size / rw_recv_slots =? rw_recv_cap)) EOVERFLOW);;
  step (Some ENOMEM) (alloc ENOMEM (OpMalloc rw_recv_size) KRwBuf);;
  let! buf := peek (fun x : WH => buffer_addr x.1) in
  step (Some EIO) (alloc EIO (OpRegWindow rw_recv_size remote_read) KRwMR);;
  let! rkey := peek (fun x : WH => mr_rkey x.1) in
  modify (set_window buf rkey (u32 rw_recv_cap) (u32 rw_recv_slots)).
End steps.

(** The window the caller provides to go_rdma_open: all of it is registered, as one slot. *)
Definition use_external_window (addr len : Z) : P setup unit :=
  modify set_external;;
  guard (UINT32_MAX <? len) EINVAL;;
  heap_do (fun h => set_ptr h KRwBuf);;
  alloc EIO (OpRegWindow len true) KRwMR;;
  let! rkey := peek (fun x : WH => mr_rkey x.1) in
  modify (set_window addr rkey (u32 len) 1).

(** Run the connection's own code on its struct. *)
Definition on_conn {A} (m : M WH conn Z A) : P setup A :=
  fun s x => let '(o, c, x') := m (rc s) x in (o, with_rc s c, x').

(** *** go_rdma_open *)

Record open_args := {
  o_params : params;
  o_rw_mem : Z;
  o_rw_mem_len : Z;
  o_timeout_ms : Z;
}.

(** [if (send_signal_interval == 0) send_signal_interval = 1] *)
Definition default_signal (q : params) : params :=
  {| q_frame_cap := q_frame_cap q; q_send_wr := q_send_wr q; q_recv_wr := q_recv_wr q;
     q_inline := q_inline q; q_signal := if q_signal q =? 0 then 1 else q_signal q |}.

Definition open_cm_timeout (a : open_args) : Z :=
  if 0 <=? o_timeout_ms a then o_timeout_ms a else 30000.

Definition connect_peer (a : open_args) : P setup unit :=
  call_or EIO OpConnect;;
  go_rdma_wait_cm_event (open_cm_timeout a) ESTABLISHED;;
  on_conn (go_rdma_ensure_ready (o_timeout_ms a)).

(** From the event channel to the end of the handshake, up to the label cleanup. *)
Definition open_body (a : open_args) : P setup unit :=
  let q := default_signal (o_params a) in
  alloc EIO OpCreateEventChannel KChannel;;
  call_or EIO OpCreateId;;
  heap_do (fun h => set_cm_id (own h (cur h, KId)) (Some (cur h)));;
  modify set_open;;
  let! dst := peek (fun x : WH => gai_dst x.1) in
  guard (negb dst) EINVAL;;
  let cm_timeout_ms := open_cm_timeout a in
  call_or EIO (OpResolveAddr cm_timeout_ms);;
  go_rdma_wait_cm_event cm_timeout_ms ADDR_RESOLVED;;
  call_or EIO (OpResolveRoute cm_timeout_ms);;
  go_rdma_wait_cm_event cm_timeout_ms ROUTE_RESOLVED;;
  modify (set_params q);;
  create_queues open_step q;;
  create_send_ring open_step q;;
  (if negb (o_rw_mem a =? 0) && (0 <? o_rw_mem_len a)
   then use_external_window (o_rw_mem a) (o_rw_mem_len a) else create_window open_step q true);;
  connect_peer a.

(** [cleanup:]; what the frees answer is not looked at. *)
Definition cleanup {A B} (r : outcome Z A * setup * WH) (res : option resource) (k : A -> setup -> B)
    : outcome Z B * WH :=
  let free_res x := match res with Some r => (destroy r tt x).2 | None => x end in
  match r with
  | (Ret a, s, x) => (Ret (k a s), free_res x)
  | (Fail e, s, x) => (Fail e, (go_rdma_free_conn s (free_res x)).2)
  | (Blocked, s, x) => (Blocked, x)
  | (Diverged, s, x) => (Diverged, x)
  end.

Definition go_rdma_open (a : open_args) (x : WH) : outcome Z setup * WH :=
  let q := o_params a in
  if q_frame_cap q =? 0 then (Fail EINVAL, x)
  else if (q_send_wr q =? 0) || (q_recv_wr q =? 0) then (Fail EINVAL, x)
  else if (o_rw_mem a =? 0) && (0 <? o_rw_mem_len a) then (Fail EINVAL, x)
  else if negb (o_rw_mem a =? 0) && (o_rw_mem_len a <? q_frame_cap q) then (Fail EINVAL, x)
  else
    let '(rc, w) := gai x.1 in
    if negb (rc =? 0) then (Fail (if 0 <? rc then rc else EINVAL), (w, x.2))
    else
      let info := (next x.2, KAddrInfo) in
      let h := own_fresh x.2 KAddrInfo in
      match cm_call OpCalloc w with
      | (false, w') => (Fail (errno_or (errno w') ENOMEM), (destroy info tt (w', h)).2)
      | (true, w') => cleanup (open_body a zero_setup (w', new_conn h)) (Some info) (fun _ s => s)
      end.

(** *** go_rdma_listen *)

(** [l_serial] names the listener's resources: its struct, its id and its channel. *)
Record listener := {
  l_serial : Z;
  listen_id : bool;
  l_cm_channel : bool;
  l_params : params;
}.

Definition go_rdma_listen (q : params) (backlog : Z) : P unit listener :=
  guard (q_frame_cap q =? 0) EINVAL;;
  guard ((q_send_wr q =? 0) || (q_recv_wr q =? 0)) EINVAL;;
  guard (backlog <=? 0) EINVAL;;
  let! rc := host (on_fst gai) in
  guard (negb (rc =? 0)) (if 0 <? rc then rc else EINVAL);;
  let! h0 := heap_get in
  let n := next h0 in
  let serve (k : kind) := heap_do (fun h => own h (n, k)) in
  let drop (ks : list kind) : P unit unit := fold_right (fun k m => (destroy (n, k);; m)) (ret tt) ks in
  let errno_fails (d : Z) : P unit unit :=
    let! e := peek (fun x : WH => errno x.1) in fail (errno_or e d) in
  (* One call; when it fails, what [ks] names is destroyed and errno is read after that. *)
  let step (op : cm_op) (ks : list kind) (d : Z) : P unit unit :=
    let! ok := host (on_fst (cm_call op)) in
    if ok then ret tt else drop ks;; errno_fails d in
  heap_do (fun h => own_fresh h KAddrInfo);;
  step OpCreateEventChannel [KAddrInfo] EIO;;
  serve KChannel;;
  step OpCreateId [KAddrInfo; KChannel] EIO;;
  serve KId;;
  let! found := peek (fun x : WH => gai_src x.1 || gai_dst x.1) in
  (if found then ret tt else drop [KAddrInfo; KId; KChannel];; fail EINVAL);;
  let! bound := host (on_fst (cm_call OpBind)) in
  destroy (n, KAddrInfo);;
  (if bound then ret tt else drop [KId; KChannel];; errno_fails EIO);;
  step (OpListen backlog) [KId; KChannel] EIO;;
  step OpCalloc [KId; KChannel] ENOMEM;;
  serve KListener;;
  ret {| l_serial := n; listen_id := true; l_cm_channel := true; l_params := default_signal q |}.

Definition go_rdma_free_listener (l : listener) : P unit unit :=
  (if listen_id l then destroy (l_serial l, KId) else ret tt);;
  (if l_cm_channel l then destroy (l_serial l, KChannel) else ret tt);;
  destroy (l_serial l, KListener).

Definition go_rdma_listener_close (l : listener) : P unit unit := go_rdma_free_listener l.

(** *** go_rdma_accept *)

(** The id an event of the listener's channel names: one that exists. *)
Definition known_id (h : heap) (ev : cm_event) : option Z :=
  match ev_id ev with
  | Some i => if bool_decide ((i, KId) ∈ live h) then Some i else None
  | None => None
  end.

Definition ends_child (t : cm_event_type) : bool :=
  match t with
  | DISCONNECTED | REJECTED | CONNECT_ERROR | UNREACHABLE | ADDR_CHANGE | TIMEWAIT_EXIT => true
  | _ => false
  end.

(** [for (;;)]: the next connection request's id. *)
Fixpoint accept_loop (fuel : nat) (l : listener) : P setup Z :=
  match fuel with
  | O => blocked
  | S fuel' =>
    let! prc := host (on_fst (cm_poll GO_RDMA_ACCEPT_POLL_TIMEOUT_MS)) in
    match prc with
    | FdTimeout => fail EAGAIN
    | FdIntr => accept_loop fuel' l
    | FdErr e => fail (errno_or e EIO)
    | FdReady =>
      let! ev := next_cm_event in
      let! h := heap_get in
      match ev_type ev with
      | CONNECT_REQUEST => (* brings a new id, which the receiver owns *)
        match ev_id ev with
        | None => fail EIO
        | Some _ =>
          let id := next h in
          heap_do (fun h => own_fresh h KId);;
          if ev_status ev =? 0 then ret id
          else call_ignore OpReject;; destroy (id, KId);; fail EIO
        end
      | t =>
        (match known_id h ev with
         | Some i => if negb (i =? l_serial l) && ends_child t then destroy (i, KId) else ret tt
         | None => ret tt
         end);;
        accept_loop fuel' l
      end
    end
  end.

(** The connection's resources, rdma_accept and the handshake. *)
Definition accept_rest (q : params) : P setup unit :=
  create_queues accept_step q;;
  create_send_ring accept_step q;;
  create_window accept_step q false;;
  accept_step (Some EIO) (call_or EIO OpAccept);;
  accept_step None (go_rdma_wait_cm_event GO_RDMA_ACCEPT_HANDSHAKE_TIMEOUT_MS ESTABLISHED);;
  accept_step None (on_conn (go_rdma_ensure_ready GO_RDMA_ACCEPT_HANDSHAKE_TIMEOUT_MS)).

(** Turn the id of a request into a connection with a channel of its own. *)
Definition adopt_request (q : params) (id : Z) : P setup unit :=
  let errno_fails (d : Z) : P setup unit :=
    let! e := peek (fun x : WH => errno x.1) in fail (errno_or e d) in
  let! ok := host (on_fst (cm_call OpCalloc)) in
  (if ok then ret tt else call_ignore OpReject;; destroy (id, KId);; errno_fails ENOMEM);;
  heap_do new_conn;;
  let! ok := host (on_fst (cm_call OpCreateEventChannel)) in
  (if ok then ret tt
   else go_rdma_free_conn;; call_ignore OpReject;; destroy (id, KId);; errno_fails EIO);;
  heap_do (fun h => hold h KChannel);;
  let! ok := host (on_fst (cm_call OpMigrate)) in
  (if ok then ret tt else go_rdma_free_conn;; call_ignore OpReject;; errno_fails EIO);;
  heap_do (fun h => set_cm_id h (Some id));;
  modify set_open;;
  modify (set_params q);;
  accept_rest q.

Definition go_rdma_accept (l : listener) : P setup unit :=
  guard (negb (listen_id l) || negb (l_cm_channel l)) EBADF;;
  let! id := accept_loop poll_budget l in
  adopt_request (l_params l) id.
End code.

(** ** Accounting *)

(** What the connection [cur] holds: its struct, its id, and what its pointers point to,
    except a window the caller owns. *)
Definition owned (ext : bool) (h : heap) (r : resource) : Prop :=
  r = (cur h, KConn) \/ (exists i, cm_id h = Some i /\ r = (i, KId)) \/
  (r.1 = cur h /\ r.2 ∈ ptrs h /\ (r.2 = KRwBuf -> ext = false)).

(** Everything allocated is either in [base] or held by the connection, never both. *)
Record acct (base : gset resource) (ext : bool) (h : heap) : Prop := {
  acct_fault : fault h = false;
  acct_live r : r ∈ live h <-> r ∈ base \/ owned ext h r;
  acct_fresh r : r ∈ base -> ~ owned ext h r;
  acct_cur r : r ∈ base -> r.1 <> cur h;
  acct_kinds : (KId ∉ ptrs h) /\ (KConn ∉ ptrs h);
}.

Section accounting.
Context {W : Type} `{!Host W, !CmHost W}.
#[local] Abbreviation WH := (W * heap)%type.
#[local] Abbreviation P T := (M WH T Z).
Implicit Types (h : heap) (w : W).

Section rules.
Context {T : Type}.
Implicit Types (s : T).

Lemma wp_heap_get (Q : outcome Z heap -> T -> WH -> Prop) s w h :
  Q (Ret h) s (w, h) -> wp heap_get Q s (w, h).
Proof. done. Qed.

Lemma wp_heap_do f (Q : outcome Z unit -> T -> WH -> Prop) s w h :
  Q (Ret tt) s (w, f h) -> wp (heap_do f) Q s (w, h).
Proof. done. Qed.

Lemma wp_call_or d op (Q : outcome Z unit -> T -> WH -> Prop) s w h :
  (forall w', Q (Ret tt) s (w', h)) -> (forall e w', Q (Fail e) s (w', h)) ->
  wp (call_or d op) Q s (w, h).
Proof. intros H1 H2. unfold wp, call_or. simpl. destruct (cm_call op w) as [[|] w']; auto. Qed.

Lemma wp_call_ignore op (Q : outcome Z unit -> T -> WH -> Prop) s w h :
  (forall w', Q (Ret tt) s (w', h)) -> wp (call_ignore op) Q s (w, h).
Proof. intros H1. unfold wp, call_ignore. auto. Qed.

Lemma wp_alloc d op k (Q : outcome Z unit -> T -> WH -> Prop) s w h :
  (forall w', Q (Ret tt) s (w', hold h k)) -> (forall e w', Q (Fail e) s (w', h)) ->
  wp (alloc d op k) Q s (w, h).
Proof.
  intros H1 H2. apply wp_bind, wp_call_or; intros; simpl; [|apply H2]. apply wp_heap_do, H1.
Qed.

Lemma wp_destroy r (Q : outcome Z unit -> T -> WH -> Prop) s w h :
  (forall w', Q (Ret tt) s (w', disown h r)) -> wp (destroy r) Q s (w, h).
Proof. intros H1. apply wp_bind, wp_call_ignore. intros w'. apply wp_heap_do, H1. Qed.

Lemma wp_on_fst {A} (f : W -> A * W) (Q : outcome Z A -> T -> WH -> Prop) s w h :
  (forall a w', Q (Ret a) s (w', h)) -> wp (host (on_fst f)) Q s (w, h).
Proof. intros H1. apply wp_host. unfold on_fst. simpl. intros a w'. destruct (f w). intros [= <- <-]. auto. Qed.
End rules.

(** *** Acquiring and releasing *)

Lemma hold_acct base ext h k :
  acct base ext h -> k ∉ ptrs h -> k <> KConn -> k <> KId -> (k = KRwBuf -> ext = false) ->
  acct base ext (hold h k).
Proof.
  intros [Hf Hl Hfr Hc Hk] Hnew Hk1 Hk2 Hrw.
  assert (Hno : ~ owned ext h (cur h, k)).
  { intros [[= ->]|[(i & _ & [= _ ->])|(_ & Hp & _)]]; done. }
  assert (Hout : (cur h, k) ∉ live h).
  { rewrite Hl. intros [Hb|Ho]; [by apply (Hc _ Hb)|done]. }
  assert (Hown : forall r, owned ext (hold h k) r <-> r = (cur h, k) \/ owned ext h r).
  { intros [n k']. unfold owned. simpl. rewrite elem_of_union, elem_of_singleton. split.
    - intros [?|[?|(-> & [->|Hp] & He)]]; eauto 8.
    - intros [[= -> ->]|[?|[?|(-> & Hp & He)]]]; eauto 8. }
  split.
  - simpl. rewrite Hf. simpl. rewrite bool_decide_eq_false_2 by done. done.
  - intros r. rewrite Hown. simpl. rewrite elem_of_union, elem_of_singleton, Hl. tauto.
  - intros r Hb. rewrite Hown. intros [->|Ho]; [by apply (Hc _ Hb)|by apply (Hfr _ Hb)].
  - done.
  - simpl. set_solver.
Qed.

(** What is freed leaves the rest of the connection alone. *)
Definition freed (k : kind) (h h' : heap) : Prop :=
  ptrs h' = ptrs h ∖ {[k]} /\ cur h' = cur h /\ cm_id h' = cm_id h /\ next h' = next h.

Lemma wp_free_ptr {T} k base ext (Q : outcome Z unit -> T -> WH -> Prop) s w h :
  acct base ext h -> (k = KRwBuf -> ext = false) ->
  (forall w' h', acct base ext h' -> freed k h h' -> Q (Ret tt) s (w', h')) ->
  wp (free_ptr k) Q s (w, h).
Proof.
  intros [Hf Hl Hfr Hc [Hi Hk]] Hrw HQ. unfold free_ptr. apply wp_bind, wp_heap_get. simpl.
  case_bool_decide as Hp.
  - apply wp_bind, wp_destroy. intros w'. simpl. apply wp_heap_do. apply HQ; [|by split_and!].
    assert (Hin : (cur h, k) ∈ live h) by (rewrite Hl; right; right; right; auto).
    assert (Hown : forall r, owned ext (clear_ptr (disown h (cur h, k)) k) r <->
                             owned ext h r /\ r <> (cur h, k)).
    { intros [n k']. unfold owned. simpl. rewrite elem_of_difference, elem_of_singleton. split.
      - intros [[= -> ->]|[(i & Hi' & [= -> ->])|(-> & [Hp' Hne] & He)]].
        + split; [by left|]. intros [= <-]. done.
        + split; [right; left; eauto|]. intros [= _ <-]. done.
        + split; [right; right; auto|]. congruence.
      - intros [[?|[?|(-> & Hp' & He)]] Hne]; [by left|right; by left|].
        right; right. split_and!; [done|done| |done]. congruence. }
    split; simpl.
    + rewrite Hf. rewrite bool_decide_eq_false_2; [done|]. intros Hn. by apply Hn.
    + intros r. rewrite Hown, elem_of_difference, elem_of_singleton, Hl. split.
      * intros [[Hb|Ho] Hne]; [by left|by right].
      * intros [Hb|[Ho Hne]]; [|split; [by right|done]]. split; [by left|].
        intros ->. by apply (Hc _ Hb).
    + intros r Hb. rewrite Hown. intros [Ho _]. by apply (Hfr _ Hb).
    + done.
    + set_solver.
  - apply wp_ret. apply HQ; [by split|]. split_and!; try done. set_solver.
Qed.

(** *** Freeing a whole connection *)

Definition queue_kind (k : kind) : bool :=
  match k with KQp | KSendCQ | KRecvCQ | KSendComp | KRecvComp | KPd => true | _ => false end.

(** The pointers a connection may hold, given the rest of its struct. *)
Record shaped (s : setup) (h : heap) : Prop := {
  sh_slots : KSlots ∈ ptrs h <-> notify_slots (rc s) = true;
  sh_bufs i : KSlotBuf i ∈ ptrs h \/ KSlotMR i ∈ ptrs h ->
    KSlots ∈ ptrs h /\ 0 <= i < notify_depth (rc s);
  sh_queue k : k ∈ ptrs h -> queue_kind k = true -> manual_resources s = true /\ cm_id h <> None;
  sh_known : (KListener ∉ ptrs h) /\ (KAddrInfo ∉ ptrs h);
}.

(** Freeing: less is pointed to, the accounting holds, the rest is as it was. *)
Definition fewer (base : gset resource) (ext : bool) (h h' : heap) : Prop :=
  acct base ext h' /\ ptrs h' ⊆ ptrs h /\ cur h' = cur h /\ cm_id h' = cm_id h /\ next h' = next h.

Lemma fewer_refl base ext h : acct base ext h -> fewer base ext h h.
Proof. intros A. red. by split_and!. Qed.

Lemma fewer_trans base ext h1 h2 h3 : fewer base ext h1 h2 -> fewer base ext h2 h3 -> fewer base ext h1 h3.
Proof.
  intros (_ & P1 & C1 & I1 & N1) (A2 & P2 & C2 & I2 & N2).
  red; split_and!; [done|set_solver|congruence..].
Qed.

Lemma sub_notin (k : kind) (X Y : gset kind) : k ∉ X -> Y ⊆ X -> k ∉ Y.
Proof. set_solver. Qed.
Lemma del_sub (k : kind) (X Y : gset kind) : Y = X ∖ {[k]} -> Y ⊆ X.
Proof. set_solver. Qed.
Lemma del_notin (k : kind) (X Y : gset kind) : Y = X ∖ {[k]} -> k ∉ Y.
Proof. set_solver. Qed.

Lemma queue_kind_cases k :
  queue_kind k = true ->
  k = KQp \/ k = KSendCQ \/ k = KRecvCQ \/ k = KSendComp \/ k = KRecvComp \/ k = KPd.
Proof. destruct k; try done; tauto. Qed.

(** Free one more pointer and go on. *)
Lemma wp_free_next {T} k base ext (m : P T unit) h0 (Q : outcome Z unit -> T -> WH -> Prop) s w h :
  fewer base ext h0 h -> (k = KRwBuf -> ext = false) ->
  (forall w' h', fewer base ext h0 h' -> k ∉ ptrs h' -> ptrs h' ⊆ ptrs h -> wp m Q s (w', h')) ->
  wp (free_ptr k;; m) Q s (w, h).
Proof.
  intros F Hk Hm. apply wp_bind, (wp_free_ptr k base ext); [apply F|done|].
  intros w' h' A (Hp & Hc & Hi & Hn). simpl. apply Hm.
  - eapply fewer_trans; [exact F|]. red; split_and!; [done|by eapply del_sub|done..].
  - by eapply del_notin.
  - by eapply del_sub.
Qed.

Lemma wp_free_slots base ext n i h0 (Q : outcome Z unit -> setup -> WH -> Prop) s w h :
  fewer base ext h0 h ->
  (forall w' h', fewer base ext h0 h' -> ptrs h' ⊆ ptrs h ->
     (forall j, i <= j < i + Z.of_nat n -> (KSlotBuf j ∉ ptrs h') /\ (KSlotMR j ∉ ptrs h')) ->
     Q (Ret tt) s (w', h')) ->
  wp (free_slots n i) Q s (w, h).
Proof.
  revert i w h. induction n as [|n IH]; intros i w h F HQ; cbn [free_slots].
  { apply wp_ret, HQ; [done..|]. lia. }
  apply (wp_free_next _ base ext _ h0); [done|done|]. intros w1 h1 F1 N1 S1.
  apply (wp_free_next _ base ext _ h0); [done|done|]. intros w2 h2 F2 N2 S2.
  apply IH; [done|]. intros w3 h3 F3 S3 N3. apply HQ; [done|set_solver|].
  intros j Hj. destruct (decide (j = i)) as [->|]; [set_solver|]. apply N3. lia.
Qed.

Lemma destroy_id_acct base ext h i :
  acct base ext h -> cm_id h = Some i -> acct base ext (set_cm_id (disown h (i, KId)) None).
Proof.
  intros [Hf Hl Hfr Hc [Hi Hk]] Hid.
  assert (Hown : forall r, owned ext (set_cm_id (disown h (i, KId)) None) r <->
                           owned ext h r /\ r <> (i, KId)).
  { intros [n k]. unfold owned. simpl. split.
    - intros [[= -> ->]|[(j & ? & _)|(-> & Hp & He)]]; [|done|].
      + split; [by left|]. by intros [= _].
      + split; [by right; right|]. by intros [= _ ->].
    - intros [[?|[(j & Hj & [= -> ->])|?]] Hne]; [by left|congruence|by right; right]. }
  split; simpl.
  - rewrite Hf. rewrite bool_decide_eq_false_2; [done|]. intros Hn. apply Hn.
    apply Hl. right; right; left. eauto.
  - intros r. rewrite Hown, elem_of_difference, elem_of_singleton, Hl. split.
    + intros [[Hb|Ho] Hne]; [by left|by right].
    + intros [Hb|[Ho Hne]]; [|split; [by right|done]]. split; [by left|].
      intros ->. apply (Hfr _ Hb). right; left. eauto.
  - intros r Hb. rewrite Hown. intros [Ho _]. by apply (Hfr _ Hb).
  - done.
  - done.
Qed.

(** With nothing left to point to, freeing the struct leaves what was there before. *)
Lemma destroy_conn_live base ext h :
  acct base ext h -> ptrs h = ∅ -> cm_id h = None ->
  live (disown h (cur h, KConn)) = base /\ fault (disown h (cur h, KConn)) = false.
Proof.
  intros [Hf Hl Hfr Hc Hk] Hp Hid. simpl. split.
  - apply set_eq. intros r. rewrite elem_of_difference, elem_of_singleton, Hl.
    unfold owned. rewrite Hp, Hid. split.
    + intros [[?|[->|[(? & ? & _)|(_ & ? & _)]]] Hne]; [done..|set_solver].
    + intros Hb. split; [by left|]. intros ->. by apply (Hc _ Hb).
  - rewrite Hf. rewrite bool_decide_eq_false_2; [done|]. intros Hn. apply Hn, Hl. right. by left.
Qed.

Lemma ext_ptr_acct base h : acct base true h -> acct base true (clear_ptr h KRwBuf).
Proof.
  intros [Hf Hl Hfr Hc [Hi Hk]].
  assert (Hown : forall r, owned true (clear_ptr h KRwBuf) r <-> owned true h r).
  { intros [n k]. unfold owned. simpl. rewrite elem_of_difference, elem_of_singleton. split.
    - intros [?|[?|(-> & [Hp _] & He)]]; eauto 8.
    - intros [?|[?|(-> & Hp & He)]]; eauto 8. right; right. split_and!; [done|done| |done].
      intros ->. by discriminate He. }
  split; simpl; [by rewrite Hf| | |done|set_solver].
  - intros r. by rewrite Hown.
  - intros r. rewrite Hown. apply Hfr.
Qed.

(** The parts of go_rdma_free_conn, each after what has been freed before it from [h0]. *)
Lemma free_slots_gone base ext s h0 (Q : outcome Z unit -> setup -> WH -> Prop) w h :
  shaped s h0 -> fewer base ext h0 h ->
  (forall w' h', fewer base ext h0 h' -> ptrs h' ⊆ ptrs h -> KSlots ∉ ptrs h' ->
     (forall j, (KSlotBuf j ∉ ptrs h') /\ (KSlotMR j ∉ ptrs h')) -> Q (Ret tt) s (w', h')) ->
  wp (if notify_slots (rc s) then free_slots (Z.to_nat (notify_depth (rc s))) 0;; free_ptr KSlots else ret tt) Q s (w, h).
Proof.
  intros [Hs Hb _ _] F HQ. pose proof F as (_ & P & _). destruct (notify_slots (rc s)) eqn:Hn.
  - apply wp_bind, (wp_free_slots base ext _ _ h0); [done|]. intros w3 h3 F3 S3 N3. simpl.
    apply (wp_free_ptr _ base ext); [apply F3|done|]. intros w4 h4 A4 (P4 & C4 & I4 & X4).
    apply del_sub in P4 as S4. apply del_notin in P4 as N4. apply HQ; [|by transitivity (ptrs h3)|done|].
    + eapply fewer_trans; [exact F3|]. red; split_and!; done.
    + intros j. assert (Hj : ~ (0 <= j < notify_depth (rc s)) -> (KSlotBuf j ∉ ptrs h0) /\ (KSlotMR j ∉ ptrs h0)).
      { intros Hr. split; intros Hp; apply Hr; eapply Hb; eauto. }
      destruct (decide (0 <= j < notify_depth (rc s))) as [Hr|Hr]; [|set_solver]. specialize (N3 j ltac:(lia)). set_solver.
  - apply wp_ret. assert (HnoS : KSlots ∉ ptrs h0) by (by rewrite Hs). apply HQ; [done|done|set_solver|]. intros j.
    split; intros Hj; apply HnoS, (Hb j); [left|right]; set_solver.
Qed.

Lemma free_window_gone {T} base ext h0 (Q : outcome Z unit -> T -> WH -> Prop) s w h :
  fewer base ext h0 h ->
  (forall w' h', fewer base ext h0 h' -> ptrs h' ⊆ ptrs h -> KRwBuf ∉ ptrs h' -> Q (Ret tt) s (w', h')) ->
  wp (if ext then heap_do (fun h => clear_ptr h KRwBuf) else free_ptr KRwBuf) Q s (w, h).
Proof.
  intros (A & P & C & I & X) HQ. destruct ext.
  - apply wp_heap_do. apply HQ; [|simpl; clear; set_solver|simpl; clear; set_solver].
    red; split_and!; [by apply ext_ptr_acct|simpl; clear -P; set_solver|done..].
  - apply (wp_free_ptr _ base false); [done|done|]. intros w5 h5 A5 (P5 & C5 & I5 & X5).
    apply del_sub in P5 as S5. apply del_notin in P5 as N5. apply HQ; [|done|done].
    red; split_and!; [done|by transitivity (ptrs h)|congruence..].
Qed.

Lemma free_queues_gone base ext s h0 (Q : outcome Z unit -> setup -> WH -> Prop) w h :
  shaped s h0 -> fewer base ext h0 h ->
  (forall w' h', fewer base ext h0 h' -> ptrs h' ⊆ ptrs h -> (forall k, queue_kind k = true -> k ∉ ptrs h') ->
     Q (Ret tt) s (w', h')) ->
  wp (if manual_resources s then
        free_ptr KQp;; free_ptr KSendCQ;; free_ptr KRecvCQ;; free_ptr KSendComp;; free_ptr KRecvComp;; free_ptr KPd
      else ret tt) Q s (w, h).
Proof.
  intros [_ _ Hq _] F HQ. pose proof F as (_ & P & _). destruct (manual_resources s) eqn:Em.
  - apply (wp_free_next _ base ext _ h0); [done|done|]. intros ? ha Fa Na Sa.
    apply (wp_free_next _ base ext _ h0); [done|done|]. intros ? hb Fb Nb Sb.
    apply (wp_free_next _ base ext _ h0); [done|done|]. intros ? hc Fc Nc Sc.
    apply (wp_free_next _ base ext _ h0); [done|done|]. intros ? hd Fd Nd Sd.
    apply (wp_free_next _ base ext _ h0); [done|done|]. intros ? he Fe Ne Se.
    apply (wp_free_ptr _ base ext); [apply Fe|done|]. intros w9 h9 A9 (P9 & C9 & I9 & X9).
    apply del_sub in P9 as S9. apply HQ.
    + eapply fewer_trans; [exact Fe|]. red; split_and!; done.
    + clear -Sa Sb Sc Sd Se S9. set_solver.
    + intros k Hqk. apply del_notin in P9 as N9.
      destruct (queue_kind_cases k Hqk) as [->|[->|[->|[->|[->| ->]]]]];
        [clear -Na Sb Sc Sd Se S9|clear -Nb Sc Sd Se S9|clear -Nc Sd Se S9|clear -Nd Se S9|clear -Ne S9|done]; set_solver.
  - apply wp_ret, HQ; [done..|]. intros k Hqk Hp. destruct (Hq k) as [Hm _]; [set_solver|done|congruence].
Qed.

Lemma free_id_gone base ext s h0 (Q : outcome Z unit -> setup -> WH -> Prop) w h :
  shaped s h0 -> fewer base ext h0 h ->
  (forall w' h', acct base ext h' -> ptrs h' ⊆ ptrs h -> cm_id h' = None -> cur h' = cur h0 -> next h' = next h0 ->
     (forall k, queue_kind k = true -> k ∉ ptrs h') -> Q (Ret tt) s (w', h')) ->
  wp (match cm_id h0 with
      | Some i =>
        (if manual_resources s then
           free_ptr KQp;; free_ptr KSendCQ;; free_ptr KRecvCQ;; free_ptr KSendComp;; free_ptr KRecvComp;; free_ptr KPd
         else ret tt);;
        destroy (i, KId);; heap_do (fun h => set_cm_id h None)
      | None => ret tt
      end) Q s (w, h).
Proof.
  intros Hsh F HQ. pose proof F as (A & P & C & I & X). destruct (cm_id h0) as [i|] eqn:Ei.
  - apply wp_bind, (free_queues_gone base ext s h0); [done..|]. intros w6 h6 (A6 & P6 & C6 & I6 & X6) S6 N6. simpl.
    rewrite Ei in I6. apply wp_bind, wp_destroy. intros w7. simpl. apply wp_heap_do. apply HQ; try done.
    by apply destroy_id_acct.
  - apply wp_ret, HQ; [done..|]. intros k Hqk Hp. destruct (sh_queue _ _ Hsh k) as [_ Hn]; [set_solver|done|done].
Qed.

(** Nothing is left to point to once every kind has been freed. *)
Lemma nothing_left base ext s h h' :
  acct base ext h -> shaped s h -> ptrs h' ⊆ ptrs h ->
  (forall k, queue_kind k = true -> k ∉ ptrs h') -> (forall j, (KSlotBuf j ∉ ptrs h') /\ (KSlotMR j ∉ ptrs h')) ->
  KSendMR ∉ ptrs h' -> KRwMR ∉ ptrs h' -> KSlots ∉ ptrs h' -> KSendBuf ∉ ptrs h' -> KRwBuf ∉ ptrs h' -> KChannel ∉ ptrs h' ->
  ptrs h' = ∅.
Proof.
  intros A [_ _ _ [Hk1 Hk2]] Hsub Hq Hj N1 N2 N3 N4 N5 N6. apply elem_of_equiv_empty_L. intros k.
  destruct (acct_kinds _ _ _ A) as [KI KC]. destruct (queue_kind k) eqn:Eq; [by apply Hq|].
  assert (T : forall k, k ∉ ptrs h -> k ∉ ptrs h') by (intros; by eapply sub_notin).
  destruct k; try done; auto; destruct (Hj i); auto.
Qed.

Lemma free_conn_spec base s w h :
  acct base (rw_recv_external s) h -> shaped s h ->
  wp go_rdma_free_conn (fun o s' x => o = Ret tt /\ s' = s /\ live x.2 = base /\
                          fault x.2 = false /\ next x.2 = next h) s (w, h).
Proof.
  intros A Hsh. set (ext := rw_recv_external s) in *.
  unfold go_rdma_free_conn. apply wp_bind, wp_get. simpl. apply wp_bind, wp_heap_get. simpl. apply wp_bind.
  assert (Hdis : forall Q, (forall w', Q (Ret tt) s (w', h)) ->
    wp (match cm_id h with Some _ => call_ignore OpDisconnect | None => ret tt end) Q s (w, h)).
  { intros Q HQ. destruct (cm_id h); [by apply wp_call_ignore|by apply wp_ret]. }
  apply Hdis. clear Hdis w. intros w. simpl.
  apply (wp_free_next _ base ext _ h); [by apply fewer_refl|done|]. intros w1 h1 F1 N1 S1.
  apply (wp_free_next _ base ext _ h); [done|done|]. intros w2 h2 F2 N2 S2.
  apply wp_bind, (free_slots_gone base ext s h); [done..|]. intros w3 h3 F3 S3 N3 NJ. simpl.
  apply (wp_free_next _ base ext _ h); [done|done|]. intros w4 h4 F4 N4 S4.
  apply wp_bind, (free_window_gone base ext h); [done|]. intros w5 h5 F5 S5 N5. simpl.
  apply wp_bind, (free_id_gone base ext s h); [done..|]. intros w6 h6 A6 S6 I6 C6 X6 N6. simpl.
  apply wp_bind, (wp_free_ptr _ base ext); [done|done|]. intros w7 h7 A7 (P7 & C7 & I7 & X7). simpl.
  rewrite <- C6, <- C7. apply wp_destroy. intros w8. apply del_sub in P7 as S7. apply del_notin in P7 as N7.
  assert (T5 : ptrs h7 ⊆ ptrs h5) by (by transitivity (ptrs h6)).
  assert (T4 : ptrs h7 ⊆ ptrs h4) by (by transitivity (ptrs h5)).
  assert (T3 : ptrs h7 ⊆ ptrs h3) by (by transitivity (ptrs h4)).
  assert (T2 : ptrs h7 ⊆ ptrs h2) by (by transitivity (ptrs h3)).
  assert (T1 : ptrs h7 ⊆ ptrs h1) by (by transitivity (ptrs h2)).
  assert (Hempty : ptrs h7 = ∅).
  { eapply (nothing_left base ext s h); try done; try (by eapply sub_notin).
    - transitivity (ptrs h5); [done|apply F5].
    - intros k Hk. by eapply sub_notin; [apply N6|].
    - intros k. destruct (NJ k). split; by eapply sub_notin. }
  destruct (destroy_conn_live _ _ _ A7 Hempty ltac:(congruence)) as [L8 E8].
  split_and!; [done|done|done|done|simpl; congruence].
Qed.
End accounting.
