(* ===== verification/VerbsHandshake.v ===== *)
(** * Building a connection, and its handshake, on the accounted heap

    What go_rdma_open and go_rdma_accept do between the address and the connection:
    each step leaves everything allocated either in [base] or held by the connection
    ([Inv]).  The steps that create the queues and buffers are proved for both callers,
    whatever a caller does when one fails. *)

From S2P Require Import Prelude VerbsConfig VerbsConn VerbsRing VerbsSend VerbsRecv VerbsSetup.

(** ** The handshake on the accounted heap *)

Section handshake.
Context {W : Type} `{!Host W, !CmHost W}.
#[local] Abbreviation WH := (W * heap)%type.
#[local] Abbreviation C := (M WH conn Z).
Implicit Types (c : conn) (x : WH) (h : heap).

(** The same receive slots. *)
Definition same_slots (c c' : conn) : Prop :=
  notify_slots c' = notify_slots c /\ notify_depth c' = notify_depth c.

(** And the same configuration. *)
Definition same_conn (c c' : conn) : Prop := same_slots c c' /\ cfg c' = cfg c.

(** A computation that allocates nothing, and keeps the receive slots and the configuration. *)
Definition keeps {A} (m : C A) : Prop :=
  forall c x, wp m (fun o c' x' => x'.2 = x.2 /\ same_conn c c') c x.

Lemma same_conn_trans c1 c2 c3 : same_conn c1 c2 -> same_conn c2 c3 -> same_conn c1 c3.
Proof. intros [[H1 H2] H3] [[H4 H5] H6]. split; [split|]; congruence. Qed.

Lemma keeps_pure {A} (m : C A) : (forall c x, exists o, m c x = (o, c, x)) -> keeps m.
Proof. intros Hm c x. unfold wp. destruct (Hm c x) as [o ->]. done. Qed.
Lemma keeps_ret {A} (a : A) : keeps (ret a).
Proof. apply keeps_pure. eauto. Qed.
Lemma keeps_fail {A} e : keeps (fail e : C A).
Proof. apply keeps_pure. eauto. Qed.
Lemma keeps_blocked {A} : keeps (blocked : C A).
Proof. apply keeps_pure. eauto. Qed.
Lemma keeps_diverged {A} : keeps (diverged : C A).
Proof. apply keeps_pure. eauto. Qed.
Lemma keeps_get : keeps get.
Proof. apply keeps_pure. unfold get. eauto. Qed.
Lemma keeps_peek {A} (f : WH -> A) : keeps (peek f).
Proof. apply keeps_pure. unfold peek. eauto. Qed.
Lemma keeps_guard b e : keeps (guard b e).
Proof. destruct b; [apply keeps_fail|apply keeps_ret]. Qed.
Lemma keeps_modify f : (forall c, same_conn c (f c)) -> keeps (modify f).
Proof. intros Hf c x. apply wp_modify. by split. Qed.
Lemma keeps_bind {A B} (m : C A) (k : A -> C B) : keeps m -> (forall a, keeps (k a)) -> keeps (bind m k).
Proof.
  intros Hm Hk c x. apply wp_bind. eapply wp_mono; [apply Hm|].
  intros [a|e| |] c1 x1 [E1 S1]; cbn [seq_post]; [|by split..].
  eapply wp_mono; [apply Hk|]. intros o c2 x2 [E2 S2].
  split; [congruence|by eapply same_conn_trans].
Qed.
Lemma keeps_host {A} (f : W -> A * W) : keeps (host (on_fst f)).
Proof. intros c x. unfold wp, host, on_fst. destruct (f x.1). done. Qed.
Lemma keeps_host_rc (f : W -> option Z * W) : keeps (host_rc (on_fst f)).
Proof. intros c x. unfold wp, host_rc, on_fst. destruct (f x.1) as [[e|] w]; done. Qed.

Create HintDb keeps.
Hint Resolve keeps_ret keeps_fail keeps_blocked keeps_diverged keeps_get keeps_peek keeps_guard : keeps.
Hint Extern 1 (keeps (host _)) => apply keeps_host : keeps.
Hint Extern 1 (keeps (host_rc _)) => apply keeps_host_rc : keeps.
Hint Extern 1 (keeps (bind _ _)) => apply keeps_bind; [|intros ?] : keeps.
Hint Extern 1 (keeps (modify _)) => apply keeps_modify; intros ?; unfold same_conn, same_slots; repeat case_match; done : keeps.
Hint Extern 2 (keeps (match ?x with _ => _ end)) => destruct x : keeps.

Ltac keeps_auto := auto 20 with keeps.

Lemma check_open_keeps : keeps check_open.
Proof. unfold check_open. keeps_auto. Qed.
Hint Resolve check_open_keeps : keeps.

Lemma poll_uninterrupted_keeps fuel q ms : keeps (poll_uninterrupted fuel q ms).
Proof. induction fuel as [|fuel IH]; cbn [poll_uninterrupted]; keeps_auto. Qed.
Hint Resolve poll_uninterrupted_keeps : keeps.

Lemma check_deadline_keeps d : keeps (check_deadline d).
Proof. unfold check_deadline. keeps_auto. Qed.

Lemma event_wait_keeps d : keeps (event_wait_ms d).
Proof. unfold event_wait_ms. keeps_auto. Qed.
Hint Resolve check_deadline_keeps event_wait_keeps : keeps.

Lemma sleep_for_event_keeps q d : keeps (sleep_for_event q d).
Proof. unfold sleep_for_event. keeps_auto. Qed.

Lemma arm_queue_keeps q armed : keeps (arm_queue q armed).
Proof. unfold arm_queue. keeps_auto. Qed.
Hint Resolve sleep_for_event_keeps arm_queue_keeps : keeps.

Lemma poll_loop_keeps fuel q d spins armed : keeps (poll_loop fuel q d spins armed).
Proof. revert spins armed. induction fuel as [|fuel IH]; intros spins armed; cbn [poll_loop]; keeps_auto. Qed.
Hint Resolve poll_loop_keeps : keeps.

Lemma poll_cq_keeps q ms : keeps (go_rdma_poll_cq_with_timeout q ms).
Proof. unfold go_rdma_poll_cq_with_timeout. keeps_auto. Qed.
Hint Resolve poll_cq_keeps : keeps.

Lemma reap_keeps ms : keeps (go_rdma_reap_data_send_completion ms).
Proof. unfold go_rdma_reap_data_send_completion, go_rdma_wait_send_completion_with_id. keeps_auto. Qed.
Hint Resolve reap_keeps : keeps.

Lemma wait_slot_keeps ms : keeps (go_rdma_wait_local_send_slot ms).
Proof.
  assert (Hloop : forall fuel, keeps (wait_local_loop fuel ms)).
  { induction fuel as [|fuel IH]; cbn [wait_local_loop]; keeps_auto. }
  unfold go_rdma_wait_local_send_slot. keeps_auto.
Qed.
Hint Resolve wait_slot_keeps : keeps.

Lemma post_wr_keeps mk : keeps (post_wr mk).
Proof. unfold post_wr. keeps_auto. Qed.
Lemma stage_keeps slot data : keeps (stage slot data).
Proof. unfold stage. keeps_auto. Qed.
Hint Resolve post_wr_keeps stage_keeps : keeps.

Lemma send_frame_keeps p n force ms : keeps (go_rdma_send_frame p n force ms).
Proof. unfold go_rdma_send_frame. keeps_auto. Qed.
Hint Resolve send_frame_keeps : keeps.

Lemma send_message_keeps p n ms : keeps (go_rdma_send_message p n ms).
Proof.
  assert (Hloop : forall fuel p off, keeps (send_chunks fuel p n off ms)).
  { induction fuel as [|fuel IH]; intros q off; cbn [send_chunks]; keeps_auto. }
  unfold go_rdma_send_message. keeps_auto.
Qed.

Lemma post_slot_keeps i : keeps (go_rdma_post_notify_recv_slot i).
Proof. unfold go_rdma_post_notify_recv_slot. keeps_auto. Qed.
Hint Resolve send_message_keeps post_slot_keeps : keeps.

Lemma release_slot_keeps : keeps go_rdma_release_last_recv_slot.
Proof. unfold go_rdma_release_last_recv_slot. keeps_auto. Qed.
Hint Resolve release_slot_keeps : keeps.

Lemma recv_frame_keeps ms : keeps (go_rdma_recv_frame ms).
Proof. unfold go_rdma_recv_frame, go_rdma_wait_recv_completion. keeps_auto. Qed.
Hint Resolve recv_frame_keeps : keeps.

Lemma exchange_keeps ms : keeps (go_rdma_exchange_rw_desc ms).
Proof. unfold go_rdma_exchange_rw_desc. keeps_auto. Qed.

(** *** The receive slots *)

Variable base : gset resource.

Definition Inv (s : setup) (h : heap) : Prop := acct base (rw_recv_external s) h /\ shaped s h.

Lemma shaped_same s c h : same_slots (rc s) c -> shaped s h -> shaped (with_rc s c) h.
Proof.
  intros [E1 E2] [H1 H2 H3 H4]. split; simpl; [by rewrite E1|rewrite E2; apply H2|done|done].
Qed.

(** A postcondition over the connection's part of the struct. *)
Definition conn_inv (s : setup) (n : Z) (c : conn) (x : WH) : Prop :=
  Inv (with_rc s c) x.2 /\ next x.2 = n /\ cfg c = cfg (rc s).

Lemma keeps_inv {A} (m : C A) s n c x :
  keeps m -> conn_inv s n c x -> wp m (fun _ c' x' => conn_inv s n c' x' /\ same_slots c c' /\ x'.2 = x.2) c x.
Proof.
  intros Hm ([HA HS] & Hn & Hc). eapply wp_mono; [apply Hm|]. intros o c' x' [E [S1 S2]]. split; [|done].
  unfold conn_inv, Inv. rewrite E, S2. split; [|done]. split; [done|].
  apply (shaped_same (with_rc s c) c' x.2 S1 HS).
Qed.

Lemma hold_slot_shaped s h k i :
  shaped s h -> (k = KSlotBuf i \/ k = KSlotMR i) -> KSlots ∈ ptrs h -> 0 <= i < notify_depth (rc s) ->
  shaped s (hold h k).
Proof.
  intros [H1 H2 H3 [H4 H5]] Hk Hs Hi. split; simpl.
  - rewrite elem_of_union, elem_of_singleton, <- H1. destruct Hk as [-> | ->]; naive_solver.
  - intros j. rewrite !elem_of_union, !elem_of_singleton. intros [[Hj|Hj]|[Hj|Hj]].
    + destruct Hk as [-> | ->]; simplify_eq. auto.
    + split; [auto|by apply H2; left].
    + destruct Hk as [-> | ->]; simplify_eq. auto.
    + split; [auto|by apply H2; right].
  - intros k'. rewrite elem_of_union, elem_of_singleton. intros [->|Hk'] Hq; [|by apply (H3 k')].
    by destruct Hk as [-> | ->].
  - rewrite !not_elem_of_union, !not_elem_of_singleton. destruct Hk as [-> | ->]; done.
Qed.

Lemma counting_inv s n c w h k i (f : W -> option Z * W) d :
  conn_inv s n c (w, h) -> (k = KSlotBuf i \/ k = KSlotMR i) -> k ∉ ptrs h -> KSlots ∈ ptrs h ->
  0 <= i < notify_depth c ->
  wp (host_rc_or d (counting k f) : C unit)
    (fun o c' x' => conn_inv s n c' x' /\ c' = c /\
       (o = Ret tt -> x'.2 = hold h k) /\ (o <> Ret tt -> x'.2 = h)) c (w, h).
Proof.
  intros ([HA HS] & Hn & Hc) Hk Hnew Hs Hi. unfold wp, host_rc_or, counting. simpl in *.
  destruct (f w) as [[e|] w']; simpl.
  - split_and!; [by split|done|done|done].
  - split_and!; [|done|done|done]. split; [|done]. split; simpl.
    + apply hold_acct; [done|done|by destruct Hk as [-> | ->]..].
    + by eapply hold_slot_shaped.
Qed.

Lemma host_rc_eq (f : WH -> option Z * WH) : host_rc f = (host_rc_or EIO f : C unit).
Proof. done. Qed.

Lemma init_slots_inv s n fuel i c w h :
  conn_inv s n c (w, h) -> KSlots ∈ ptrs h -> 0 <= i -> i + Z.of_nat fuel <= notify_depth c ->
  (forall j, i <= j -> (KSlotBuf j ∉ ptrs h) /\ (KSlotMR j ∉ ptrs h)) ->
  wp (init_slots fuel i : C unit) (fun _ c' x' => conn_inv s n c' x') c (w, h).
Proof.
  revert i c w h. induction fuel as [|fuel IH]; intros i c w h I1 Hs Hi Hf Hnew; cbn [init_slots].
  { by apply wp_ret. }
  apply wp_bind. eapply wp_mono.
  { apply (counting_inv s n c w h (KSlotBuf i) i _ ENOMEM I1); [by left|apply Hnew; lia|done|lia]. }
  intros [[]|e| |] c1 [w1 h1] (I2 & -> & Hok & Hno); cbn [seq_post]; try done.
  specialize (Hok eq_refl). simpl in Hok. subst h1. rewrite host_rc_eq.
  apply wp_bind. eapply wp_mono.
  { apply (counting_inv s n c w1 (hold h (KSlotBuf i)) (KSlotMR i) i _ EIO I2); [by right| |set_solver|lia].
    simpl. destruct (Hnew i); [lia|]. set_solver. }
  intros [[]|e| |] c2 [w2 h2] (I3 & -> & Hok2 & Hno2); cbn [seq_post]; try done.
  specialize (Hok2 eq_refl). simpl in Hok2. subst h2.
  apply wp_bind. eapply wp_mono; [apply (keeps_inv _ s n c _ (post_slot_keeps i) I3)|].
  intros [[]|e| |] c3 [w3 h3] (I4 & [S1 S2] & E); cbn [seq_post]; try done. simpl in E. subst h3.
  apply IH; [done|set_solver|lia|rewrite S2; lia|].
  intros j Hj. destruct (Hnew j ltac:(lia)). simpl.
  rewrite !not_elem_of_union, !not_elem_of_singleton. split_and!; try done; intros [= ->]; lia.
Qed.

Lemma alloc_slots_shaped s c h d :
  shaped (with_rc s c) h -> notify_slots c = false ->
  shaped (with_rc s (set_recv c true d (last_notify_slot c) (has_last_notify_slot c))) (hold h KSlots).
Proof.
  intros [H1 H2 H3 [H4 H5]] Hns. simpl in *.
  assert (HnoS : KSlots ∉ ptrs h) by (rewrite H1, Hns; done). split; simpl.
  - split; [done|]. intros _. set_solver.
  - intros j Hj. exfalso. apply HnoS, (H2 j). set_solver.
  - intros k. rewrite elem_of_union, elem_of_singleton. intros [->|Hk'] Hq; [done|by apply (H3 k)].
  - set_solver.
Qed.

Lemma init_notify_slots_inv s n depth c w h :
  conn_inv s n c (w, h) -> 0 <= depth ->
  wp (go_rdma_init_notify_slots depth : C unit) (fun _ c' x' => conn_inv s n c' x') c (w, h).
Proof.
  intros I1 Hd. unfold go_rdma_init_notify_slots.
  apply wp_bind. eapply wp_mono; [apply (keeps_inv _ s n c _ check_open_keeps I1)|].
  intros [[]|e| |] c1 [w1 h1] (I2 & _ & E); cbn [seq_post]; try done. simpl in E. subst h1.
  apply wp_bind, wp_guard; intros _; cbn [seq_post]; [done|].
  apply wp_bind, wp_get. cbn [seq_post].
  destruct (notify_slots c1) eqn:Hns; [by apply wp_guard|].
  destruct I2 as ([HA HS] & Hn & Hc). simpl in HA, HS, Hn.
  assert (HnoS : KSlots ∉ ptrs h) by (rewrite (sh_slots _ _ HS); simpl; by rewrite Hns).
  apply wp_bind. unfold wp, host_rc_or. cbn [alloc_notify_slots accounted]. unfold counting.
  destruct (alloc_notify_slots depth (w1, h).1) as [[e|] w2]; cbn [seq_post].
  { split; [by split|done]. }
  apply wp_bind, wp_modify. cbn [seq_post]. simpl.
  assert (I3 : conn_inv s n (set_recv c1 true depth (last_notify_slot c1) (has_last_notify_slot c1))
                 (w2, hold h KSlots)).
  { split; [|done]. split; [by apply hold_acct|by apply alloc_slots_shaped]. }
  apply wp_bind, wp_guard; intros _; cbn [seq_post]; [done|].
  apply init_slots_inv; [done|simpl; set_solver|lia|simpl; lia|].
  intros j Hj. simpl. rewrite !not_elem_of_union, !not_elem_of_singleton.
  split; (split; [done|]); intros Hp; apply HnoS, (sh_bufs _ _ HS j); auto.
Qed.

Lemma ensure_ready_inv s ms w h :
  Inv s h -> 0 <= recv_depth (cfg (rc s)) ->
  wp (on_conn (go_rdma_ensure_ready ms))
    (fun _ s' x' => Inv s' x'.2 /\ next x'.2 = next h /\ cfg (rc s') = cfg (rc s)) s (w, h).
Proof.
  intros I0 Hd. unfold wp, on_conn.
  assert (Hw : wp (go_rdma_ensure_ready ms : C unit) (fun _ c x' => conn_inv s (next h) c x') (rc s) (w, h)).
  { assert (I1 : conn_inv s (next h) (rc s) (w, h)) by (split; [by destruct s|done]).
    unfold go_rdma_ensure_ready, check_open.
    apply wp_bind, wp_bind, wp_get. cbn [seq_post]. apply wp_guard; intros _; cbn [seq_post]; [done|].
    apply wp_bind, wp_get. cbn [seq_post]. apply wp_bind.
    eapply wp_mono.
    { instantiate (1 := fun _ c x' => conn_inv s (next h) c x').
      destruct (notify_slots (rc s)); [by apply wp_ret|by apply init_notify_slots_inv]. }
    intros [[]|e| |] c1 [w1 h1] I2; cbn [seq_post]; try done.
    apply wp_bind, wp_get. cbn [seq_post]. destruct (rw_ready c1); [by apply wp_ret|].
    eapply wp_mono; [apply (keeps_inv _ s _ c1 _ (exchange_keeps ms) I2)|]. by intros o c2 x2 (? & _). }
  unfold wp in Hw. destruct (go_rdma_ensure_ready ms (rc s) (w, h)) as [[o c] x']. done.
Qed.

(** ** Steps of the set-up

    [finish fails K]: on success [K] holds, on failure [fails]; nothing is said of a
    computation that waits for the device for ever. *)

Definition finish {A} (fails : setup -> WH -> Prop) (K : A -> setup -> WH -> Prop)
  : outcome Z A -> setup -> WH -> Prop :=
  fun o s x => match o with
               | Ret a => K a s x
               | Fail _ => fails s x
               | _ => True
               end.

#[local] Abbreviation P := (M WH setup Z).

Lemma wp_finish_bind {A B} (m : P A) (k : A -> P B) fails K s x :
  wp m (finish fails (fun a s' x' => wp (k a) (finish fails K) s' x')) s x ->
  wp (bind m k) (finish fails K) s x.
Proof.
  intros Hm. apply wp_bind. eapply wp_mono; [exact Hm|].
  intros [a|e| |] s' x'; cbn [finish seq_post]; auto.
Qed.

Lemma wp_finish_mono {A} (m : P A) (f1 f2 : setup -> WH -> Prop) (K1 K2 : A -> setup -> WH -> Prop) s x :
  wp m (finish f1 K1) s x -> (forall s' x', f1 s' x' -> f2 s' x') ->
  (forall a s' x', K1 a s' x' -> K2 a s' x') -> wp m (finish f2 K2) s x.
Proof. intros Hm Hf HK. eapply wp_mono; [exact Hm|]. intros [a|e| |] s' x'; simpl; auto. Qed.

(** Kinds whose pointer is a plain field. *)
Definition plain_kind (k : kind) : bool :=
  match k with
  | KConn | KId | KSlots | KSlotBuf _ | KSlotMR _ | KListener | KAddrInfo => false
  | _ => true
  end.

Lemma hold_shaped s h k :
  shaped s h -> plain_kind k = true ->
  (queue_kind k = true -> manual_resources s = true /\ cm_id h <> None) -> shaped s (hold h k).
Proof.
  intros [H1 H2 H3 [H4 H5]] Hk Hq. split; simpl.
  - rewrite elem_of_union, elem_of_singleton, <- H1. split; [|tauto]. intros [<-|?]; done.
  - intros j. rewrite !elem_of_union, !elem_of_singleton. intros [[<-|Hj]|[<-|Hj]]; try done.
    + split; [auto|by apply H2; left]. right. apply (H2 j). by left.
    + split; [auto|by apply H2; right]. right. apply (H2 j). by right.
  - intros k'. rewrite elem_of_union, elem_of_singleton. intros [->|Hk'] Hq'; [by apply Hq|by apply (H3 k')].
  - rewrite !not_elem_of_union, !not_elem_of_singleton. split_and!; try done; intros <-; done.
Qed.

Lemma wp_alloc_inv d op k n s w h K :
  Inv s h -> next h = n -> k ∉ ptrs h -> plain_kind k = true ->
  (queue_kind k = true -> manual_resources s = true /\ cm_id h <> None) ->
  (k = KRwBuf -> rw_recv_external s = false) ->
  (forall w', Inv s (hold h k) -> K tt s (w', hold h k)) ->
  wp (alloc d op k) (finish (fun s x => Inv s x.2 /\ next x.2 = n) K) s (w, h).
Proof.
  intros [HA HS] Hn Hnew Hk Hq Hrw HK. apply wp_alloc; intros; cbn [finish]; [|done].
  apply HK. split; [apply hold_acct; try done; by intros ->|by apply hold_shaped].
Qed.

Lemma wp_keep_heap {A} (m : P A) n s w h K :
  wp m (fun o s' x' => s' = s /\ x'.2 = h) s (w, h) -> Inv s h -> next h = n ->
  (forall a w', K a s (w', h)) ->
  wp m (finish (fun s x => Inv s x.2 /\ next x.2 = n) K) s (w, h).
Proof.
  intros Hm HI Hn HK. eapply wp_mono; [exact Hm|]. intros o s' [w' h'] [-> E]. simpl in E. subst h'.
  destruct o; cbn [finish]; auto.
Qed.

Lemma wp_call_inv d op n s w h K :
  Inv s h -> next h = n -> (forall w', K tt s (w', h)) ->
  wp (call_or d op) (finish (fun s x => Inv s x.2 /\ next x.2 = n) K) s (w, h).
Proof. intros HI Hn HK. apply wp_call_or; intros; cbn [finish]; auto. Qed.

Lemma wp_guard_inv b e n s w h K :
  Inv s h -> next h = n -> (b = false -> K tt s (w, h)) ->
  wp (guard b e) (finish (fun s x => Inv s x.2 /\ next x.2 = n) K) s (w, h).
Proof. intros HI Hn HK. apply wp_guard; intros Hb; cbn [finish]; auto. Qed.

(** Waiting for an event touches neither the struct nor the heap. *)
Lemma poll_cm_keeps fuel ms s w h :
  wp (poll_cm_uninterrupted fuel ms : P _) (fun _ s' x' => s' = s /\ x'.2 = h) s (w, h).
Proof.
  revert w. induction fuel as [|fuel IH]; intros w; cbn [poll_cm_uninterrupted]; [done|].
  apply wp_bind, wp_on_fst. intros r w'. cbn [seq_post]. destruct r; try (by apply wp_ret). apply IH.
Qed.

Lemma next_event_keeps s w h : wp (next_cm_event : P _) (fun _ s' x' => s' = s /\ x'.2 = h) s (w, h).
Proof.
  apply wp_bind, wp_on_fst. intros r w'. cbn [seq_post]. destruct r; [by apply wp_ret|].
  apply wp_bind, wp_peek. cbn [seq_post]. by apply wp_fail.
Qed.

Lemma wait_event_keeps ms ev s w h :
  wp (go_rdma_wait_cm_event ms ev : P _) (fun _ s' x' => s' = s /\ x'.2 = h) s (w, h).
Proof.
  apply wp_bind, wp_heap_get. cbn [seq_post]. apply wp_bind, wp_guard; intros _; cbn [seq_post]; [done|].
  apply wp_bind. eapply wp_mono; [apply poll_cm_keeps|]. intros [r|e| |] s1 [w1 h1] [-> E];
    simpl in E; subst h1; cbn [seq_post]; try done.
  assert (Hev : wp ((let! event := next_cm_event in
      guard (negb (bool_decide (ev_type event = ev))) EIO;; guard (negb (ev_status event =? 0)) EIO) : P unit)
      (fun _ s' x' => s' = s /\ x'.2 = h) s (w1, h)).
  { apply wp_bind. eapply wp_mono; [apply next_event_keeps|]. intros [r'|e| |] s2 [w2 h2] [-> E];
      simpl in E; subst h2; cbn [seq_post]; try done.
    apply wp_bind, wp_guard; intros _; cbn [seq_post]; [done|]. by apply wp_guard. }
  destruct r; [exact Hev|by apply wp_fail|exact Hev|by apply wp_fail].
Qed.

(** The struct's scalar fields do not matter to the accounting. *)
Lemma inv_scalars s s' h :
  Inv s h -> same_slots (rc s) (rc s') -> rw_recv_external s' = rw_recv_external s ->
  (manual_resources s = true -> manual_resources s' = true) -> Inv s' h.
Proof.
  intros [HA [H1 H2 H3 H4]] [E1 E2] Ee Em. split; [by rewrite Ee|].
  split; [by rewrite E1|by rewrite E2| |done].
  intros k Hk Hq. destruct (H3 k Hk Hq). auto.
Qed.

(** *** The queues and buffers, whatever a failing step does *)

(** The heap has grown by pointers of the kinds [f]. *)
Definition grown (f : kind -> bool) (h h' : heap) : Prop :=
  (forall k, k ∈ ptrs h' -> f k = true \/ k ∈ ptrs h) /\ next h' = next h /\ cm_id h' = cm_id h.

Lemma grown_refl f h : grown f h h.
Proof. split_and!; auto. Qed.

Lemma grown_hold f h h' k : grown f h h' -> f k = true -> grown f h (hold h' k).
Proof.
  intros (H1 & H2 & H3) Hk. split_and!; [|done..]. intros k'. simpl.
  rewrite elem_of_union, elem_of_singleton. intros [->|Hk']; auto.
Qed.

Lemma grown_new f h h' k : grown f h h' -> f k = false -> k ∉ ptrs h -> k ∉ ptrs h'.
Proof. intros (H1 & _) Hk Hn Hin. destruct (H1 k Hin); congruence. Qed.

Definition failed (n : Z) (s : setup) (x : WH) : Prop := Inv s x.2 /\ next x.2 = n.

Section with_step.
Variable step : option Z -> P unit -> P unit.
Variable fails : setup -> WH -> Prop.
Variable n : Z.
Hypothesis Hstep : forall d (m : P unit) K s x,
  wp m (finish (failed n) K) s x -> wp (step d m) (finish fails K) s x.

Lemma step_alloc d d' op k (m : P unit) s w h K :
  Inv s h -> next h = n -> k ∉ ptrs h -> plain_kind k = true ->
  (queue_kind k = true -> manual_resources s = true /\ cm_id h <> None) ->
  (k = KRwBuf -> rw_recv_external s = false) ->
  (forall w', Inv s (hold h k) -> wp m (finish fails K) s (w', hold h k)) ->
  wp (step d (alloc d' op k);; m) (finish fails K) s (w, h).
Proof.
  intros HI Hn Hnew Hk Hq Hrw HK. apply wp_finish_bind, Hstep, wp_alloc_inv; try done.
Qed.

Lemma step_alloc_last d d' op k s w h K :
  Inv s h -> next h = n -> k ∉ ptrs h -> plain_kind k = true ->
  (queue_kind k = true -> manual_resources s = true /\ cm_id h <> None) ->
  (k = KRwBuf -> rw_recv_external s = false) ->
  (forall w', Inv s (hold h k) -> K tt s (w', hold h k)) ->
  wp (step d (alloc d' op k)) (finish fails K) s (w, h).
Proof. intros HI Hn Hnew Hk Hq Hrw HK. apply Hstep, wp_alloc_inv; try done. Qed.

Lemma hold_new k k' h : k ∉ ptrs h -> k <> k' -> k ∉ ptrs (hold h k').
Proof. simpl. rewrite not_elem_of_union, not_elem_of_singleton. auto. Qed.

Lemma create_queues_ok q s w h K :
  Inv s h -> next h = n -> manual_resources s = true -> cm_id h <> None ->
  (forall k, queue_kind k = true -> k ∉ ptrs h) ->
  (forall w' h', Inv (set_cqs s) h' -> grown queue_kind h h' -> K tt (set_cqs s) (w', h')) ->
  wp (create_queues step q) (finish fails K) s (w, h).
Proof.
  intros HI Hn Hm Hid Hnew HK. unfold create_queues.
  pose proof (grown_refl queue_kind h) as G0.
  apply step_alloc; [done|done|by apply Hnew|done|done|done|]. intros w1 I1.
  apply (grown_hold _ _ _ KPd) in G0 as G1; [|done].
  apply step_alloc; [done|done| |done|done|done|]; [repeat apply hold_new; try done; by apply Hnew|]. intros w2 I2.
  apply (grown_hold _ _ _ KSendComp) in G1 as G2; [|done].
  apply step_alloc; [done|done| |done|done|done|]; [repeat apply hold_new; try done; by apply Hnew|]. intros w3 I3.
  apply (grown_hold _ _ _ KRecvComp) in G2 as G3; [|done].
  apply step_alloc; [done|done| |done|done|done|]; [repeat apply hold_new; try done; by apply Hnew|]. intros w4 I4.
  apply (grown_hold _ _ _ KSendCQ) in G3 as G4; [|done].
  apply step_alloc; [done|done| |done|done|done|]; [repeat apply hold_new; try done; by apply Hnew|]. intros w5 I5.
  apply (grown_hold _ _ _ KRecvCQ) in G4 as G5; [|done].
  apply wp_finish_bind, wp_modify. cbn [finish].
  apply (inv_scalars s (set_cqs s)) in I5; [|done..].
  apply step_alloc_last; [done|done| |done|done|done|]; [repeat apply hold_new; try done; by apply Hnew|].
  intros w6 I6. apply HK; [done|]. by apply grown_hold.
Qed.

Definition ring_kind (k : kind) : bool := match k with KSendBuf | KSendMR => true | _ => false end.

Lemma create_send_ring_ok q s w h K :
  Inv s h -> next h = n -> (forall k, ring_kind k = true -> k ∉ ptrs h) ->
  (forall w' h', Inv s h' -> grown ring_kind h h' -> K tt s (w', h')) ->
  wp (create_send_ring step q) (finish fails K) s (w, h).
Proof.
  intros HI Hn Hnew HK. unfold create_send_ring.
  apply wp_finish_bind, Hstep, wp_guard_inv; [done|done|]. intros _.
  apply step_alloc; [done|done|by apply Hnew|done|done|done|]. intros w1 I1.
  apply step_alloc_last; [done|done| |done|done|done|]; [apply hold_new; [by apply Hnew|done]|].
  intros w2 I2. apply HK; [done|]. by repeat apply grown_hold; try apply grown_refl.
Qed.

Definition window_kind (k : kind) : bool := match k with KRwBuf | KRwMR => true | _ => false end.

Lemma create_window_ok q rr s w h K :
  Inv s h -> next h = n -> rw_recv_external s = false -> (forall k, window_kind k = true -> k ∉ ptrs h) ->
  (forall w' h' buf rkey, let s' := set_window buf rkey (u32 (go_rdma_choose_rw_recv_cap (q_frame_cap q)))
                                     (u32 GO_RDMA_RW_RECV_SLOTS) s in
     Inv s' h' -> grown window_kind h h' -> K tt s' (w', h')) ->
  wp (create_window step q rr) (finish fails K) s (w, h).
Proof.
  intros HI Hn He Hnew HK. unfold create_window.
  apply wp_finish_bind, Hstep, wp_guard_inv; [done|done|]. intros _.
  apply step_alloc; [done|done|by apply Hnew|done|done|done|]. intros w1 I1.
  apply wp_finish_bind, wp_peek. cbn [finish].
  apply step_alloc; [done|done| |done|done|done|]; [apply hold_new; [by apply Hnew|done]|]. intros w2 I2.
  apply wp_finish_bind, wp_peek. cbn [finish]. apply wp_modify. cbn [finish]. apply HK.
  - by eapply inv_scalars; [exact I2|..].
  - by repeat apply grown_hold; try apply grown_refl.
Qed.
End with_step.

(** ** The end of the handshake *)

Lemma wp_bind_value {A B} (m : C A) (k : A -> C B) (R : conn -> Prop) c x :
  (forall a c x, wp (k a) (fun o c' _ => forall b, o = Ret b -> R c') c x) ->
  wp (bind m k) (fun o c' _ => forall b, o = Ret b -> R c') c x.
Proof.
  intros Hk. apply wp_bind. unfold wp. destruct (m c x) as [[[a|e| |] c1] x1]; cbn [seq_post]; [apply Hk|done..].
Qed.

Lemma exchange_ready ms c x :
  wp (go_rdma_exchange_rw_desc ms : C unit) (fun o c' _ => forall b, o = Ret b -> rw_ready c' = true) c x.
Proof.
  unfold go_rdma_exchange_rw_desc. apply wp_bind_value. intros _ c0 x0.
  apply wp_bind, wp_get. cbn [seq_post]. destruct (rw_ready c0) eqn:Hr; [by apply wp_ret|].
  repeat (apply wp_bind_value; intros ? ? ?). by apply wp_modify.
Qed.

Lemma ensure_ready_ready ms c x :
  wp (go_rdma_ensure_ready ms : C unit) (fun o c' _ => forall b, o = Ret b -> rw_ready c' = true) c x.
Proof.
  unfold go_rdma_ensure_ready. apply wp_bind_value. intros _ c0 x0. apply wp_bind_value. intros a c1 x1.
  apply wp_bind_value. intros _ c2 x2. apply wp_bind, wp_get. cbn [seq_post].
  destruct (rw_ready c2) eqn:Hr; [by apply wp_ret|apply exchange_ready].
Qed.

(** The handshake ends ready, with the same configuration, or fails with everything still
    accounted for. *)
Lemma handshake_ok ms n s w h K :
  Inv s h -> next h = n -> 0 <= recv_depth (cfg (rc s)) ->
  (forall s' x', Inv s' x'.2 -> next x'.2 = n -> cfg (rc s') = cfg (rc s) -> rw_ready (rc s') = true ->
     K tt s' x') ->
  wp (on_conn (go_rdma_ensure_ready ms)) (finish (failed n) K) s (w, h).
Proof.
  intros HI Hn Hd HK. pose proof (ensure_ready_inv s ms w h HI Hd) as H1.
  pose proof (ensure_ready_ready ms (rc s) (w, h)) as H2. unfold wp, on_conn in *.
  destruct (go_rdma_ensure_ready ms (rc s) (w, h)) as [[o c] x']. destruct H1 as (I1 & N1 & C1).
  destruct o as [[]|e| |]; cbn [finish]; try done.
  - apply HK; [done|by rewrite N1|done|by eapply H2].
  - split; [done|by rewrite N1].
Qed.

(** *** go_rdma_open *)

Lemma open_steps n d (m : P unit) K s x :
  wp m (finish (failed n) K) s x -> wp (open_step d m) (finish (failed n) K) s x.
Proof. done. Qed.

Lemma external_window_ok addr len n s w h K :
  Inv s h -> next h = n -> rw_recv_external s = false -> (forall k, window_kind k = true -> k ∉ ptrs h) ->
  (forall w' h' rkey, let s' := set_window addr rkey (u32 len) 1 (set_external s) in
     Inv s' h' -> grown window_kind h h' -> K tt s' (w', h')) ->
  wp (use_external_window addr len) (finish (failed n) K) s (w, h).
Proof.
  intros [HA HS] Hn He Hnew HK. unfold use_external_window. rewrite He in HA.
  assert (Hno : KRwBuf ∉ ptrs h) by by apply Hnew.
  assert (A1 : acct base true h).
  { destruct HA as [Hf Hl Hfr Hc Hk].
    assert (Hown : forall r, owned true h r <-> owned false h r).
    { intros [m k]. unfold owned. simpl. split.
      - intros [?|[?|(-> & Hp & _)]]; eauto 8.
      - intros [?|[?|(-> & Hp & _)]]; eauto 8. right; right. split_and!; [done|done|]. by intros ->. }
    split; [done| | |done|done].
    - intros r. by rewrite Hown.
    - intros r. rewrite Hown. apply Hfr. }
  assert (A2 : acct base true (set_ptr h KRwBuf)).
  { destruct A1 as [Hf Hl Hfr Hc [Hk1 Hk2]].
    assert (Hown : forall r, owned true (set_ptr h KRwBuf) r <-> owned true h r).
    { intros [m k]. unfold owned. simpl. rewrite elem_of_union, elem_of_singleton. split.
      - intros [?|[?|(-> & [->|Hp] & Hx)]]; eauto 8. by discriminate Hx.
      - intros [?|[?|(-> & Hp & Hx)]]; eauto 8. }
    split; simpl; [by rewrite Hf| | |done|].
    - intros r. by rewrite Hown.
    - intros r. rewrite Hown. apply Hfr.
    - rewrite !not_elem_of_union, !not_elem_of_singleton. done. }
  assert (S1 : shaped (set_external s) h) by (destruct HS as [H1 H2 H3 H4]; by split).
  assert (S2 : shaped (set_external s) (set_ptr h KRwBuf)).
  { destruct (hold_shaped (set_external s) h KRwBuf S1 eq_refl ltac:(done)) as [H1 H2 H3 H4]. by split. }
  apply wp_finish_bind, wp_modify. cbn [finish].
  apply wp_finish_bind, wp_guard_inv; [by split|done|]. intros _.
  apply wp_finish_bind, wp_heap_do. cbn [finish].
  apply wp_finish_bind, wp_alloc_inv; [by split|done| |done|done|done|].
  { simpl. rewrite not_elem_of_union, not_elem_of_singleton. split; [done|by apply Hnew]. }
  intros w1 I1. apply wp_finish_bind, wp_peek. cbn [finish]. apply wp_modify. cbn [finish]. apply HK.
  - by eapply inv_scalars; [exact I1|..].
  - apply grown_hold; [|done]. exact (grown_hold _ _ _ KRwBuf (grown_refl _ h) eq_refl).
Qed.

(** The configuration of a connection set up with the parameters [q]. *)
Definition asked_cfg (q : params) (g : conn_cfg) : Prop :=
  frame_cap g = q_frame_cap q /\ send_depth g = q_send_wr q /\ recv_depth g = q_recv_wr q /\
  inline_threshold g = q_inline q /\ send_signal_interval g = q_signal q /\
  send_cq_null g = false /\ recv_cq_null g = false /\ comp_channels g = true /\ rw_recv_mr g = true.

(** The window it allocates itself. *)
Definition own_window (q : params) (g : conn_cfg) : Prop :=
  rw_recv_cap g = u32 (go_rdma_choose_rw_recv_cap (q_frame_cap q)) /\
  rw_recv_slots g = u32 GO_RDMA_RW_RECV_SLOTS.

(** The configuration of a connection opened with these arguments. *)
Definition opened_cfg (a : open_args) (g : conn_cfg) : Prop :=
  asked_cfg (default_signal (o_params a)) g /\
  (if negb (o_rw_mem a =? 0) && (0 <? o_rw_mem_len a)
   then rw_recv_buf g = o_rw_mem a /\ rw_recv_cap g = u32 (o_rw_mem_len a) /\ rw_recv_slots g = 1
   else own_window (o_params a) g).

Lemma set_id_inv s h i :
  acct base (rw_recv_external s) h -> shaped s h -> cm_id h = None -> i = cur h ->
  Inv s (set_cm_id (own h (i, KId)) (Some i)).
Proof.
  intros [Hf Hl Hfr Hc [Hk1 Hk2]] HS Hid ->.
  assert (Hno : ~ owned (rw_recv_external s) h (cur h, KId)).
  { intros [[= ]|[(i & Hi & _)|(_ & Hp & _)]]; [congruence|done]. }
  assert (Hown : forall r, owned (rw_recv_external s) (set_cm_id (own h (cur h, KId)) (Some (cur h))) r <->
                           r = (cur h, KId) \/ owned (rw_recv_external s) h r).
  { intros r. unfold owned. simpl. rewrite Hid. split.
    - intros [?|[(i & [= <-] & ->)|?]]; auto.
    - intros [->|[?|[(i & ? & _)|?]]]; eauto 8. done. }
  split; [split|].
  - simpl. rewrite Hf. rewrite bool_decide_eq_false_2; [done|]. rewrite Hl.
    intros [Hb|Ho]; [by apply (Hc _ Hb)|done].
  - intros r. rewrite Hown. simpl. rewrite elem_of_union, elem_of_singleton, Hl. tauto.
  - intros r Hb. rewrite Hown. intros [->|Ho]; [by apply (Hc _ Hb)|by apply (Hfr _ Hb)].
  - done.
  - done.
  - destruct HS as [H1 H2 H3 H4]. split; try done. simpl. intros k Hk Hq. by destruct (H3 k Hk Hq).
Qed.

Lemma open_body_ok a n w h :
  acct base false h -> ptrs h = ∅ -> cm_id h = None -> next h = n -> 0 <= q_recv_wr (o_params a) ->
  wp (open_body a)
    (finish (failed n) (fun _ s x => Inv s x.2 /\ next x.2 = n /\ opened_cfg a (cfg (rc s)) /\
                                     rw_ready (rc s) = true)) zero_setup (w, h).
Proof.
  intros HA Hp Hid Hn Hd. unfold open_body. set (q := default_signal (o_params a)).
  assert (S0 : shaped zero_setup h).
  { split; rewrite Hp; try done; set_solver. }
  assert (I0 : Inv zero_setup h) by by split.
  apply wp_finish_bind, wp_alloc_inv; [done|done|by rewrite Hp|done|done|done|]. intros w1 I1.
  apply wp_finish_bind, wp_call_inv; [done|done|]. intros w2.
  apply wp_finish_bind, wp_heap_do. cbn [finish].
  assert (I2 : Inv zero_setup (set_cm_id (own (hold h KChannel) (cur (hold h KChannel), KId)) (Some (cur (hold h KChannel))))).
  { destruct I1 as [A1 S1]. by apply set_id_inv. }
  set (h2 := set_cm_id _ _) in *.
  assert (P2 : forall k, k <> KChannel -> k ∉ ptrs h2).
  { intros k Hk. simpl. rewrite Hp, not_elem_of_union, not_elem_of_singleton. split; [done|]. set_solver. }
  assert (N2 : next h2 = n) by done. assert (Id2 : cm_id h2 <> None) by done.
  clearbody h2. clear I0 S0 I1 HA Hp Hid.
  apply wp_finish_bind, wp_modify. cbn [finish].
  assert (I3 : Inv (set_open zero_setup) h2) by by eapply inv_scalars; [exact I2|..].
  apply wp_finish_bind, wp_peek. cbn [finish].
  apply wp_finish_bind, wp_guard_inv; [done|done|]. intros _.
  apply wp_finish_bind, wp_call_inv; [done|done|]. intros w3.
  apply wp_finish_bind, wp_keep_heap; [apply wait_event_keeps|done|done|]. intros _ w4.
  apply wp_finish_bind, wp_call_inv; [done|done|]. intros w5.
  apply wp_finish_bind, wp_keep_heap; [apply wait_event_keeps|done|done|]. intros _ w6.
  apply wp_finish_bind, wp_modify. cbn [finish].
  set (s3 := set_params q (set_open zero_setup)).
  assert (I4 : Inv s3 h2) by by eapply inv_scalars; [exact I3|..].
  apply wp_finish_bind, (create_queues_ok open_step (failed n) n); [apply open_steps|done|done|done|done|by intros []; auto|].
  intros w7 h3 I5 G3. assert (N3 : next h3 = n) by (destruct G3 as (_ & -> & _); done).
  apply wp_finish_bind, (create_send_ring_ok open_step (failed n) n); [apply open_steps|done|done| |].
  { intros k Hk. apply (grown_new _ _ _ _ G3); [by destruct k|]. apply P2. by destruct k. }
  intros w8 h4 I6 G4. assert (N4 : next h4 = n) by (destruct G4 as (_ & -> & _); done).
  assert (P4 : forall k, window_kind k = true -> k ∉ ptrs h4).
  { intros k Hk. apply (grown_new _ _ _ _ G4); [by destruct k|].
    apply (grown_new _ _ _ _ G3); [by destruct k|]. apply P2. by destruct k. }
  assert (Hrest : forall s' w' h', Inv s' h' -> grown window_kind h4 h' -> opened_cfg a (cfg (rc s')) ->
    recv_depth (cfg (rc s')) = q_recv_wr (o_params a) ->
    wp (connect_peer a)
      (finish (failed n) (fun _ s x => Inv s x.2 /\ next x.2 = n /\ opened_cfg a (cfg (rc s)) /\
                                       rw_ready (rc s) = true)) s' (w', h')).
  { intros s' w' h' I7 G5 Hcfg Hrd. assert (N5 : next h' = n) by (destruct G5 as (_ & -> & _); done).
    apply wp_finish_bind, wp_call_inv; [done|done|]. intros w9.
    apply wp_finish_bind, wp_keep_heap; [apply wait_event_keeps|done|done|]. intros _ w10.
    apply handshake_ok; [done|done|by rewrite Hrd|]. intros s'' x'' I8 N6 Hc Hr.
    split_and!; [done|done|by rewrite Hc|done]. }
  apply wp_finish_bind.
  destruct (negb (o_rw_mem a =? 0) && (0 <? o_rw_mem_len a)) eqn:Ew.
  - apply external_window_ok; [done|done|done|done|]. intros w9 h5 rkey s' I7 G5.
    apply Hrest; [done|done| |done]. unfold opened_cfg, asked_cfg. rewrite Ew. by split_and!.
  - apply (create_window_ok open_step (failed n) n); [apply open_steps|done|done|done|done|].
    intros w9 h5 buf rkey s' I7 G5. apply Hrest; [done|done| |done].
    unfold opened_cfg, asked_cfg. rewrite Ew. by split_and!.
Qed.
End handshake.
