(* ===== verification/VerbsOpen.v ===== *)
(** * Opening, listening and accepting: nothing is lost

    go_rdma_open, go_rdma_listen and go_rdma_accept of VerbsSetup.v, from the empty
    struct to the connection and back: a call that fails leaves allocated what was
    allocated before it, and closing what a call returned does the same.  One path of
    go_rdma_accept does not, and is shown by a run. *)

From S2P Require Import Prelude VerbsConfig VerbsConn VerbsRing VerbsSend VerbsSim VerbsRecv VerbsSetup VerbsHandshake.

(** A heap before a call: nothing has gone wrong, and new serial numbers are new. *)
Definition heap_ok (h : heap) : Prop := fault h = false /\ forall r, r ∈ live h -> r.1 < next h.

Lemma own_fresh_ok h k : heap_ok h -> heap_ok (own_fresh h k) /\ (next h, k) ∉ live h.
Proof.
  intros [Hf Hl]. assert (Hn : (next h, k) ∉ live h) by (intros Hin; apply Hl in Hin; simpl in Hin; lia).
  split; [|done]. split; simpl; [rewrite Hf; by rewrite bool_decide_eq_false_2|].
  intros r. rewrite elem_of_union, elem_of_singleton. intros [->|Hr]; simpl; [lia|]. apply Hl in Hr. lia.
Qed.

Lemma new_conn_acct h : heap_ok h -> acct (live h) false (new_conn h) /\ heap_ok (new_conn h).
Proof.
  intros Hok. destruct (own_fresh_ok h KConn Hok) as [[Hf' Hl'] Hn]. destruct Hok as [Hf Hl].
  split; [|by split]. split; simpl.
  - exact Hf'.
  - intros r. rewrite elem_of_union, elem_of_singleton. unfold owned. simpl. split; [tauto|].
    intros [?|[?|[(? & ? & _)|(_ & ? & _)]]]; [tauto..|done|set_solver].
  - intros r Hr. unfold owned. simpl. intros [->|[(? & ? & _)|(_ & ? & _)]]; [done|done|set_solver].
  - intros r Hr. apply Hl in Hr. lia.
  - set_solver.
Qed.

Section opening.
Context {W : Type} `{!Host W, !CmHost W}.
#[local] Abbreviation WH := (W * heap)%type.
Implicit Types (w : W) (h : heap).

(** Closing the connection [s] leaves allocated just [base], whatever the device does. *)
Definition closes_to (base : gset resource) (s : setup) (h : heap) : Prop :=
  forall w, let '(o, _, x) := go_rdma_close s (w, h) in
            o = Ret tt /\ live x.2 = base /\ fault x.2 = false.

Lemma inv_closes base s h : Inv base s h -> closes_to base s h.
Proof.
  intros [HA HS] w. pose proof (free_conn_spec base s w h HA HS) as Hf. unfold wp in Hf.
  unfold go_rdma_close. destruct (go_rdma_free_conn s (w, h)) as [[o s'] x].
  destruct Hf as (-> & _ & Hl & Hf & _). done.
Qed.

(** Something of the base is released. *)
Lemma acct_drop base ext h r : acct base ext h -> r ∈ base -> acct (base ∖ {[r]}) ext (disown h r).
Proof.
  intros [Hf Hl Hfr Hc Hk] Hr.
  assert (Hown : forall r', owned ext (disown h r) r' <-> owned ext h r') by done.
  split; simpl; [| | | |done].
  - rewrite Hf. rewrite bool_decide_eq_false_2; [done|]. intros Hn. apply Hn, Hl. by left.
  - intros r'. rewrite Hown, !elem_of_difference, !elem_of_singleton, Hl. split.
    + intros [[Hb|Ho] Hne]; [by left|by right].
    + intros [[Hb Hne]|Ho]; [auto|]. split; [by right|]. intros ->. by apply (Hfr _ Hr).
  - intros r'. rewrite elem_of_difference. intros [Hb _]. by apply Hfr.
  - intros r'. rewrite elem_of_difference. intros [Hb _]. by apply Hc.
Qed.

Lemma inv_drop base s h r : Inv base s h -> r ∈ base -> Inv (base ∖ {[r]}) s (disown h r).
Proof.
  intros [HA [H1 H2 H3 H4]] Hr. split; [by apply acct_drop|by split].
Qed.

Lemma fresh_base (X : gset resource) r : r ∉ X -> ({[r]} ∪ X) ∖ {[r]} = X.
Proof. set_solver. Qed.

(** C15: go_rdma_open, from the address to the completed handshake, with whichever call
    failing at whichever point: a call that fails leaves exactly what was allocated
    before it allocated, and releases nothing twice; a call that succeeds returns a
    connection configured as asked (the caller's memory registered whole as one slot,
    when it provides some) and ready for traffic, and closing that connection again
    leaves just what was allocated before the call. *)
Theorem go_rdma_open_safe a w h :
  heap_ok h -> 0 <= q_recv_wr (o_params a) ->
  match go_rdma_open a (w, h) with
  | (Ret s, (_, h')) =>
    opened_cfg a (cfg (rc s)) /\ rw_ready (rc s) = true /\ live h ⊆ live h' /\ fault h' = false /\
    closes_to (live h) s h'
  | (Fail e, (_, h')) => live h' = live h /\ fault h' = false
  | _ => True
  end.
Proof.
  intros Hok Hd. assert (Hf : fault h = false) by apply Hok. unfold go_rdma_open.
  destruct (q_frame_cap (o_params a) =? 0); [by split|].
  destruct ((q_send_wr (o_params a) =? 0) || (q_recv_wr (o_params a) =? 0)); [by split|].
  destruct ((o_rw_mem a =? 0) && (0 <? o_rw_mem_len a)); [by split|].
  destruct (negb (o_rw_mem a =? 0) && (o_rw_mem_len a <? q_frame_cap (o_params a))); [by split|].
  cbn [fst snd]. destruct (gai w) as [rc w1]. destruct (negb (rc =? 0)); [by split|].
  destruct (own_fresh_ok h KAddrInfo Hok) as [Hok1 Hnew].
  set (info := (next h, KAddrInfo)) in *. set (h1 := own_fresh h KAddrInfo) in *.
  assert (Hl1 : live h1 = {[info]} ∪ live h) by done.
  clearbody h1 info.
  destruct (cm_call OpCalloc w1) as [[|] w2]; simpl.
  - destruct (new_conn_acct h1 Hok1) as [HA Hok2].
    pose proof (open_body_ok (live h1) a (next h1 + 1) w2 (new_conn h1) HA eq_refl eq_refl eq_refl Hd) as Hb.
    unfold wp in Hb. unfold cleanup.
    destruct (open_body a zero_setup (w2, new_conn h1)) as [[[[]|e| |] s] [w3 h3]]; cbn [finish] in Hb;
      [| |done|done]; simpl.
    + destruct Hb as (HI & _ & Hcfg & Hr). simpl in HI.
      assert (Hin : info ∈ live h1) by (rewrite Hl1; set_solver).
      apply (inv_drop _ _ _ info) in HI; [|done]. rewrite Hl1, fresh_base in HI by done.
      split_and!; [done|done| |apply HI|by apply inv_closes].
      intros r Hr'. apply (acct_live _ _ _ (proj1 HI)). by left.
    + destruct Hb as (HI & _). simpl in HI.
      assert (Hin : info ∈ live h1) by (rewrite Hl1; set_solver).
      apply (inv_drop _ _ _ info) in HI; [|done]. rewrite Hl1, fresh_base in HI by done.
      pose proof (inv_closes _ _ _ HI) as Hc. unfold closes_to, go_rdma_close in Hc.
      specialize (Hc (cm_call (OpDestroy info) w3).2).
      destruct (go_rdma_free_conn s _) as [[o s'] [w4 h4]]. apply Hc.
  - rewrite Hl1. split; [by rewrite fresh_base|]. destruct Hok1 as [-> _].
    rewrite bool_decide_eq_false_2; [done|]. intros Hn. apply Hn. set_solver.
Qed.

(** *** Listening *)

(** Beside [base], just the resources [ks] of the serial number [n] are allocated. *)
Definition serving (n : Z) (ks : list kind) (base : gset resource) (h : heap) : Prop :=
  fault h = false /\ (forall k, (n, k) ∉ base) /\
  forall r, r ∈ live h <-> r ∈ base \/ (r.1 = n /\ r.2 ∈ ks).

Lemma serving_own n ks base h k :
  serving n ks base h -> k ∉ ks -> serving n (k :: ks) base (own h (n, k)).
Proof.
  intros (Hf & Hn & Hl) Hk. split_and!; [|done|].
  - simpl. rewrite Hf. rewrite bool_decide_eq_false_2; [done|]. rewrite Hl. simpl.
    intros [Hb|[_ Hin]]; [by apply (Hn k)|done].
  - intros [m k']. simpl. rewrite elem_of_union, elem_of_singleton, Hl, elem_of_cons. simpl.
    naive_solver.
Qed.

Lemma serving_destroy {T} n ks ks' base k (Q : outcome Z unit -> T -> WH -> Prop) s w h :
  serving n ks base h -> k ∈ ks -> (forall k', k' ∈ ks' <-> k' ∈ ks /\ k' <> k) ->
  (forall w' h', serving n ks' base h' -> Q (Ret tt) s (w', h')) ->
  wp (destroy (n, k)) Q s (w, h).
Proof.
  intros (Hf & Hn & Hl) Hk Hks HQ. apply wp_destroy. intros w'. apply HQ. split_and!; [|done|].
  - simpl. rewrite Hf. rewrite bool_decide_eq_false_2; [done|]. intros Hno. apply Hno, Hl. auto.
  - intros [m k']. simpl. rewrite elem_of_difference, elem_of_singleton, Hl, Hks. simpl. split.
    + intros [[Hb|[-> Hin]] Hne]; [by left|right]. split_and!; [done|done|congruence].
    + intros [Hb|(-> & Hin & Hne)]; [|split; [auto|congruence]].
      split; [by left|]. intros [= -> ->]. by apply (Hn k).
Qed.

Lemma serving_none n base h : serving n [] base h -> live h = base /\ fault h = false.
Proof.
  intros (Hf & _ & Hl). split; [|done]. apply set_eq. intros r. rewrite Hl. split; [|auto].
  intros [?|[_ ?%elem_of_nil]]; done.
Qed.

(** Destroying all of it, and going on. *)
Lemma serving_drop {T A} n ks ks' base (m : M WH T Z A) (Q : outcome Z A -> T -> WH -> Prop) s w h :
  serving n ks base h -> NoDup ks' -> (forall k, k ∈ ks <-> k ∈ ks') ->
  (forall w' h', live h' = base /\ fault h' = false -> wp m Q s (w', h')) ->
  wp (fold_right (fun k m => (destroy (n, k);; m)) (ret tt) ks';; m) Q s (w, h).
Proof.
  intros HS HN Hks HQ. apply wp_bind. revert ks w h HS Hks.
  induction HN as [|k ks' Hk HN IH]; intros ks w h HS Hks; cbn [fold_right].
  - apply wp_ret. cbn [seq_post]. apply HQ. destruct ks as [|k ks]; [by apply (serving_none n)|].
    destruct (Hks k) as [Hin _]. apply elem_of_nil in Hin; [done|by left].
  - apply wp_bind, (serving_destroy n ks ks' base k); [done|apply Hks; by left| |].
    { intros k'. rewrite Hks, elem_of_cons. split; [|tauto]. intros Hin.
      split; [by right|]. by intros ->. }
    intros w' h' HS'. cbn [seq_post]. by apply (IH ks').
Qed.

(** Errno, as the code of a failure. *)
Lemma wp_errno_fails {T A} d (Q : outcome Z A -> T -> WH -> Prop) s w h :
  (forall e, Q (Fail e) s (w, h)) ->
  wp (let! e := peek (fun x : WH => errno x.1) in fail (errno_or e d)) Q s (w, h).
Proof. intros HQ. apply wp_bind, wp_peek. cbn [seq_post]. apply wp_fail, HQ. Qed.

(** One call: when it fails, all is released and its code is returned. *)
Lemma wp_listen_step {T A} op n ks ks' base d (m : unit -> M WH T Z A) (Q : outcome Z A -> T -> WH -> Prop) s w h :
  serving n ks base h -> NoDup ks' -> (forall k, k ∈ ks <-> k ∈ ks') ->
  (forall e x, live x.2 = base /\ fault x.2 = false -> Q (Fail e) s x) ->
  (forall w', wp (m tt) Q s (w', h)) ->
  wp (bind (let! ok := host (on_fst (cm_call op)) in
            if ok then ret tt
            else fold_right (fun k m => (destroy (n, k);; m)) (ret tt) ks';;
                 let! e := peek (fun x : WH => errno x.1) in fail (errno_or e d)) m) Q s (w, h).
Proof.
  intros HS HN Hks Hfail Hm. apply wp_bind, wp_bind, wp_on_fst. intros [|] w'; cbn [seq_post].
  - apply wp_ret, Hm.
  - apply (serving_drop n ks ks' base); [done..|]. intros w2 h2 H2. apply wp_errno_fails.
    intros e. cbn [seq_post]. by apply Hfail.
Qed.

(** The listener's resources can all be released again. *)
Lemma listener_closes l base w h :
  serving (l_serial l) [KListener; KId; KChannel] base h -> listen_id l = true -> l_cm_channel l = true ->
  wp (go_rdma_listener_close l) (fun o _ x => o = Ret tt /\ live x.2 = base /\ fault x.2 = false) tt (w, h).
Proof.
  intros HS Hid Hch. unfold go_rdma_listener_close, go_rdma_free_listener. rewrite Hid, Hch.
  apply wp_bind, (serving_destroy _ _ [KListener; KChannel] _ KId _ _ _ _ HS); [set_solver|set_solver|].
  intros w1 h1 S1. cbn [seq_post].
  apply wp_bind, (serving_destroy _ _ [KListener] _ KChannel _ _ _ _ S1); [set_solver|set_solver|].
  intros w2 h2 S2. cbn [seq_post].
  apply (serving_destroy _ _ [] _ KListener _ _ _ _ S2); [set_solver|set_solver|].
  intros w3 h3 S3. split; [done|by apply (serving_none (l_serial l))].
Qed.

(** C16: go_rdma_listen always returns, with whichever call failing: a call that fails
    leaves allocated exactly what was allocated before it, and releases nothing twice; one
    that succeeds returns a listener with the caller's parameters (a signal interval of
    zero read as one), and closing it leaves just what was allocated before. *)
Theorem go_rdma_listen_safe q backlog w h :
  heap_ok h ->
  match go_rdma_listen q backlog tt (w, h) with
  | (Ret l, _, (_, h')) =>
    l_params l = default_signal q /\ q_signal (l_params l) <> 0 /\ live h ⊆ live h' /\ fault h' = false /\
    forall w', let '(o, _, x) := go_rdma_listener_close l tt (w', h') in
               o = Ret tt /\ live x.2 = live h /\ fault x.2 = false
  | (Fail _, _, (_, h')) => live h' = live h /\ fault h' = false
  | _ => False
  end.
Proof.
  intros Hok. assert (Hf : fault h = false) by apply Hok.
  assert (Hn : forall k, (next h, k) ∉ live h).
  { intros k Hin. apply (proj2 Hok) in Hin. simpl in Hin. lia. }
  assert (Hw : wp (go_rdma_listen q backlog) (fun o _ x => match o with
    | Ret l => l_params l = default_signal q /\ listen_id l = true /\ l_cm_channel l = true /\
               serving (l_serial l) [KListener; KId; KChannel] (live h) x.2
    | Fail _ => live x.2 = live h /\ fault x.2 = false
    | _ => False end) tt (w, h)).
  { unfold go_rdma_listen.
    do 3 (apply wp_bind, wp_guard; intros _; cbn [seq_post]; [done|]).
    apply wp_bind, wp_on_fst. intros rc w1. cbn [seq_post].
    apply wp_bind, wp_guard; intros _; cbn [seq_post]; [done|].
    apply wp_bind, wp_heap_get. cbn [seq_post]. cbv zeta.
    apply wp_bind, wp_heap_do. cbn [seq_post].
    assert (S1 : serving (next h) [KAddrInfo] (live h) (own_fresh h KAddrInfo)).
    { apply (serving_own (next h) [] (live h)
        {| live := live h; ptrs := ptrs h; cm_id := cm_id h; cur := cur h; next := next h + 1;
           fault := fault h |}); [|by apply not_elem_of_nil].
      split_and!; [done..|]. intros r. simpl. rewrite elem_of_nil. tauto. }
    set (h1 := own_fresh h KAddrInfo) in *. clearbody h1. set (n := next h) in *. clearbody n.
    assert (Hcb : forall ks : list kind, bool_decide (NoDup ks) = true -> NoDup ks).
    { intros ks. by rewrite bool_decide_eq_true. }
    apply (wp_listen_step _ n [KAddrInfo] [KAddrInfo] (live h)); [done|by apply Hcb|done|done|].
    intros w2. apply wp_bind, wp_heap_do. cbn [seq_post].
    apply (serving_own _ _ _ _ KChannel) in S1 as S2; [|set_solver].
    apply (wp_listen_step _ n [KChannel; KAddrInfo] [KAddrInfo; KChannel] (live h)); [done|by apply Hcb|set_solver|done|].
    intros w3. apply wp_bind, wp_heap_do. cbn [seq_post].
    apply (serving_own _ _ _ _ KId) in S2 as S3; [|set_solver].
    apply wp_bind, wp_peek. cbn [seq_post]. apply wp_bind.
    set (h3 := own _ (n, KId)) in *. clearbody h3. clear S1 S2.
    destruct (gai_src _ || gai_dst _); [apply wp_ret; cbn [seq_post]|].
    2: { apply (serving_drop n [KId; KChannel; KAddrInfo] [KAddrInfo; KId; KChannel] (live h)); [done|by apply Hcb|set_solver|].
         intros w4 h4 H4. by apply wp_fail. }
    apply wp_bind, wp_on_fst. intros bound w4. cbn [seq_post].
    apply wp_bind, (serving_destroy _ _ [KId; KChannel] _ KAddrInfo _ _ _ _ S3); [set_solver|set_solver|].
    intros w5 h5 S5. cbn [seq_post]. apply wp_bind.
    destruct bound; [apply wp_ret; cbn [seq_post]|].
    2: { apply (serving_drop n [KId; KChannel] [KId; KChannel] (live h)); [done|by apply Hcb|done|].
         intros w6 h6 H6. apply wp_errno_fails. intros e. exact H6. }
    apply (wp_listen_step _ n [KId; KChannel] [KId; KChannel] (live h)); [done|by apply Hcb|done|done|].
    intros w6. apply (wp_listen_step _ n [KId; KChannel] [KId; KChannel] (live h)); [done|by apply Hcb|done|done|].
    intros w7. apply wp_bind, wp_heap_do. cbn [seq_post]. apply wp_ret. split_and!; try done.
    apply serving_own; [done|set_solver]. }
  unfold wp in Hw. destruct (go_rdma_listen q backlog tt (w, h)) as [[[l|e| |] u] [w' h']]; try done.
  destruct Hw as (Hp & Hid & Hch & HS). simpl in HS. split_and!; [done| | |apply HS|].
  - rewrite Hp. simpl. case_match; lia.
  - intros r Hr. apply HS. by left.
  - intros w2. pose proof (listener_closes l (live h) w2 h' HS Hid Hch) as Hc. unfold wp in Hc.
    by destruct (go_rdma_listener_close l tt (w2, h')) as [[o t] x].
Qed.

(** *** Accepting *)

(** What rdma_cm reports when a child's connection is over, or will not come to be. *)
Definition child_over : list cm_event_type :=
  [DISCONNECTED; REJECTED; CONNECT_ERROR; UNREACHABLE; ADDR_CHANGE; TIMEWAIT_EXIT].

(** The ids, other than the listener's own, that are over when [evs] have been reported. *)
Definition over_ids (l : listener) (evs : list cm_event) : gset resource :=
  list_to_set (omap (fun ev =>
    i ← ev_id ev;
    if bool_decide (ev_type ev ∈ child_over /\ i <> l_serial l) then Some (i, KId) else None) evs).

(** From [w] to [w'] the listener's channel, polled between destructions, has brought
    [evs]. *)
Inductive brings : W -> list cm_event -> W -> Prop :=
| brings_nil w : brings w [] w
| brings_poll ms w evs w' : brings (cm_poll ms w).2 evs w' -> brings w evs w'
| brings_destroy r w evs w' : brings (cm_call (OpDestroy r) w).2 evs w' -> brings w evs w'
| brings_event w evs w' :
    brings (get_cm_event w).2 evs w' -> brings w (option_list (get_cm_event w).1 ++ evs) w'.

(** The next event is a connection request. *)
Definition at_request (w : W) : Prop :=
  exists ev, (get_cm_event w).1 = Some ev /\ ev_type ev = CONNECT_REQUEST.

(** From [w] on the channel has been drained, up to a point where [E] holds, and exactly
    the ids that its events said are over have been destroyed; nothing else has changed. *)
Definition drained (E : W -> Prop) (l : listener) (w : W) (h h' : heap) : Prop :=
  fault h' = false /\
  exists evs w1, brings w evs w1 /\ E w1 /\ live h' = live h ∖ over_ids l evs.

(** An accept that fails in [w'] has drained the channel up to there or to a request. *)
Definition stopped (w' w1 : W) : Prop := w1 = w' \/ at_request w1.

Lemma over_ids_app l evs1 evs2 : over_ids l (evs1 ++ evs2) = over_ids l evs1 ∪ over_ids l evs2.
Proof. unfold over_ids. by rewrite omap_app, list_to_set_app_L. Qed.

Lemma drained_here (E : W -> Prop) l w h h' :
  E w -> fault h' = false -> live h' = live h -> drained E l w h h'.
Proof.
  intros HE Hf Hl. split; [done|]. exists [], w. split_and!; [constructor|done|].
  rewrite Hl. change (over_ids l []) with (∅ : gset resource). set_solver.
Qed.

Lemma drained_live (E E' : W -> Prop) l w h h1 h2 :
  (forall w1, E w1 -> E' w1) -> drained E l w h h1 -> live h2 = live h1 -> fault h2 = false ->
  drained E' l w h h2.
Proof.
  intros HE (H1 & evs & w1 & H2 & H3 & H4) El Ef. split; [done|]. exists evs, w1.
  split_and!; [done|auto|by rewrite El].
Qed.

Lemma drained_poll E ms l w h h' : drained E l (cm_poll ms w).2 h h' -> drained E l w h h'.
Proof.
  intros (H1 & evs & w1 & H2 & H3). split; [done|]. exists evs, w1. split; [by eapply brings_poll|done].
Qed.

Lemma drained_destroy E r l w h h' : drained E l (cm_call (OpDestroy r) w).2 h h' -> drained E l w h h'.
Proof.
  intros (H1 & evs & w1 & H2 & H3). split; [done|]. exists evs, w1. split; [by eapply brings_destroy|done].
Qed.

(** One event, with what its handling leaves. *)
Lemma drained_event E l w h h1 h' :
  live h1 = live h ∖ over_ids l (option_list (get_cm_event w).1) ->
  drained E l (get_cm_event w).2 h1 h' -> drained E l w h h'.
Proof.
  intros Hl (H1 & evs & w1 & H2 & H3 & H4). split; [done|].
  exists (option_list (get_cm_event w).1 ++ evs), w1. split_and!; [by apply brings_event|done|].
  rewrite H4, Hl, over_ids_app. set_solver.
Qed.

Lemma over_ids_one l ev : over_ids l [ev] =
  match ev_id ev with
  | Some i => if negb (i =? l_serial l) && ends_child (ev_type ev) then {[(i, KId)]} else ∅
  | None => ∅
  end.
Proof.
  unfold over_ids, omap, list_omap. destruct (ev_id ev) as [i|]; [|done]. cbn [mbind option_bind].
  assert (Hb : bool_decide (ev_type ev ∈ child_over /\ i <> l_serial l) =
    negb (i =? l_serial l) && ends_child (ev_type ev)).
  { apply eq_true_iff_eq. rewrite bool_decide_eq_true, andb_true_iff, negb_true_iff, Z.eqb_neq.
    unfold child_over. destruct (ev_type ev); simpl; set_solver. }
  rewrite Hb. destruct (_ && _); simpl; set_solver.
Qed.

(** Destroying an id that exists. *)
Lemma destroy_id h i : heap_ok h -> (i, KId) ∈ live h -> heap_ok (disown h (i, KId)).
Proof.
  intros [Hf Hok] Hin. split; [simpl; by rewrite Hf, bool_decide_eq_false_2 by (by intros Hn)|].
  simpl. intros r [Hr _]%elem_of_difference. by apply Hok.
Qed.

(** Rejecting and destroying the id of the request. *)
Lemma own_fresh_drop h k : heap_ok h -> let h' := disown (own_fresh h k) (next h, k) in
  live h' = live h /\ fault h' = false.
Proof.
  intros Hok. destruct (own_fresh_ok h k Hok) as [[Hf _] Hn]. cbv zeta. split.
  - by apply fresh_base.
  - simpl in *. rewrite Hf, bool_decide_eq_false_2; [done|]. intros Hno. apply Hno. set_solver.
Qed.

(** Whatever an event that is no request names, exactly what is over has gone. *)
Lemma wp_other_event l ev (m : M WH setup Z Z) Q s w h :
  heap_ok h ->
  (forall w' h', (w' = w \/ exists r, w' = (cm_call (OpDestroy r) w).2) -> heap_ok h' ->
    live h' = live h ∖ over_ids l [ev] -> wp m Q s (w', h')) ->
  wp ((match known_id h ev with
       | Some i => if negb (i =? l_serial l) && ends_child (ev_type ev) then destroy (i, KId) else ret tt
       | None => ret tt
       end);; m) Q s (w, h).
Proof.
  intros Hok Hm. rewrite over_ids_one in Hm. apply wp_bind. unfold known_id.
  destruct (ev_id ev) as [i|]; [|apply wp_ret, Hm; [by left|done|set_solver]].
  case_bool_decide as Hin.
  2: { apply wp_ret, Hm; [by left|done|]. destruct (_ && _); set_solver. }
  destruct (_ && _); [|apply wp_ret, Hm; [by left|done|set_solver]].
  apply wp_bind. unfold wp at 1, call_ignore. cbn [seq_post]. apply wp_heap_do. cbn [seq_post].
  apply Hm; [right; by eexists|by apply destroy_id|done].
Qed.

(** What the loop, started in [w] and [h], comes to. *)
Definition looped (l : listener) (w : W) (h : heap) (o : outcome Z Z) (x : WH) : Prop :=
  match o with
  | Ret id => exists hd, drained at_request l w h hd /\ heap_ok hd /\ id = next hd /\ x.2 = own_fresh hd KId
  | Fail _ => drained (stopped x.1) l w h x.2
  | _ => True
  end.

Lemma looped_from l w h w1 h1 o x :
  (forall E h', drained E l w1 h1 h' -> drained E l w h h') -> looped l w1 h1 o x -> looped l w h o x.
Proof.
  intros Hd. destruct o as [id|e| |]; simpl; [|by apply Hd|done..].
  intros (hd & HD & HQ). exists hd. split; [by apply Hd|done].
Qed.

(** A request that cannot be taken is rejected and its id destroyed. *)
Lemma request_refused l w h s h1 :
  heap_ok h -> at_request w -> h1 = own_fresh h KId ->
  forall w1, wp (call_ignore OpReject;; destroy (next h, KId);; fail EIO : M WH setup Z Z)
    (fun o s' x => s' = s /\ looped l w h o x) s (w1, h1).
Proof.
  intros Hok Hreq -> w1. apply wp_bind, wp_call_ignore. intros w3. cbn [seq_post].
  apply wp_bind, wp_destroy. intros w4. cbn [seq_post]. apply wp_fail. split; [done|].
  destruct (own_fresh_drop h KId Hok) as [El Ef]. apply drained_here; [by right|done|done].
Qed.

Lemma accept_loop_spec fuel l s w h :
  heap_ok h -> wp (accept_loop fuel l) (fun o s' x => s' = s /\ looped l w h o x) s (w, h).
Proof.
  revert w h. induction fuel as [|fuel IH]; intros w h Hok; cbn [accept_loop]; [done|].
  assert (Hf : fault h = false) by apply Hok.
  assert (Hmore : forall w1 h1, heap_ok h1 -> (forall E h', drained E l w1 h1 h' -> drained E l w h h') ->
    wp (accept_loop fuel l) (fun o s' x => s' = s /\ looped l w h o x) s (w1, h1)).
  { intros w1 h1 Hok1 Hd. eapply wp_mono; [by apply IH|]. intros o s' x [-> HQ]. split; [done|].
    by eapply looped_from. }
  assert (Hend : forall e w1, (forall E h', drained E l w1 h h' -> drained E l w h h') ->
    wp (fail e) (fun o s' x => s' = s /\ looped l w h o x) s (w1, h)).
  { intros e w1 Hd. apply wp_fail. split; [done|]. apply Hd, drained_here; [by left|done|done]. }
  apply wp_bind, wp_host. unfold on_fst. cbn [fst snd]. intros prc x1.
  destruct (cm_poll _ w) as [r w1] eqn:Ep. intros [= <- <-]. cbn [seq_post].
  assert (Hp : forall E h', drained E l w1 h h' -> drained E l w h h').
  { intros E h' HD. apply (drained_poll _ GO_RDMA_ACCEPT_POLL_TIMEOUT_MS). by rewrite Ep. }
  destruct r; [|by apply Hend|by apply Hmore|by apply Hend].
  apply wp_bind. unfold next_cm_event. apply wp_bind, wp_host. unfold on_fst. cbn [fst snd]. intros oev x2.
  destruct (get_cm_event w1) as [oev' w2] eqn:Ee. intros [= <- <-]. cbn [seq_post].
  assert (Hev : forall E h1 h', live h1 = live h ∖ over_ids l (option_list oev') ->
    drained E l w2 h1 h' -> drained E l w h h').
  { intros E h1 h' Hl HD. apply Hp. apply (drained_event E l w1 h h1); rewrite Ee; done. }
  destruct oev' as [ev|].
  2: { apply wp_bind, wp_peek. cbn [seq_post]. apply Hend. intros E h'. apply Hev.
       change (over_ids l _) with (∅ : gset resource). set_solver. }
  apply wp_ret. cbn [seq_post]. apply wp_bind, wp_heap_get. cbn [seq_post].
  assert (Hother : wp ((match known_id h ev with
       | Some i => if negb (i =? l_serial l) && ends_child (ev_type ev) then destroy (i, KId) else ret tt
       | None => ret tt
       end);; accept_loop fuel l) (fun o s' x => s' = s /\ looped l w h o x) s (w2, h)).
  { apply wp_other_event; [done|]. intros w3 h3 Hw Hok3 Hl. apply Hmore; [done|]. intros E h' HD.
    apply (Hev E h3); [done|]. destruct Hw as [->|[rs ->]]; [done|]. by eapply drained_destroy. }
  destruct (ev_type ev) eqn:Et; try exact Hother.
  assert (Hreq : at_request w1) by (exists ev; by rewrite Ee).
  assert (Hback : forall o x, looped l w1 h o x -> looped l w h o x) by (intros o x; by apply looped_from).
  destruct (ev_id ev) as [i|].
  2: { apply wp_fail. split; [done|]. apply Hback, drained_here; [by right|done|done]. }
  apply wp_bind, wp_heap_do. cbn [seq_post]. destruct (ev_status ev =? 0).
  - apply wp_ret. split; [done|]. apply Hback. exists h. split_and!; [|done..]. by apply drained_here.
  - eapply wp_mono; [by eapply request_refused|]. intros o s' x [-> HQ]. split; [done|by apply Hback].
Qed.

(** The migrated id becomes the connection's. *)
Lemma adopt_inv X s h i :
  Inv ({[(i, KId)]} ∪ X) s h -> cm_id h = None -> (i, KId) ∉ X -> Inv X s (set_cm_id h (Some i)).
Proof.
  intros [[Hf Hl Hfr Hc Hk] [H1 H2 H3 H4]] Hid Hi.
  assert (Hown : forall r, owned (rw_recv_external s) (set_cm_id h (Some i)) r <->
                           r = (i, KId) \/ owned (rw_recv_external s) h r).
  { intros r. unfold owned. simpl. rewrite Hid. split.
    - intros [?|[(j & [= <-] & ->)|?]]; auto.
    - intros [->|[?|[(j & ? & _)|?]]]; eauto 8. done. }
  assert (Hsub : forall r, r ∈ X -> r ∈ ({[(i, KId)]} ∪ X : gset resource)) by set_solver.
  split; [split|split]; try done.
  - intros r. rewrite Hown. simpl. rewrite Hl, elem_of_union, elem_of_singleton. tauto.
  - intros r Hr. rewrite Hown. intros [->|Ho]; [done|]. by apply (Hfr r); [apply Hsub|].
  - intros r Hr. by apply Hc, Hsub.
  - simpl. intros k Hk' Hq. by destruct (H3 k Hk' Hq).
Qed.

(** What a failing step of go_rdma_accept does: the connection is freed. *)
Definition gone (base : gset resource) (s : setup) (x : WH) : Prop :=
  live x.2 = base /\ fault x.2 = false.

Lemma free_conn_gone base s w h {A} (m : M WH setup Z A) Q :
  Inv base s h -> (forall w' h', live h' = base /\ fault h' = false -> wp m Q s (w', h')) ->
  wp (go_rdma_free_conn;; m) Q s (w, h).
Proof.
  intros [HA HS] Hm. apply wp_bind. eapply wp_mono; [by apply (free_conn_spec base)|].
  intros o s' [w' h'] (-> & -> & Hl & Hf & _). cbn [seq_post]. by apply Hm.
Qed.

Lemma accept_step_ok base n d (m : M WH setup Z unit) K s x :
  wp m (finish (failed base n) K) s x -> wp (accept_step d m) (finish (gone base) K) s x.
Proof.
  intros Hm. apply wp_bind, wp_catch. eapply wp_mono; [exact Hm|].
  intros [[]|e| |] s' [w' h'] HQ; cbn [finish seq_post] in *; try done.
  destruct HQ as [HI _]. apply (free_conn_gone base); [done|]. intros w2 h2 H2.
  destruct d; [by apply wp_errno_fails|by apply wp_fail].
Qed.

(** From the migrated id to the end of the handshake. *)
Lemma accept_rest_ok base n q s w h K :
  Inv base s h -> next h = n -> cm_id h <> None -> manual_resources s = true ->
  rw_recv_external s = false -> cfg (rc s) = cfg (rc (set_params q zero_setup)) ->
  (forall k, k <> KChannel -> k ∉ ptrs h) -> 0 <= q_recv_wr q ->
  (forall s' x', Inv base s' x'.2 -> asked_cfg q (cfg (rc s')) -> own_window q (cfg (rc s')) ->
     rw_ready (rc s') = true -> K tt s' x') ->
  wp (accept_rest q)
    (finish (gone base) K) s (w, h).
Proof.
  intros I0 N0 Id0 Hman Hext Hcfg P0 Hd HK.
  apply wp_finish_bind, (create_queues_ok base accept_step (gone base) n);
    [apply accept_step_ok|done|done|done|done|by intros []; auto|].
  intros w1 h1 I1 G1. assert (N1 : next h1 = n) by (destruct G1 as (_ & -> & _); done).
  apply wp_finish_bind, (create_send_ring_ok base accept_step (gone base) n); [apply accept_step_ok|done|done| |].
  { intros k Hk. apply (grown_new _ _ _ _ G1); [by destruct k|]. apply P0. by destruct k. }
  intros w2 h2 I2 G2. assert (N2 : next h2 = n) by (destruct G2 as (_ & -> & _); done).
  apply wp_finish_bind, (create_window_ok base accept_step (gone base) n); [apply accept_step_ok|done|done|done| |].
  { intros k Hk. apply (grown_new _ _ _ _ G2); [by destruct k|].
    apply (grown_new _ _ _ _ G1); [by destruct k|]. apply P0. by destruct k. }
  intros w3 h3 buf rkey s3 I3 G3. assert (N3 : next h3 = n) by (destruct G3 as (_ & -> & _); done).
  apply wp_finish_bind, (accept_step_ok base n), wp_call_inv; [done|done|]. intros w4.
  apply wp_finish_bind, (accept_step_ok base n), wp_keep_heap; [apply wait_event_keeps|done|done|].
  intros _ w5. apply (accept_step_ok base n).
  apply handshake_ok; [done|done| |].
  { unfold s3. simpl. rewrite Hcfg. done. }
  intros s4 x4 I4 N4 C4 R4. apply HK; [done| | |done]; rewrite C4; unfold s3; simpl; [|done].
  unfold asked_cfg. simpl. rewrite Hcfg. by split_and!.
Qed.

(** An accepted connection, with what was left of the heap [hd]. *)
Definition accepted_ok (l : listener) (hd : heap) (s : setup) (x : WH) : Prop :=
  Inv (live hd) s x.2 /\ asked_cfg (l_params l) (cfg (rc s)) /\
  own_window (l_params l) (cfg (rc s)) /\ rw_ready (rc s) = true.

(** The request's id is the newest resource: a failure destroys it, a success gives it to
    the connection. *)
Lemma adopt_request_ok l hd w :
  heap_ok hd -> 0 <= q_recv_wr (l_params l) -> (forall w', (cm_call OpMigrate w').1 = true) ->
  wp (adopt_request (l_params l) (next hd))
    (finish (gone (live hd)) (fun _ s x => accepted_ok l hd s x)) zero_setup (w, own_fresh hd KId).
Proof.
  intros Hokd Hd Hmig. unfold adopt_request. cbv zeta.
  destruct (own_fresh_ok hd KId Hokd) as [Hok1 Hnew]. pose proof (own_fresh_drop hd KId Hokd) as Hdrop.
  cbv zeta in Hdrop. set (h1 := own_fresh hd KId) in *.
  assert (Hl1 : live h1 = {[(next hd, KId)]} ∪ live hd) by done.
  assert (Hid : forall h', live h' = live h1 -> fault h' = false ->
            live (disown h' (next hd, KId)) = live hd /\ fault (disown h' (next hd, KId)) = false).
  { intros h' El Ef. simpl. rewrite El, Hl1, Ef. split; [by apply fresh_base|].
    rewrite bool_decide_eq_false_2; [done|]. intros Hn. apply Hn. set_solver. }
  apply wp_finish_bind, wp_on_fst. intros ok w2. cbn [finish]. apply wp_finish_bind.
  destruct ok; [apply wp_ret; cbn [finish]|].
  2: { apply wp_bind, wp_call_ignore. intros w3. cbn [seq_post].
       apply wp_bind, wp_destroy. intros w4. cbn [seq_post].
       by apply wp_errno_fails. }
  destruct (new_conn_acct h1 Hok1) as [HA Hok2].
  assert (Hn2 : cm_id (new_conn h1) = None /\ ptrs (new_conn h1) = ∅) by done.
  assert (I2 : Inv (live h1) zero_setup (new_conn h1)) by (split; [done|]; split; simpl; try done; set_solver).
  apply wp_finish_bind, wp_heap_do. cbn [finish].
  set (h2 := new_conn h1) in *. clearbody h2. destruct Hn2 as [Id2 P2]. clear HA Hok2.
  apply wp_finish_bind, wp_on_fst. intros ok w3. cbn [finish]. apply wp_finish_bind.
  destruct ok; [apply wp_ret; cbn [finish]|].
  2: { apply (free_conn_gone _ _ _ _ _ _ I2). intros w4 h4 [El Ef].
       apply wp_bind, wp_call_ignore. intros w5. cbn [seq_post].
       apply wp_bind, wp_destroy. intros w6. cbn [seq_post].
       apply wp_errno_fails. intros e. cbn [finish]. by apply Hid. }
  apply wp_finish_bind, wp_heap_do. cbn [finish].
  assert (I3 : Inv (live h1) zero_setup (hold h2 KChannel)).
  { destruct I2. split; [apply hold_acct; try done; by rewrite P2|by apply hold_shaped]. }
  apply wp_finish_bind. unfold wp, host, on_fst. cbn [fst snd]. specialize (Hmig w3).
  destruct (cm_call OpMigrate w3) as [ok w4]. simpl in Hmig. subst ok. cbn [finish].
  apply wp_finish_bind, wp_ret. cbn [finish]. apply wp_finish_bind, wp_heap_do. cbn [finish].
  rewrite Hl1 in I3. apply adopt_inv in I3 as I4; [|done|done].
  apply wp_finish_bind, wp_modify. cbn [finish]. apply wp_finish_bind, wp_modify. cbn [finish].
  apply (accept_rest_ok (live hd) (next h2)); try done.
  - by eapply inv_scalars; [exact I4|..].
  - intros k Hk. simpl. rewrite P2. set_solver.
Qed.

(** C17: go_rdma_accept, where rdma_migrate_id succeeds: whatever events the listener's
    channel brings and whichever other call fails, an accept that fails has allocated
    nothing that is left and released nothing twice; what it has destroyed are exactly
    the children's ids that the events it took from the channel said are over
    (disconnected, rejected, connect error, unreachable, address change, time-wait exit),
    and neither the listener's own id nor one that another event named.  One that succeeds
    has done the same up to the connection request, and returns a connection with the
    listener's parameters, its own window and a finished handshake; closing it leaves
    what was there at the request. *)
Theorem go_rdma_accept_safe l w h :
  heap_ok h -> 0 <= q_recv_wr (l_params l) -> (forall w', (cm_call OpMigrate w').1 = true) ->
  match go_rdma_accept l zero_setup (w, h) with
  | (Ret _, s, (_, h')) =>
    exists hd, drained at_request l w h hd /\ fault h' = false /\ closes_to (live hd) s h' /\
      asked_cfg (l_params l) (cfg (rc s)) /\ own_window (l_params l) (cfg (rc s)) /\
      rw_ready (rc s) = true
  | (Fail _, _, (w', h')) => drained (stopped w') l w h h'
  | _ => True
  end.
Proof.
  intros Hok Hd Hmig.
  assert (Hw : wp (go_rdma_accept l) (finish (fun _ x => drained (stopped x.1) l w h x.2)
    (fun _ s x => exists hd, drained at_request l w h hd /\ accepted_ok l hd s x)) zero_setup (w, h)).
  { unfold go_rdma_accept. apply wp_finish_bind, wp_guard; intros _; cbn [finish].
    { apply drained_here; [by left|apply Hok|done]. }
    apply wp_finish_bind. eapply wp_mono; [by apply (accept_loop_spec _ _ _ _ _ Hok)|].
    intros [id|e| |] s' [w1 h1] [-> HQ]; cbn [finish looped] in *; try done.
    destruct HQ as (hd & HD & Hokd & -> & E). simpl in E. subst h1.
    eapply wp_finish_mono; [by apply adopt_request_ok| |].
    - intros s' x' [E F]. apply (drained_live at_request _ l w h hd); [by right|done..].
    - intros [] s' x' HQ. by exists hd. }
  unfold wp in Hw. destruct (go_rdma_accept l zero_setup (w, h)) as [[[[]|e| |] s] [w' h']]; cbn [finish] in Hw; try done.
  destruct Hw as (hd & HD & HI & ? & ? & ?). simpl in HI. exists hd.
  split_and!; [done|apply HI|by apply inv_closes|done..].
Qed.
End opening.

(** ** Runs

    The device of VerbsSim.v beside the events that the channels will bring.  Every call
    succeeds, except those that [refuses] says fail. *)

Definition cm_world : Type := sim * list cm_event.

#[export] Instance cm_world_host : Host cm_world := {|
  poll_budget := 8;
  ibv_post_send wr := on_fst (ibv_post_send wr);
  ibv_poll_cq q := on_fst (ibv_poll_cq q);
  ibv_req_notify_cq q := on_fst (ibv_req_notify_cq q);
  ibv_get_cq_event q := on_fst (ibv_get_cq_event q);
  poll_fd q ms := on_fst (poll_fd q ms);
  now_monotonic_us := on_fst now_monotonic_us;
  sleep_us us := on_fst (sleep_us us);
  ibv_reg_mr a n := on_fst (ibv_reg_mr a n);
  ibv_dereg_mr := on_fst ibv_dereg_mr;
  rdma_post_recv i := on_fst (rdma_post_recv i);
  alloc_notify_slots n := on_fst (alloc_notify_slots n);
  alloc_notify_buf i := on_fst (alloc_notify_buf i);
  reg_notify_buf i := on_fst (reg_notify_buf i);
  ctx_Err := on_fst ctx_Err;
  ctx_until_deadline := on_fst ctx_until_deadline;
  slot_address := slot_address;
  slot_memory x := slot_memory x.1;
  rw_memory x := rw_memory x.1;
|}.

Definition cm_sim (refuses : cm_op -> bool) : CmHost cm_world := {|
  cm_call op w := (negb (refuses op), w);
  errno _ := 12;
  gai w := (0, w);
  gai_src _ := true;
  gai_dst _ := true;
  cm_poll _ w := (match w.2 with [] => FdTimeout | _ => FdReady end, w);
  get_cm_event w := match w.2 with [] => (None, w) | ev :: l => (Some ev, (w.1, l)) end;
  buffer_addr _ := 4096;
  mr_rkey _ := 7;
|}.

Definition event (t : cm_event_type) (i : Z) : cm_event :=
  {| ev_type := t; ev_status := 0; ev_id := Some i |}.

(** The peer's window descriptor has arrived. *)
Definition peer_desc : list byte :=
  desc_bytes {| d_magic := GO_RDMA_RW_DESC_MAGIC; d_addr := 8192; d_rkey := 9; d_cap := 128; d_slots := 1 |}.

Definition greeting (events : list cm_event) : cm_world :=
  ({| s_trace := []; s_rq := []; s_incoming := [peer_desc]; s_slots := ∅; s_rw := []; s_mr := true |}, events).

Definition small_params : params :=
  {| q_frame_cap := 32; q_send_wr := 4; q_recv_wr := 2; q_inline := 0; q_signal := 0 |}.
Definition small_args : open_args :=
  {| o_params := small_params; o_rw_mem := 0; o_rw_mem_len := 0; o_timeout_ms := 1000 |}.

Definition empty_heap : heap :=
  {| live := ∅; ptrs := ∅; cm_id := None; cur := 0; next := 1; fault := false |}.

Lemma empty_heap_ok : heap_ok empty_heap.
Proof. split; [done|]. intros r Hr. by apply elem_of_empty in Hr. Qed.

(** The heap after listening with every call succeeding. *)
Definition all_succeed : CmHost cm_world := cm_sim (fun _ => false).
Definition open_events : list cm_event :=
  [event ADDR_RESOLVED 1; event ROUTE_RESOLVED 1; event ESTABLISHED 1].
Definition listening_heap : heap :=
  (go_rdma_listen (CmHost0 := all_succeed) small_params 16 tt (greeting [], empty_heap)).2.2.
Definition small_listener : listener :=
  {| l_serial := 1; listen_id := true; l_cm_channel := true; l_params := default_signal small_params |}.

Definition returned {E A} (o : outcome E A) : bool := match o with Ret _ => true | _ => false end.

Lemma go_rdma_open_safe_witness :
  let r := go_rdma_open (CmHost0 := all_succeed) small_args (greeting open_events, empty_heap) in
  returned r.1 = true /\
  match r with
  | (Ret s, (_, h')) =>
    opened_cfg small_args (cfg (rc s)) /\ rw_ready (rc s) = true /\ ∅ ⊆ live h' /\ fault h' = false /\
    closes_to (CmHost0 := all_succeed) ∅ s h'
  | (Fail e, (_, h')) => live h' = ∅ /\ fault h' = false
  | _ => True
  end.
Proof.
  split; [by vm_compute|].
  apply (go_rdma_open_safe (CmHost0 := all_succeed) small_args (greeting open_events) empty_heap);
    [apply empty_heap_ok|by vm_compute].
Defined.

Lemma go_rdma_listen_safe_witness :
  let r := go_rdma_listen (CmHost0 := all_succeed) small_params 16 tt (greeting [], empty_heap) in
  returned r.1.1 = true /\
  match r with
  | (Ret l, _, (_, h')) =>
    l_params l = default_signal small_params /\ q_signal (l_params l) <> 0 /\ ∅ ⊆ live h' /\
    fault h' = false /\
    forall w', let '(o, _, x) := go_rdma_listener_close (CmHost0 := all_succeed) l tt (w', h') in
               o = Ret tt /\ live x.2 = ∅ /\ fault x.2 = false
  | (Fail _, _, (_, h')) => live h' = ∅ /\ fault h' = false
  | _ => False
  end.
Proof.
  split; [by vm_compute|].
  apply (go_rdma_listen_safe (CmHost0 := all_succeed) small_params 16 (greeting []) empty_heap), empty_heap_ok.
Defined.

Lemma listening_heap_ok : heap_ok listening_heap.
Proof.
  split; [by vm_compute|]. intros r Hr.
  assert (Hall : Forall (fun r : resource => r.1 < next listening_heap) (elements (live listening_heap))).
  { apply (bool_decide_unpack _). by vm_compute. }
  rewrite Forall_forall in Hall. apply Hall. by apply elem_of_elements.
Qed.

(** Two children, the second of which is disconnected before the next request. *)
Definition two_children : heap := own_fresh (own_fresh listening_heap KId) KId.
Definition second_ends : cm_world :=
  greeting [event ESTABLISHED 2; event DISCONNECTED 3; event CONNECT_REQUEST 5; event ESTABLISHED 5].

Lemma go_rdma_accept_safe_witness :
  let r := go_rdma_accept (CmHost0 := all_succeed) small_listener zero_setup (second_ends, two_children) in
  returned r.1.1 = true /\ (2, KId) ∈ live r.2.2 /\ (3, KId) ∈ live two_children /\ ((3, KId) ∉ live r.2.2) /\
  match r with
  | (Ret _, s, (_, h')) =>
    exists hd, drained (CmHost0 := all_succeed) (at_request (CmHost0 := all_succeed)) small_listener
        second_ends two_children hd /\ fault h' = false /\
      closes_to (CmHost0 := all_succeed) (live hd) s h' /\
      asked_cfg (l_params small_listener) (cfg (rc s)) /\
      own_window (l_params small_listener) (cfg (rc s)) /\ rw_ready (rc s) = true
  | (Fail _, _, (w', h')) => drained (CmHost0 := all_succeed) (stopped (CmHost0 := all_succeed) w')
      small_listener second_ends two_children h'
  | _ => True
  end.
Proof.
  split; [by vm_compute|]. split; [by apply (bool_decide_unpack _); vm_compute|].
  split; [by apply (bool_decide_unpack _); vm_compute|]. split; [by apply (bool_decide_unpack _); vm_compute|].
  apply (go_rdma_accept_safe (CmHost0 := all_succeed) small_listener); [|by vm_compute|done].
  apply own_fresh_ok, own_fresh_ok, listening_heap_ok.
Defined.

(** The host on which only rdma_migrate_id fails. *)
Definition migrate_fails : CmHost cm_world :=
  cm_sim (fun op => match op with OpMigrate => true | _ => false end).

(** When rdma_migrate_id fails, go_rdma_accept loses the id of the connection request:
    it frees the connection it has begun and rejects the request, but unlike its other
    error paths does not destroy the id.  In this run that is the one thing still
    allocated after the failed accept beside the listener, and after closing that too. *)
Theorem failed_migrate_loses_id :
  let accepted := go_rdma_accept (CmHost0 := migrate_fails) small_listener zero_setup
                    (greeting [event CONNECT_REQUEST 5], listening_heap) in
  let closed := go_rdma_listener_close (CmHost0 := migrate_fails) small_listener tt accepted.2 in
  accepted.1.1 = Fail ENOMEM /\
  live accepted.2.2 = {[(next listening_heap, KId)]} ∪ live listening_heap /\
  closed.1.1 = Ret tt /\ live closed.2.2 = {[(next listening_heap, KId)]}.
Proof. split_and!; by vm_compute. Qed.
