(* ===== verification/VerbsDial.v ===== *)
(** * Dialing (pkg/rdma/verbs_linux_cgo.go: VerbsOptions.Open)

    Open retries the C open with a timeout per attempt; an attempt whose context ends
    first leaves its goroutine behind, and a second goroutine discards what that yields.
    What happens is logged: the calls of go_rdma_open, the connections and error texts
    they hand over, and what is closed or freed.  The late goroutines share nothing with
    the loop, so they run here after Open has returned ([drain]). *)

From S2P Require Import Prelude VerbsConfig VerbsConn VerbsSetup VerbsHandshake VerbsOpen.

Definition verbsOpenTimeoutMills : Z := 3000.
Definition verbsOpenAttemptTimeout : Z := verbsOpenTimeoutMills * Millisecond.
Definition verbsOpenRetryBackoff : Z := 250 * Millisecond.
Definition verbsOpenAttemptLimit : Z := 8.

(** The errors of Open; those that wrap another carry it. *)
Inductive OpenErr :=
| OErrCtx (e : CtxErr)
| OErrConfig (e : CfgErr)
| OErrFrameCapacity
| OErrC (rc : Z) (msg : string)
| OErrNil
| OErrCanceledAfter (attempt : Z) (err last : OpenErr)   (* wraps err *)
| OErrFailedAfter (attempt : Z) (last : OpenErr)         (* wraps last *)
| OErrDeadlineAfter (attempt : Z) (last : OpenErr)       (* wraps last *)
| OErrFailed.

(** [errors.Is(err, context.Canceled) || errors.Is(err, context.DeadlineExceeded)] *)
Fixpoint is_ctx_err (e : OpenErr) : bool :=
  match e with
  | OErrCtx _ => true
  | OErrCanceledAfter _ e _ => is_ctx_err e
  | OErrFailedAfter _ e | OErrDeadlineAfter _ e => is_ctx_err e
  | _ => false
  end.

Definition isRetriableOpenErr (err : option OpenErr) : bool :=
  match err with None => false | Some e => is_ctx_err e end.

(** What the goroutine sends: the code, whether there is a connection, the error text. *)
Record openResult := { r_rc : Z; r_conn : bool; r_err : option string }.

(** Attempts are numbered from 0; a connection and a text are named by their attempt. *)
Inductive dial_event :=
| EvOpen (n : Z) (args : open_args)
| EvConn (n : Z)
| EvErrText (n : Z)
| EvClose (n : Z)
| EvFreeErr (n : Z).

(** [late]: the attempts whose goroutine is still in go_rdma_open. *)
Record dial := { log : list dial_event; late : list Z }.

Definition log_event (e : dial_event) (s : dial) : dial := {| log := log s ++ [e]; late := late s |}.
Definition add_late (n : Z) (s : dial) : dial := {| log := log s; late := late s ++ [n] |}.
Definition no_late (s : dial) : dial := {| log := log s; late := [] |}.

(** [open_call]: the goroutine's result, or [None] when the attempt's context is done
    first; [late_result]: the result that comes later.  [wait_timer] is the select
    between the timer and the caller's context: [true] when the context is done. *)
Class DialHost (W : Type) := {
  time_now : W -> Z * W;
  caller_err : W -> option CtxErr * W;
  attempt_err : W -> option CtxErr * W;
  wait_timer : Z -> W -> bool * W;
  time_Sleep : Z -> W -> W;
  open_call : open_args -> W -> option openResult * W;
  late_result : Z -> W -> openResult * W;
}.

Section dialing.
Context {W : Type} `{!DialHost W}.
#[local] Abbreviation G := (M W dial OpenErr).

Definition time_Until (deadline : Z) : G Z :=
  let! now := host time_now in ret (deadline - now).

(** The timeout the context of an attempt leaves, -1 without a deadline. *)
Definition rdmaContextTimeoutMillis (deadline : option Z) : G Z :=
  let! e := host attempt_err in
  match e with
  | Some x => fail (OErrCtx x)
  | None =>
    match deadline with
    | None => ret (-1)
    | Some d =>
      let! remain := time_Until d in
      if remain <=? 0 then fail (OErrCtx DeadlineExceeded)
      else ret (rdmaDurationToTimeoutMillis remain)
    end
  end.

Definition rdmaOpenTimeoutMillis (deadline : option Z) : G Z :=
  let! timeoutMS := rdmaContextTimeoutMillis deadline in
  ret (if 0 <=? timeoutMS then timeoutMS else verbsOpenTimeoutMills).

(** The arguments of go_rdma_open, converted to the C types. *)
Definition c_open_args (frameCap : Z) (cfg : verbsConfig) (timeoutMS : Z) : open_args :=
  {| o_params := {| q_frame_cap := u32 frameCap;
                    q_send_wr := u32 (sendQueueDepth cfg);
                    q_recv_wr := u32 (recvQueueDepth cfg);
                    q_inline := u32 (inlineThreshold cfg);
                    q_signal := u32 (sendSignalIntvl cfg) |};
     o_rw_mem := if 0 <? s_len (sharedRWMemory cfg) then s_addr (sharedRWMemory cfg) else 0;
     o_rw_mem_len := if 0 <? s_len (sharedRWMemory cfg) then u32 (s_len (sharedRWMemory cfg)) else 0;
     o_timeout_ms := timeoutMS |}.

(** What the goroutine's result brings into being. *)
Definition receive (n : Z) (r : openResult) : G unit :=
  (if r_conn r then modify (log_event (EvConn n)) else ret tt);;
  (match r_err r with Some _ => modify (log_event (EvErrText n)) | None => ret tt end).

Definition takeCString (n : Z) (cErr : option string) : G string :=
  match cErr with
  | None => ret ""%string
  | Some msg => modify (log_event (EvFreeErr n));; ret msg
  end.

(** Attempt [n], on a context with this deadline: its connection is [n]. *)
Definition openVerbsConnOnce (n : Z) (deadline : option Z) (frameCap : Z) (cfg : verbsConfig) : G Z :=
  let! openTimeoutMS := rdmaOpenTimeoutMillis deadline in
  let args := c_open_args frameCap cfg openTimeoutMS in
  modify (log_event (EvOpen n args));;
  let! r := host (open_call args) in
  match r with
  | None =>
    modify (add_late n);;
    let! e := host attempt_err in
    fail (OErrCtx (default DeadlineExceeded e)) (* ctx is done, so ctx.Err() is not nil *)
  | Some result =>
    receive n result;;
    if negb (r_rc result =? 0) then
      if r_rc result =? EAGAIN then
        let! e := host attempt_err in fail (OErrCtx (default DeadlineExceeded e))
      else
        let! msg := takeCString n (r_err result) in fail (OErrC (r_rc result) msg)
    else if negb (r_conn result) then fail OErrNil
    else ret n
  end.

Definition discardOpenResult (n : Z) (result : openResult) : G unit :=
  (match r_err result with Some _ => modify (log_event (EvFreeErr n)) | None => ret tt end);;
  (if (r_rc result =? 0) && r_conn result then modify (log_event (EvClose n)) else ret tt).

(** context.WithTimeout: the parent's deadline, when that is earlier. *)
Definition attempt_deadline (deadline : option Z) (now timeout : Z) : Z :=
  match deadline with Some d => Z.min d (now + timeout) | None => now + timeout end.

Definition OErrAfter (f : Z -> OpenErr -> OpenErr) (attempt : Z) (lastErr : option OpenErr) (e : OpenErr)
    : OpenErr :=
  match lastErr with Some l => f attempt l | None => e end.

(** The loop of Open. *)
Fixpoint open_loop (fuel : nat) (deadline : option Z) (frameCap : Z) (cfg : verbsConfig)
    (lastErr : option OpenErr) (attempt : Z) : G Z :=
  match fuel with
  | O => diverged
  | S fuel' =>
    let! e := host caller_err in
    match e with
    | Some x =>
      fail (OErrAfter (fun n l => OErrCanceledAfter n (OErrCtx x) l) attempt lastErr (OErrCtx x))
    | None =>
      guard (negb (bool_decide (is_Some deadline)) && (verbsOpenAttemptLimit <=? attempt))
            (OErrAfter OErrFailedAfter attempt lastErr OErrFailed);;
      let! attemptTimeout :=
        match deadline with
        | Some d =>
          let! remain := time_Until d in
          guard (remain <=? 0)
                (OErrAfter OErrDeadlineAfter attempt lastErr (OErrCtx DeadlineExceeded));;
          ret (if remain <? verbsOpenAttemptTimeout then remain else verbsOpenAttemptTimeout)
        | None => ret verbsOpenAttemptTimeout
        end in
      let! now := host time_now in
      let! r := catch (openVerbsConnOnce attempt (Some (attempt_deadline deadline now attemptTimeout))
                                         frameCap cfg) in
      match r with
      | Ok n => ret n
      | Err openErr =>
        if negb (isRetriableOpenErr (Some openErr)) then fail openErr
        else
          match deadline with
          | Some d =>
            let! remain := time_Until d in
            guard (remain <=? 0) (OErrDeadlineAfter (attempt + 1) openErr);;
            let sleep := if remain <? verbsOpenRetryBackoff then remain else verbsOpenRetryBackoff in
            let! done := host (wait_timer sleep) in
            if done then
              let! e := host caller_err in fail (OErrCtx (default Canceled e)) (* not nil once done *)
            else open_loop fuel' deadline frameCap cfg (Some openErr) (attempt + 1)
          | None =>
            host (fun w => (tt, time_Sleep verbsOpenRetryBackoff w));;
            open_loop fuel' deadline frameCap cfg (Some openErr) (attempt + 1)
          end
      end
    end
  end.

(** A dialed connection, as the verbsMessageConn made of it. *)
Record dialed := { d_conn : Z; d_cfg : verbsConfig; d_remote : string }.

Definition Open (fuel : nat) (o : VerbsOptions) (deadline : option Z) (network address : string) : G dialed :=
  let! e := host caller_err in
  match e with
  | Some x => fail (OErrCtx x)
  | None =>
    match normalize o with
    | Err e => fail (OErrConfig e)
    | Ok cfg =>
      match splitHostPortAddress network address with
      | Err e => fail (OErrConfig e)
      | Ok (host_, port) =>
        let frameCap := framePayloadSize cfg in
        guard (frameCap <=? 0) OErrFrameCapacity;;
        let! n := open_loop fuel deadline frameCap cfg None 0 in
        ret {| d_conn := n; d_cfg := cfg; d_remote := JoinHostPort host_ port |}
      end
    end
  end.

(** The late goroutines: each one's result is received and discarded. *)
Fixpoint drain_list (l : list Z) : G unit :=
  match l with
  | [] => ret tt
  | n :: l' =>
    let! result := host (late_result n) in
    receive n result;;
    discardOpenResult n result;;
    drain_list l'
  end.

Definition drain : G unit :=
  let! s := get in
  modify no_late;;
  drain_list (late s).
End dialing.

(** ** What the log says *)

Definition opens_of (l : list dial_event) : list (Z * open_args) :=
  omap (fun e => match e with EvOpen n a => Some (n, a) | _ => None end) l.
Definition conns_of (l : list dial_event) : list Z :=
  omap (fun e => match e with EvConn n => Some n | _ => None end) l.
Definition closes_of (l : list dial_event) : list Z :=
  omap (fun e => match e with EvClose n => Some n | _ => None end) l.
Definition texts_of (l : list dial_event) : list Z :=
  omap (fun e => match e with EvErrText n => Some n | _ => None end) l.
Definition frees_of (l : list dial_event) : list Z :=
  omap (fun e => match e with EvFreeErr n => Some n | _ => None end) l.

Definition fresh_dial : dial := {| log := []; late := [] |}.

(** go_rdma_open hands over a connection only with the code 0. *)
Class OpenContract (W : Type) `{!DialHost W} := {
  open_contract args w r : (open_call args w).1 = Some r -> r_conn r = true -> r_rc r = 0;
  late_contract n w : r_conn (late_result n w).1 = true -> r_rc (late_result n w).1 = 0;
}.

(** The clock does not run backwards, and a timer that fires has waited. *)
Class ClockLaws (W : Type) `{!DialHost W} := {
  clock : W -> Z;
  now_law w : (time_now w).1 = clock (time_now w).2 /\ clock w <= clock (time_now w).2;
  caller_law w : clock w <= clock (caller_err w).2;
  attempt_law w : clock w <= clock (attempt_err w).2;
  timer_law d w : clock w <= clock (wait_timer d w).2 /\
                  ((wait_timer d w).1 = false -> clock w + d <= clock (wait_timer d w).2);
  sleep_law d w : clock w + d <= clock (time_Sleep d w);
  open_law args w : clock w <= clock (open_call args w).2;
}.

Lemma conns_of_app l1 l2 : conns_of (l1 ++ l2) = conns_of l1 ++ conns_of l2.
Proof. apply omap_app. Qed.
Lemma closes_of_app l1 l2 : closes_of (l1 ++ l2) = closes_of l1 ++ closes_of l2.
Proof. apply omap_app. Qed.
Lemma opens_of_app l1 l2 : opens_of (l1 ++ l2) = opens_of l1 ++ opens_of l2.
Proof. apply omap_app. Qed.

(** *** Every connection is returned or closed *)

Section accounts.
Context {W : Type} `{!DialHost W, !OpenContract W}.
#[local] Abbreviation G := (M W dial OpenErr).
Implicit Types (s : dial) (w : W).

(** The connections and closes logged are [cs] and [xs], the late attempts [ls]. *)
Definition books (cs xs ls : list Z) (s : dial) : Prop :=
  conns_of (log s) = cs /\ closes_of (log s) = xs /\ late s = ls.

Lemma books_other e cs xs ls s :
  books cs xs ls s -> conns_of [e] = [] -> closes_of [e] = [] -> books cs xs ls (log_event e s).
Proof.
  intros (H1 & H2 & H3) E1 E2. split_and!; simpl; [|by rewrite closes_of_app, E2, app_nil_r|done].
  by rewrite conns_of_app, E1, app_nil_r.
Qed.

Lemma books_conn n cs xs ls s : books cs xs ls s -> books (cs ++ [n]) xs ls (log_event (EvConn n) s).
Proof.
  intros (H1 & H2 & H3). split_and!; simpl; [by rewrite conns_of_app, H1|by rewrite closes_of_app, H2, app_nil_r|done].
Qed.

Lemma books_close n cs xs ls s : books cs xs ls s -> books cs (xs ++ [n]) ls (log_event (EvClose n) s).
Proof.
  intros (H1 & H2 & H3). split_and!; simpl; [by rewrite conns_of_app, H1, app_nil_r|by rewrite closes_of_app, H2|done].
Qed.

Lemma receive_books n r cs xs ls s w :
  books cs xs ls s ->
  wp (receive n r : G unit) (fun o s' w' => o = Ret tt /\ w' = w /\
    books (if r_conn r then cs ++ [n] else cs) xs ls s') s w.
Proof.
  intros HB. unfold receive. apply wp_bind. destruct (r_conn r).
  - apply wp_modify. cbn [seq_post]. apply (books_conn n) in HB.
    destruct (r_err r); [apply wp_modify|apply wp_ret]; split_and!; try done. by apply books_other.
  - apply wp_ret. cbn [seq_post]. destruct (r_err r); [apply wp_modify|apply wp_ret]; split_and!; try done.
    by apply books_other.
Qed.

(** An attempt that fails hands over no connection, though one may still be on its way. *)
Lemma open_once_books n deadline frameCap cfg xs ls s w :
  books [] xs ls s ->
  wp (openVerbsConnOnce n deadline frameCap cfg) (fun o s' _ => match o with
    | Ret m => m = n /\ books [n] xs ls s'
    | Fail _ => books [] xs ls s' \/ books [] xs (ls ++ [n]) s'
    | _ => False end) s w.
Proof.
  intros HB. unfold openVerbsConnOnce.
  assert (Ht : wp (rdmaOpenTimeoutMillis deadline : G Z) (fun o s' _ => match o with
     | Ret _ | Fail _ => s' = s | _ => False end) s w).
  { unfold rdmaOpenTimeoutMillis, rdmaContextTimeoutMillis, time_Until. apply wp_bind, wp_bind, wp_host.
    intros [x|] w1 _; cbn [seq_post]; [done|]. destruct deadline as [d|]; [|done].
    apply wp_bind, wp_bind, wp_host. intros now w2 _. cbn [seq_post]. apply wp_ret. cbn [seq_post].
    destruct (d - now <=? 0); done. }
  apply wp_bind. eapply wp_mono; [exact Ht|]. clear Ht.
  intros [ms|e| |] s1 w1 E; cbn [seq_post]; [subst s1|subst s1; by left|done|done].
  cbv zeta. apply wp_bind, wp_modify. cbn [seq_post].
  apply (books_other (EvOpen n (c_open_args frameCap cfg ms))) in HB; [|done..].
  set (s2 := log_event _ s) in *. clearbody s2. apply wp_bind, wp_host. intros r w2 Hr. cbn [seq_post].
  destruct r as [result|].
  - pose proof (open_contract (c_open_args frameCap cfg ms) w1 result) as Hc. rewrite Hr in Hc.
    specialize (Hc eq_refl).
    apply wp_bind. eapply wp_mono; [by apply receive_books|]. intros o s3 w3 (-> & -> & HB3). cbn [seq_post].
    destruct (r_rc result =? 0) eqn:Erc; cbn [negb].
    + destruct (r_conn result); cbn [negb]; [by apply wp_ret|apply wp_fail; by left].
    + destruct (r_conn result); [specialize (Hc eq_refl); bool_facts; lia|].
      destruct (r_rc result =? EAGAIN).
      * apply wp_bind, wp_host. intros e w4 _. cbn [seq_post]. apply wp_fail. by left.
      * apply wp_bind. unfold takeCString. destruct (r_err result).
        -- apply wp_bind, wp_modify. cbn [seq_post]. apply wp_ret. cbn [seq_post]. apply wp_fail.
           left. by apply books_other.
        -- apply wp_ret. cbn [seq_post]. apply wp_fail. by left.
  - apply wp_bind, wp_modify. cbn [seq_post]. apply wp_bind, wp_host. intros e w3 _. cbn [seq_post].
    apply wp_fail. right. destruct HB as (H1 & H2 & H3). split_and!; try done. simpl. by rewrite H3.
Qed.

Definition late_before (k : Z) (ls : list Z) : Prop := NoDup ls /\ Forall (fun n => n < k) ls.

Lemma late_before_next k ls : late_before k ls -> late_before (k + 1) (ls ++ [k]) /\ late_before (k + 1) ls.
Proof.
  intros [HN HF]. split; split.
  - apply NoDup_app. split_and!; [done| |by apply NoDup_singleton].
    intros x Hx ->%list_elem_of_singleton. rewrite Forall_forall in HF. apply HF in Hx. lia.
  - apply Forall_app. split; [|by constructor; [lia|]]. eapply Forall_impl; [exact HF|]. simpl. lia.
  - done.
  - eapply Forall_impl; [exact HF|]. simpl. lia.
Qed.

Lemma open_loop_books fuel deadline frameCap cfg lastErr k ls s w :
  books [] [] ls s -> late_before k ls ->
  wp (open_loop fuel deadline frameCap cfg lastErr k) (fun o s' _ => match o with
    | Ret n => exists ls', books [n] [] ls' s' /\ late_before n ls'
    | Blocked => False
    | _ => exists k' ls', books [] [] ls' s' /\ late_before k' ls' end) s w.
Proof.
  revert lastErr k ls s w. induction fuel as [|fuel IH]; intros lastErr k ls s w HB HL; cbn [open_loop]; [by exists k, ls|].
  assert (Hout : exists k' ls', books [] [] ls' s /\ late_before k' ls') by eauto.
  apply wp_bind, wp_host. intros [x|] w1 _; cbn [seq_post]; [done|].
  apply wp_bind, wp_guard; intros _; cbn [seq_post]; [done|]. apply wp_bind.
  assert (Htime : forall (Q : Z -> W -> Prop) w, (forall t w', Q t w') ->
    wp (match deadline with
        | Some d =>
          let! remain := time_Until d in
          guard (remain <=? 0)
                (OErrAfter OErrDeadlineAfter k lastErr (OErrCtx DeadlineExceeded));;
          ret (if remain <? verbsOpenAttemptTimeout then remain else verbsOpenAttemptTimeout)
        | None => ret verbsOpenAttemptTimeout
        end : G Z) (fun o s' w' => s' = s /\ match o with Ret t => Q t w' | Fail _ => True | _ => False end) s w).
  { intros Q w' HQ. destruct deadline as [d|]; [|by apply wp_ret]. unfold time_Until.
    apply wp_bind, wp_bind, wp_host. intros now w2 _. cbn [seq_post]. apply wp_ret. cbn [seq_post].
    apply wp_bind, wp_guard; intros _; cbn [seq_post]; [done|]. apply wp_ret. auto. }
  eapply wp_mono; [apply (Htime (fun _ _ => True)); done|].
  intros [t|e| |] s1 w2 [-> HT]; cbn [seq_post]; try done.
  apply wp_bind, wp_host. intros now w3 _. cbn [seq_post].
  apply wp_bind, wp_catch. eapply wp_mono; [by apply open_once_books|].
  intros [m|openErr| |] s2 w4 HQ; cbn [seq_post]; try done.
  { destruct HQ as [-> HB2]. apply wp_ret. eauto. }
  destruct (late_before_next k ls HL) as [HL1 HL2].
  assert (Hnext : exists ls', books [] [] ls' s2 /\ late_before (k + 1) ls') by (destruct HQ; eauto).
  clear HQ HL1 HL2 Htime Hout. destruct Hnext as (ls2 & HB2 & HL2).
  assert (Hout : exists k' ls', books [] [] ls' s2 /\ late_before k' ls') by eauto.
  destruct (negb (isRetriableOpenErr (Some openErr))); [by apply wp_fail|].
  destruct deadline as [d|].
  - unfold time_Until. apply wp_bind, wp_bind, wp_host. intros now' w5 _. cbn [seq_post].
    apply wp_ret. cbn [seq_post].
    apply wp_bind, wp_guard; intros _; cbn [seq_post]; [done|]. cbv zeta.
    apply wp_bind, wp_host. intros [|] w6 _; cbn [seq_post].
    + apply wp_bind, wp_host. intros e w7 _. cbn [seq_post]. by apply wp_fail.
    + by eapply IH.
  - apply wp_bind, wp_host. intros u w5 _. cbn [seq_post]. by eapply IH.
Qed.

Lemma discard_books n r cs xs ls s w :
  books cs xs ls s -> (r_conn r = true -> r_rc r = 0) ->
  wp (discardOpenResult n r : G unit) (fun o s' w' => o = Ret tt /\
    books cs (if r_conn r then xs ++ [n] else xs) ls s') s w.
Proof.
  intros HB Hc. unfold discardOpenResult. apply wp_bind.
  assert (Hend : forall s, books cs xs ls s ->
    wp (if (r_rc r =? 0) && r_conn r then modify (log_event (EvClose n)) else ret tt : G unit)
      (fun o s' _ => o = Ret tt /\ books cs (if r_conn r then xs ++ [n] else xs) ls s') s w).
  { intros s0 HB0. destruct (r_conn r).
    - rewrite Hc by done. apply wp_modify. split; [done|by apply books_close].
    - rewrite andb_false_r. by apply wp_ret. }
  destruct (r_err r); [apply wp_modify|apply wp_ret]; cbn [seq_post]; apply Hend; [|done].
  by apply books_other.
Qed.

Lemma drain_list_books l cs xs s w :
  books cs xs [] s ->
  wp (drain_list l) (fun o s' _ => o = Ret tt /\ exists l', l' `sublist_of` l /\
    books (cs ++ l') (xs ++ l') [] s') s w.
Proof.
  revert cs xs s w. induction l as [|n l IH]; intros cs xs s w HB; cbn [drain_list].
  { apply wp_ret. split; [done|]. exists []. rewrite !app_nil_r. by split. }
  apply wp_bind, wp_host. intros r w1 Hr. cbn [seq_post].
  pose proof (late_contract n w) as Hc. rewrite Hr in Hc. simpl in Hc.
  apply wp_bind. eapply wp_mono; [by apply receive_books|]. intros o s1 w2 (-> & -> & HB1). cbn [seq_post].
  apply wp_bind. eapply wp_mono; [by apply discard_books|]. intros o s2 w3 (-> & HB2). cbn [seq_post].
  eapply wp_mono; [by apply IH|]. intros o s3 w4 (-> & l' & Hsub & HB3). split; [done|].
  destruct (r_conn r).
  - exists (n :: l'). split; [by apply sublist_skip|]. by rewrite <- !app_assoc in HB3.
  - exists l'. split; [by apply sublist_cons|done].
Qed.

(** What Open leaves behind: its connection alone when it returns one, and late attempts
    numbered before it. *)
Lemma Open_books fuel o deadline network address w :
  wp (Open fuel o deadline network address) (fun out s' _ => match out with
    | Ret d => exists ls, books [d_conn d] [] ls s' /\ late_before (d_conn d) ls
    | Blocked => False
    | _ => exists k' ls, books [] [] ls s' /\ late_before k' ls end) fresh_dial w.
Proof.
  assert (Hout : exists k' ls, books [] [] ls fresh_dial /\ late_before k' ls).
  { exists 0, []. split; [done|]. split; [apply NoDup_nil_2|done]. }
  unfold Open. apply wp_bind, wp_host. intros [x|] w1 _; cbn [seq_post]; [done|].
  destruct (normalize o) as [cfg|]; [|done]. destruct (splitHostPortAddress network address) as [[host_ port]|]; [|done].
  apply wp_bind, wp_guard; intros _; cbn [seq_post]; [done|].
  apply wp_bind. eapply wp_mono; [apply (open_loop_books fuel deadline _ cfg None 0 [])|].
  - done.
  - split; [apply NoDup_nil_2|done].
  - intros [n|e| |] s' w' HQ; cbn [seq_post]; done.
Qed.

(** A late connection is closed when it comes. *)
Lemma drain_books cs xs ls s w :
  books cs xs ls s ->
  wp drain (fun _ s' _ => exists l', l' `sublist_of` ls /\ books (cs ++ l') (xs ++ l') [] s') s w.
Proof.
  intros (B1 & B2 & B3). unfold drain. apply wp_bind, wp_get. cbn [seq_post]. apply wp_bind, wp_modify.
  cbn [seq_post]. rewrite B3. eapply wp_mono; [by apply (drain_list_books ls cs xs)|]. by intros o' s' w' [_ HQ].
Qed.

(** The connection that is returned is none of the late ones. *)
Lemma late_nodup k cs ls l' :
  late_before k ls -> l' `sublist_of` ls -> cs = [] \/ cs = [k] -> NoDup (cs ++ l').
Proof.
  intros [HN HF] Hsub Hcs. assert (HN' : NoDup l') by (by eapply sublist_NoDup).
  destruct Hcs as [->| ->]; [done|]. simpl. apply NoDup_cons. split; [|done].
  intros Hin. rewrite Forall_forall in HF. apply sublist_submseteq in Hsub.
  eapply elem_of_submseteq in Hin; [|exact Hsub]. apply HF in Hin. lia.
Qed.

(** C18: whatever attempts VerbsOptions.Open makes and abandons, once the goroutines it left
    behind have finished every connection that go_rdma_open ever made has been closed
    exactly once, except the one Open returned, which has not; when Open fails, all have. *)
Theorem dial_closes_all_but_returned fuel o deadline network address w :
  let '(out, s, w1) := Open fuel o deadline network address fresh_dial w in
  let '(_, s', _) := drain s w1 in
  late s' = [] /\ NoDup (conns_of (log s')) /\
  match out with
  | Ret d => conns_of (log s') ≡ₚ d_conn d :: closes_of (log s')
  | _ => conns_of (log s') = closes_of (log s')
  end.
Proof.
  pose proof (Open_books fuel o deadline network address w) as H1. unfold wp in H1.
  destruct (Open fuel o deadline network address fresh_dial w) as [[out s] w1].
  assert (H3 : forall k cs ls, books cs [] ls s -> late_before k ls -> cs = [] \/ cs = [k] ->
    let '(_, s', _) := drain s w1 in
    late s' = [] /\ NoDup (conns_of (log s')) /\ conns_of (log s') = cs ++ closes_of (log s')).
  { intros k cs ls HB HL Hcs. pose proof (drain_books _ _ _ _ w1 HB) as H2. unfold wp in H2.
    destruct (drain s w1) as [[o' s'] w']. destruct H2 as (l' & Hsub & H3 & H4 & H5).
    rewrite H3, H4. split_and!; [done| |done]. by eapply late_nodup. }
  destruct out as [d|e| |]; [|destruct H1 as (k & ls & HB & HL); by apply (H3 k [] ls); auto|done
                             |destruct H1 as (k & ls & HB & HL); by apply (H3 k [] ls); auto].
  destruct H1 as (ls & HB & HL). specialize (H3 _ _ _ HB HL (or_intror eq_refl)).
  destruct (drain s w1) as [[o' s'] w']. destruct H3 as (H4 & H5 & H6). split_and!; [done|done|]. by rewrite H6.
Qed.
End accounts.

(** *** How often, and for how long *)

Section timing.
Context {W : Type} `{!DialHost W, !ClockLaws W}.
#[local] Abbreviation G := (M W dial OpenErr).
Implicit Types (s : dial) (w : W).

Lemma millis_bounds d : 0 < d <= verbsOpenAttemptTimeout -> 1 <= rdmaDurationToTimeoutMillis d <= verbsOpenTimeoutMills.
Proof.
  unfold rdmaDurationToTimeoutMillis, verbsOpenAttemptTimeout, verbsOpenTimeoutMills, Millisecond. intros Hd.
  pose proof (Z.div_mod d 1000000 ltac:(lia)) as Hm. pose proof (Z.mod_pos_bound d 1000000 ltac:(lia)) as Hb.
  repeat case_match; bool_facts; lia.
Qed.

(** The opens of [s'] are those of [s] and at most [k] more, each with a timeout between a
    millisecond and verbsOpenTimeoutMills. *)
Definition opens_more (frameCap : Z) (cfg : verbsConfig) (k : Z) (s s' : dial) : Prop :=
  exists ext, opens_of (log s') = opens_of (log s) ++ ext /\ Z.of_nat (length ext) <= k /\
    Forall (fun x => exists t, 1 <= t <= verbsOpenTimeoutMills /\ x.2 = c_open_args frameCap cfg t) ext.

Lemma opens_more_same frameCap cfg k s s' :
  opens_of (log s') = opens_of (log s) -> 0 <= k -> opens_more frameCap cfg k s s'.
Proof. intros E Hk. exists []. rewrite E, app_nil_r. by split_and!. Qed.

Lemma opens_more_trans frameCap cfg k1 k2 k s1 s2 s3 :
  opens_more frameCap cfg k1 s1 s2 -> opens_more frameCap cfg k2 s2 s3 -> k1 + k2 <= k ->
  opens_more frameCap cfg k s1 s3.
Proof.
  intros (x1 & E1 & L1 & F1) (x2 & E2 & L2 & F2) Hk. exists (x1 ++ x2).
  split_and!; [by rewrite E2, E1, app_assoc|rewrite length_app; lia|by apply Forall_app].
Qed.

Lemma opens_more_event frameCap cfg k s s' e :
  opens_more frameCap cfg k s s' -> opens_of [e] = [] -> opens_more frameCap cfg k s (log_event e s').
Proof.
  intros (x & E & L & F) He. exists x. split_and!; [|done..]. simpl.
  by rewrite opens_of_app, E, He, app_nil_r.
Qed.

Lemma now_host w t w' : time_now w = (t, w') -> t = clock w' /\ clock w <= clock w'.
Proof. intros E. pose proof (now_law w) as HL. by rewrite E in HL. Qed.

Lemma caller_host w e w' : caller_err w = (e, w') -> clock w <= clock w'.
Proof. intros E. pose proof (caller_law w) as HL. by rewrite E in HL. Qed.

Lemma attempt_host w e w' : attempt_err w = (e, w') -> clock w <= clock w'.
Proof. intros E. pose proof (attempt_law w) as HL. by rewrite E in HL. Qed.

Lemma timeout_timing d s w :
  d <= clock w + verbsOpenAttemptTimeout ->
  wp (rdmaOpenTimeoutMillis (Some d) : G Z) (fun o s' w' => s' = s /\ clock w <= clock w' /\ match o with
     | Ret t => 1 <= t <= verbsOpenTimeoutMills | Fail _ => True | _ => False end) s w.
Proof.
  intros Hd. unfold rdmaOpenTimeoutMillis, rdmaContextTimeoutMillis, time_Until.
  apply wp_bind, wp_bind, wp_host. intros e w1 E1%attempt_host. cbn [seq_post]. destruct e; [done|].
  apply wp_bind, wp_bind, wp_host. intros now w2 [-> E2]%now_host. cbn [seq_post]. apply wp_ret. cbn [seq_post].
  destruct (Z.leb_spec (d - clock w2) 0); [split_and!; [done|lia|done]|].
  apply wp_ret. cbn [seq_post]. apply wp_ret.
  assert (Hm : 0 < d - clock w2 <= verbsOpenAttemptTimeout) by lia. apply millis_bounds in Hm.
  destruct (Z.leb_spec 0 (rdmaDurationToTimeoutMillis (d - clock w2))); [|lia]. split_and!; [done|lia..].
Qed.

(** One attempt: at most one call of go_rdma_open. *)
Lemma open_once_timing n d frameCap cfg s w :
  d <= clock w + verbsOpenAttemptTimeout ->
  wp (openVerbsConnOnce n (Some d) frameCap cfg) (fun o s' w' => clock w <= clock w' /\
    opens_more frameCap cfg 1 s s' /\ match o with Ret _ | Fail _ => True | _ => False end) s w.
Proof.
  intros Hd. unfold openVerbsConnOnce. apply wp_bind. eapply wp_mono; [by apply timeout_timing|].
  intros [ms|e| |] s1 w1 (-> & Hc & Hms); cbn [seq_post]; try done.
  2: { split_and!; [done|by apply opens_more_same|done]. }
  cbv zeta. apply wp_bind, wp_modify. cbn [seq_post].
  assert (HO : opens_more frameCap cfg 1 s (log_event (EvOpen n (c_open_args frameCap cfg ms)) s)).
  { exists [(n, c_open_args frameCap cfg ms)]. split_and!; [simpl; by rewrite opens_of_app|done|].
    constructor; [|done]. by exists ms. }
  set (s2 := log_event _ s) in *. clearbody s2. apply wp_bind, wp_host. intros r w2 Hr. cbn [seq_post].
  pose proof (open_law (c_open_args frameCap cfg ms) w1) as Hc2. rewrite Hr in Hc2. simpl in Hc2.
  destruct r as [result|].
  - apply wp_bind.
    assert (Hrec : wp (receive n result : G unit) (fun o s' w' => o = Ret tt /\ w' = w2 /\ opens_more frameCap cfg 1 s s') s2 w2).
    { unfold receive. apply wp_bind. destruct (r_conn result); [apply wp_modify|apply wp_ret]; cbn [seq_post];
        (destruct (r_err result); [apply wp_modify|apply wp_ret]; split_and!; try done;
         repeat (apply opens_more_event; [|done]); done). }
    eapply wp_mono; [exact Hrec|]. intros o s3 w3 (-> & -> & HO3). cbn [seq_post].
    destruct (negb (r_rc result =? 0)).
    + destruct (r_rc result =? EAGAIN).
      * apply wp_bind, wp_host. intros e w4 E4%attempt_host. cbn [seq_post]. apply wp_fail. split_and!; [lia|done|done].
      * apply wp_bind. unfold takeCString. destruct (r_err result).
        -- apply wp_bind, wp_modify. cbn [seq_post]. apply wp_ret. cbn [seq_post]. apply wp_fail.
           split_and!; [lia|by apply opens_more_event|done].
        -- apply wp_ret. cbn [seq_post]. apply wp_fail. split_and!; [lia|done|done].
    + destruct (negb (r_conn result)); [apply wp_fail|apply wp_ret]; (split_and!; [lia|done|done]).
  - apply wp_bind, wp_modify. cbn [seq_post]. apply wp_bind, wp_host. intros e w3 E3%attempt_host. cbn [seq_post].
    apply wp_fail. split_and!; [lia|exact HO|done].
Qed.

(** How many attempts are left: to the limit, or a backoff each until the deadline. *)
Definition tries (deadline : option Z) (attempt now : Z) : Z :=
  match deadline with
  | None => Z.max 0 (verbsOpenAttemptLimit - attempt)
  | Some d => Z.max 0 ((d - now + verbsOpenRetryBackoff - 1) / verbsOpenRetryBackoff)
  end.

Lemma tries_later deadline k t t' : t <= t' -> tries deadline k t' <= tries deadline k t.
Proof.
  intros Ht. destruct deadline as [d|]; simpl; [|lia].
  replace verbsOpenRetryBackoff with 250000000 by done. Z.div_mod_to_equations. lia.
Qed.

Lemma tries_backoff d k t t' :
  0 < d - t -> t + Z.min (d - t) verbsOpenRetryBackoff <= t' ->
  tries (Some d) (k + 1) t' + 1 <= tries (Some d) k t.
Proof.
  unfold tries. replace verbsOpenRetryBackoff with 250000000 by done. intros Hd Ht.
  Z.div_mod_to_equations. lia.
Qed.

Lemma open_loop_timing fuel deadline frameCap cfg lastErr k s w :
  tries deadline k (clock w) < Z.of_nat fuel -> (deadline = None -> 0 <= k) ->
  wp (open_loop fuel deadline frameCap cfg lastErr k) (fun o s' _ =>
    opens_more frameCap cfg (tries deadline k (clock w)) s s' /\
    match o with Ret _ | Fail _ => True | _ => False end) s w.
Proof.
  revert lastErr k s w. induction fuel as [|fuel IH]; intros lastErr k s w Hf Hk; cbn [open_loop].
  { exfalso. destruct deadline; simpl in Hf; lia. }
  assert (Hpos : forall t, 0 <= tries deadline k t) by (intros t; destruct deadline; simpl; lia).
  assert (Hend : forall w' : W, opens_more frameCap cfg (tries deadline k (clock w)) s s).
  { intros _. apply opens_more_same; [done|apply Hpos]. }
  apply wp_bind, wp_host. intros e w1 E1%caller_host. cbn [seq_post]. destruct e as [x|]; [by split; [apply Hend|]|].
  apply wp_bind, wp_guard; intros Hlim; cbn [seq_post]; [by split; [apply Hend|]|]. apply wp_bind.
  assert (Htime : wp (match deadline with
        | Some d =>
          let! remain := time_Until d in
          guard (remain <=? 0)
                (OErrAfter OErrDeadlineAfter k lastErr (OErrCtx DeadlineExceeded));;
          ret (if remain <? verbsOpenAttemptTimeout then remain else verbsOpenAttemptTimeout)
        | None => ret verbsOpenAttemptTimeout
        end : G Z) (fun o s' w' => s' = s /\ match o with
          | Ret t => clock w1 <= clock w' /\ 0 < tries deadline k (clock w') /\ t <= verbsOpenAttemptTimeout
          | Fail _ => True | _ => False end) s w1).
  { destruct deadline as [d|].
    - unfold time_Until. apply wp_bind, wp_bind, wp_host. intros now w2 [-> E2]%now_host. cbn [seq_post].
      apply wp_ret. cbn [seq_post]. destruct (Z.leb_spec (d - clock w2) 0); [done|].
      apply wp_bind, wp_ret. cbn [seq_post]. apply wp_ret. split_and!; [done|done| |].
      + simpl. replace verbsOpenRetryBackoff with 250000000 by done. Z.div_mod_to_equations. lia.
      + destruct (Z.ltb_spec (d - clock w2) verbsOpenAttemptTimeout); lia.
    - apply wp_ret. split_and!; [done|done| |done]. simpl in *. bool_facts. lia. }
  eapply wp_mono; [exact Htime|]. clear Htime.
  intros [t|e| |] s1 w2 [-> HT]; cbn [seq_post]; try done; [|by split; [apply Hend|]].
  destruct HT as (E2 & Hpos2 & Ht).
  apply wp_bind, wp_host. intros now w3 [-> E3]%now_host. cbn [seq_post].
  apply wp_bind, wp_catch. eapply wp_mono; [apply open_once_timing|].
  { unfold attempt_deadline. destruct deadline; lia. }
  assert (Htr : forall t' : Z, clock w <= t' -> tries deadline k t' <= tries deadline k (clock w)).
  { intros t' Ht'. by apply tries_later. }
  intros [m|openErr| |] s2 w4 (E4 & HO & Ho); cbn [seq_post]; try done.
  { apply wp_ret. split; [|done].
    apply (opens_more_trans _ _ 1 0 _ _ _ _ HO); [by apply opens_more_same|].
    specialize (Htr (clock w2)). lia. }
  assert (Hend2 : opens_more frameCap cfg (tries deadline k (clock w)) s s2).
  { apply (opens_more_trans _ _ 1 0 _ _ _ _ HO); [by apply opens_more_same|].
    specialize (Htr (clock w2)). lia. }
  destruct (negb (isRetriableOpenErr (Some openErr))); [by apply wp_fail|].
  destruct deadline as [d|].
  - unfold time_Until. apply wp_bind, wp_bind, wp_host. intros now' w5 [-> E5]%now_host. cbn [seq_post].
    apply wp_ret. cbn [seq_post]. destruct (Z.leb_spec (d - clock w5) 0); [done|].
    apply wp_bind, wp_ret. cbn [seq_post]. cbv zeta. apply wp_bind, wp_host. intros done_ w6 Ed. cbn [seq_post].
    destruct done_; [apply wp_bind, wp_host; intros e w7 _; cbn [seq_post]; by apply wp_fail|].
    set (sl := if _ <? _ then _ else _) in Ed.
    destruct (timer_law sl w5) as [_ Htm]. rewrite Ed in Htm. specialize (Htm eq_refl). simpl in Htm.
    assert (Hsl : sl = Z.min (d - clock w5) verbsOpenRetryBackoff).
    { unfold sl. destruct (Z.ltb_spec (d - clock w5) verbsOpenRetryBackoff); lia. }
    rewrite Hsl in Htm. apply (tries_backoff d k) in Htm as Hb; [|lia].
    assert (Hw5 : clock w <= clock w5) by lia. apply Htr in Hw5.
    eapply wp_mono; [apply IH; [lia|done]|]. intros o s3 w7 [HO2 Ho2]. split; [|done].
    eapply opens_more_trans; [exact HO|exact HO2|lia].
  - apply wp_bind. unfold wp at 1, host. cbn [seq_post].
    assert (Hk2 : 0 <= k) by auto. simpl in *. bool_facts.
    eapply wp_mono; [apply IH; simpl; lia|]. intros o s3 w7 [HO2 Ho2]. split; [|done].
    eapply opens_more_trans; [exact HO|exact HO2|simpl; lia].
Qed.

(** C36: VerbsOptions.Open always comes to an end, and after how many attempts: without a
    deadline go_rdma_open is called at most eight times, with one at most once per backoff
    of 250 ms left until it; and each call is given the caller's configuration and a
    timeout between 1 and 3000 ms, never the 0 or -1 that would mean "poll once" or "for
    ever".  (The fuel is one more than the attempts.) *)
Theorem dial_is_bounded fuel o deadline network address w :
  tries deadline 0 (clock w) < Z.of_nat fuel ->
  let '(out, s, _) := Open fuel o deadline network address fresh_dial w in
  match out with Ret _ | Fail _ => True | _ => False end /\
  Z.of_nat (length (opens_of (log s))) <= tries deadline 0 (clock w) /\
  Forall (fun x => exists cfg t, normalize o = Ok cfg /\ 1 <= t <= 3000 /\
                   x.2 = c_open_args (framePayloadSize cfg) cfg t) (opens_of (log s)).
Proof.
  intros Hf. set (n := tries deadline 0 (clock w)) in *.
  assert (Hn : 0 <= n) by (unfold n, tries; destruct deadline; lia).
  assert (Hw : wp (Open fuel o deadline network address) (fun out s' _ =>
    match out with Ret _ | Fail _ => True | _ => False end /\
    (opens_of (log s') = [] \/ exists cfg, normalize o = Ok cfg /\
       opens_more (framePayloadSize cfg) cfg n fresh_dial s')) fresh_dial w).
  { unfold Open. apply wp_bind, wp_host. intros e w1 E1%caller_host. cbn [seq_post].
    destruct e; [by split; [|left]|]. destruct (normalize o) as [cfg|] eqn:En; [|by split; [|left]].
    destruct (splitHostPortAddress network address) as [[host_ port]|]; [|by split; [|left]].
    apply wp_bind, wp_guard; intros _; cbn [seq_post]; [by split; [|left]|].
    pose proof (tries_later deadline 0 (clock w) (clock w1) E1) as Ht. fold n in Ht.
    apply wp_bind. eapply wp_mono; [apply (open_loop_timing fuel deadline _ cfg None 0); [lia|done]|].
    intros out s' w' [HO Ho].
    assert (HO' : opens_more (framePayloadSize cfg) cfg n fresh_dial s').
    { apply (opens_more_trans _ _ _ 0 _ _ _ _ HO); [by apply opens_more_same|lia]. }
    destruct out; cbn [seq_post]; try done; [|split; [done|right; by exists cfg]].
    apply wp_ret. split; [done|right; by exists cfg]. }
  unfold wp in Hw. destruct (Open fuel o deadline network address fresh_dial w) as [[out s] w1].
  destruct Hw as [Ho [E|(cfg & En & ext & E & L & F)]]; (split; [done|]); rewrite E; [by split|].
  simpl. split; [done|]. eapply Forall_impl; [exact F|]. intros [k a] (t & Ht & Ea). by exists cfg, t.
Qed.
End timing.

(** *** What the C code is asked for *)

Definition fits_u32 (v : Z) : Prop := 0 <= v < 2 ^ 32.

Lemma u32_fits v : fits_u32 v -> u32 v = v.
Proof. intros Hv. unfold u32. apply Z.mod_small. exact Hv. Qed.

(** C37: a configuration that normalize accepts, of sizes that fit the C types, is passed to
    go_rdma_open unchanged: it is not refused outright there, and a connection that comes
    of it has the configuration's frame size, depths, inline threshold and signal
    interval, and registers the whole of the caller's memory when the options have some
    and a window of its own otherwise. *)
Theorem dial_passes_configuration o cfg timeoutMS g :
  normalize o = Ok cfg ->
  fits_u32 (framePayloadSize cfg) -> fits_u32 (sendQueueDepth cfg) -> fits_u32 (recvQueueDepth cfg) ->
  fits_u32 (inlineThreshold cfg) -> fits_u32 (sendSignalIntvl cfg) -> fits_u32 (s_len (sharedRWMemory cfg)) ->
  (0 < s_len (sharedRWMemory cfg) -> s_addr (sharedRWMemory cfg) <> 0) ->
  let a := c_open_args (framePayloadSize cfg) cfg timeoutMS in
  (q_frame_cap (o_params a) <> 0 /\ q_send_wr (o_params a) <> 0 /\ q_recv_wr (o_params a) <> 0 /\
   (o_rw_mem a = 0 -> o_rw_mem_len a = 0) /\
   (o_rw_mem a <> 0 -> q_frame_cap (o_params a) <= o_rw_mem_len a)) /\
  (opened_cfg a g ->
   frame_cap g = framePayloadSize cfg /\ send_depth g = sendQueueDepth cfg /\
   recv_depth g = recvQueueDepth cfg /\ inline_threshold g = inlineThreshold cfg /\
   send_signal_interval g = sendSignalIntvl cfg /\
   (0 < s_len (sharedRWMemory cfg) ->
    rw_recv_buf g = s_addr (sharedRWMemory cfg) /\ rw_recv_cap g = s_len (sharedRWMemory cfg) /\
    rw_recv_slots g = 1) /\
   (s_len (sharedRWMemory cfg) = 0 -> own_window (o_params a) g)).
Proof.
  intros Hn F1 F2 F3 F4 F5 F6 Haddr. cbv zeta.
  destruct (normalized_cfg o cfg Hn) as (P1 & P2 & P3 & P4 & P5 & P6).
  unfold opened_cfg, asked_cfg, c_open_args, default_signal. simpl.
  rewrite !u32_fits by done.
  destruct (Z.ltb_spec 0 (s_len (sharedRWMemory cfg))) as [Hs|Hs].
  - specialize (Haddr Hs). split; [split_and!; lia|]. intros [Hc Hw].
    rewrite (proj2 (Z.eqb_neq _ _) Haddr) in Hw. rewrite (proj2 (Z.ltb_lt _ _) Hs) in Hw. simpl in Hw.
    rewrite (proj2 (Z.eqb_neq (sendSignalIntvl cfg) 0) ltac:(lia)) in Hc.
    rewrite !(u32_fits (s_len (sharedRWMemory cfg))) in Hw by done.
    split_and!; try apply Hc; [done|lia].
  - split; [split_and!; lia|]. intros [Hc Hw]. simpl in Hw.
    rewrite (proj2 (Z.eqb_neq (sendSignalIntvl cfg) 0) ltac:(lia)) in Hc.
    split_and!; try apply Hc; [lia|done].
Qed.

(** ** Runs

    A clock that only sleeps and opens move, and what each open will come to; an open that
    outlives its attempt takes the attempt's three seconds. *)

Record dial_sim := { ds_clock : Z; ds_opens : list (option openResult); ds_late : bool }.

Definition tick (d : Z) (w : dial_sim) : dial_sim :=
  {| ds_clock := ds_clock w + Z.max 0 d; ds_opens := ds_opens w; ds_late := ds_late w |}.

#[export] Instance dial_sim_host : DialHost dial_sim := {|
  time_now w := (ds_clock w, w);
  caller_err w := (None, w);
  attempt_err w := (None, w);
  wait_timer d w := (false, tick d w);
  time_Sleep d w := tick d w;
  open_call _ w :=
    match ds_opens w with
    | Some r :: l => (Some {| r_rc := r_rc r; r_conn := r_rc r =? 0; r_err := r_err r |},
                      {| ds_clock := ds_clock w; ds_opens := l; ds_late := ds_late w |})
    | None :: l => (None, {| ds_clock := ds_clock w + verbsOpenAttemptTimeout; ds_opens := l; ds_late := ds_late w |})
    | [] => (Some {| r_rc := 0; r_conn := true; r_err := None |}, w)
    end;
  late_result _ w := ({| r_rc := if ds_late w then 0 else 5; r_conn := ds_late w; r_err := None |}, w);
|}.

#[export] Instance dial_sim_contract : OpenContract dial_sim.
Proof.
  split.
  - intros args w r. simpl. destruct (ds_opens w) as [|[x|] l]; simpl; [by intros [= <-]| |done].
    intros [= <-]. simpl. intros. by bool_facts.
  - intros n w. simpl. by destruct (ds_late w).
Qed.

#[export] Instance dial_sim_clock : ClockLaws dial_sim.
Proof.
  refine {| clock := ds_clock |}; intros; simpl; try done; try lia.
  destruct (ds_opens w) as [|[x|] l]; simpl; [lia..|].
  unfold verbsOpenAttemptTimeout, verbsOpenTimeoutMills, Millisecond. lia.
Defined.

(** Two opens outlive their attempts, and succeed late; the third succeeds. *)
Definition slow_server : dial_sim :=
  {| ds_clock := 0; ds_opens := [None; None]; ds_late := true |}.
Definition default_opts : VerbsOptions :=
  {| FramePayloadSize := 0; SendQueueDepth := 0; RecvQueueDepth := 0; InlineThreshold := 0;
     LowCPU := false; SendSignalInterval := 0; SharedRWMemory := nil_slice |}.

Lemma dial_closes_all_but_returned_witness :
  let '(out, s, w1) := Open 9 default_opts None "tcp" "10.0.0.1:7471" fresh_dial slow_server in
  let '(_, s', _) := drain s w1 in
  conns_of (log s') = [2; 0; 1] /\ late s' = [] /\ NoDup (conns_of (log s')) /\
  match out with
  | Ret d => conns_of (log s') ≡ₚ d_conn d :: closes_of (log s')
  | _ => conns_of (log s') = closes_of (log s')
  end.
Proof.
  split; [by vm_compute|].
  exact (dial_closes_all_but_returned 9 default_opts None "tcp" "10.0.0.1:7471" slow_server).
Defined.

Lemma dial_is_bounded_witness :
  let '(out, s, _) := Open 9 default_opts None "tcp" "10.0.0.1:7471" fresh_dial slow_server in
  length (opens_of (log s)) = 3%nat /\
  match out with Ret _ | Fail _ => True | _ => False end /\
  Z.of_nat (length (opens_of (log s))) <= tries None 0 0 /\
  Forall (fun x => exists cfg t, normalize default_opts = Ok cfg /\ 1 <= t <= 3000 /\
                   x.2 = c_open_args (framePayloadSize cfg) cfg t) (opens_of (log s)).
Proof.
  split; [by vm_compute|].
  refine (dial_is_bounded 9 default_opts None "tcp" "10.0.0.1:7471" slow_server _). by vm_compute.
Defined.

Definition opts_with (shared : slice) : VerbsOptions :=
  {| FramePayloadSize := 0; SendQueueDepth := 0; RecvQueueDepth := 0; InlineThreshold := 0;
     LowCPU := true; SendSignalInterval := 0; SharedRWMemory := shared |}.
Definition cfg_of (o : VerbsOptions) : verbsConfig :=
  match normalize o with Ok c => c | Err _ => {| framePayloadSize := 0; sendQueueDepth := 0;
    recvQueueDepth := 0; inlineThreshold := 0; sendSignalIntvl := 0; lowCPU := false;
    sharedRWMemory := nil_slice |} end.

Lemma dial_passes_configuration_witness :
  let cfg := cfg_of (opts_with {| s_addr := 4096; s_len := 131072 |}) in
  let a := c_open_args (framePayloadSize cfg) cfg 3000 in
  0 < s_len (sharedRWMemory cfg) /\ o_rw_mem_len a = 131072 /\
  (q_frame_cap (o_params a) <> 0 /\ q_send_wr (o_params a) <> 0 /\ q_recv_wr (o_params a) <> 0 /\
   (o_rw_mem a = 0 -> o_rw_mem_len a = 0) /\
   (o_rw_mem a <> 0 -> q_frame_cap (o_params a) <= o_rw_mem_len a)).
Proof.
  split; [by vm_compute|]. split; [by vm_compute|].
  refine (proj1 (dial_passes_configuration (opts_with {| s_addr := 4096; s_len := 131072 |}) _ 3000
            zero_cfg _ _ _ _ _ _ _ _)); try done; by vm_compute.
Defined.

(** The shared memory of the options is a Go slice, but its length is converted to the
    32-bit parameter of go_rdma_open without a check: normalize accepts a region of
    2^32 + 65536 bytes, and the C code is told of 65536 of them.  (go_rdma_open's own
    check for a region that is too large compares that parameter with UINT32_MAX, so it
    cannot fail.) *)
Theorem shared_length_is_truncated :
  let o := opts_with {| s_addr := 4096; s_len := 2 ^ 32 + 65536 |} in
  let a := c_open_args (framePayloadSize (cfg_of o)) (cfg_of o) 3000 in
  normalize o = Ok (cfg_of o) /\ s_len (sharedRWMemory (cfg_of o)) = 2 ^ 32 + 65536 /\
  o_rw_mem_len a = 65536 /\ (UINT32_MAX <? o_rw_mem_len a) = false.
Proof. by vm_compute. Qed.

(** An open that fails with EAGAIN and an error text, as every C wait that times out
    does, is retried without freeing the text: the text of an attempt that fails with
    another code is freed, this one never.  Here one attempt times out, the next succeeds,
    and the text of the first is still allocated when everything has been released. *)
Theorem timed_out_open_loses_text :
  let w := {| ds_clock := 0; ds_late := false;
              ds_opens := [Some {| r_rc := EAGAIN; r_conn := false; r_err := Some "timed out"%string |}] |} in
  let '(out, s, w1) := Open 9 default_opts None "tcp" "10.0.0.1:7471" fresh_dial w in
  let '(_, s', _) := drain s w1 in
  returned out = true /\ late s' = [] /\ texts_of (log s') = [0] /\ frees_of (log s') = [].
Proof. by vm_compute. Qed.
