(* ===== verification/ClientNew.v ===== *)
(** * Making a zcopy client (client.go: New, hello, normalizeAddress)

    [New] checks its arguments, fills in defaults, dials (VerbsDial.v), asks the
    connection for the two interfaces it needs and says hello on a fresh [Client]
    (Client.v); what fails after the dial closes the connection.  The connections are
    those of VerbsDial.v's log, so that [new_leaks_no_connection] speaks of every
    connection the transport has made on the way. *)

From S2P Require Import Prelude Json ZcopyProto VerbsConfig VerbsConn VerbsSetup VerbsHandshake VerbsOpen VerbsDial.
From S2P Require ZcopyServer Client ClientIds.

(** ** Configuration *)

Definition defaultSendQueueLen : Z := 4096.

Record Config := {
  Endpoint : string;
  cf_timeouts : Client.Config;
  cf_verbs : VerbsOptions;
  cf_MaxCredits : Z;
  cf_SendQueueLen : Z;
}.

Inductive NewErr :=
| EEmptyMemory
| EEmptyEndpoint
| EParseEndpoint
| ENoHost
| EInvalidEndpoint
| EOpen (e : OpenErr)
| ENoBorrow
| ENoOffsetSender
| EHello (e : Client.cerr).

(** [context.WithTimeout], or [context.WithCancel]: the deadline of the new context. *)
Definition withTimeout (parent : option Z) (now timeout : Z) : option Z :=
  if timeout <=? 0 then parent else Some (attempt_deadline parent now timeout).

Definition with_memory (o : VerbsOptions) (mem : slice) : VerbsOptions :=
  {| FramePayloadSize := FramePayloadSize o; SendQueueDepth := SendQueueDepth o;
     RecvQueueDepth := RecvQueueDepth o; InlineThreshold := InlineThreshold o; LowCPU := LowCPU o;
     SendSignalInterval := SendSignalInterval o; SharedRWMemory := mem |}.

Definition positive_or (v d : Z) : Z := if v <=? 0 then d else v.

(** What the client's goroutines do until hello returns, and whether a connection's type
    is a BorrowingMessageConn and an offsetSender. *)
Class ClientHost (W : Type) := {
  goroutines : W -> list Client.label * W;
  conn_is_borrowing : dialed -> bool;
  conn_is_offset_sender : dialed -> bool;
}.

Section New.
Context {W : Type} `{!DialHost W, !ClientHost W}.

(** [url.Parse(v)], as far as it is used: the Host of the URL, or the error. *)
Context (url_Parse : string -> option string).

Definition normalizeAddress (s : string) : res NewErr string :=
  let v := TrimSpace s in
  if String.eqb v "" then Err EEmptyEndpoint
  else if Contains v "://" then
    match url_Parse v with
    | None => Err EParseEndpoint
    | Some host_ => if String.eqb host_ "" then Err ENoHost else Ok host_
    end
  else match SplitHostPort v with
  | None => Err EInvalidEndpoint
  | Some _ => Ok v
  end.

#[local] Abbreviation G := (M W dial NewErr).

Definition lift_open {A} (m : M W dial OpenErr A) : G A :=
  fun s w => match m s w with
             | (Ret a, s', w') => (Ret a, s', w')
             | (Fail e, s', w') => (Fail (EOpen e), s', w')
             | (Blocked, s', w') => (Blocked, s', w')
             | (Diverged, s', w') => (Diverged, s', w')
             end.

Definition lift_res {A} (r : res NewErr A) : G A :=
  match r with Ok a => ret a | Err e => fail e end.

(** [msgConn.Close()] *)
Definition close_conn (d : dialed) : G unit := modify (log_event (EvClose (d_conn d))).

(** A call that closes the connection when it fails. *)
Definition or_close (d : dialed) (ok : bool) (e : NewErr) : G unit :=
  if ok then ret tt else (close_conn d;; fail e).

(** [hello] on the new client: its call is started, then the goroutines run until it
    has returned.  A schedule in which it has not is not a complete run. *)
Definition hello (c : Client.Client) : G (Client.Client * Client.call_result) :=
  let! ls := host goroutines in
  match Client.exec_all (Client.start_call c Client.OHello) ls with
  | Some c1 =>
    match Client.calls c1 !! 0%nat with
    | Some (Client.CallDone r) => ret (c1, r)
    | _ => diverged
    end
  | None => blocked
  end.

(** A client that New returns, with its connection and what else New has set. *)
Record made := {
  m_client : Client.Client;
  m_conn : dialed;
  m_timeouts : Client.timeoutConfig;
  m_sendQueue : Z;
}.

(** [mem] is the slice [sharedMemory], [bytes] what it holds. *)
Definition New (fuel : nat) (cfg : Config) (mem : slice) (bytes : list byte) : G made :=
  guard (s_len mem =? 0) EEmptyMemory;;
  let! address := lift_res (normalizeAddress (Endpoint cfg)) in
  let verbsOpts := with_memory (cf_verbs cfg) mem in
  let timeouts := Client.resolveTimeouts (cf_timeouts cfg) in
  let maxCredits := positive_or (cf_MaxCredits cfg) Client.defaultMaxCredits in
  let sendQueueLen := positive_or (cf_SendQueueLen cfg) defaultSendQueueLen in
  let! now := host time_now in
  let! msgConn :=
    lift_open (Open fuel verbsOpts (Some (attempt_deadline None now (Client.connect timeouts))) "rdma" address) in
  or_close msgConn (conn_is_borrowing msgConn) ENoBorrow;;
  or_close msgConn (conn_is_offset_sender msgConn) ENoOffsetSender;;
  let! r := hello (Client.newClient bytes (FramePayloadSize verbsOpts) maxCredits) in
  match r with
  | (c, Client.RErr e) => close_conn msgConn;; fail (EHello e)
  | (c, _) =>
    ret {| m_client := c; m_conn := msgConn; m_timeouts := timeouts; m_sendQueue := sendQueueLen |}
  end.

(** ** Facts *)

Context `{!OpenContract W}.
Implicit Types (s : dial) (w : W).

Lemma wp_lift_open {A} (m : M W dial OpenErr A) (Q : outcome NewErr A -> dial -> W -> Prop) s w :
  wp m (fun o s' w' => match o with
    | Ret a => Q (Ret a) s' w' | Fail e => Q (Fail (EOpen e)) s' w'
    | Blocked => Q Blocked s' w' | Diverged => Q Diverged s' w' end) s w ->
  wp (lift_open m) Q s w.
Proof. unfold wp, lift_open. by destruct (m s w) as [[[]]]. Qed.

(** What New leaves behind: the connection it returns, or one it has closed, or none. *)
Definition left_by cfg bytes (out : outcome NewErr made) s : Prop :=
  match out with
  | Ret r =>
    (exists ls, books [d_conn (m_conn r)] [] ls s /\ late_before (d_conn (m_conn r)) ls) /\
    Client.calls (m_client r) !! 0%nat = Some (Client.CallDone Client.ROk) /\
    m_timeouts r = Client.resolveTimeouts (cf_timeouts cfg) /\ 0 < m_sendQueue r /\
    exists mc ls, 0 < mc /\
      Client.exec_all (Client.newClient bytes (FramePayloadSize (cf_verbs cfg)) mc)
        (Client.LStart Client.OHello :: ls) = Some (m_client r)
  | Fail _ => exists k cs ls, (cs = [] \/ cs = [k]) /\ books cs cs ls s /\ late_before k ls
  | _ => True
  end.

Lemma or_close_books d ok e ls cfg bytes {B} (k : unit -> M W dial NewErr B) Q s w :
  books [d_conn d] [] ls s -> late_before (d_conn d) ls ->
  (forall s', left_by cfg bytes (Fail e) s' -> Q (Fail e) s' w) ->
  wp (k tt) Q s w ->
  wp (bind (or_close d ok e) k) Q s w.
Proof.
  intros HB HL Hf Hk. unfold or_close. destruct ok; [exact Hk|].
  apply wp_bind, wp_bind, wp_modify. cbn [seq_post]. apply wp_fail. cbn [seq_post]. apply Hf.
  exists (d_conn d), [d_conn d], ls. split; [by right|]. split; [|done]. by apply (books_close _ _ []).
Qed.

(** The first call of a new client is its hello, which ends in nil or in an error. *)
Definition hello_call (c : Client.Client) : Prop :=
  match Client.calls c !! 0%nat with
  | Some (Client.CallSend o _ _) | Some (Client.CallWait o _ _) => o = Client.OHello
  | Some (Client.CallDone r) => r = Client.ROk \/ exists e, r = Client.RErr e
  | None => False
  end.

Lemma hello_call_same c c' : Client.calls c' = Client.calls c -> hello_call c -> hello_call c'.
Proof. unfold hello_call. by intros ->. Qed.

Lemma hello_call_set c i k :
  hello_call c -> (Client.calls c !! i <> None) ->
  (i = 0%nat -> match k with
    | Client.CallSend o _ _ | Client.CallWait o _ _ => o = Client.OHello
    | Client.CallDone r => r = Client.ROk \/ exists e, r = Client.RErr e end) ->
  hello_call (Client.set_call c i k).
Proof.
  unfold hello_call, Client.set_call. simpl. intros Hc Hi Hk. destruct i as [|i].
  - destruct (Client.calls c) as [|k0 l]; [done|]. simpl. by destruct k; apply Hk.
  - rewrite list_lookup_insert_ne by done. exact Hc.
Qed.

Lemma hello_result c i r ch arm ok c' :
  Client.wait_call c i Client.OHello r ch arm ok = Some c' ->
  exists c1 q, c' = Client.set_call c1 i (Client.CallDone q) /\ Client.calls c1 = Client.calls c /\
    (q = Client.ROk \/ exists e, q = Client.RErr e).
Proof.
  unfold Client.wait_call. destruct arm; simpl.
  - repeat case_match; intros; simplify_eq/=; (eexists _, _; split; [done|split; [done|eauto]]).
    unfold Client.finish_hello. repeat case_match; eauto.
  - intros [= <-]. eexists _, _. split; [done|split; [done|eauto]].
  - case_match; intros; simplify_eq. eexists _, _. split; [done|split; [done|eauto]].
Qed.

Lemma hello_call_exec c l c' : Client.exec c l = Some (Some c') -> hello_call c -> hello_call c'.
Proof.
  intros Hex Hc. assert (Hs := ClientIds.exec_shape _ _ _ Hex).
  destruct l as [o|i r|i w ok|f|f ok|ref ok|oks]; try (by eapply hello_call_same; [apply ClientIds.keeps_calls|]).
  - subst c'. unfold hello_call, Client.start_call in *.
    destruct (Client.calls c) as [|k0 l] eqn:E; [done|].
    destruct (Client.precheck c o); simpl; rewrite ?E; exact Hc.
  - destruct Hs as (o & reqID & ch & Hi & ->).
    destruct (ClientIds.send_call_facts c i o reqID ch r) as (_ & Hcalls & _).
    apply (hello_call_same (Client.set_call c i (ClientIds.after_send o reqID ch r))); [done|].
    apply hello_call_set; [done|by rewrite Hi|]. intros ->. unfold hello_call in Hc. rewrite Hi in Hc. subst o.
    destruct r; simpl; eauto.
  - simpl in Hex. destruct (Client.calls c !! i) as [[|o reqID ch|]|] eqn:Hi; simplify_eq.
    destruct (decide (i = 0%nat)) as [->|Hne].
    + assert (o = Client.OHello) as -> by (unfold hello_call in Hc; by rewrite Hi in Hc).
      apply hello_result in Hex as (c1 & q & -> & Hsame & Hq).
      apply hello_call_set; [by apply (hello_call_same c)|by rewrite Hsame, Hi|done].
    + destruct (ClientIds.wait_shape _ _ _ _ _ _ _ _ Hex) as (c1 & q & -> & Hk).
      apply ClientIds.keeps_calls in Hk. apply hello_call_set; [by apply (hello_call_same c)|by rewrite Hk, Hi|done].
Qed.

Lemma hello_call_run c ls c' : Client.exec_all c ls = Some c' -> hello_call c -> hello_call c'.
Proof.
  revert c. induction ls as [|l ls IH]; intros c; simpl; [by intros [= ->]|].
  destruct (Client.exec c l) as [[c1|]|] eqn:E; simpl; [| |done].
  - intros Hr Hc. eapply IH; [done|]. by eapply hello_call_exec.
  - intros Hr Hc. by eapply IH.
Qed.

Lemma positive_or_pos v d : 0 < d -> 0 < positive_or v d.
Proof. unfold positive_or. destruct (Z.leb_spec v 0); lia. Qed.

Lemma hello_facts c (Q : outcome NewErr _ -> dial -> W -> Prop) s w :
  Client.calls c = [] ->
  (forall o w', match o with
     | Ret (c1, r) => Client.calls c1 !! 0%nat = Some (Client.CallDone r) /\
         (r = Client.ROk \/ exists e, r = Client.RErr e) /\
         exists ls, Client.exec_all c (Client.LStart Client.OHello :: ls) = Some c1
     | Fail _ => False | _ => True end -> Q o s w') ->
  wp (hello c) Q s w.
Proof.
  intros Hc HQ. unfold hello. apply wp_bind, wp_host. intros ls w1 _. cbn [seq_post].
  destruct (Client.exec_all _ ls) as [c1|] eqn:E; [|by apply HQ].
  assert (Hh : hello_call c1).
  { eapply hello_call_run; [exact E|]. unfold hello_call, Client.start_call. simpl. by rewrite Hc. }
  unfold hello_call in Hh. destruct (Client.calls c1 !! 0%nat) as [[| |r]|] eqn:E0; try (by apply HQ).
  apply wp_ret, HQ. split_and!; [done|done|]. by exists ls.
Qed.

Lemma New_books fuel cfg mem bytes w :
  wp (New fuel cfg mem bytes) (fun out s' _ => left_by cfg bytes out s') fresh_dial w.
Proof.
  assert (H0 : forall e, left_by cfg bytes (Fail e) fresh_dial).
  { intros e. exists 0, [], []. split; [by left|]. split; [done|]. split; [apply NoDup_nil_2|done]. }
  unfold New. apply wp_bind, wp_guard; intros Hm; cbn [seq_post]; [apply H0|].
  apply wp_bind. unfold lift_res. destruct (normalizeAddress _) as [addr|e]; [|apply wp_fail; apply H0].
  apply wp_ret. cbn [seq_post]. cbv zeta. apply wp_bind, wp_host. intros now w1 _. cbn [seq_post].
  apply wp_bind, wp_lift_open. eapply wp_mono; [apply Open_books|].
  intros [d|e| |] s1 w2 H1; cbn [seq_post]; try done.
  2: { destruct H1 as (k & ls & HB & HL). exists k, [], ls. split; [by left|done]. }
  destruct H1 as (ls & HB & HL).
  do 2 (apply (or_close_books _ _ _ ls cfg bytes); [done|done|by auto|]).
  apply wp_bind, hello_facts; [done|]. intros [[c r]|e| |] w3; cbn [seq_post]; try done.
  intros (Hcall & [->|[e ->]] & ls' & Hex).
  - apply wp_ret. split; [by exists ls|]. split; [done|]. split; [done|].
    split; [by apply positive_or_pos|]. eexists _, ls'. split; [|exact Hex]. by apply positive_or_pos.
  - apply wp_bind, wp_modify. cbn [seq_post]. apply wp_fail.
    exists (d_conn d), [d_conn d], ls. split; [by right|]. split; [|done]. by apply (books_close _ _ []).
Qed.

(** ** Properties *)

(** C25: Making a client leaks no connection.  Once the goroutines that the dial left
    behind have finished, every connection the transport handed over has been closed
    exactly once, except the one of the client that New returns, which is open; when New
    fails, because of its arguments, the dial, the connection's type or the hello, all
    have been closed.  A client that is returned has had its hello answered, and is in a
    state that Client.v's steps reach from a new client. *)
Theorem new_leaks_no_connection fuel cfg mem bytes w :
  let '(out, s, w1) := New fuel cfg mem bytes fresh_dial w in
  let '(_, s', _) := drain s w1 in
  match out with
  | Ret r =>
    late s' = [] /\ NoDup (conns_of (log s')) /\
    conns_of (log s') ≡ₚ d_conn (m_conn r) :: closes_of (log s') /\
    Client.calls (m_client r) !! 0%nat = Some (Client.CallDone Client.ROk) /\
    exists mc ls, 0 < mc /\
      Client.exec_all (Client.newClient bytes (FramePayloadSize (cf_verbs cfg)) mc)
        (Client.LStart Client.OHello :: ls) = Some (m_client r)
  | Fail _ => late s' = [] /\ NoDup (conns_of (log s')) /\ conns_of (log s') = closes_of (log s')
  | _ => True
  end.
Proof.
  pose proof (New_books fuel cfg mem bytes w) as HN. unfold wp in HN.
  destruct (New fuel cfg mem bytes fresh_dial w) as [[out s] w1].
  assert (HD : forall cs xs ls, books cs xs ls s -> let '(_, s', _) := drain s w1 in
    exists l', l' `sublist_of` ls /\ books (cs ++ l') (xs ++ l') [] s').
  { intros cs xs ls HB. pose proof (drain_books _ _ _ _ w1 HB) as H2. unfold wp in H2.
    by destruct (drain s w1) as [[? ?] ?]. }
  destruct out as [r|e| |]; simpl in HN; [| |by destruct (drain s w1) as [[? ?] ?]..].
  - destruct HN as ((ls & HB & HL) & Hcall & _ & _ & Hrun). specialize (HD _ _ _ HB).
    destruct (drain s w1) as [[o' s'] w']. destruct HD as (l' & Hsub & H1 & H2 & H3).
    rewrite H1, H2. split_and!; [done|by eapply late_nodup; eauto|done|done|done].
  - destruct HN as (k & cs & ls & Hcs & HB & HL). specialize (HD _ _ _ HB).
    destruct (drain s w1) as [[o' s'] w']. destruct HD as (l' & Hsub & H1 & H2 & H3).
    rewrite H1, H2. split_and!; [done|by eapply late_nodup; eauto|done].
Qed.
End New.

(** ** Runs, on the simulated transport of VerbsDial.v *)

(** The service's answer to the hello; goroutines that send it, receive that and return. *)
Definition hello_answer (text : string) : list byte :=
  match Encode (ZcopyServer.reply OpHelloResp 1 4 text) with Ok p => p | Err _ => [] end.

Definition hello_run (text : string) : list Client.label :=
  [Client.LSend 0 Client.Sent;
   Client.LRecv (Some {| ZcopyServer.f_Payload := hello_answer text; ZcopyServer.f_SharedOffset := -1 |});
   Client.LWait 0 Client.WResult true].

Definition answered_with (text : string) : ClientHost dial_sim := {|
  goroutines w := (hello_run text, w);
  conn_is_borrowing _ := true;
  conn_is_offset_sender _ := true;
|}.

Definition demo_config : Config :=
  {| Endpoint := " 10.0.0.1:7471 "; cf_timeouts := {| Client.RequestTimeout := 0; Client.ConnectTimeout := 0;
       Client.ControlTimeout := 0; Client.DataTimeout := 0 |};
     cf_verbs := {| FramePayloadSize := 16; SendQueueDepth := 0; RecvQueueDepth := 0; InlineThreshold := 0;
                    LowCPU := true; SendSignalInterval := 0; SharedRWMemory := nil_slice |}; cf_MaxCredits := 0; cf_SendQueueLen := 0 |}.

Definition demo_New (text : string) :=
  New (ClientHost0 := answered_with text) (fun _ => None) 50 demo_config {| s_addr := 4096; s_len := 64 |}
    (replicate 64 x00) fresh_dial slow_server.

(** Two attempts time out and succeed late, the third is the client's connection; when
    the hello is refused that one is closed as well. *)
Example demo_made :
  (let '(out, s, w) := demo_New "" in let '(_, s', _) := drain s w in
   match out with Ret r => (d_conn (m_conn r), m_sendQueue r, conns_of (log s'), closes_of (log s')) | _ => (-1, 0, [], []) end)
  = (2, 4096, [2; 0; 1], [0; 1]).
Proof. by vm_compute. Qed.

Example demo_refused :
  (let '(out, s, w) := demo_New "busy" in let '(_, s', _) := drain s w in
   match out with
   | Fail (EHello (Client.EHelloFailed "busy")) => (conns_of (log s'), closes_of (log s'))
   | _ => ([], [])
   end) = ([2; 0; 1], [2; 0; 1]).
Proof. by vm_compute. Qed.

Lemma new_leaks_no_connection_witness :
  let '(out, s, w1) := demo_New "" in
  let '(_, s', _) := drain s w1 in
  match out with
  | Ret r => conns_of (log s') ≡ₚ d_conn (m_conn r) :: closes_of (log s')
  | _ => False
  end.
Proof.
  assert (Hret : match demo_New "" with (Ret _, _, _) => true | _ => false end = true) by (vm_compute; reflexivity).
  pose proof (new_leaks_no_connection (ClientHost0 := answered_with "") (fun _ => None) 50 demo_config
    {| s_addr := 4096; s_len := 64 |} (replicate 64 x00) slow_server) as H.
  revert H Hret. unfold demo_New. destruct (New _ _ _ _ _ _ _) as [[[r|e| |] s] w1]; intros H Hret; try discriminate Hret.
  destruct (drain s w1) as [[o s'] w']. exact (proj1 (proj2 (proj2 H))).
Defined.
