(* ===== verification/VerbsListen.v ===== *)
(** * The Go listener (pkg/rdma/verbs_linux_cgo.go, pkg/rdma/verbs_listener.go)

    newVerbsMessageListener checks its options and starts accept workers; each worker calls
    go_rdma_accept and offers what it gets to a bounded channel, from which AcceptMessage
    takes it; Close stops the workers.  The workers, the callers of AcceptMessage and the
    caller of Close run concurrently: the listener is a transition system whose [action]s
    are their atomic steps, each an executable partial function of the state. *)

From S2P Require Import Prelude Trans VerbsConfig VerbsConn VerbsSetup VerbsHandshake VerbsOpen VerbsDial.

Definition DefaultVerbsListenBacklog : Z := 512.
Definition DefaultVerbsAcceptWorkers : Z := 1.

Record VerbsListenerOptions := {
  lo_VerbsOptions : VerbsOptions;
  Backlog : Z;
  AcceptWorkers : Z;
}.

Inductive ListenErr :=
| LErrConfig (e : CfgErr)
| LErrFrameCapacity
| LErrBacklog
| LErrC (rc : Z) (msg : string)
| LErrNil.

(** The arguments of go_rdma_listen ([None] for a host that is NULL) and what the
    listener is made with when it returns one. *)
Record listen_args := {
  la_host : option string;
  la_port : string;
  la_params : params;
  la_backlog : Z;
}.

Record listener_conf := {
  lc_args : listen_args;
  lc_framePayloadSize : Z;
  lc_inlineThreshold : Z;
  lc_localAddr : string;
  lc_acceptWorkers : Z;
  lc_queue : Z;            (* the capacity of acceptOut *)
}.

(** Up to the call of go_rdma_listen. *)
Definition listen_conf (network address : string) (opts : VerbsListenerOptions) : res ListenErr listener_conf :=
  match normalize (lo_VerbsOptions opts) with
  | Err e => Err (LErrConfig e)
  | Ok cfg =>
    match splitHostPortListenAddress network address with
    | Err e => Err (LErrConfig e)
    | Ok (host, port) =>
      let frameCap := framePayloadSize cfg in
      if frameCap <=? 0 then Err LErrFrameCapacity
      else
        let backlog := if Backlog opts =? 0 then DefaultVerbsListenBacklog else Backlog opts in
        if backlog <? 0 then Err LErrBacklog
        else
          let acceptWorkers := if AcceptWorkers opts <=? 0 then DefaultVerbsAcceptWorkers
                               else AcceptWorkers opts in
          let localHost := if String.eqb host "" then "0.0.0.0"%string else host in
          Ok {| lc_args := {| la_host := if String.eqb host "" then None else Some host;
                              la_port := port;
                              la_params := {| q_frame_cap := u32 frameCap;
                                              q_send_wr := u32 (sendQueueDepth cfg);
                                              q_recv_wr := u32 (recvQueueDepth cfg);
                                              q_inline := u32 (inlineThreshold cfg);
                                              q_signal := u32 (sendSignalIntvl cfg) |};
                              la_backlog := i32 backlog |};
                lc_framePayloadSize := framePayloadSize cfg;
                lc_inlineThreshold := inlineThreshold cfg;
                lc_localAddr := JoinHostPort localHost port;
                lc_acceptWorkers := acceptWorkers;
                lc_queue := acceptWorkers * 4 |}
    end
  end.

(** ** The listener's state *)

(** Where a worker is: about to look at l.cl, in go_rdma_accept, about to look at l.cl
    after a failure, offering a connection, or gone. *)
Inductive worker := WTop | WCall | WCheck | WOffer (c : Z) | WGone.

(** Where Close is: not called, having closed done, after workerWg.Wait, after
    go_rdma_listener_close, and having closed acceptOut. *)
Inductive closing := NotClosed | DoneClosed | WorkersGone | ListenerGone | Closed.

(** [cl] is [l.cl <> nil]; [c_listener]: the C listener has not been freed; [acceptOut] holds
    connections, which are numbered in the order in which they came. *)
Record listening := {
  cl : bool;
  done_closed : bool;
  c_listener : bool;
  acceptOut : list Z;
  out_closed : bool;
  capacity : Z;
  workers : list worker;
  closer : closing;
  accepted : Z;            (* connections that go_rdma_accept has made *)
  delivered : list Z;      (* returned by AcceptMessage *)
  conn_closed : list Z;    (* passed to go_rdma_close by a worker *)
}.

Definition start (conf : listener_conf) : listening :=
  {| cl := true; done_closed := false; c_listener := true; acceptOut := []; out_closed := false;
     capacity := lc_queue conf; workers := replicate (Z.to_nat (lc_acceptWorkers conf)) WTop;
     closer := NotClosed; accepted := 0; delivered := []; conn_closed := [] |}.

Definition newVerbsMessageListener (network address : string) (opts : VerbsListenerOptions)
    (listen : listen_args -> Z * bool * option string) : res ListenErr listening :=
  match listen_conf network address opts with
  | Err e => Err e
  | Ok conf =>
    let '(rc, listener, cErr) := listen (lc_args conf) in
    if negb (rc =? 0) then Err (LErrC rc (default ""%string cErr))
    else if negb listener then Err LErrNil
    else Ok (start conf)
  end.

Definition set_worker (s : listening) (i : nat) (p : worker) : listening :=
  {| cl := cl s; done_closed := done_closed s; c_listener := c_listener s; acceptOut := acceptOut s;
     out_closed := out_closed s; capacity := capacity s; workers := <[i := p]> (workers s);
     closer := closer s; accepted := accepted s; delivered := delivered s; conn_closed := conn_closed s |}.

Definition set_conns (s : listening) (out : list Z) (n : Z) (del clo : list Z) : listening :=
  {| cl := cl s; done_closed := done_closed s; c_listener := c_listener s; acceptOut := out;
     out_closed := out_closed s; capacity := capacity s; workers := workers s;
     closer := closer s; accepted := n; delivered := del; conn_closed := clo |}.

Definition set_closing (s : listening) (c d l o : bool) (k : closing) : listening :=
  {| cl := c; done_closed := d; c_listener := l; acceptOut := acceptOut s;
     out_closed := o; capacity := capacity s; workers := workers s;
     closer := k; accepted := accepted s; delivered := delivered s; conn_closed := conn_closed s |}.

(** ** Accepting *)

(** What acceptOnce makes of the result of go_rdma_accept. *)
Inductive accept_result := AcceptTimeout | AcceptErr (rc : Z) | AcceptNil | AcceptConn.

Definition acceptOnce (rc : Z) (conn : bool) : accept_result :=
  if negb (rc =? 0) then
    if rc =? EAGAIN then AcceptTimeout else AcceptErr rc
  else if conn then AcceptConn else AcceptNil.

(** The steps. [i] is the number of a worker. *)
Inductive action :=
| ALook (i : nat)                         (* read l.cl, call go_rdma_accept *)
| AReturn (i : nat) (rc : Z) (conn : bool)    (* it returns *)
| ACheck (i : nat)                        (* read l.cl after a failure; sleep *)
| AOffer (i : nat)                        (* l.acceptOut <- cConn *)
| AGiveUp (i : nat)                       (* <-done: close the connection *)
| AClose                                  (* Close: l.cl = nil, close(l.done) *)
| AWait                                   (* l.workerWg.Wait() *)
| AFree                                   (* go_rdma_listener_close *)
| ACloseOut                               (* close(l.acceptOut) *)
| ATake                                   (* AcceptMessage: cConn := <-acceptOut *)
| ARefuse                                 (* AcceptMessage: <-done *)
| ADrained.                               (* AcceptMessage: acceptOut is closed and empty *)

Definition worker_at (s : listening) (i : nat) : option worker := workers s !! i.

(** [None]: the step is not possible in this state. *)
Definition act (a : action) (s : listening) : option listening :=
  match a with
  | ALook i =>
    match worker_at s i with
    | Some WTop => Some (set_worker s i (if cl s then WCall else WGone))
    | _ => None
    end
  | AReturn i rc conn =>
    match worker_at s i with
    | Some WCall =>
      match acceptOnce rc conn with
      | AcceptTimeout | AcceptErr _ => Some (set_worker s i WCheck)
      | AcceptNil => Some (set_worker s i WTop)
      | AcceptConn =>
        Some (set_conns (set_worker s i (WOffer (accepted s))) (acceptOut s) (accepted s + 1)
                        (delivered s) (conn_closed s))
      end
    | _ => None
    end
  | ACheck i =>
    match worker_at s i with
    | Some WCheck => Some (set_worker s i (if cl s then WTop else WGone))
    | _ => None
    end
  | AOffer i =>
    match worker_at s i with
    | Some (WOffer c) =>
      if blen (acceptOut s) <? capacity s then
        Some (set_conns (set_worker s i WTop) (acceptOut s ++ [c]) (accepted s) (delivered s) (conn_closed s))
      else None
    | _ => None
    end
  | AGiveUp i =>
    match worker_at s i with
    | Some (WOffer c) =>
      if done_closed s then
        Some (set_conns (set_worker s i WGone) (acceptOut s) (accepted s) (delivered s) (conn_closed s ++ [c]))
      else None
    | _ => None
    end
  | AClose => match closer s with
              | NotClosed => Some (set_closing s false true (c_listener s) (out_closed s) DoneClosed)
              | _ => None
              end
  | AWait => match closer s with
             | DoneClosed =>
               if forallb (fun p => match p with WGone => true | _ => false end) (workers s)
               then Some (set_closing s (cl s) (done_closed s) (c_listener s) (out_closed s) WorkersGone)
               else None
             | _ => None
             end
  | AFree => match closer s with
             | WorkersGone => Some (set_closing s (cl s) (done_closed s) false (out_closed s) ListenerGone)
             | _ => None
             end
  | ACloseOut => match closer s with
                 | ListenerGone => Some (set_closing s (cl s) (done_closed s) (c_listener s) true Closed)
                 | _ => None
                 end
  | ATake =>
    match acceptOut s with
    | c :: out => Some (set_conns s out (accepted s) (delivered s ++ [c]) (conn_closed s))
    | [] => None
    end
  | ARefuse => if done_closed s then Some s else None
  | ADrained => match acceptOut s with [] => if out_closed s then Some s else None | _ => None end
  end.

(** What AcceptMessage returns by a step: a connection, or net.ErrClosed. *)
Definition accept_message (a : action) (s : listening) : option (option Z) :=
  match a with
  | ATake => match acceptOut s with c :: _ => Some (Some c) | [] => None end
  | ARefuse | ADrained => Some None
  | _ => None
  end.

#[local] Abbreviation reaches := (reaches_by act).
#[local] Abbreviation run := (run_by act).

#[export] Instance closing_eq_dec : EqDecision closing.
Proof. solve_decision. Defined.

(** ** What holds of every reachable state *)

Definition gone (p : worker) : bool := match p with WGone => true | _ => false end.
Definition offer_of (p : worker) : list Z := match p with WOffer c => [c] | _ => [] end.
Definition offered (s : listening) : list Z := concat (offer_of <$> workers s).

(** Close has got as far as waiting for the workers. *)
Definition workers_waited (k : closing) : bool :=
  match k with WorkersGone | ListenerGone | Closed => true | _ => false end.
Definition listener_freed (k : closing) : bool :=
  match k with ListenerGone | Closed => true | _ => false end.
Definition closing_finished (k : closing) : bool := match k with Closed => true | _ => false end.
Definition not_closing (k : closing) : bool := match k with NotClosed => true | _ => false end.

Record listen_ok (s : listening) : Prop := {
  ok_count : 0 <= accepted s;
  ok_conns : seqZ 0 (accepted s) ≡ₚ offered s ++ acceptOut s ++ delivered s ++ conn_closed s;
  ok_queue : blen (acceptOut s) <= capacity s;
  ok_cl : cl s = not_closing (closer s);
  ok_done : done_closed s = negb (not_closing (closer s));
  ok_freed : c_listener s = negb (listener_freed (closer s));
  ok_gone : workers_waited (closer s) = true -> forallb gone (workers s) = true;
  ok_out : out_closed s = closing_finished (closer s);
}.

Lemma offered_set s i p p' :
  worker_at s i = Some p -> offer_of p ++ offered (set_worker s i p') ≡ₚ offer_of p' ++ offered s.
Proof. apply (concat_insert offer_of). Qed.

Lemma gone_at s i p : forallb gone (workers s) = true -> worker_at s i = Some p -> p = WGone.
Proof. intros Hall Hi. pose proof (forallb_at gone (workers s) i p Hall Hi). by destruct p. Qed.

Lemma not_waited s i p :
  listen_ok s -> worker_at s i = Some p -> p <> WGone -> workers_waited (closer s) = false.
Proof.
  intros Hs Hi Hp. destruct (workers_waited (closer s)) eqn:E; [|done].
  destruct Hp. eapply gone_at; [by apply ok_gone|done].
Qed.

(** A worker's step keeps everything but the accounts, which it has to keep itself. *)
Lemma worker_step_ok s i p p' out n del clo :
  listen_ok s -> worker_at s i = Some p -> p <> WGone -> 0 <= n ->
  (forall ws, offer_of p ++ ws ≡ₚ offer_of p' ++ offered s -> seqZ 0 n ≡ₚ ws ++ out ++ del ++ clo) ->
  blen out <= capacity s ->
  listen_ok (set_conns (set_worker s i p') out n del clo).
Proof.
  intros Hs Hi Hp Hn Hperm Hq. pose proof (not_waited s i p Hs Hi Hp) as Hw. destruct Hs.
  split; try done; simpl.
  - apply Hperm. by apply (offered_set s i).
  - intros Hw2. congruence.
Qed.

Lemma set_conns_same s :
  set_conns s (acceptOut s) (accepted s) (delivered s) (conn_closed s) = s.
Proof. by destruct s. Qed.

Lemma quiet_step_ok s i p p' :
  listen_ok s -> worker_at s i = Some p -> p <> WGone -> offer_of p = [] -> offer_of p' = [] ->
  listen_ok (set_worker s i p').
Proof.
  intros Hs Hi Hp E1 E2. rewrite <- (set_conns_same (set_worker s i p')).
  apply (worker_step_ok s i p); try done; [by apply (ok_count s)| |by apply (ok_queue s)].
  intros ws. rewrite E1, E2. simpl. intros ->. by apply (ok_conns s).
Qed.

Lemma act_ok a s s' : listen_ok s -> act a s = Some s' -> listen_ok s'.
Proof.
  intros Hs Ha. destruct a as [i|i rc conn|i|i|i| | | | | | |]; simpl in Ha.
  - destruct (worker_at s i) as [[]|] eqn:Hi; simplify_eq.
    eapply quiet_step_ok; [done|exact Hi|done|done|by destruct (cl s)].
  - destruct (worker_at s i) as [[]|] eqn:Hi; simplify_eq. pose proof (ok_count s Hs).
    destruct (acceptOnce rc conn); simplify_eq; try by eapply quiet_step_ok.
    eapply worker_step_ok; [done|exact Hi|done|lia| |by apply ok_queue].
    simpl. intros ws ->. rewrite seqZ_app by lia. simpl.
    replace (seqZ (0 + accepted s) 1) with [accepted s] by done.
    rewrite (ok_conns s Hs). solve_Permutation.
  - destruct (worker_at s i) as [[]|] eqn:Hi; simplify_eq.
    eapply quiet_step_ok; [done|exact Hi|done|done|by destruct (cl s)].
  - destruct (worker_at s i) as [[| | |c|]|] eqn:Hi; simplify_eq.
    destruct (Z.ltb_spec (blen (acceptOut s)) (capacity s)); simplify_eq.
    eapply worker_step_ok; [done|exact Hi|done|by apply ok_count| |].
    + simpl. intros ws Hws. rewrite (ok_conns s Hs), <- Hws. solve_Permutation.
    + unfold blen in *. rewrite length_app. simpl. lia.
  - destruct (worker_at s i) as [[| | |c|]|] eqn:Hi; simplify_eq. destruct (done_closed s); simplify_eq.
    eapply worker_step_ok; [done|exact Hi|done|by apply ok_count| |by apply ok_queue].
    simpl. intros ws Hws. rewrite (ok_conns s Hs), <- Hws. solve_Permutation.
  - destruct Hs. destruct (closer s) eqn:Ec; simplify_eq. by split.
  - destruct Hs. destruct (closer s) eqn:Ec; simplify_eq. case_match eqn:Ew; simplify_eq. by split.
  - destruct Hs. destruct (closer s) eqn:Ec; simplify_eq. by split.
  - destruct Hs. destruct (closer s) eqn:Ec; simplify_eq. by split.
  - destruct (acceptOut s) as [|c out] eqn:Eo; simplify_eq. destruct Hs as [H1 H2 H3 H4 H5 H6 H7 H8].
    rewrite Eo in *. split; try done; simpl.
    + rewrite H2. unfold offered. simpl. solve_Permutation.
    + unfold blen in *. simpl in *. lia.
  - destruct (done_closed s); by simplify_eq.
  - destruct (acceptOut s), (out_closed s); by simplify_eq.
Qed.

Lemma start_ok conf : 0 <= lc_queue conf -> listen_ok (start conf).
Proof.
  intros Hq. split; try done; simpl.
  unfold offered. simpl. induction (Z.to_nat (lc_acceptWorkers conf)) as [|n IH]; simpl; [done|exact IH].
Qed.

Lemma reaches_ok s0 s : listen_ok s0 -> reaches s0 s -> listen_ok s.
Proof. apply (reaches_inv act listen_ok act_ok). Qed.

Lemma conf_workers network address opts conf :
  listen_conf network address opts = Ok conf ->
  0 < lc_acceptWorkers conf /\ lc_queue conf = 4 * lc_acceptWorkers conf /\
  (AcceptWorkers opts <= 1 -> lc_acceptWorkers conf = 1).
Proof.
  unfold listen_conf. destruct (normalize _) as [cfg|]; [|done].
  destruct (splitHostPortListenAddress network address) as [[host port]|]; [|done].
  destruct (_ <=? 0); [done|]. destruct (_ <? 0); [done|]. intros [= <-]. simpl.
  unfold DefaultVerbsAcceptWorkers. destruct (Z.leb_spec (AcceptWorkers opts) 0); lia.
Qed.

Lemma new_start network address opts listen s :
  newVerbsMessageListener network address opts listen = Ok s ->
  exists conf, listen_conf network address opts = Ok conf /\ s = start conf.
Proof.
  unfold newVerbsMessageListener. destruct (listen_conf network address opts) as [conf|]; [|done].
  destruct (listen _) as [[rc l] e]. destruct (negb (rc =? 0)); [done|]. destruct l; [|done].
  intros [= <-]. by exists conf.
Qed.

Lemma new_ok network address opts listen s :
  newVerbsMessageListener network address opts listen = Ok s -> listen_ok s.
Proof.
  intros (conf & Hc & ->)%new_start. apply start_ok. apply conf_workers in Hc. lia.
Qed.

(** C19: whatever the workers, the callers of AcceptMessage and Close do, in whatever order:
    no worker is in go_rdma_accept, nor about to enter it, once Close has freed the C
    listener; no worker offers a connection once the channel is closed, where that would
    panic; and every connection ever accepted is in exactly one place, offered by a
    worker, queued, returned by AcceptMessage or closed, none of them twice. *)
Theorem listener_is_safe network address opts listen s0 s :
  newVerbsMessageListener network address opts listen = Ok s0 -> reaches s0 s ->
  (c_listener s = false -> forall i p, worker_at s i = Some p -> p = WGone) /\
  (out_closed s = true -> forall i p, worker_at s i = Some p -> p = WGone) /\
  seqZ 0 (accepted s) ≡ₚ offered s ++ acceptOut s ++ delivered s ++ conn_closed s /\
  NoDup (offered s ++ acceptOut s ++ delivered s ++ conn_closed s) /\
  blen (acceptOut s) <= capacity s.
Proof.
  intros H0 Hr. apply new_ok in H0. pose proof (reaches_ok s0 s H0 Hr) as Hs.
  assert (Hgone : workers_waited (closer s) = true -> forall i p, worker_at s i = Some p -> p = WGone).
  { intros Hw i p. apply gone_at. by apply ok_gone. }
  split_and!.
  - rewrite (ok_freed s Hs). intros Hf. apply Hgone. by destruct (closer s).
  - rewrite (ok_out s Hs). intros Hf. apply Hgone. by destruct (closer s).
  - by apply ok_conns.
  - rewrite <- (ok_conns s Hs). apply NoDup_seqZ.
  - by apply ok_queue.
Qed.

(** *** Close comes to an end *)

(** The steps the workers and Close take; the others are their callers'. *)
Definition internal (a : action) : bool :=
  match a with ATake | ARefuse | ADrained | AClose => false | _ => true end.

Definition worker_rank (p : worker) : nat :=
  match p with WGone => 0 | WTop | WCheck => 1 | WOffer _ => 2 | WCall => 3 end.
Definition close_rank (k : closing) : nat :=
  match k with NotClosed => 4 | DoneClosed => 3 | WorkersGone => 2 | ListenerGone => 1 | Closed => 0 end.
Definition rank (s : listening) : nat := sum_list (worker_rank <$> workers s) + close_rank (closer s).

Lemma rank_set s i p p' :
  worker_at s i = Some p -> (rank (set_worker s i p') + worker_rank p = rank s + worker_rank p')%nat.
Proof. intros Hi. unfold rank. simpl. pose proof (sum_list_insert worker_rank (workers s) i p p' Hi). lia. Qed.

Lemma rank_conns s out n del clo : rank (set_conns s out n del clo) = rank s.
Proof. done. Qed.

Lemma internal_ranks a s s' :
  listen_ok s -> closer s <> NotClosed -> internal a = true -> act a s = Some s' ->
  (rank s' < rank s)%nat /\ closer s' <> NotClosed.
Proof.
  intros Hs Hc Hi Ha.
  assert (Hcl : cl s = false) by (rewrite (ok_cl s Hs); by destruct (closer s)).
  assert (Hw : forall i p p', worker_at s i = Some p -> (worker_rank p' < worker_rank p)%nat ->
            (rank (set_worker s i p') < rank s)%nat).
  { intros i p p' E Hlt. pose proof (rank_set s i p p' E). lia. }
  assert (Hk : forall c d l o k, (close_rank k < close_rank (closer s))%nat ->
            (rank (set_closing s c d l o k) < rank s)%nat).
  { intros c d l o k Hlt. unfold rank. simpl. lia. }
  destruct a as [i|i rc conn|i|i|i| | | | | | |]; simpl in Ha; try done.
  - destruct (worker_at s i) as [[]|] eqn:E; simplify_eq. rewrite Hcl. split; [|done]. apply (Hw i _ _ E). simpl. lia.
  - destruct (worker_at s i) as [[]|] eqn:E; simplify_eq.
    destruct (acceptOnce rc conn); simplify_eq; (split; [|done]); rewrite ?rank_conns; apply (Hw i _ _ E); simpl; lia.
  - destruct (worker_at s i) as [[]|] eqn:E; simplify_eq. rewrite Hcl. split; [|done]. apply (Hw i _ _ E). simpl. lia.
  - destruct (worker_at s i) as [[| | |c|]|] eqn:E; simplify_eq. case_match; simplify_eq. split; [|done].
    rewrite rank_conns. apply (Hw i _ _ E). simpl. lia.
  - destruct (worker_at s i) as [[| | |c|]|] eqn:E; simplify_eq. case_match; simplify_eq. split; [|done].
    rewrite rank_conns. apply (Hw i _ _ E). simpl. lia.
  - destruct (closer s) eqn:Ec; simplify_eq. case_match; simplify_eq. split; [|done]. apply Hk. simpl. lia.
  - destruct (closer s) eqn:Ec; simplify_eq. split; [|done]. apply Hk. simpl. lia.
  - destruct (closer s) eqn:Ec; simplify_eq. split; [|done]. apply Hk. simpl. lia.
Qed.

(** Until Close has returned, some worker or Close can take a step. *)
Lemma internal_enabled s :
  listen_ok s -> closer s <> NotClosed -> closer s <> Closed ->
  exists a, internal a = true /\ is_Some (act a s).
Proof.
  intros Hs Hn Hc.
  assert (Hd : done_closed s = true) by (rewrite (ok_done s Hs); by destruct (closer s)).
  destruct (forallb gone (workers s)) eqn:Eg.
  - destruct (closer s) eqn:Ec; try done.
    + exists AWait. simpl. rewrite Ec. fold gone. rewrite Eg. done.
    + exists AFree. simpl. by rewrite Ec.
    + exists ACloseOut. simpl. by rewrite Ec.
  - apply forallb_not in Eg as Hex.
    destruct Hex as (i & p & Hi & Hp). change (worker_at s i = Some p) in Hi. destruct p; try done.
    + exists (ALook i). simpl. by rewrite Hi.
    + exists (AReturn i EAGAIN false). simpl. by rewrite Hi.
    + exists (ACheck i). simpl. by rewrite Hi.
    + exists (AGiveUp i). simpl. by rewrite Hi, Hd.
Qed.

(** C20: once Close has been called it comes to its end, whatever go_rdma_accept returns to
    the workers and whether or not anybody takes connections from the channel: every step
    of a worker or of Close brings the end nearer by a measure of at most three steps per
    worker, and when no such step is left Close has returned, every worker is gone and
    the C listener has been freed. *)
Theorem close_terminates network address opts listen s0 s l s' :
  newVerbsMessageListener network address opts listen = Ok s0 -> reaches s0 s -> closer s <> NotClosed ->
  run l s = Some s' -> forallb internal l = true ->
  (length l <= rank s)%nat /\ (rank s <= 3 * length (workers s) + 3)%nat /\
  ((forall a, internal a = true -> act a s' = None) ->
   closer s' = Closed /\ c_listener s' = false /\ forallb gone (workers s') = true).
Proof.
  intros H0 Hr Hc Hrun Hl. apply new_ok in H0. pose proof (reaches_ok s0 s H0 Hr) as Hs. clear H0 Hr.
  pose proof (run_bounded act listen_ok act_ok internal rank (fun s => closer s <> NotClosed)
    internal_ranks l s s' Hs Hc Hl Hrun) as Hlen.
  destruct Hlen as (Hlen & Hs' & Hc'). split_and!; [lia| |].
  - unfold rank. pose proof (sum_list_bound worker_rank (workers s) 3 ltac:(by intros []; simpl; lia)) as Hsum.
    destruct (closer s); simpl; try done; lia.
  - intros Hend. destruct (decide (closer s' = Closed)) as [Ec|Ec].
    + split_and!; [done|by rewrite (ok_freed s' Hs'), Ec|]. apply (ok_gone s' Hs'). by rewrite Ec.
    + destruct (internal_enabled s' Hs' Hc' Ec) as (a & Ha & s2 & E). rewrite Hend in E; done.
Qed.

(** *** One worker keeps the order *)

Definition in_line (s : listening) (p : worker) : list Z := delivered s ++ acceptOut s ++ offer_of p.

Record fifo (s : listening) (p : worker) : Prop := {
  fifo_one : workers s = [p];
  fifo_sorted : StronglySorted Z.lt (in_line s p);
  fifo_below : Forall (fun c => c < accepted s) (in_line s p);
}.

Lemma one_worker s p i q : workers s = [p] -> worker_at s i = Some q -> i = 0%nat /\ q = p.
Proof. unfold worker_at. intros -> Hi. destruct i as [|[]]; by simplify_eq/=. Qed.

Lemma sorted_snoc (l : list Z) n : StronglySorted Z.lt l -> Forall (fun c => c < n) l -> StronglySorted Z.lt (l ++ [n]).
Proof.
  induction l as [|c l IH]; simpl; intros HS HF; [by repeat constructor|].
  apply StronglySorted_inv in HS as [HS Hc]. apply Forall_cons in HF as [Hlt HF].
  constructor; [by apply IH|]. apply Forall_app. by split; [|constructor].
Qed.

Lemma sorted_prefix (l1 l2 : list Z) : StronglySorted Z.lt (l1 ++ l2) -> StronglySorted Z.lt l1.
Proof.
  induction l1 as [|c l1 IH]; simpl; intros HS; [constructor|].
  apply StronglySorted_inv in HS as [HS Hc]. apply Forall_app in Hc as [Hc _]. constructor; auto.
Qed.

(** The same connections, of a state with one worker. *)
Lemma fifo_same s s' p p' :
  fifo s p -> workers s' = [p'] -> in_line s' p' = in_line s p -> accepted s' = accepted s -> fifo s' p'.
Proof. intros [H1 H2 H3] E1 E2 E3. split; [done|by rewrite E2|by rewrite E2, E3]. Qed.

Lemma act_fifo a s s' p : fifo s p -> act a s = Some s' -> exists p', fifo s' p'.
Proof.
  intros Hf Ha. pose proof (fifo_one s p Hf) as H1.
  assert (Hquiet : forall i q q', worker_at s i = Some q -> offer_of q = [] -> offer_of q' = [] ->
            exists p', fifo (set_worker s i q') p').
  { intros i q q' Hi E1 E2. destruct (one_worker s p i q H1 Hi) as [-> ->]. exists q'.
    apply (fifo_same s _ p); [done|simpl; by rewrite H1| |done]. unfold in_line. simpl. by rewrite E1, E2. }
  destruct a as [i|i rc conn|i|i|i| | | | | | |]; simpl in Ha.
  - destruct (worker_at s i) as [[]|] eqn:Hi; simplify_eq. apply (Hquiet i WTop); [done|done|by destruct (cl s)].
  - destruct (worker_at s i) as [[]|] eqn:Hi; simplify_eq.
    destruct (acceptOnce rc conn); simplify_eq; try by eapply Hquiet.
    destruct (one_worker s p i _ H1 Hi) as [-> <-]. exists (WOffer (accepted s)).
    destruct Hf as [_ H2 H3]. unfold in_line in *. simpl in H2, H3. rewrite app_nil_r in H2, H3.
    split; simpl; [by rewrite H1|unfold in_line; simpl; rewrite app_assoc; by apply sorted_snoc|].
    unfold in_line. simpl. rewrite app_assoc. apply Forall_app. split; [|by constructor; [lia|]].
    eapply Forall_impl; [exact H3|]. simpl. lia.
  - destruct (worker_at s i) as [[]|] eqn:Hi; simplify_eq. apply (Hquiet i WCheck); [done|done|by destruct (cl s)].
  - destruct (worker_at s i) as [[| | |c|]|] eqn:Hi; simplify_eq. case_match; simplify_eq.
    destruct (one_worker s p i _ H1 Hi) as [-> <-]. exists WTop.
    apply (fifo_same s _ (WOffer c)); [done|simpl; by rewrite H1| |done]. unfold in_line. simpl. by rewrite app_nil_r.
  - destruct (worker_at s i) as [[| | |c|]|] eqn:Hi; simplify_eq. case_match; simplify_eq.
    destruct (one_worker s p i _ H1 Hi) as [-> <-]. exists WGone.
    destruct Hf as [_ H2 H3]. unfold in_line in *. rewrite app_assoc in H2, H3.
    split; simpl; [by rewrite H1|unfold in_line; simpl; rewrite app_nil_r; by eapply sorted_prefix|].
    unfold in_line. simpl. rewrite app_nil_r. by apply Forall_app in H3 as [H3 _].
  - destruct (closer s); simplify_eq. exists p. by apply (fifo_same s _ p).
  - destruct (closer s); simplify_eq. case_match; simplify_eq. exists p. by apply (fifo_same s _ p).
  - destruct (closer s); simplify_eq. exists p. by apply (fifo_same s _ p).
  - destruct (closer s); simplify_eq. exists p. by apply (fifo_same s _ p).
  - destruct (acceptOut s) as [|c out] eqn:Eo; simplify_eq. exists p. apply (fifo_same s _ p); [done..| |done].
    unfold in_line. simpl. by rewrite Eo, <- app_assoc.
  - destruct (done_closed s); simplify_eq. by exists p.
  - destruct (acceptOut s), (out_closed s); simplify_eq. by exists p.
Qed.

(** With one accept worker, the default, AcceptMessage returns connections in the order
    in which they were accepted (the numbers of the delivered connections increase),
    whatever else happens and although some may be closed instead of delivered. *)
Theorem accepted_in_order network address opts listen s0 s :
  AcceptWorkers opts <= 1 ->
  newVerbsMessageListener network address opts listen = Ok s0 -> reaches s0 s ->
  StronglySorted Z.lt (delivered s ++ acceptOut s).
Proof.
  intros Hw (conf & Hc & ->)%new_start Hr. apply conf_workers in Hc as (_ & _ & Hone).
  assert (Hf : exists p, fifo s p).
  { induction Hr as [|s a s' Hr (p & IH) Ha]; [|by eapply act_fifo]. exists WTop.
    split; [simpl; by rewrite (Hone Hw)|constructor|constructor]. }
  destruct Hf as (p & Hf). pose proof (fifo_sorted s p Hf) as Hs. unfold in_line in Hs. rewrite app_assoc in Hs. by eapply sorted_prefix.
Qed.

(** *** What go_rdma_listen is asked for *)

(** Options that newVerbsMessageListener accepts, of sizes that fit the C types, pass
    go_rdma_listen's own checks: a positive frame size, queue depths and backlog (the
    defaults for zero), at least one worker and a queue of four connections per worker. *)
Theorem listen_conf_accepted network address opts conf cfg :
  listen_conf network address opts = Ok conf -> normalize (lo_VerbsOptions opts) = Ok cfg ->
  fits_u32 (framePayloadSize cfg) -> fits_u32 (sendQueueDepth cfg) -> fits_u32 (recvQueueDepth cfg) ->
  Backlog opts < 2 ^ 31 ->
  let q := la_params (lc_args conf) in
  q_frame_cap q = framePayloadSize cfg /\ q_send_wr q = sendQueueDepth cfg /\ q_recv_wr q = recvQueueDepth cfg /\
  q_frame_cap q <> 0 /\ q_send_wr q <> 0 /\ q_recv_wr q <> 0 /\
  0 < la_backlog (lc_args conf) /\ (0 < Backlog opts -> la_backlog (lc_args conf) = Backlog opts) /\
  1 <= lc_acceptWorkers conf /\ 4 <= lc_queue conf.
Proof.
  intros Hc Hn F1 F2 F3 Hb. cbv zeta. apply conf_workers in Hc as Hw.
  destruct (normalized_cfg _ _ Hn) as (P1 & P2 & P3 & _). revert Hc. unfold listen_conf. rewrite Hn.
  destruct (splitHostPortListenAddress network address) as [[host port]|]; [|done].
  destruct (_ <=? 0); [done|].
  destruct (Z.ltb_spec (if Backlog opts =? 0 then DefaultVerbsListenBacklog else Backlog opts) 0) as [?|Hlt]; [done|].
  intros [= <-]. simpl in *. rewrite !u32_fits by done.
  destruct (Z.eqb_spec (Backlog opts) 0); [|rewrite i32_id by lia; split_and!; lia].
  replace (i32 DefaultVerbsListenBacklog) with 512 by done. split_and!; lia.
Qed.

(** ** Runs *)

Definition sample_listen : VerbsListenerOptions :=
  {| lo_VerbsOptions := default_opts; Backlog := 0; AcceptWorkers := 0 |}.
Definition listen_succeeds (_ : listen_args) : Z * bool * option string := (0, true, None).
Definition sample_conf : listener_conf :=
  match listen_conf "tcp" ":7471" sample_listen with
  | Ok c => c
  | Err _ => {| lc_args := {| la_host := None; la_port := ""; la_params := small_params; la_backlog := 0 |};
                lc_framePayloadSize := 0; lc_inlineThreshold := 0; lc_localAddr := "";
                lc_acceptWorkers := 0; lc_queue := 0 |}
  end.

Lemma sample_started : newVerbsMessageListener "tcp" ":7471" sample_listen listen_succeeds = Ok (start sample_conf).
Proof. by vm_compute. Qed.

(** The worker accepts a connection and queues it. *)
Definition accept_one : list action := [ALook 0; AReturn 0 0 true; AOffer 0].
Definition close_all : list action := [AClose; ACheck 0; AWait; AFree; ACloseOut].

#[local] Abbreviation after := (after_by act (start sample_conf)).

(** Two accepted, one of them delivered; the worker waits for the next while Close begins. *)
Definition busy : list action := accept_one ++ accept_one ++ [ATake; ALook 0; AClose].

Lemma listener_is_safe_witness :
  let s := after (busy ++ [AReturn 0 0 true; AGiveUp 0; AWait; AFree; ACloseOut]) in
  delivered s = [0] /\ acceptOut s = [1] /\ conn_closed s = [2] /\
  (c_listener s = false -> forall i p, worker_at s i = Some p -> p = WGone) /\
  (out_closed s = true -> forall i p, worker_at s i = Some p -> p = WGone) /\
  seqZ 0 (accepted s) ≡ₚ offered s ++ acceptOut s ++ delivered s ++ conn_closed s /\
  NoDup (offered s ++ acceptOut s ++ delivered s ++ conn_closed s) /\
  blen (acceptOut s) <= capacity s.
Proof.
  split; [by vm_compute|]. split; [by vm_compute|]. split; [by vm_compute|].
  apply (listener_is_safe "tcp" ":7471" sample_listen listen_succeeds (start sample_conf));
    [apply sample_started|apply after_reaches; by vm_compute].
Defined.

Lemma close_terminates_witness :
  let s := after busy in
  let l := [AReturn 0 104 false; ACheck 0; AWait; AFree; ACloseOut] in
  let s' := after (busy ++ l) in
  (length l <= rank s)%nat /\ (rank s <= 3 * length (workers s) + 3)%nat /\
  ((forall a, internal a = true -> act a s' = None) ->
   closer s' = Closed /\ c_listener s' = false /\ forallb gone (workers s') = true).
Proof.
  apply (close_terminates "tcp" ":7471" sample_listen listen_succeeds (start sample_conf));
    [apply sample_started|apply after_reaches; by vm_compute|by vm_compute|by vm_compute|done].
Defined.

Lemma accepted_in_order_witness :
  delivered (after busy) ++ acceptOut (after busy) = [0; 1] /\
  StronglySorted Z.lt (delivered (after busy) ++ acceptOut (after busy)).
Proof.
  split; [by vm_compute|].
  apply (accepted_in_order "tcp" ":7471" sample_listen listen_succeeds (start sample_conf));
    [done|apply sample_started|apply after_reaches; by vm_compute].
Defined.

Lemma listen_conf_accepted_witness :
  let q := la_params (lc_args sample_conf) in
  let cfg := cfg_of default_opts in
  q_frame_cap q = framePayloadSize cfg /\ q_send_wr q = sendQueueDepth cfg /\ q_recv_wr q = recvQueueDepth cfg /\
  q_frame_cap q <> 0 /\ q_send_wr q <> 0 /\ q_recv_wr q <> 0 /\
  0 < la_backlog (lc_args sample_conf) /\
  (0 < Backlog sample_listen -> la_backlog (lc_args sample_conf) = Backlog sample_listen) /\
  1 <= lc_acceptWorkers sample_conf /\ 4 <= lc_queue sample_conf.
Proof.
  apply (listen_conf_accepted "tcp" ":7471" sample_listen sample_conf (cfg_of default_opts));
    solve [by vm_compute|split; by vm_compute].
Defined.

(** After Close nothing closes a connection any more. *)
Lemma closed_stays s a s' :
  listen_ok s -> closer s = Closed -> act a s = Some s' -> closer s' = Closed /\ conn_closed s' = conn_closed s.
Proof.
  intros Hs Hc Ha.
  assert (Hg : forall i p, worker_at s i = Some p -> p = WGone).
  { intros i p. apply gone_at. apply (ok_gone s Hs). by rewrite Hc. }
  destruct a as [i|i rc conn|i|i|i| | | | | | |]; simpl in Ha.
  1-5: destruct (worker_at s i) as [p|] eqn:Hi; [|done]; rewrite (Hg i p Hi) in Ha; done.
  1-4: by rewrite Hc in Ha.
  - destruct (acceptOut s); by simplify_eq.
  - destruct (done_closed s); by simplify_eq.
  - destruct (acceptOut s), (out_closed s); by simplify_eq.
Qed.

(** A connection that is still queued when the listener is closed is lost: Close does
    not close it, nor does anything after it, and AcceptMessage may refuse its callers
    since done is closed.  In this run one connection has been accepted and queued and
    Close has returned; in every state that can follow no connection has been closed. *)
Theorem close_abandons_queue :
  let s := after (accept_one ++ [ALook 0; AReturn 0 EAGAIN false] ++ close_all) in
  closer s = Closed /\ accepted s = 1 /\ acceptOut s = [0] /\ delivered s = [] /\
  act ARefuse s = Some s /\
  forall s', reaches s s' -> conn_closed s' = [].
Proof.
  cbv zeta. set (s := after _). split_and!; try by vm_compute.
  assert (Hs : listen_ok s).
  { apply (reaches_ok (start sample_conf)); [by apply start_ok|]. apply after_reaches. by vm_compute. }
  intros s' Hr.
  assert (Hall : listen_ok s' /\ closer s' = Closed /\ conn_closed s' = conn_closed s).
  { induction Hr as [|s1 a s2 Hr (IH1 & IH2 & IH3) Ha]; [by vm_compute in Hs |- *; split_and!|].
    destruct (closed_stays s1 a s2 IH1 IH2 Ha). split_and!; [by eapply act_ok|done|congruence]. }
  destruct Hall as (_ & _ & ->). by vm_compute.
Qed.
