(* ===== verification/App.v ===== *)
(** * The two servers' processes (internal/inmems3/app/app.go, internal/s3rdmaserver/app/app.go)

    Their configurations, what Validate accepts, and Run: preloading the store, opening the
    listeners, serving until a signal or a listener's failure, shutting down.  The process
    is a computation over the listeners it has open; what the system answers is the class
    [AppHost].  [InmemApp] is the in-memory benchmark server, [S3App] the standalone one. *)

From S2P Require Import Prelude StoreIface FileTree Loader ZcopyServer VerbsConfig VerbsConn VerbsListen.
From S2P Require MemStore LoadedStore.

(** What a configuration is refused for, by the name of its flag. *)
Inductive ConfigErr :=
| NoDataListener
| EmptyRegion
| EmptyZcopyListen
| NegativeFlag (flag : string)
| NotPositiveFlag (flag : string)
| BadEvictPolicy (e : MemStore.StoreErr).

(** [if v < 0 { return fmt.Errorf(...) }] for each of these flags, in order. *)
Fixpoint first_negative (l : list (string * Z)) : option ConfigErr :=
  match l with
  | [] => None
  | (flag, v) :: l' => if v <? 0 then Some (NegativeFlag flag) else first_negative l'
  end.

Fixpoint first_not_positive (l : list (string * Z)) : option ConfigErr :=
  match l with
  | [] => None
  | (flag, v) :: l' => if v <=? 0 then Some (NotPositiveFlag flag) else first_not_positive l'
  end.

(** ** The process *)

Inductive lkind := TcpLn | ZcopyLn | ControlLn.

#[export] Instance lkind_eq_dec : EqDecision lkind.
Proof. solve_decision. Defined.

Inductive AppErr :=
| AErrConfig (e : ConfigErr)
| AErrPreload (root : string) (e : LoadErr)
| AErrListen (k : lkind) (addr : string)
| AErrNoListener
| AErrServe (k : lkind)
| AErrShutdown (k : lkind).

Inductive stop := StopSignal | StopServe (k : lkind).

(** [app_next]: what ends the select, given the listeners that are being served; the errors
    of [app_close] and [app_shutdown] are those that are not net.ErrClosed. *)
Class AppHost (W : Type) := {
  app_fs : W -> string -> res OsErr node;
  app_now : W -> Z -> Time;
  app_listen_tcp : string -> W -> bool * W;
  app_listen_verbs : string -> VerbsListenerOptions -> W -> bool * W;
  app_next : list lkind -> W -> stop * W;
  app_close : W -> bool * W;        (* [true]: zcopySrv.Close failed *)
  app_shutdown : W -> bool * W;     (* [true]: srv.Shutdown failed *)
}.

(** The listeners opened and closed so far, in order, and the stores that were served. *)
Record process (St : Type) := { opened : list lkind; shut : list lkind; served : list St }.
Arguments opened {St} p.
Arguments shut {St} p.
Arguments served {St} p.
Arguments Build_process {St} opened shut served.

Definition started {St} : process St := Build_process [] [] [].

Section process.
Context {W St : Type} `{!AppHost W}.
#[local] Abbreviation A := (M W (process St) (list AppErr)).

Definition note_open (k : lkind) : A unit :=
  modify (fun p => Build_process (opened p ++ [k]) (shut p) (served p)).
Definition note_shut (k : lkind) : A unit :=
  modify (fun p => Build_process (opened p) (shut p ++ [k]) (served p)).
Definition note_serve (s : St) : A unit :=
  modify (fun p => Build_process (opened p) (shut p) (served p ++ [s])).

(** [net.Listen("tcp", addr)], unless the address is empty. *)
Definition open_tcp (k : lkind) (addr : string) : A bool :=
  if String.eqb addr "" then ret false
  else
    let! ok := host (app_listen_tcp addr) in
    if ok then note_open k;; ret true else fail [AErrListen k addr].

(** Closing a listener; the error is kept. *)
Definition close_with (f : W -> bool * W) (k : lkind) (is_open : bool) : A (list AppErr) :=
  if is_open then
    let! failed := host f in
    note_shut k;;
    ret (if failed then [AErrShutdown k] else [])
  else ret [].

Definition wait_stop (ks : list (lkind * bool)) : A (list AppErr) :=
  let! e := host (app_next (map fst (List.filter snd ks))) in
  match e with StopSignal => ret [] | StopServe k => ret [AErrServe k] end.
End process.

(** ** internal/inmems3/app *)

Module InmemApp.

Definition defaultTCPListen : string := "127.0.0.1:10090".
Definition defaultRDMAZCopyListen : string := "127.0.0.1:10191".
Definition defaultRegion : string := "us-east-1".
Definition defaultMaxObjectSize : Z := 64 * 2 ^ 20.

Record Config := {
  TCPListen : string;
  EnableRDMAZCopy : bool;
  RDMAZCopyListen : string;
  RDMABacklog : Z;
  RDMAWorkers : Z;
  RDMALowCPU : bool;
  RDMAFramePayload : Z;
  RDMASendDepth : Z;
  RDMARecvDepth : Z;
  RDMAInline : Z;
  RDMASignalIntvl : Z;
  Region : string;
  MaxObjectSize : Z;
  StoreMaxBytes : Z;
  StoreEvictPolicy : string;
  PayloadRoot : string;
  ControlGRPCListen : string;
}.

Definition DefaultConfig : Config :=
  {| TCPListen := defaultTCPListen; EnableRDMAZCopy := false; RDMAZCopyListen := defaultRDMAZCopyListen;
     RDMABacklog := DefaultVerbsListenBacklog; RDMAWorkers := DefaultVerbsAcceptWorkers;
     RDMALowCPU := false; RDMAFramePayload := 0; RDMASendDepth := 0; RDMARecvDepth := 0;
     RDMAInline := 0; RDMASignalIntvl := 0; Region := defaultRegion;
     MaxObjectSize := defaultMaxObjectSize; StoreMaxBytes := 0;
     StoreEvictPolicy := MemStore.EvictPolicyReject; PayloadRoot := ""; ControlGRPCListen := "" |}.

Definition with_zcopy_listen (c : Config) (addr : string) : Config :=
  {| TCPListen := TCPListen c; EnableRDMAZCopy := EnableRDMAZCopy c; RDMAZCopyListen := addr;
     RDMABacklog := RDMABacklog c; RDMAWorkers := RDMAWorkers c; RDMALowCPU := RDMALowCPU c;
     RDMAFramePayload := RDMAFramePayload c; RDMASendDepth := RDMASendDepth c;
     RDMARecvDepth := RDMARecvDepth c; RDMAInline := RDMAInline c; RDMASignalIntvl := RDMASignalIntvl c;
     Region := Region c; MaxObjectSize := MaxObjectSize c; StoreMaxBytes := StoreMaxBytes c;
     StoreEvictPolicy := StoreEvictPolicy c; PayloadRoot := PayloadRoot c;
     ControlGRPCListen := ControlGRPCListen c |}.

Definition normalized (c : Config) : Config :=
  if EnableRDMAZCopy c && String.eqb (RDMAZCopyListen c) "" then
    with_zcopy_listen c (RDMAZCopyListen DefaultConfig)
  else c.

(** The flags checked for a negative value, in the order of the checks. *)
Definition signed_flags (c : Config) : list (string * Z) :=
  [("rdma-backlog", RDMABacklog c); ("rdma-accept-workers", RDMAWorkers c);
   ("rdma-frame-payload", RDMAFramePayload c); ("rdma-send-depth", RDMASendDepth c);
   ("rdma-recv-depth", RDMARecvDepth c); ("rdma-inline-threshold", RDMAInline c);
   ("rdma-send-signal-interval", RDMASignalIntvl c); ("store-max-bytes", StoreMaxBytes c)]%string.

Definition Validate (c : Config) : option ConfigErr :=
  if String.eqb (TCPListen c) "" && negb (EnableRDMAZCopy c) then Some NoDataListener
  else if String.eqb (TrimSpace (Region c)) "" then Some EmptyRegion
  else if EnableRDMAZCopy c && String.eqb (RDMAZCopyListen c) "" then Some EmptyZcopyListen
  else
    match first_negative (signed_flags c) with
    | Some e => Some e
    | None => match MemStore.ParseEvictPolicy (StoreEvictPolicy c) with
              | Err e => Some (BadEvictPolicy e)
              | Ok _ => None
              end
    end.

Definition listener_options (c : Config) : VerbsListenerOptions :=
  {| lo_VerbsOptions :=
       {| FramePayloadSize := RDMAFramePayload c; SendQueueDepth := RDMASendDepth c;
          RecvQueueDepth := RDMARecvDepth c; InlineThreshold := RDMAInline c; LowCPU := RDMALowCPU c;
          SendSignalInterval := RDMASignalIntvl c; SharedRWMemory := nil_slice |};
     Backlog := RDMABacklog c;
     AcceptWorkers := RDMAWorkers c |}.

Section run.
Context {W : Type} `{!AppHost W}.
#[local] Abbreviation A := (M W (process MemStore.MemoryStore) (list AppErr)).

Definition preload (c : Config) (s : MemStore.MemoryStore) : A MemStore.MemoryStore :=
  if String.eqb (PayloadRoot c) "" then ret s
  else
    let! fs := peek app_fs in
    let! now := peek app_now in
    match FolderLoader.AddFolder fs (fun _ => None) now (PayloadRoot c) s with
    | (_, _, Some e) => fail [AErrPreload (PayloadRoot c) e]
    | (s', _, None) => ret s'
    end.

Definition Run (cfg : Config) : A unit :=
  let cfg := normalized cfg in
  match Validate cfg, MemStore.ParseEvictPolicy (StoreEvictPolicy cfg) with
  | Some e, _ => fail [AErrConfig e]
  | None, Err e => fail [AErrConfig (BadEvictPolicy e)]
  | None, Ok evictPolicy =>
    let! memStore := preload cfg (MemStore.NewMemoryStore (StoreMaxBytes cfg) evictPolicy) in
    let! tcp := open_tcp TcpLn (TCPListen cfg) in
    let! zcopy :=
      if EnableRDMAZCopy cfg then
        let! ok := host (app_listen_verbs (RDMAZCopyListen cfg) (listener_options cfg)) in
        if ok then note_open ZcopyLn;; ret true else fail [AErrListen ZcopyLn (RDMAZCopyListen cfg)]
      else ret false in
    let! control := open_tcp ControlLn (ControlGRPCListen cfg) in
    guard (negb tcp && negb zcopy && negb control) [AErrNoListener];;
    note_serve memStore;;
    let! _ := wait_stop [(TcpLn, tcp); (ZcopyLn, zcopy); (ControlLn, control)] in
    (* The reason and the errors of the shutdown are only logged. *)
    let! _ := close_with app_close ZcopyLn zcopy in
    let! _ := close_with (fun w => (false, w)) ControlLn control in
    let! _ := close_with app_shutdown TcpLn tcp in
    ret tt
  end.
End run.
End InmemApp.

(** ** internal/s3rdmaserver/app *)

Module S3App.

Record Config := {
  Debug : bool;
  TCPListen : string;
  EnableRDMAZCopy : bool;
  RDMAZCopyListen : string;
  RDMABacklog : Z;
  RDMAWorkers : Z;
  RDMALowCPU : bool;
  RDMAFramePayload : Z;
  RDMASendDepth : Z;
  RDMARecvDepth : Z;
  RDMAInline : Z;
  RDMASignalIntvl : Z;
  RDMAControlTO : Z;
  RDMADataTO : Z;
  RDMAIdleTO : Z;
  Region : string;
  PayloadRoot : string;
  MaxObjectSize : Z;
}.

Definition normalized (c : Config) : Config :=
  {| Debug := Debug c; TCPListen := TrimSpace (TCPListen c); EnableRDMAZCopy := EnableRDMAZCopy c;
     RDMAZCopyListen := TrimSpace (RDMAZCopyListen c); RDMABacklog := RDMABacklog c;
     RDMAWorkers := RDMAWorkers c; RDMALowCPU := RDMALowCPU c; RDMAFramePayload := RDMAFramePayload c;
     RDMASendDepth := RDMASendDepth c; RDMARecvDepth := RDMARecvDepth c; RDMAInline := RDMAInline c;
     RDMASignalIntvl := RDMASignalIntvl c; RDMAControlTO := RDMAControlTO c; RDMADataTO := RDMADataTO c;
     RDMAIdleTO := RDMAIdleTO c; Region := TrimSpace (Region c); PayloadRoot := TrimSpace (PayloadRoot c);
     MaxObjectSize := MaxObjectSize c |}.

Definition signed_flags (c : Config) : list (string * Z) :=
  [("rdma-backlog", RDMABacklog c); ("rdma-accept-workers", RDMAWorkers c);
   ("rdma-frame-payload", RDMAFramePayload c); ("rdma-send-depth", RDMASendDepth c);
   ("rdma-recv-depth", RDMARecvDepth c); ("rdma-inline-threshold", RDMAInline c);
   ("rdma-send-signal-interval", RDMASignalIntvl c)]%string.

Definition timeout_flags (c : Config) : list (string * Z) :=
  [("rdma-control-timeout", RDMAControlTO c); ("rdma-data-timeout", RDMADataTO c);
   ("rdma-idle-timeout", RDMAIdleTO c)]%string.

Definition Validate (c : Config) : option ConfigErr :=
  let c := normalized c in
  if String.eqb (TCPListen c) "" && negb (EnableRDMAZCopy c) then Some NoDataListener
  else if String.eqb (Region c) "" then Some EmptyRegion
  else if EnableRDMAZCopy c && String.eqb (RDMAZCopyListen c) "" then Some EmptyZcopyListen
  else
    match first_negative (signed_flags c) with
    | Some e => Some e
    | None => if EnableRDMAZCopy c then first_not_positive (timeout_flags c) else None
    end.

Definition listener_options (c : Config) : VerbsListenerOptions :=
  {| lo_VerbsOptions :=
       {| FramePayloadSize := RDMAFramePayload c; SendQueueDepth := RDMASendDepth c;
          RecvQueueDepth := RDMARecvDepth c; InlineThreshold := RDMAInline c; LowCPU := RDMALowCPU c;
          SendSignalInterval := RDMASignalIntvl c; SharedRWMemory := nil_slice |};
     Backlog := RDMABacklog c;
     AcceptWorkers := RDMAWorkers c |}.

Definition timeouts (c : Config) : Timeouts :=
  {| t_Control := RDMAControlTO c; t_Data := RDMADataTO c; t_Idle := RDMAIdleTO c |}.

Section run.
Context {W : Type} `{!AppHost W}.
#[local] Abbreviation A := (M W (process LoadedStore.MemoryStore) (list AppErr)).

Definition preload (c : Config) (s : LoadedStore.MemoryStore) : A LoadedStore.MemoryStore :=
  if String.eqb (PayloadRoot c) "" then ret s
  else
    let! fs := peek app_fs in
    let! now := peek app_now in
    match RootLoader.LoadRoot fs now (PayloadRoot c) s with
    | (_, _, Some e) => fail [AErrPreload (PayloadRoot c) e]
    | (s', _, None) => ret s'
    end.

(** Before zcopySrv is made, all there is to close is the HTTP listener. *)
Definition cleanupSetup (http : bool) : A unit :=
  if http then note_shut TcpLn else ret tt.

(** Serving, and the shutdown. *)
Definition serve (http zcopy : bool) : A unit :=
  let! runErr := if negb http && negb zcopy then ret [AErrNoListener]
                 else wait_stop [(TcpLn, http); (ZcopyLn, zcopy)] in
  let! e1 := close_with app_close ZcopyLn zcopy in
  let! e2 := close_with app_shutdown TcpLn http in
  match runErr ++ e1 ++ e2 with
  | [] => ret tt
  | errs => fail errs
  end.

Definition Run (cfg : Config) : A unit :=
  let cfg := normalized cfg in
  match Validate cfg with
  | Some e => fail [AErrConfig e]
  | None =>
    let! memStore := preload cfg LoadedStore.NewMemoryStore in
    let! http := open_tcp TcpLn (TCPListen cfg) in
    let! zcopy :=
      if EnableRDMAZCopy cfg then
        let! ok := host (app_listen_verbs (RDMAZCopyListen cfg) (listener_options cfg)) in
        if ok then note_open ZcopyLn;; ret true
        else cleanupSetup http;; fail [AErrListen ZcopyLn (RDMAZCopyListen cfg)]
      else ret false in
    note_serve memStore;;
    serve http zcopy
  end.
End run.
End S3App.

(** ** Properties *)

Lemma first_negative_None l : first_negative l = None <-> Forall (fun x => 0 <= x.2) l.
Proof.
  induction l as [|[f v] l IH]; simpl; [by split|]. rewrite Forall_cons. simpl.
  destruct (Z.ltb_spec v 0); [split; [done|lia]|]. rewrite IH. tauto.
Qed.

Lemma first_not_positive_None l : first_not_positive l = None <-> Forall (fun x => 0 < x.2) l.
Proof.
  induction l as [|[f v] l IH]; simpl; [by split|]. rewrite Forall_cons. simpl.
  destruct (Z.leb_spec v 0); [split; [done|lia]|]. rewrite IH. tauto.
Qed.

Section rules.
Context {W St : Type} `{!AppHost W}.
#[local] Abbreviation A := (M W (process St) (list AppErr)).
Implicit Types (p : process St) (w : W).

Definition opening p k : process St := Build_process (opened p ++ [k]) (shut p) (served p).
Definition shutting p k : process St := Build_process (opened p) (shut p ++ [k]) (served p).
Definition serving_it p (s : St) : process St := Build_process (opened p) (shut p) (served p ++ [s]).

Lemma wp_open_tcp k addr (Q : outcome (list AppErr) bool -> process St -> W -> Prop) p w :
  (addr = ""%string -> Q (Ret false) p w) ->
  (addr <> ""%string -> forall w', Q (Ret true) (opening p k) w') ->
  (addr <> ""%string -> forall w', Q (Fail [AErrListen k addr]) p w') ->
  wp (open_tcp k addr : A bool) Q p w.
Proof.
  intros H1 H2 H3. unfold open_tcp. destruct (String.eqb_spec addr ""); [by apply wp_ret, H1|].
  apply wp_bind, wp_host. intros [|] w' _; cbn [seq_post]; [|by apply wp_fail, H3].
  apply wp_bind, wp_modify. cbn [seq_post]. apply wp_ret. by apply H2.
Qed.

Lemma wp_close_with f k (b : bool) (Q : outcome (list AppErr) (list AppErr) -> process St -> W -> Prop) p w :
  (forall e w', Forall (fun x => x = AErrShutdown k) e ->
     Q (Ret e) (if b then shutting p k else p) w') ->
  wp (close_with f k b : A (list AppErr)) Q p w.
Proof.
  intros HQ. unfold close_with. destruct b; [|by apply wp_ret, HQ].
  apply wp_bind, wp_host. intros e w' _. cbn [seq_post]. apply wp_bind, wp_modify. cbn [seq_post].
  apply wp_ret, HQ. destruct e; by repeat constructor.
Qed.

Lemma wp_wait_stop ks (Q : outcome (list AppErr) (list AppErr) -> process St -> W -> Prop) p w :
  (forall st w', app_next (map fst (List.filter snd ks)) w = (st, w') ->
     Q (Ret (match st with StopSignal => [] | StopServe k => [AErrServe k] end)) p w') ->
  wp (wait_stop ks : A (list AppErr)) Q p w.
Proof.
  intros HQ. unfold wait_stop. apply wp_bind, wp_host. intros st w' E. cbn [seq_post].
  destruct st; apply wp_ret; by apply (HQ _ _ E).
Qed.
End rules.

(** *** What the system has answered

    A host that keeps a record: it answers as the host below it does.  A computation over
    it is the computation over that host ([forgets]), and tells in the end what it was
    answered. *)

Inductive answer :=
| AnsTCP (addr : string) (ok : bool)
| AnsVerbs (addr : string) (ok : bool)
| AnsNext (ks : list lkind) (st : stop)
| AnsClose (failed : bool)
| AnsShutdown (failed : bool).

Record recording (W : Type) := { sys : W; heard : list answer }.
Arguments sys {W} r.
Arguments heard {W} r.
Arguments Build_recording {W} sys heard.

(** The errors the answers amount to, in order. *)
Definition failure (a : answer) : list AppErr :=
  match a with
  | AnsTCP addr false => [AErrListen TcpLn addr]
  | AnsVerbs addr false => [AErrListen ZcopyLn addr]
  | AnsNext _ (StopServe k) => [AErrServe k]
  | AnsClose true => [AErrShutdown ZcopyLn]
  | AnsShutdown true => [AErrShutdown TcpLn]
  | _ => []
  end.
Definition failures (l : list answer) : list AppErr := concat (failure <$> l).

(** The listeners that were opened. *)
Definition listening (l : list answer) : list lkind :=
  concat ((fun a => match a with AnsTCP _ true => [TcpLn] | AnsVerbs _ true => [ZcopyLn] | _ => [] end) <$> l).

(** [errors.Join]: nil when there is nothing to join. *)
Definition joined (errs : list AppErr) : outcome (list AppErr) unit :=
  match errs with [] => Ret tt | _ => Fail errs end.

Lemma failures_app l1 l2 : failures (l1 ++ l2) = failures l1 ++ failures l2.
Proof. unfold failures. by rewrite fmap_app, concat_app. Qed.
Lemma listening_app l1 l2 : listening (l1 ++ l2) = listening l1 ++ listening l2.
Proof. unfold listening. by rewrite fmap_app, concat_app. Qed.

Section recorder.
Context {W : Type} `{!AppHost W}.

Definition record {A} (note : A -> answer) (f : W -> A * W) (x : recording W) : A * recording W :=
  let '(a, w) := f (sys x) in (a, Build_recording w (heard x ++ [note a])).

#[export] Instance recorder : AppHost (recording W) := {|
  app_fs x := app_fs (sys x);
  app_now x := app_now (sys x);
  app_listen_tcp addr := record (AnsTCP addr) (app_listen_tcp addr);
  app_listen_verbs addr o := record (AnsVerbs addr) (app_listen_verbs addr o);
  app_next ks := record (AnsNext ks) (app_next ks);
  app_close := record AnsClose app_close;
  app_shutdown := record AnsShutdown app_shutdown;
|}.

Definition unheard (w : W) : recording W := Build_recording w [].

(** The same computation, with and without the record. *)
Definition forgets {S E A} (m' : M (recording W) S E A) (m : M W S E A) : Prop :=
  forall s x, m s (sys x) = (let '(o, s', x') := m' s x in (o, s', sys x')).

Lemma forgets_ret {S E A} (a : A) : forgets (ret a : M _ S E A) (ret a).
Proof. done. Qed.
Lemma forgets_fail {S E A} (e : E) : forgets (fail e : M _ S E A) (fail e).
Proof. done. Qed.
Lemma forgets_modify {S E} (f : S -> S) : forgets (modify f : M _ S E unit) (modify f).
Proof. done. Qed.
Lemma forgets_peek {S E A} (f' : recording W -> A) (f : W -> A) :
  (forall x, f' x = f (sys x)) -> forgets (peek f' : M _ S E A) (peek f).
Proof. intros Hf s x. unfold peek. by rewrite Hf. Qed.
Lemma forgets_host {S E A} note (f : W -> A * W) : forgets (host (record note f) : M _ S E A) (host f).
Proof. intros s x. unfold host, record. by destruct (f (sys x)). Qed.
Lemma forgets_bind {S E A B} (m' : M _ S E A) m (k' : A -> M _ S E B) k :
  forgets m' m -> (forall a, forgets (k' a) (k a)) -> forgets (bind m' k') (bind m k).
Proof.
  intros Hm Hk s x. unfold bind. rewrite Hm. destruct (m' s x) as [[[a|e| |] s'] x']; [apply Hk|done..].
Qed.

Create HintDb forget.
#[local] Hint Resolve forgets_ret forgets_fail forgets_modify forgets_host forgets_bind : forget.

Lemma open_tcp_forgets {St} k addr :
  forgets (open_tcp k addr : M _ (process St) (list AppErr) bool) (open_tcp k addr).
Proof.
  unfold open_tcp, note_open. case_match; [apply forgets_ret|]. apply forgets_bind; [apply forgets_host|].
  intros [|]; eauto with forget.
Qed.
Lemma close_with_forgets {St} note f k b :
  forgets (close_with (record note f) k b : M _ (process St) (list AppErr) (list AppErr)) (close_with f k b).
Proof. unfold close_with, note_shut. destruct b; eauto with forget. Qed.
Lemma wait_stop_forgets {St} ks :
  forgets (wait_stop ks : M _ (process St) (list AppErr) (list AppErr)) (wait_stop ks).
Proof.
  unfold wait_stop. apply forgets_bind; [apply forgets_host|]. intros [|k]; apply forgets_ret.
Qed.

Lemma wp_record {S E A} note (f : W -> A * W) (Q : outcome E A -> S -> recording W -> Prop) s x :
  (forall a w', Q (Ret a) s (Build_recording w' (heard x ++ [note a]))) -> wp (host (record note f)) Q s x.
Proof. intros HQ. unfold wp, host, record. destruct (f (sys x)). apply HQ. Qed.

(** Waiting and closing return the failures they have heard of, and open nothing. *)
Lemma wp_wait_heard {St} ks (Q : outcome (list AppErr) (list AppErr) -> process St -> recording W -> Prop) p x :
  (forall st w', let log := [AnsNext (map fst (List.filter snd ks)) st] in
     Q (Ret (failures log)) p (Build_recording w' (heard x ++ log : list answer))) ->
  wp (wait_stop ks : M (recording W) (process St) (list AppErr) _) Q p x.
Proof.
  intros HQ. unfold wait_stop. apply wp_bind, wp_record. intros st w'. cbn [seq_post].
  specialize (HQ st w'). unfold failures in HQ. simpl in HQ. rewrite app_nil_r in HQ.
  destruct st; by apply wp_ret.
Qed.

Lemma wp_close_heard {St} (note : bool -> answer) f k (b : bool)
    (Q : outcome (list AppErr) (list AppErr) -> process St -> recording W -> Prop) p x :
  (forall n, failure (note n) = if n then [AErrShutdown k] else []) -> (forall n, listening [note n] = []) ->
  (forall log w', listening log = [] ->
     Q (Ret (failures log)) (if b then shutting p k else p) (Build_recording w' (heard x ++ log))) ->
  wp (close_with (record note f) k b : M (recording W) (process St) (list AppErr) _) Q p x.
Proof.
  intros Hf Hl HQ. unfold close_with. destruct b.
  2: { apply wp_ret. specialize (HQ [] (sys x) eq_refl). rewrite app_nil_r in HQ. by destruct x. }
  apply wp_bind, wp_record. intros n w'. cbn [seq_post]. apply wp_bind, wp_modify. cbn [seq_post]. apply wp_ret.
  specialize (HQ [note n] w' (Hl n)). unfold failures in HQ. simpl in HQ. rewrite app_nil_r, Hf in HQ. exact HQ.
Qed.

Lemma wp_joined {St} errs (Q : outcome (list AppErr) unit -> process St -> recording W -> Prop) p x :
  Q (joined errs) p x ->
  wp (match errs with [] => ret tt | e :: l => fail (e :: l) end : M (recording W) (process St) (list AppErr) unit) Q p x.
Proof. destruct errs; [apply wp_ret|apply wp_fail]. Qed.

Lemma wp_open_heard {St} addr (Q : outcome (list AppErr) bool -> process St -> recording W -> Prop) p x :
  (addr = ""%string -> Q (Ret false) p x) ->
  (addr <> ""%string -> forall w', Q (Ret true) (opening p TcpLn) (Build_recording w' (heard x ++ [AnsTCP addr true]))) ->
  (addr <> ""%string -> forall w', Q (Fail [AErrListen TcpLn addr]) p (Build_recording w' (heard x ++ [AnsTCP addr false]))) ->
  wp (open_tcp TcpLn addr : M (recording W) (process St) (list AppErr) bool) Q p x.
Proof.
  intros H1 H2 H3. unfold open_tcp. destruct (String.eqb_spec addr ""); [by apply wp_ret, H1|].
  apply wp_bind, wp_record. intros [|] w'; cbn [seq_post]; [|by apply wp_fail, H3].
  apply wp_bind, wp_modify. cbn [seq_post]. apply wp_ret. by apply H2.
Qed.
End recorder.

(** The options a configuration gives the RDMA listener are refused only for its address. *)
Lemma listener_options_normalize o :
  0 <= FramePayloadSize (lo_VerbsOptions o) -> 0 <= SendQueueDepth (lo_VerbsOptions o) ->
  0 <= RecvQueueDepth (lo_VerbsOptions o) -> 0 <= InlineThreshold (lo_VerbsOptions o) ->
  0 <= SendSignalInterval (lo_VerbsOptions o) -> SharedRWMemory (lo_VerbsOptions o) = nil_slice ->
  0 <= Backlog o ->
  forall network address host port, splitHostPortListenAddress network address = Ok (host, port) ->
  exists conf, listen_conf network address o = Ok conf.
Proof.
  intros H1 H2 H3 H4 H5 H6 H7 network address host port E. unfold listen_conf.
  pose proof (normalize_valid (lo_VerbsOptions o)) as HN.
  destruct (normalize (lo_VerbsOptions o)) as [cfg|e].
  - rewrite E. destruct HN as [(Hf & _) _]. destruct (Z.leb_spec (framePayloadSize cfg) 0); [lia|].
    destruct (Z.ltb_spec (if Backlog o =? 0 then DefaultVerbsListenBacklog else Backlog o) 0); [|by eexists].
    exfalso. destruct (Z.eqb_spec (Backlog o) 0); [done|lia].
  - exfalso. unfold opts_refused in HN. rewrite H6 in HN. simpl in HN. lia.
Qed.

(** *** The standalone server *)

Module S3Facts.
Import S3App.

Lemma Validate_normalized c : Validate (normalized c) = Validate c.
Proof.
  assert (E : normalized (normalized c) = normalized c).
  { unfold normalized. simpl. by rewrite !TrimSpace_idem. }
  unfold Validate. by rewrite E.
Qed.

Lemma validate_cases c :
  Validate c = None <->
  ((TrimSpace (TCPListen c) <> EmptyString \/ EnableRDMAZCopy c = true) /\
   TrimSpace (Region c) <> EmptyString /\
   0 <= RDMABacklog c /\ 0 <= RDMAWorkers c /\ 0 <= RDMAFramePayload c /\ 0 <= RDMASendDepth c /\
   0 <= RDMARecvDepth c /\ 0 <= RDMAInline c /\ 0 <= RDMASignalIntvl c /\
   (EnableRDMAZCopy c = true ->
    TrimSpace (RDMAZCopyListen c) <> EmptyString /\
    0 < RDMAControlTO c /\ 0 < RDMADataTO c /\ 0 < RDMAIdleTO c)).
Proof.
  unfold Validate. cbv zeta. simpl (TCPListen _). simpl (Region _). simpl (RDMAZCopyListen _).
  change (EnableRDMAZCopy (normalized c)) with (EnableRDMAZCopy c).
  change (signed_flags (normalized c)) with (signed_flags c).
  change (timeout_flags (normalized c)) with (timeout_flags c).
  set (t := TrimSpace (TCPListen c)). set (r := TrimSpace (Region c)). set (z := TrimSpace (RDMAZCopyListen c)).
  clearbody t r z.
  pose proof (first_negative_None (signed_flags c)) as Hn.
  pose proof (first_not_positive_None (timeout_flags c)) as Hp.
  unfold signed_flags in Hn at 2. unfold timeout_flags in Hp at 2.
  rewrite !Forall_cons, Forall_nil_iff in Hn. rewrite !Forall_cons, Forall_nil_iff in Hp. simpl (_.2) in *.
  destruct (first_negative (signed_flags c)) as [e1|], (first_not_positive (timeout_flags c)) as [e2|];
    destruct (String.eqb_spec t ""), (EnableRDMAZCopy c), (String.eqb_spec r ""), (String.eqb_spec z ""); simpl;
    intuition (congruence || done).
Qed.

(** The standalone server's Validate accepts exactly the configurations with a data
    listener (an address that is more than white space when it is needed), a region, no
    negative sizing flag and, for RDMA, three positive timeouts. *)
Theorem s3_validate_exact c :
  Validate c = None <->
  ((TrimSpace (TCPListen c) <> EmptyString \/ EnableRDMAZCopy c = true) /\
   TrimSpace (Region c) <> EmptyString /\
   0 <= RDMABacklog c /\ 0 <= RDMAWorkers c /\ 0 <= RDMAFramePayload c /\ 0 <= RDMASendDepth c /\
   0 <= RDMARecvDepth c /\ 0 <= RDMAInline c /\ 0 <= RDMASignalIntvl c /\
   (EnableRDMAZCopy c = true ->
    TrimSpace (RDMAZCopyListen c) <> EmptyString /\
    0 < RDMAControlTO c /\ 0 < RDMADataTO c /\ 0 < RDMAIdleTO c)).
Proof. apply validate_cases. Qed.

(** What Validate accepts the components accept: for a configuration that passes it
    newVerbsMessageListener fails only for its address or in go_rdma_listen, not for an
    option, and the service uses the timeouts as they are given instead of its defaults. *)
Theorem s3_validated_options c host port :
  Validate c = None -> EnableRDMAZCopy c = true ->
  let c' := normalized c in
  splitHostPortListenAddress "rdma" (RDMAZCopyListen c') = Ok (host, port) ->
  (exists conf, listen_conf "rdma" (RDMAZCopyListen c') (listener_options c') = Ok conf) /\
  ZcopyServer.normalized (timeouts c') = timeouts c'.
Proof.
  intros Hv He. cbv zeta. intros Ha. apply validate_cases in Hv as (_ & _ & ? & ? & ? & ? & ? & ? & ? & Hz).
  destruct (Hz He) as (_ & ? & ? & ?). split.
  - by apply (listener_options_normalize _) with host port.
  - unfold ZcopyServer.normalized, timeouts, normalized. simpl.
    destruct (Z.leb_spec (RDMAControlTO c) 0); [lia|]. destruct (Z.leb_spec (RDMADataTO c) 0); [lia|].
    destruct (Z.leb_spec (RDMAIdleTO c) 0); [lia|]. done.
Qed.

Section run_facts.
Context {W : Type} `{!AppHost W}.
Implicit Types (w : W).

(** The store [s] is what the payload root of [c] was loaded into. *)
Definition preloaded (fs : string -> res OsErr node) (now : Z -> Time) (c : Config) (s : LoadedStore.MemoryStore) : Prop :=
  if String.eqb (TrimSpace (PayloadRoot c)) "" then s = LoadedStore.NewMemoryStore
  else exists r, RootLoader.LoadRoot fs now (TrimSpace (PayloadRoot c)) LoadedStore.NewMemoryStore = (s, r, None).

(** The record changes nothing. *)
Lemma Run_forgets cfg : forgets (Run (W := recording W) cfg) (Run cfg).
Proof.
  unfold Run. cbv zeta. destruct (Validate _); [apply forgets_fail|].
  apply forgets_bind.
  { unfold preload. case_match; [apply forgets_ret|]. apply forgets_bind; [by apply forgets_peek|]. intros fs.
    apply forgets_bind; [by apply forgets_peek|]. intros now. by destruct (RootLoader.LoadRoot _ _ _ _) as [[? ?] [|]]. }
  intros s. apply forgets_bind; [apply open_tcp_forgets|]. intros http. apply forgets_bind.
  { case_match; [|apply forgets_ret]. apply forgets_bind; [apply forgets_host|]. intros [|].
    - apply forgets_bind; [apply forgets_modify|]. intros _. apply forgets_ret.
    - apply forgets_bind; [|intros _; apply forgets_fail]. by destruct http. }
  intros zcopy. apply forgets_bind; [apply forgets_modify|]. intros _. unfold serve.
  apply forgets_bind. { case_match; [apply forgets_ret|apply wait_stop_forgets]. }
  intros e0. apply forgets_bind; [apply close_with_forgets|].
  intros e1. apply forgets_bind; [apply close_with_forgets|].
  intros e2. by destruct (e0 ++ e1 ++ e2).
Qed.

(** What fails before the system is asked for a listener. *)
Definition early_errors (cfg : Config) w : list AppErr :=
  match Validate cfg with
  | Some e => [AErrConfig e]
  | None =>
    if String.eqb (TrimSpace (PayloadRoot cfg)) "" then []
    else match RootLoader.LoadRoot (app_fs w) (app_now w) (TrimSpace (PayloadRoot cfg)) LoadedStore.NewMemoryStore with
         | (_, _, Some e) => [AErrPreload (TrimSpace (PayloadRoot cfg)) e]
         | (_, _, None) => []
         end
  end.

(** Serving and shutting down, with the listeners [http] and [zcopy] open. *)
Lemma serve_and_close http zcopy (p : process LoadedStore.MemoryStore) (x : recording W) :
  negb http && negb zcopy = false ->
  wp (serve http zcopy)
    (fun o p' x' => opened p' = opened p /\ served p' = served p /\
       shut p' = shut p ++ (if zcopy then [ZcopyLn] else []) ++ (if http then [TcpLn] else []) /\
       exists log, heard x' = heard x ++ log /\ o = joined (failures log) /\ listening log = [] /\
         exists st, AnsNext ((if http then [TcpLn] else []) ++ (if zcopy then [ZcopyLn] else [])) st ∈ log) p x.
Proof.
  unfold serve. intros ->. apply wp_bind, wp_wait_heard. intros st w1. cbn [seq_post].
  apply wp_bind, wp_close_heard; [by intros []|by intros []|]. intros l1 w2 L1. cbn [seq_post heard].
  apply wp_bind, wp_close_heard; [by intros []|by intros []|]. intros l2 w3 L2. cbn [seq_post heard].
  apply wp_joined. split_and!; [by destruct http, zcopy..|destruct http, zcopy; simpl; by rewrite ?app_nil_r, <- ?app_assoc|].
  eexists ([AnsNext _ st] ++ l1 ++ l2). split_and!; [simpl; by rewrite <- !app_assoc|by rewrite !failures_app| |].
  - by rewrite !listening_app, L1, L2.
  - exists st. rewrite elem_of_app, list_elem_of_singleton. left. by destruct http, zcopy.
Qed.

(** How a run of [cfg] started in [w] may end. *)
Record run_end cfg w (o : outcome (list AppErr) unit) (p : process LoadedStore.MemoryStore)
    (x : recording W) : Prop := {
  re_shut : shut p ≡ₚ opened p;
  re_once : NoDup (opened p);
  re_opened : opened p = listening (heard x);
  re_store : Forall (preloaded (app_fs w) (app_now w) cfg) (served p);
  re_outcome : o = joined (early_errors cfg w ++ failures (heard x));
  re_served : served p <> [] ->
    opened p <> [] /\ length (served p) = 1%nat /\ exists st, AnsNext (opened p) st ∈ heard x;
  re_early : early_errors cfg w <> [] -> heard x = [] /\ served p = [];
  re_unserved : served p = [] -> early_errors cfg w <> [] \/ failures (heard x) <> [];
}.

Lemma run_fails cfg w errs p x :
  shut p ≡ₚ opened p -> NoDup (opened p) -> opened p = listening (heard x) -> served p = [] ->
  errs = early_errors cfg w ++ failures (heard x) -> errs <> [] ->
  (early_errors cfg w <> [] -> heard x = []) -> run_end cfg w (Fail errs) p x.
Proof.
  intros H1 H2 H3 H4 H5 H6 H7. constructor; try done.
  - rewrite H4. by constructor.
  - rewrite <- H5. by destruct errs.
  - auto.
  - intros _. destruct (early_errors cfg w); [right|by left]. by subst.
Qed.

Lemma preload_ok cfg w :
  Validate cfg = None ->
  wp (preload (W := recording W) (normalized cfg) LoadedStore.NewMemoryStore) (fun o p x => p = started /\ x = unheard w /\ match o with
     | Ret s => early_errors cfg w = [] /\ preloaded (app_fs w) (app_now w) cfg s
     | Fail errs => errs = early_errors cfg w /\ errs <> [] | _ => False end) started (unheard w).
Proof.
  intros Ev. unfold preload, preloaded, early_errors. rewrite Ev.
  change (PayloadRoot (normalized cfg)) with (TrimSpace (PayloadRoot cfg)).
  destruct (String.eqb _ _); [by apply wp_ret|].
  apply wp_bind, wp_peek. cbn [seq_post]. apply wp_bind, wp_peek. cbn [seq_post app_fs app_now recorder unheard sys].
  destruct (RootLoader.LoadRoot _ _ _ _) as [[s r] [e|]] eqn:El; [by apply wp_fail|].
  apply wp_ret. split_and!; [done|done|done|by exists r].
Qed.

Lemma serve_ok cfg w s http zcopy p (x : recording W) :
  early_errors cfg w = [] -> preloaded (app_fs w) (app_now w) cfg s ->
  negb http && negb zcopy = false -> served p = [] -> shut p = [] ->
  opened p = (if http then [TcpLn] else []) ++ (if zcopy then [ZcopyLn] else []) ->
  opened p = listening (heard x) -> failures (heard x) = [] ->
  wp (note_serve s;; serve http zcopy) (run_end cfg w) p x.
Proof.
  intros Ev Hs Hany E1 E2 E3 E4 E5. apply wp_bind, wp_modify. cbn [seq_post].
  eapply wp_mono; [by apply serve_and_close|]. simpl. intros o p' x' (O & V & S & log & Hx & -> & Hl & st & Hst).
  rewrite E1 in V. rewrite E2 in S. rewrite E3 in O. simpl in V, S. constructor.
  - rewrite S, O. destruct http, zcopy; solve_Permutation.
  - rewrite O. apply (bool_decide_unpack _). by destruct http, zcopy.
  - by rewrite Hx, listening_app, Hl, app_nil_r, O, <- E4.
  - rewrite V. by repeat constructor.
  - by rewrite Ev, Hx, failures_app, E5.
  - intros _. rewrite V, O. split; [by destruct http, zcopy|]. split; [done|]. exists st. rewrite Hx. set_solver.
  - by rewrite Ev.
  - by rewrite V.
Qed.

Lemma Run_ends cfg w : wp (Run (W := recording W) cfg) (run_end cfg w) started (unheard w).
Proof.
  unfold Run. cbv zeta. rewrite Validate_normalized. destruct (Validate cfg) as [e|] eqn:Ev.
  { apply wp_fail, run_fails; try done; [by constructor|]. unfold early_errors. by rewrite Ev. }
  assert (Hlisten : TCPListen (normalized cfg) <> EmptyString \/ EnableRDMAZCopy (normalized cfg) = true)
    by by apply validate_cases in Ev as [? _].
  apply wp_bind. eapply wp_mono; [by apply preload_ok|].
  intros [s|errs| |] p0 x0 (-> & -> & Hs); cbn [seq_post]; try done.
  2: { destruct Hs as [-> Hne]. apply run_fails; try done; [by constructor|]. by rewrite app_nil_r. }
  destruct Hs as [Hearly Hs].
  assert (Hnone : forall x : recording W, early_errors cfg w <> [] -> heard x = []) by by rewrite Hearly.
  apply wp_bind, wp_open_heard; cbn [seq_post].
  3: { intros _ w1. apply run_fails; try done; [by constructor|]. by rewrite Hearly. }
  - intros E. destruct Hlisten as [Hl|Hl]; [done|]. rewrite Hl.
    apply wp_bind, wp_bind, wp_record. intros [|] w1; cbn [seq_post].
    + apply wp_bind, wp_modify. cbn [seq_post]. apply wp_ret. cbn [seq_post]. by apply serve_ok.
    + apply wp_bind, wp_ret. cbn [seq_post].
      apply wp_fail, run_fails; try done; [by constructor|]. by rewrite Hearly.
  - intros E w1. apply wp_bind. destruct (EnableRDMAZCopy _); [|apply wp_ret; cbn [seq_post]; by apply serve_ok].
    apply wp_bind, wp_record. intros [|] w2; cbn [seq_post].
    + apply wp_bind, wp_modify. cbn [seq_post]. apply wp_ret. cbn [seq_post]. by apply serve_ok.
    + apply wp_bind, wp_modify. cbn [seq_post].
      apply wp_fail, run_fails; try done; [apply NoDup_singleton|]. by rewrite Hearly.
Qed.

(** No failure the system reports is a refused configuration or the want of a listener. *)
Lemma early_and_reported cfg w l e :
  e ∈ early_errors cfg w ++ failures l ->
  match e with AErrNoListener => False | AErrConfig c => Validate cfg = Some c | _ => True end.
Proof.
  rewrite elem_of_app. intros [He|He].
  - unfold early_errors in He. destruct (Validate cfg) as [c|]; [by apply list_elem_of_singleton in He as ->|].
    repeat case_match; set_solver.
  - unfold failures in He. apply list_elem_of_In, in_concat in He as (es & Hes%list_elem_of_In & He%list_elem_of_In).
    apply list_elem_of_fmap in Hes as (a & -> & _).
    destruct a as [? []|? []|? []|[]|[]]; simpl in He; set_solver.
Qed.

(** C31: the standalone server, started with any configuration on any system.  Run always
    returns, and returns exactly the failures there were, nil if there were none: the
    configuration's or the preload's, or else, joined in order, those the system has
    reported of the listeners, of serving and of the shutdown; never the want of a
    listener.  ([heard] is the record of the system's answers; keeping it changes nothing
    of the run.)  When Run returns, every listener that was opened has been closed, each
    once, also when a later one could not be opened; a configuration that Validate
    refuses asks the system for nothing and opens nothing; what is served is one store,
    the one the payload root was completely loaded into, on all the listeners opened. *)
Theorem s3_run_closes_what_it_opens cfg w :
  let '(o, p, x) := Run (W := recording W) cfg started (unheard w) in
  Run cfg started w = (o, p, sys x) /\
  shut p ≡ₚ opened p /\ NoDup (opened p) /\ opened p = listening (heard x) /\
  Forall (preloaded (app_fs w) (app_now w) cfg) (served p) /\
  o = joined (early_errors cfg w ++ failures (heard x)) /\
  match o with
  | Ret _ => Validate cfg = None /\ opened p <> [] /\ length (served p) = 1%nat /\
             exists st, AnsNext (opened p) st ∈ heard x
  | Fail errs => errs <> [] /\ (AErrNoListener ∉ errs) /\
                 (forall e, (AErrConfig e ∈ errs) <-> Validate cfg = Some e) /\
                 (Validate cfg <> None -> heard x = [] /\ opened p = [] /\ served p = [])
  | _ => False
  end.
Proof.
  pose proof (Run_forgets cfg started (unheard w)) as Hsame. pose proof (Run_ends cfg w) as Hend.
  unfold wp in Hend. destruct (Run (W := recording W) cfg started (unheard w)) as [[o p] x].
  destruct Hend as [H1 H2 H3 H4 H5 H6 H7 H8]. do 6 (split; [done|]).
  pose proof (early_and_reported cfg w (heard x)) as Hin.
  assert (Hv : forall e, Validate cfg = Some e -> early_errors cfg w = [AErrConfig e]).
  { intros e Ev. unfold early_errors. by rewrite Ev. }
  rewrite H5. unfold joined. destruct (early_errors cfg w ++ failures (heard x)) as [|e0 l] eqn:El.
  - apply app_eq_nil in El as [El Ef]. destruct (Validate cfg) as [e|]; [by rewrite (Hv e) in El|].
    split; [done|]. apply H6. intros Hs. by destruct (H8 Hs).
  - split_and!; [done|by intros Hn%Hin| |].
    + intros e. split; [by intros He%Hin|]. intros He. rewrite <- El, (Hv e He). set_solver.
    + intros Hn. destruct (Validate cfg) as [e|]; [|done]. destruct H7 as [H7 H9]; [by rewrite (Hv e)|].
      by rewrite H3, H7.
Qed.
End run_facts.
End S3Facts.

(** *** The in-memory server *)

Module InmemFacts.
Import InmemApp.

Lemma normalized_again c : normalized (normalized c) = normalized c.
Proof.
  unfold normalized at 2 3. destruct (EnableRDMAZCopy c && String.eqb (RDMAZCopyListen c) "") eqn:E;
    unfold normalized; [|by rewrite E]. simpl. by destruct (EnableRDMAZCopy c).
Qed.

(** The in-memory server's Validate accepts exactly the configurations with a data
    listener, a region that is more than white space, no negative sizing flag, the store's
    capacity included, and a known eviction policy; an RDMA listener without an address
    gets the default one first. *)
Theorem inmem_validate_exact c :
  Validate (normalized c) = None <->
  ((TCPListen c <> EmptyString \/ EnableRDMAZCopy c = true) /\ TrimSpace (Region c) <> EmptyString /\
   0 <= RDMABacklog c /\ 0 <= RDMAWorkers c /\ 0 <= RDMAFramePayload c /\ 0 <= RDMASendDepth c /\
   0 <= RDMARecvDepth c /\ 0 <= RDMAInline c /\ 0 <= RDMASignalIntvl c /\ 0 <= StoreMaxBytes c /\
   exists p, MemStore.ParseEvictPolicy (StoreEvictPolicy c) = Ok p).
Proof.
  assert (Hz : EnableRDMAZCopy (normalized c) && String.eqb (RDMAZCopyListen (normalized c)) "" = false).
  { unfold normalized. destruct (EnableRDMAZCopy c && String.eqb (RDMAZCopyListen c) "") eqn:E; [|done].
    simpl. by rewrite andb_false_r. }
  unfold Validate. rewrite Hz. clear Hz.
  assert (Hsame : TCPListen (normalized c) = TCPListen c /\ EnableRDMAZCopy (normalized c) = EnableRDMAZCopy c /\
    Region (normalized c) = Region c /\ signed_flags (normalized c) = signed_flags c /\
    StoreEvictPolicy (normalized c) = StoreEvictPolicy c).
  { unfold normalized. by destruct (EnableRDMAZCopy c && String.eqb (RDMAZCopyListen c) ""). }
  destruct Hsame as (-> & -> & -> & -> & ->).
  pose proof (first_negative_None (signed_flags c)) as Hn. unfold signed_flags in Hn at 2.
  rewrite !Forall_cons, Forall_nil_iff in Hn. simpl (_.2) in Hn.
  destruct (first_negative (signed_flags c)) as [e1|].
  all: destruct (String.eqb_spec (TCPListen c) ""), (EnableRDMAZCopy c), (String.eqb_spec (TrimSpace (Region c)) "");
    simpl; try (split; [done|]; intuition congruence).
  all: destruct (MemStore.ParseEvictPolicy (StoreEvictPolicy c)) as [pol|pe];
    (split; [intros Hc|intros (? & ? & ? & ? & ? & ? & ? & ? & ? & ? & p & Hp)]); try done;
    (split_and!; try tauto; by exists pol).
Qed.

(** The flag help and the usage text say that a store-max-bytes of zero or less means
    unlimited, and the store takes it so; but a negative value is refused. *)
Theorem negative_capacity_is_refused c : StoreMaxBytes c < 0 -> Validate (normalized c) <> None.
Proof.
  intros Hneg Hv. unfold Validate in Hv.
  pose proof (first_negative_None (signed_flags (normalized c))) as Hn.
  assert (E : StoreMaxBytes (normalized c) = StoreMaxBytes c).
  { unfold normalized. by destruct (EnableRDMAZCopy c && String.eqb (RDMAZCopyListen c) ""). }
  destruct (_ && _); [done|]. destruct (String.eqb _ _); [done|]. destruct (_ && _); [done|].
  destruct (first_negative (signed_flags (normalized c))); [done|].
  destruct Hn as [Hn _]. specialize (Hn eq_refl). unfold signed_flags in Hn.
  rewrite !Forall_cons in Hn. simpl (_.2) in Hn. rewrite E in Hn. intuition lia.
Qed.

Section run_facts.
Context {W : Type} `{!AppHost W}.
Implicit Types (w : W).

Definition preloaded (fs : string -> res OsErr node) (now : Z -> Time) (c : Config) (s : MemStore.MemoryStore) : Prop :=
  exists pol, MemStore.ParseEvictPolicy (StoreEvictPolicy c) = Ok pol /\
  if String.eqb (PayloadRoot c) "" then s = MemStore.NewMemoryStore (StoreMaxBytes c) pol
  else exists r, FolderLoader.AddFolder fs (fun _ => None) now (PayloadRoot c)
                   (MemStore.NewMemoryStore (StoreMaxBytes c) pol) = (s, r, None).

(** The in-memory server, started with any configuration on any system.  Run always
    returns; when it returns nil it has served the store that the payload root was
    completely loaded into, and has closed every listener it opened, each once; when it
    returns an error it has served nothing, and for a configuration that Validate refuses
    it has opened nothing. *)
Theorem inmem_run_serves_preloaded cfg w :
  let '(o, p, _) := Run cfg started w in
  match o with
  | Ret _ => Validate (normalized cfg) = None /\ (shut p ≡ₚ opened p) /\ NoDup (opened p) /\ opened p <> [] /\
             exists s, served p = [s] /\ preloaded (app_fs w) (app_now w) (normalized cfg) s
  | Fail errs => served p = [] /\ shut p = [] /\ (exists e, errs = [e]) /\
                 (Validate (normalized cfg) <> None -> opened p = [])
  | _ => False
  end.
Proof.
  set (Post := fun (o : outcome (list AppErr) unit) (p : process MemStore.MemoryStore) (w' : W) =>
    match o with
    | Ret _ => Validate (normalized cfg) = None /\ (shut p ≡ₚ opened p) /\ NoDup (opened p) /\ opened p <> [] /\
               exists s, served p = [s] /\ preloaded (app_fs w) (app_now w) (normalized cfg) s
    | Fail errs => served p = [] /\ shut p = [] /\ (exists e, errs = [e]) /\
                   (Validate (normalized cfg) <> None -> opened p = [])
    | _ => False
    end).
  assert (Hw : wp (Run cfg) Post started w); [|unfold wp in Hw; by destruct (Run cfg started w) as [[o p] w']].
  unfold Run. cbv zeta. set (nc := normalized cfg) in *.
  destruct (Validate nc) as [e|] eqn:Ev; [apply wp_fail; split_and!; eauto|].
  assert (Hfail : forall e p w', served p = [] -> shut p = [] -> Post (Fail [e]) p w').
  { intros e p w' H1 H2. unfold Post. split_and!; eauto. done. }
  destruct (MemStore.ParseEvictPolicy (StoreEvictPolicy nc)) as [pol|e] eqn:Ep; [|by apply wp_fail, Hfail].
  assert (Hpre : wp (preload nc (MemStore.NewMemoryStore (StoreMaxBytes nc) pol)) (fun o p w' => p = started /\ match o with
     | Ret s => preloaded (app_fs w) (app_now w) nc s
     | Fail errs => exists e, errs = [AErrPreload (PayloadRoot nc) e] | _ => False end) started w).
  { unfold preload, preloaded. rewrite Ep.
    destruct (String.eqb _ _); [apply wp_ret; split; [done|by exists pol]|].
    apply wp_bind. unfold wp at 1, peek. cbn [seq_post]. apply wp_bind. unfold wp at 1, peek. cbn [seq_post].
    destruct (FolderLoader.AddFolder _ _ _ _ _) as [[s r] [e|]] eqn:El; [apply wp_fail; split; eauto|].
    apply wp_ret. split; [done|]. exists pol. split; [done|by exists r]. }
  apply wp_bind. eapply wp_mono; [exact Hpre|]. clear Hpre.
  intros [s|errs| |] p0 w0 [-> Hs]; cbn [seq_post]; try done; [|destruct Hs as [e ->]; by apply Hfail].
  assert (Hopen : forall (tcp zcopy : bool) (p : process MemStore.MemoryStore) w1,
    served p = [] -> shut p = [] -> opened p = (if tcp then [TcpLn] else []) ++ (if zcopy then [ZcopyLn] else []) ->
    wp (let! control := open_tcp ControlLn (ControlGRPCListen nc) in
        guard (negb tcp && negb zcopy && negb control) [AErrNoListener];;
        note_serve s;;
        let! _ := wait_stop [(TcpLn, tcp); (ZcopyLn, zcopy); (ControlLn, control)] in
        let! _ := close_with app_close ZcopyLn zcopy in
        let! _ := close_with (fun w => (false, w)) ControlLn control in
        let! _ := close_with app_shutdown TcpLn tcp in
        ret tt) Post p w1).
  { intros tcp zcopy p w1 E1 E2 E3.
    assert (Hrest : forall (control : bool) (p : process MemStore.MemoryStore) w1, served p = [] -> shut p = [] ->
      opened p = (if tcp then [TcpLn] else []) ++ (if zcopy then [ZcopyLn] else []) ++ (if control then [ControlLn] else []) ->
      wp (guard (negb tcp && negb zcopy && negb control) [AErrNoListener];;
        note_serve s;;
        let! _ := wait_stop [(TcpLn, tcp); (ZcopyLn, zcopy); (ControlLn, control)] in
        let! _ := close_with app_close ZcopyLn zcopy in
        let! _ := close_with (fun w => (false, w)) ControlLn control in
        let! _ := close_with app_shutdown TcpLn tcp in
        ret tt) Post p w1).
    { clear p w1 E1 E2 E3. intros control p w1 E1 E2 E3.
      apply wp_bind, wp_guard; intros Hany; cbn [seq_post]; [by apply Hfail|].
      apply wp_bind, wp_modify. cbn [seq_post]. apply wp_bind, wp_wait_stop. intros st w2 _. cbn [seq_post].
      apply wp_bind, wp_close_with. intros e1 w3 _. cbn [seq_post].
      apply wp_bind, wp_close_with. intros e2 w4 _. cbn [seq_post].
      apply wp_bind, wp_close_with. intros e3 w5 _. cbn [seq_post]. apply wp_ret.
      unfold Post. destruct tcp, zcopy, control; simpl; rewrite E1, E2, E3; try done; simpl;
        (split_and!; [done|solve_Permutation|by apply (bool_decide_unpack _)|done|by exists s]). }
    apply wp_bind, wp_open_tcp; cbn [seq_post]; [| |intros _ w2; by apply Hfail].
    - intros _. apply Hrest; [done..|]. by rewrite E3, app_nil_r.
    - intros _ w2. apply Hrest; [done..|]. simpl. by rewrite E3, <- app_assoc. }
  apply wp_bind, wp_open_tcp; cbn [seq_post]; [| |intros _ w1; by apply Hfail].
  all: intros _; try intros w1; apply wp_bind; destruct (EnableRDMAZCopy nc);
    [apply wp_bind, wp_host; intros [|] w2 _; cbn [seq_post]; [apply wp_bind, wp_modify; cbn [seq_post]|by apply wp_fail, Hfail]|];
    apply wp_ret; cbn [seq_post]; by apply Hopen.
Qed.
End run_facts.
End InmemFacts.

(** ** Runs *)

(** A system without files, on which TCP listeners can be opened. *)
Record app_sim := { as_verbs : bool; as_stop : stop }.

#[export] Instance app_sim_host : AppHost app_sim := {|
  app_fs _ _ := Ok (NDir [] None);
  app_now _ i := {| instant := i; utc := false |};
  app_listen_tcp _ w := (true, w);
  app_listen_verbs _ _ w := (as_verbs w, w);
  app_next _ w := (as_stop w, w);
  app_close w := (false, w);
  app_shutdown w := (false, w);
|}.

Definition s3_sample : S3App.Config :=
  {| S3App.Debug := false; S3App.TCPListen := "127.0.0.1:10090"; S3App.EnableRDMAZCopy := true;
     S3App.RDMAZCopyListen := " 127.0.0.1:10191 "; S3App.RDMABacklog := 512; S3App.RDMAWorkers := 1;
     S3App.RDMALowCPU := false; S3App.RDMAFramePayload := 65536; S3App.RDMASendDepth := 64;
     S3App.RDMARecvDepth := 64; S3App.RDMAInline := 0; S3App.RDMASignalIntvl := 1;
     S3App.RDMAControlTO := 30 * 10 ^ 9; S3App.RDMADataTO := 120 * 10 ^ 9; S3App.RDMAIdleTO := 300 * 10 ^ 9;
     S3App.Region := "us-east-1"; S3App.PayloadRoot := ""; S3App.MaxObjectSize := 64 * 2 ^ 20 |}.

Lemma s3_validated_options_witness :
  let c' := S3App.normalized s3_sample in
  (exists conf, listen_conf "rdma" (S3App.RDMAZCopyListen c') (S3App.listener_options c') = Ok conf) /\
  ZcopyServer.normalized (S3App.timeouts c') = S3App.timeouts c'.
Proof. apply (S3Facts.s3_validated_options s3_sample "127.0.0.1" "10191"); by vm_compute. Defined.

Definition inmem_sample (zcopy : bool) (max : Z) : InmemApp.Config :=
  let d := InmemApp.DefaultConfig in
  {| InmemApp.TCPListen := InmemApp.TCPListen d; InmemApp.EnableRDMAZCopy := zcopy;
     InmemApp.RDMAZCopyListen := ""; InmemApp.RDMABacklog := InmemApp.RDMABacklog d;
     InmemApp.RDMAWorkers := InmemApp.RDMAWorkers d; InmemApp.RDMALowCPU := false;
     InmemApp.RDMAFramePayload := 0; InmemApp.RDMASendDepth := 0; InmemApp.RDMARecvDepth := 0;
     InmemApp.RDMAInline := 0; InmemApp.RDMASignalIntvl := 0; InmemApp.Region := "us-east-1";
     InmemApp.MaxObjectSize := InmemApp.MaxObjectSize d; InmemApp.StoreMaxBytes := max;
     InmemApp.StoreEvictPolicy := "FIFO"; InmemApp.PayloadRoot := ""; InmemApp.ControlGRPCListen := "" |}.

Lemma negative_capacity_is_refused_witness :
  InmemApp.Validate (InmemApp.normalized (inmem_sample false 0)) = None /\
  InmemApp.Validate (InmemApp.normalized (inmem_sample false (-1))) <> None.
Proof.
  split; [by vm_compute|]. apply (InmemFacts.negative_capacity_is_refused (inmem_sample false (-1))). by vm_compute.
Defined.

(** Two ways in which the in-memory server's Run differs from the standalone server's.
    When the HTTP listener stops with an error both shut down, but the in-memory server
    only logs it and returns nil, so that the process ends with status 0; and when the
    RDMA listener cannot be opened after the HTTP listener, the in-memory server returns
    with that one open. *)
Theorem inmem_run_forgets_failures :
  let broken := {| as_verbs := true; as_stop := StopServe TcpLn |} in
  let no_rdma := {| as_verbs := false; as_stop := StopSignal |} in
  let cfg := inmem_sample true 0 in
  (InmemApp.Run cfg started broken).1.1 = Ret tt /\
  (S3App.Run s3_sample started broken).1.1 = Fail [AErrServe TcpLn] /\
  (InmemApp.Run cfg started no_rdma).1.1 = Fail [AErrListen ZcopyLn "127.0.0.1:10191"] /\
  opened (InmemApp.Run cfg started no_rdma).1.2 = [TcpLn] /\
  shut (InmemApp.Run cfg started no_rdma).1.2 = [] /\
  shut (S3App.Run s3_sample started no_rdma).1.2 = [TcpLn].
Proof. by vm_compute. Qed.

(** The configuration of the flags' defaults is valid. *)
Example default_config_valid : InmemApp.Validate (InmemApp.normalized InmemApp.DefaultConfig) = None.
Proof. by vm_compute. Qed.
