(* ===== verification/Smoke.v ===== *)
(** * The smoke run (pkg/s3rdmasmoke/smoke.go)

    One PUT, GET or PUT-then-GET against a server, over HTTP or over RDMA, and what it
    takes for a success.  The AWS client, the zcopy client (Client.v models it on its own)
    and mmap are the class [SmokeHost]; the run keeps in [rdma_state] what it has opened
    and what it owes. *)

From S2P Require Import Prelude VerbsConfig VerbsConn Control.

Definition defaultTransport : string := "tcp".
Definition defaultTCPEndpoint : string := "http://127.0.0.1:10090".
Definition defaultRDMAEndpoint : string := "127.0.0.1:10191".
Definition Second : Z := 10 ^ 9.
Definition defaultRequestTimeout : Z := 30 * Second.
Definition defaultRDMAConnectTO : Z := 10 * Second.
Definition defaultRDMAControlTO : Z := 30 * Second.
Definition defaultRDMADataTO : Z := 120 * Second.
Definition defaultRDMASharedMemSize : Z := 16 * 2 ^ 20.
Definition defaultRDMAGetOffset : Z := 8 * 2 ^ 20.
Definition defaultRDMAGetMaxSize : Z := 8 * 2 ^ 20.
Definition defaultPayloadSize : Z := 4096.
Definition transportTCP : string := "tcp".
Definition transportRDMA : string := "rdma".
Definition opPut : string := "put".
Definition opGet : string := "get".
Definition opPutGet : string := "put-get".

Record Config := {
  Transport : string;
  Endpoint : string;
  Bucket : string;
  Key : string;
  Op : string;
  Verify : bool;
  PayloadSize : Z;
  RequestTimeout : Z;
  RDMAConnectTO : Z;
  RDMAControlTO : Z;
  RDMADataTO : Z;
  RDMASharedMem : Z;
  RDMASharedMemPath : string;
  RDMAPutOffset : Z;
  RDMAGetOffset : Z;
  RDMAGetMaxSize : Z;
  RDMALowCPU : bool;
  RDMAFrameSize : Z;
  RDMASendDepth : Z;
  RDMARecvDepth : Z;
  RDMAInlineBytes : Z;
  RDMASignalIntvl : Z;
}.

Record Result := {
  r_Transport : string;
  r_Endpoint : string;
  r_Bucket : string;
  r_Key : string;
  r_Operation : string;
  PutAccepted : bool;
  GetBytes : Z;
  GetMissing : bool;
  Verified : bool;
}.

Definition fmt_t (b : bool) : string := if b then "true" else "false".

(** [strings.Join(parts, " ")] *)
Definition join_spaces (parts : list string) : string := String.concat " " parts.

Definition Summary (r : Result) : string :=
  join_spaces
    (["smoke ok"; "transport=" +:+ r_Transport r; "op=" +:+ r_Operation r; "endpoint=" +:+ r_Endpoint r;
      "bucket=" +:+ r_Bucket r; "key=" +:+ r_Key r]%string ++
     (if PutAccepted r then ["put_accepted=true"%string] else []) ++
     (if 0 <? GetBytes r then ["get_bytes="%string +:+ fmt_d (GetBytes r)] else []) ++
     (if GetMissing r then ["get_missing=true"%string] else []) ++
     ["verified="%string +:+ fmt_t (Verified r)]).

Definition normalizeTCPEndpoint (in_ : string) : string :=
  let v := TrimSpace in_ in
  if HasPrefix v "http://" || HasPrefix v "https://" then v else "http://" +:+ v.

(** [if v <= 0 { v = d }] *)
Definition at_least_one (v d : Z) : Z := if v <=? 0 then d else v.

Definition normalized (c : Config) : Config :=
  let transport := let t := ToLower (TrimSpace (Transport c)) in
                   if String.eqb t "" then defaultTransport else t in
  let endpoint := let e := TrimSpace (Endpoint c) in
                  if String.eqb e "" then
                    (if String.eqb transport transportRDMA then defaultRDMAEndpoint else defaultTCPEndpoint)
                  else e in
  let rdma := String.eqb transport transportRDMA in
  {| Transport := transport;
     Endpoint := if String.eqb transport transportTCP then normalizeTCPEndpoint endpoint else endpoint;
     Bucket := TrimSpace (Bucket c);
     Key := TrimSpace (Key c);
     Op := ToLower (TrimSpace (Op c));
     Verify := Verify c;
     PayloadSize := if PayloadSize c =? 0 then defaultPayloadSize else PayloadSize c;
     RequestTimeout := at_least_one (RequestTimeout c) defaultRequestTimeout;
     RDMAConnectTO := if rdma then at_least_one (RDMAConnectTO c) defaultRDMAConnectTO else RDMAConnectTO c;
     RDMAControlTO := if rdma then at_least_one (RDMAControlTO c) defaultRDMAControlTO else RDMAControlTO c;
     RDMADataTO := if rdma then at_least_one (RDMADataTO c) defaultRDMADataTO else RDMADataTO c;
     RDMASharedMem := if rdma then at_least_one (RDMASharedMem c) defaultRDMASharedMemSize else RDMASharedMem c;
     RDMASharedMemPath := RDMASharedMemPath c;
     RDMAPutOffset := RDMAPutOffset c;
     RDMAGetOffset := if rdma && (RDMAGetOffset c <? 0) then defaultRDMAGetOffset else RDMAGetOffset c;
     RDMAGetMaxSize := if rdma then at_least_one (RDMAGetMaxSize c) defaultRDMAGetMaxSize else RDMAGetMaxSize c;
     RDMALowCPU := RDMALowCPU c;
     RDMAFrameSize := RDMAFrameSize c;
     RDMASendDepth := RDMASendDepth c;
     RDMARecvDepth := RDMARecvDepth c;
     RDMAInlineBytes := RDMAInlineBytes c;
     RDMASignalIntvl := RDMASignalIntvl c |}.

(** An error: the code of the smithy.APIError it wraps, if any, and its text. *)
Record serr := { code : option string; text : string }.
Definition errorf (s : string) : serr := {| code := None; text := s |}.
(** [fmt.Errorf("...: %w", err)] *)
Definition wrap (prefix : string) (e : serr) : serr := {| code := code e; text := prefix +:+ text e |}.

(** The checks in their order: the first that fails names the error. *)
Fixpoint first_failing (checks : list (bool * string)) : option serr :=
  match checks with
  | [] => None
  | (bad, msg) :: l => if bad then Some (errorf msg) else first_failing l
  end.

Definition check (bad : bool) (msg : string) : bool * string := (bad, msg).

Definition common_checks (c : Config) : list (bool * string) :=
  [check (negb (String.eqb (Transport c) transportTCP || String.eqb (Transport c) transportRDMA)) "transport must be tcp or rdma";
   check (negb (String.eqb (Op c) opPut || String.eqb (Op c) opGet || String.eqb (Op c) opPutGet)) "op must be put, get, or put-get";
   check (String.eqb (Endpoint c) "") "endpoint must not be empty";
   check (String.eqb (Bucket c) "") "bucket must not be empty";
   check (String.eqb (Key c) "") "key must not be empty";
   check (RequestTimeout c <=? 0) "request-timeout must be > 0";
   check (PayloadSize c <? 0) "payload-size must be >= 0"].

Definition rdma_checks (c : Config) : list (bool * string) :=
  [check (RDMASharedMem c <=? 0) "rdma-shared-memory-size must be > 0";
   check (RDMAConnectTO c <=? 0) "rdma-connect-timeout must be > 0";
   check (RDMAControlTO c <=? 0) "rdma-control-timeout must be > 0";
   check (RDMADataTO c <=? 0) "rdma-data-timeout must be > 0";
   check (RDMAPutOffset c <? 0) "rdma-put-offset must be >= 0";
   check (RDMAGetOffset c <? 0) "rdma-get-offset must be >= 0";
   check (RDMAGetMaxSize c <=? 0) "rdma-get-max-size must be > 0";
   check (RDMAFrameSize c <? 0) "rdma-frame-payload must be >= 0";
   check (RDMASendDepth c <? 0) "rdma-send-depth must be >= 0";
   check (RDMARecvDepth c <? 0) "rdma-recv-depth must be >= 0";
   check (RDMAInlineBytes c <? 0) "rdma-inline-threshold must be >= 0";
   check (RDMASignalIntvl c <? 0) "rdma-send-signal-interval must be >= 0";
   check (RDMASharedMem c <? i64 (RDMAPutOffset c + PayloadSize c)) ("rdma put range offset=" +:+ fmt_d (RDMAPutOffset c) +:+ " size=" +:+ fmt_d (PayloadSize c) +:+ " exceeds shared memory size=" +:+ fmt_d (RDMASharedMem c));
   check (RDMASharedMem c <? i64 (RDMAGetOffset c + RDMAGetMaxSize c)) ("rdma get range offset=" +:+ fmt_d (RDMAGetOffset c) +:+ " max=" +:+ fmt_d (RDMAGetMaxSize c) +:+ " exceeds shared memory size=" +:+ fmt_d (RDMASharedMem c))].

Definition Validate (c : Config) : option serr :=
  let c := normalized c in
  match first_failing (common_checks c) with
  | Some e => Some e
  | None => if negb (String.eqb (Transport c) transportRDMA) then None else first_failing (rdma_checks c)
  end.

(** ** The payload *)

Definition payloadByte (index : Z) : byte := byte_of_Z (Z.land (index * 31 + 17) 255).
Definition fillPayload (n : nat) : list byte := (fun i => payloadByte (Z.of_nat i)) <$> seq 0 n.
Definition makePayload (size : Z) : list byte := fillPayload (Z.to_nat size).

(** ** Expected failures *)

Definition api_code_in (codes : list string) (e : serr) : bool :=
  match code e with Some c => existsb (String.eqb c) codes | None => false end.

Definition isExpectedTCPSmokeMissing (err : option serr) : bool :=
  match err with
  | None => false
  | Some e =>
    api_code_in ["NoSuchKey"; "NotFound"]%string e ||
    (let msg := ToLower (text e) in Contains msg "nosuchkey" || Contains msg "not found")
  end.

Definition isExpectedRDMASmokeMissing (err : option serr) : bool :=
  match err with
  | None => false
  | Some e => let msg := ToLower (text e) in Contains msg "key not found" || Contains msg "no such key"
  end.

(** ** The clients *)

(** [tcp_get] answers the error of GetObject, or of reading the body, or the body.  An
    RDMA reference is its offset, size and token. *)
Class SmokeHost (W : Type) := {
  tcp_create_bucket : string -> W -> option serr * W;
  tcp_head_bucket : string -> W -> option serr * W;
  tcp_put : string -> string -> list byte -> W -> option serr * W;
  tcp_get : string -> string -> W -> res serr (res serr (list byte)) * W;
  shm_map : Z -> string -> W -> option serr * W;
  shm_unmap : W -> option serr * W;
  rdma_new : Config -> W -> option serr * W;
  rdma_close : W -> option serr * W;
  rdma_ensure_bucket : string -> W -> option serr * W;
  rdma_put : string -> string -> Z -> Z -> W -> option serr * W;
  rdma_get : string -> string -> Z -> Z -> W -> res serr (Z * Z * Z) * W;
  rdma_release : Z * Z * Z -> W -> option serr * W;
}.

(** What the RDMA run has done to its resources, in order. *)
Inductive rdma_event := Mapped | Unmapped | Opened | ClosedClient | Got (r : Z * Z * Z) | Released (r : Z * Z * Z).

Definition blank (c : Config) : Result :=
  {| r_Transport := Transport c; r_Endpoint := Endpoint c; r_Bucket := Bucket c; r_Key := Key c;
     r_Operation := Op c; PutAccepted := false; GetBytes := 0; GetMissing := false; Verified := false |}.
Definition zero_result : Result :=
  {| r_Transport := ""; r_Endpoint := ""; r_Bucket := ""; r_Key := ""; r_Operation := "";
     PutAccepted := false; GetBytes := 0; GetMissing := false; Verified := false |}.
Definition put_accepted (r : Result) : Result :=
  {| r_Transport := r_Transport r; r_Endpoint := r_Endpoint r; r_Bucket := r_Bucket r; r_Key := r_Key r;
     r_Operation := r_Operation r; PutAccepted := true; GetBytes := GetBytes r; GetMissing := GetMissing r;
     Verified := Verified r |}.
Definition got_bytes (r : Result) (n : Z) : Result :=
  {| r_Transport := r_Transport r; r_Endpoint := r_Endpoint r; r_Bucket := r_Bucket r; r_Key := r_Key r;
     r_Operation := r_Operation r; PutAccepted := PutAccepted r; GetBytes := n; GetMissing := GetMissing r;
     Verified := Verified r |}.
Definition verified (r : Result) (missing : bool) : Result :=
  {| r_Transport := r_Transport r; r_Endpoint := r_Endpoint r; r_Bucket := r_Bucket r; r_Key := r_Key r;
     r_Operation := r_Operation r; PutAccepted := PutAccepted r; GetBytes := GetBytes r; GetMissing := missing;
     Verified := true |}.

Section runs.
Context {W : Type} `{!SmokeHost W}.

(** The result is returned with an error too; the error is kept in the value. *)
#[local] Abbreviation S := (M W (list rdma_event) Empty_set).

Definition event (e : rdma_event) : S unit := modify (fun l => l ++ [e]).

Definition ensureBucketTCP (c : Config) : S (option serr) :=
  let! err := host (tcp_create_bucket (Bucket c)) in
  match err with
  | None => ret None
  | Some e =>
    if api_code_in ["BucketAlreadyOwnedByYou"; "BucketAlreadyExists"]%string e then ret None
    else
      let! headErr := host (tcp_head_bucket (Bucket c)) in
      match headErr with
      | None => ret None
      | Some _ => ret (Some (wrap "tcp smoke: ensure bucket: " e))
      end
  end.

Definition putObjectTCP (c : Config) : S (option serr) :=
  let! err := host (tcp_put (Bucket c) (Key c) (makePayload (PayloadSize c))) in
  ret (wrap "tcp smoke: put object: " <$> err).

Definition getObjectTCP (c : Config) : S (res serr (list byte)) :=
  let! out := host (tcp_get (Bucket c) (Key c)) in
  match out with
  | Err e => ret (Err e)
  | Ok (Err e) => ret (Err (wrap "tcp smoke: read object body: " e))
  | Ok (Ok body) => ret (Ok body)
  end.

Definition runTCP (c : Config) : S (Result * option serr) :=
  let result := blank c in
  if String.eqb (Op c) opPut then
    let! err := ensureBucketTCP c in
    match err with
    | Some e => ret (result, Some e)
    | None =>
      let! err := putObjectTCP c in
      match err with
      | Some e => ret (result, Some e)
      | None => ret (verified (put_accepted result) false, None)
      end
    end
  else if String.eqb (Op c) opGet then
    let! r := getObjectTCP c in
    match r with
    | Err e => ret (result, Some e)
    | Ok body =>
      let result := got_bytes result (blen body) in
      if Verify c && (0 <? PayloadSize c) && negb (blen body =? PayloadSize c) then
        ret (result, Some (errorf ("tcp smoke: get size=" +:+ fmt_d (blen body) +:+ " want=" +:+ fmt_d (PayloadSize c))))
      else ret (verified result false, None)
    end
  else if String.eqb (Op c) opPutGet then
    let! err := ensureBucketTCP c in
    match err with
    | Some e => ret (result, Some e)
    | None =>
      let! err := putObjectTCP c in
      match err with
      | Some e => ret (result, Some e)
      | None =>
        let result := put_accepted result in
        let! r := getObjectTCP c in
        match r with
        | Ok _ => ret (result, Some (errorf ("tcp smoke: key " +:+ Quote (Key c) +:+ " remained readable after PUT; use a fresh key for put-get")))
        | Err e => if negb (isExpectedTCPSmokeMissing (Some e)) then ret (result, Some e)
                   else ret (verified result true, None)
        end
      end
    end
  else ret (result, Some (errorf ("unsupported op " +:+ Quote (Op c)))).

Definition ensureBucketRDMA (c : Config) : S (option serr) :=
  let! err := host (rdma_ensure_bucket (Bucket c)) in
  ret (wrap "rdma smoke: ensure bucket: " <$> err).

Definition putObjectRDMA (c : Config) : S (option serr) :=
  let! err := host (rdma_put (Bucket c) (Key c) (RDMAPutOffset c) (PayloadSize c)) in
  ret (wrap "rdma smoke: put object: " <$> err).

Definition getObjectRDMA (c : Config) : S (res serr (Z * Z * Z)) :=
  let! r := host (rdma_get (Bucket c) (Key c) (RDMAGetOffset c) (RDMAGetMaxSize c)) in
  match r with
  | Ok ref => event (Got ref);; ret (Ok ref)
  | Err e => ret (Err e)
  end.

(** The switch of runRDMA.  The deferred release of the GET case assigns the case's own
    [err], which nobody reads: what Release answers is lost. *)
Definition rdma_ops (c : Config) : S (Result * option serr) :=
  let result := blank c in
  if String.eqb (Op c) opPut then
    let! err := ensureBucketRDMA c in
    match err with
    | Some e => ret (result, Some e)
    | None =>
      let! err := putObjectRDMA c in
      match err with
      | Some e => ret (result, Some e)
      | None => ret (verified (put_accepted result) false, None)
      end
    end
  else if String.eqb (Op c) opGet then
    let! r := getObjectRDMA c in
    match r with
    | Err e => ret (result, Some e)
    | Ok ((off, size, tok) as ref) =>
      let result := got_bytes result size in
      let! _ := host (rdma_release ref) in
      event (Released ref);;
      if Verify c && (0 <? PayloadSize c) && negb (size =? PayloadSize c) then
        ret (result, Some (errorf ("rdma smoke: get size=" +:+ fmt_d size +:+ " want=" +:+ fmt_d (PayloadSize c))))
      else ret (verified result false, None)
    end
  else if String.eqb (Op c) opPutGet then
    let! err := ensureBucketRDMA c in
    match err with
    | Some e => ret (result, Some e)
    | None =>
      let! err := putObjectRDMA c in
      match err with
      | Some e => ret (result, Some e)
      | None =>
        let result := put_accepted result in
        let! r := getObjectRDMA c in
        match r with
        | Ok ref =>
          let! _ := host (rdma_release ref) in
          event (Released ref);;
          ret (result, Some (errorf ("rdma smoke: key " +:+ Quote (Key c) +:+ " remained readable after PUT; use a fresh key for put-get")))
        | Err e => if negb (isExpectedRDMASmokeMissing (Some e)) then ret (result, Some e)
                   else ret (verified result true, None)
        end
      end
    end
  else ret (result, Some (errorf ("unsupported op " +:+ Quote (Op c)))).

(** [errors.Join] of what is not nil. *)
Definition joined (l : list (option serr)) : list serr := omap id l.

Definition runRDMA (c : Config) : S (Result * list serr) :=
  let! err := host (shm_map (RDMASharedMem c) (RDMASharedMemPath c)) in
  match err with
  | Some e => ret (zero_result, [wrap "rdma smoke: mmap shared memory: " e])
  | None =>
    event Mapped;;
    let! err := host (rdma_new c) in
    match err with
    | Some e =>
      let! u := host shm_unmap in
      event Unmapped;;
      ret (zero_result, joined [Some (wrap "rdma smoke: init s3rdmaclient: " e); u])
    | None =>
      event Opened;;
      let! rr := rdma_ops c in
      let '(result, err) := rr in
      let! cl := host rdma_close in
      event ClosedClient;;
      let! u := host shm_unmap in
      event Unmapped;;
      ret (result, joined [err; cl; u])
    end
  end.

Definition Run (cfg : Config) : S (Result * list serr) :=
  let cfg := normalized cfg in
  match Validate cfg with
  | Some e => ret (zero_result, [e])
  | None =>
    if String.eqb (Transport cfg) transportTCP then
      let! rr := runTCP cfg in ret (rr.1, joined [rr.2])
    else if String.eqb (Transport cfg) transportRDMA then runRDMA cfg
    else ret (zero_result, [errorf ("unsupported transport " +:+ Quote (Transport cfg))])
  end.
End runs.

(** ** Properties *)

Lemma first_failing_None l : first_failing l = None <-> Forall (fun x => x.1 = false) l.
Proof.
  induction l as [|[b m] l IH]; simpl; [by split|]. rewrite Forall_cons. simpl.
  destruct b; [split; [done|by intros [? _]]|]. rewrite IH. tauto.
Qed.

(** Normalising an RDMA configuration again changes none of its sizes. *)
Lemma normalized_sizes c :
  let n := normalized c in
  Transport n = transportRDMA ->
  Transport (normalized n) = transportRDMA /\ Bucket (normalized n) = Bucket n /\ Key (normalized n) = Key n /\
  RDMAPutOffset (normalized n) = RDMAPutOffset n /\ PayloadSize (normalized n) = PayloadSize n /\
  RDMAGetOffset (normalized n) = RDMAGetOffset n /\ RDMAGetMaxSize (normalized n) = RDMAGetMaxSize n /\
  RDMASharedMem (normalized n) = RDMASharedMem n.
Proof.
  cbv zeta. intros Ht.
  assert (Ht2 : Transport (normalized (normalized c)) = transportRDMA).
  { unfold normalized at 1. cbn [Transport]. rewrite Ht. by vm_compute. }
  assert (Hone : forall v d, 0 < d -> at_least_one (at_least_one v d) d = at_least_one v d).
  { intros v d Hd. unfold at_least_one. destruct (Z.leb_spec v 0); cbv iota.
    - destruct (Z.leb_spec d 0); lia.
    - destruct (Z.leb_spec v 0); lia. }
  split; [exact Ht2|]. unfold normalized in Ht, Ht2. cbn [Transport] in Ht, Ht2.
  unfold normalized. cbn [Transport Bucket Key RDMAPutOffset PayloadSize RDMAGetOffset RDMAGetMaxSize RDMASharedMem].
  rewrite Ht2, Ht. cbn [String.eqb transportRDMA Ascii.eqb Bool.eqb andb].
  split_and!; try done.
  - apply TrimSpace_idem.
  - apply TrimSpace_idem.
  - destruct (PayloadSize c =? 0) eqn:E; [done|]. by rewrite E.
  - destruct (RDMAGetOffset c <? 0) eqn:E; [done|]. by rewrite E.
  - by apply Hone.
  - by apply Hone.
Qed.

(** A configuration that Run accepts for RDMA keeps both windows inside the shared
    memory: the payload of the PUT and the target of the GET start at a non-negative
    offset and end within it, so that slicing the memory cannot fail, provided that the
    sums of offset and size do not exceed the range of int. *)
Theorem validated_windows cfg :
  let c := normalized cfg in
  Validate c = None -> Transport c = transportRDMA ->
  RDMAPutOffset c + PayloadSize c < 2 ^ 63 -> RDMAGetOffset c + RDMAGetMaxSize c < 2 ^ 63 ->
  (0 <= RDMAPutOffset c /\ 0 <= PayloadSize c /\ RDMAPutOffset c + PayloadSize c <= RDMASharedMem c) /\
  (0 <= RDMAGetOffset c /\ 0 < RDMAGetMaxSize c /\ RDMAGetOffset c + RDMAGetMaxSize c <= RDMASharedMem c) /\
  0 < RDMASharedMem c /\ Bucket c <> EmptyString /\ Key c <> EmptyString.
Proof.
  cbv zeta. intros Hv Ht. destruct (normalized_sizes cfg Ht) as (Et & <- & <- & <- & <- & <- & <- & <-).
  intros Hp Hg. unfold Validate in Hv. clear Ht.
  set (n := normalized (normalized cfg)) in *. clearbody n.
  pose proof (first_failing_None (common_checks n)) as H1. pose proof (first_failing_None (rdma_checks n)) as H2.
  destruct (first_failing (common_checks n)); [done|]. rewrite Et in Hv.
  change (first_failing (rdma_checks n) = None) in Hv.
  destruct H1 as [H1 _], H2 as [H2 _]. specialize (H1 eq_refl). specialize (H2 Hv). clear Hv.
  unfold common_checks, rdma_checks, check in *. rewrite !Forall_cons in H1. rewrite !Forall_cons in H2.
  simpl (_.1) in *. destruct H1 as (_ & _ & _ & Hb & Hk & _ & Hs & _).
  destruct H2 as (Hm & _ & _ & _ & Hpo & Hgo & Hgm & _ & _ & _ & _ & _ & Hpw & Hgw & _).
  bool_facts. rewrite i64_id in Hpw, Hgw by lia.
  split_and!; try lia; intros E; [by rewrite E in Hb|by rewrite E in Hk].
Qed.

Section run_facts.
Context {W : Type} `{!SmokeHost W}.
#[local] Abbreviation S := (M W (list rdma_event) Empty_set).
Implicit Types (l : list rdma_event) (w : W).

(** What a verified result says, by operation. *)
Definition verified_means (c : Config) (r : Result) : Prop :=
  (Op c = opPut -> PutAccepted r = true) /\
  (Op c = opGet -> Verify c = true -> 0 < PayloadSize c -> GetBytes r = PayloadSize c) /\
  (Op c = opPutGet -> PutAccepted r = true /\ GetMissing r = true).

(** The events of the switch: a reference that was got has been released. *)
Definition settled (ev : list rdma_event) : Prop := ev = [] \/ exists r, ev = [Got r; Released r].

Definition op_post (c : Config) l (o : outcome Empty_set (Result * option serr)) l' : Prop :=
  (exists ev, l' = l ++ ev /\ settled ev) /\
  match o with
  | Ret (r, None) => Verified r = true /\ verified_means c r
  | Ret (r, Some _) => Verified r = false
  | _ => False
  end.

Lemma op_fails c l r e : Verified r = false -> op_post c l (Ret (r, Some e)) l.
Proof. split; [|done]. exists []. rewrite app_nil_r. split; [done|by left]. Qed.
Lemma op_succeeds c l r : Verified r = true -> verified_means c r -> op_post c l (Ret (r, None)) l.
Proof. split; [|done]. exists []. rewrite app_nil_r. split; [done|by left]. Qed.
Lemma op_lent c l ref r (e : option serr) :
  match e with None => Verified r = true /\ verified_means c r | Some _ => Verified r = false end ->
  op_post c l (Ret (r, e)) ((l ++ [Got ref]) ++ [Released ref]).
Proof.
  intros He. split; [|by destruct e]. exists [Got ref; Released ref].
  rewrite <- app_assoc. split; [done|right; by exists ref].
Qed.

Lemma op_cases c :
  Op c = opPut \/ Op c = opGet \/ Op c = opPutGet \/
  (String.eqb (Op c) opPut || String.eqb (Op c) opGet || String.eqb (Op c) opPutGet) = false.
Proof.
  destruct (String.eqb_spec (Op c) opPut), (String.eqb_spec (Op c) opGet), (String.eqb_spec (Op c) opPutGet); auto.
Qed.

Lemma rdma_ops_ok c l w : wp (rdma_ops c) (fun o l' _ => op_post c l o l') l w.
Proof.
  unfold rdma_ops, ensureBucketRDMA, putObjectRDMA, getObjectRDMA. cbv zeta.
  destruct (String.eqb_spec (Op c) opPut) as [E|E].
  { apply wp_bind, wp_bind, wp_host. intros [e|] w1 _; cbn [seq_post fmap option_fmap option_map];
      apply wp_ret; cbn [seq_post]; [by apply wp_ret, op_fails|].
    apply wp_bind, wp_bind, wp_host. intros [e|] w2 _; cbn [seq_post fmap option_fmap option_map];
      apply wp_ret; cbn [seq_post]; [by apply wp_ret, op_fails|].
    apply wp_ret, op_succeeds; [done|]. unfold verified_means. rewrite E. split_and!; done. }
  destruct (String.eqb_spec (Op c) opGet) as [E2|E2].
  { apply wp_bind, wp_bind, wp_host. intros [[[off size] tok]|e] w1 _; cbn [seq_post];
      [|apply wp_ret; cbn [seq_post]; by apply wp_ret, op_fails].
    apply wp_bind, wp_modify. cbn [seq_post]. apply wp_ret. cbn [seq_post].
    apply wp_bind, wp_host. intros rel w2 _. cbn [seq_post]. apply wp_bind, wp_modify. cbn [seq_post].
    destruct (Verify c && (0 <? PayloadSize c) && negb (size =? PayloadSize c)) eqn:Ev.
    - apply wp_ret. by apply op_lent.
    - apply wp_ret, op_lent. split; [done|]. unfold verified_means. rewrite E2. split_and!; try done.
      intros _ Hv Hs. rewrite Hv in Ev. simpl in *. bool_facts. lia. }
  destruct (String.eqb_spec (Op c) opPutGet) as [E3|E3]; [|by apply wp_ret, op_fails].
  apply wp_bind, wp_bind, wp_host. intros [e|] w1 _; cbn [seq_post fmap option_fmap option_map];
    apply wp_ret; cbn [seq_post]; [by apply wp_ret, op_fails|].
  apply wp_bind, wp_bind, wp_host. intros [e|] w2 _; cbn [seq_post fmap option_fmap option_map];
    apply wp_ret; cbn [seq_post]; [by apply wp_ret, op_fails|].
  apply wp_bind, wp_bind, wp_host. intros [ref|e] w3 _; cbn [seq_post].
  - apply wp_bind, wp_modify. cbn [seq_post]. apply wp_ret. cbn [seq_post].
    apply wp_bind, wp_host. intros rel w4 _. cbn [seq_post]. apply wp_bind, wp_modify. cbn [seq_post].
    apply wp_ret. by apply op_lent.
  - apply wp_ret. cbn [seq_post]. destruct (negb _); [by apply wp_ret, op_fails|].
    apply wp_ret, op_succeeds; [done|]. unfold verified_means. rewrite E3. split_and!; done.
Qed.

Lemma runTCP_ok c l w :
  wp (runTCP c) (fun o l' _ => l' = l /\ match o with
    | Ret (r, None) => Verified r = true /\ verified_means c r
    | Ret (r, Some _) => Verified r = false
    | _ => False end) l w.
Proof.
  assert (Hens : forall (Q : outcome Empty_set (option serr) -> list rdma_event -> W -> Prop) l w,
    (forall e w', Q (Ret e) l w') -> wp (ensureBucketTCP c) Q l w).
  { intros Q l0 w0 HQ. unfold ensureBucketTCP. apply wp_bind, wp_host. intros [e|] w1 _; cbn [seq_post]; [|apply wp_ret, HQ].
    destruct (api_code_in _ e); [apply wp_ret, HQ|]. apply wp_bind, wp_host.
    intros [e2|] w2 _; cbn [seq_post]; apply wp_ret, HQ. }
  assert (Hput : forall (Q : outcome Empty_set (option serr) -> list rdma_event -> W -> Prop) l w,
    (forall e w', Q (Ret e) l w') -> wp (putObjectTCP c) Q l w).
  { intros Q l0 w0 HQ. unfold putObjectTCP. apply wp_bind, wp_host. intros e w1 _. cbn [seq_post]. apply wp_ret, HQ. }
  assert (Hget : forall (Q : outcome Empty_set (res serr (list byte)) -> list rdma_event -> W -> Prop) l w,
    (forall e w', Q (Ret e) l w') -> wp (getObjectTCP c) Q l w).
  { intros Q l0 w0 HQ. unfold getObjectTCP. apply wp_bind, wp_host. intros [[b|e]|e] w1 _; cbn [seq_post]; apply wp_ret, HQ. }
  unfold runTCP. cbv zeta.
  destruct (String.eqb_spec (Op c) opPut) as [E|E].
  { apply wp_bind, Hens. intros [e|] w1; cbn [seq_post]; [done|].
    apply wp_bind, Hput. intros [e|] w2; cbn [seq_post]; [done|]. apply wp_ret. split_and!; [done|done|].
    unfold verified_means. rewrite E. by split_and!. }
  destruct (String.eqb_spec (Op c) opGet) as [E2|E2].
  { apply wp_bind, Hget. intros [body|e] w1; cbn [seq_post]; [|done].
    destruct (Verify c && (0 <? PayloadSize c) && negb (blen body =? PayloadSize c)) eqn:Ev; [done|].
    apply wp_ret. split_and!; [done|done|]. unfold verified_means. rewrite E2. split_and!; try done.
    intros _ Hv Hs. rewrite Hv in Ev. simpl in *. bool_facts. lia. }
  destruct (String.eqb_spec (Op c) opPutGet) as [E3|E3]; [|done].
  apply wp_bind, Hens. intros [e|] w1; cbn [seq_post]; [done|].
  apply wp_bind, Hput. intros [e|] w2; cbn [seq_post]; [done|].
  apply wp_bind, Hget. intros [body|e] w3; cbn [seq_post]; [done|]. destruct (negb _); [done|].
  apply wp_ret. split_and!; [done|done|]. unfold verified_means. rewrite E3. by split_and!.
Qed.

(** What was mapped is unmapped, the client closed before that, and a reference released
    before that. *)
Definition all_released (l : list rdma_event) : Prop :=
  l = [] \/ l = [Mapped; Unmapped] \/
  exists ev, settled ev /\ l = [Mapped; Opened] ++ ev ++ [ClosedClient; Unmapped].

(** The smoke run, on any configuration and whatever the server answers.  It always
    comes to a result; over RDMA whatever it has acquired it has released when it
    returns, a buffer reference before the client and the client before the memory, each
    once; it reports no error only for a verified result, which means that the PUT was
    accepted, the GET had the size asked for when it verifies, and the key of a
    PUT-then-GET was reported missing; and a configuration that Validate refuses touches
    nothing. *)
Theorem smoke_run_sound cfg w :
  let '(o, l, _) := Run cfg [] w in
  all_released l /\
  match o with
  | Ret (r, errs) =>
    (errs = [] -> Verified r = true /\ verified_means (normalized cfg) r) /\
    (Validate (normalized cfg) <> None -> l = [] /\ length errs = 1%nat /\ Verified r = false)
  | _ => False
  end.
Proof.
  set (Post := fun (o : outcome Empty_set (Result * list serr)) l (_ : W) =>
    all_released l /\
    match o with
    | Ret (r, errs) =>
      (errs = [] -> Verified r = true /\ verified_means (normalized cfg) r) /\
      (Validate (normalized cfg) <> None -> l = [] /\ length errs = 1%nat /\ Verified r = false)
    | _ => False
    end).
  assert (Hw : wp (Run cfg) Post [] w); [|unfold wp in Hw; by destruct (Run cfg [] w) as [[o l] w']].
  unfold Run. cbv zeta. set (c := normalized cfg) in *. clearbody c.
  destruct (Validate c) as [e|] eqn:Ev; [apply wp_ret; split; [by left|by split]|].
  destruct (String.eqb (Transport c) transportTCP).
  { apply wp_bind. eapply wp_mono; [apply runTCP_ok|].
    intros [[r [e|]]|[]| |] l w' [-> Ho]; cbn [seq_post]; try done; apply wp_ret; (split; [by left|by split]). }
  destruct (String.eqb (Transport c) transportRDMA); [|apply wp_ret; split; [by left|by split]].
  unfold runRDMA. apply wp_bind, wp_host. intros [e|] w1 _; cbn [seq_post]; [apply wp_ret; split; [by left|by split]|].
  apply wp_bind, wp_modify. cbn [seq_post app]. apply wp_bind, wp_host. intros [e|] w2 _; cbn [seq_post].
  { apply wp_bind, wp_host. intros u w3 _. cbn [seq_post]. apply wp_bind, wp_modify. cbn [seq_post app].
    apply wp_ret. split; [right; by left|by split]. }
  apply wp_bind, wp_modify. cbn [seq_post app]. apply wp_bind. eapply wp_mono; [apply rdma_ops_ok|].
  intros [[r e]|[]| |] l w3 [(ev & -> & Hset) Ho]; cbn [seq_post]; try done.
  apply wp_bind, wp_host. intros cl w4 _. cbn [seq_post]. apply wp_bind, wp_modify. cbn [seq_post].
  apply wp_bind, wp_host. intros u w5 _. cbn [seq_post]. apply wp_bind, wp_modify. cbn [seq_post].
  apply wp_ret. split.
  { right; right. exists ev. split; [done|]. simpl. by rewrite <- !app_assoc. }
  split; [|done]. destruct e; [done|]. intros _. done.
Qed.
End run_facts.

(** ** Runs *)

(** A server that has nothing but accepts everything; releasing a reference fails. *)
#[export] Instance smoke_sim : SmokeHost unit := {|
  tcp_create_bucket _ w := (None, w);
  tcp_head_bucket _ w := (None, w);
  tcp_put _ _ _ w := (None, w);
  tcp_get _ _ w := (Err {| code := Some "NoSuchKey"%string; text := "NoSuchKey" |}, w);
  shm_map _ _ w := (None, w);
  shm_unmap w := (None, w);
  rdma_new _ w := (None, w);
  rdma_close w := (None, w);
  rdma_ensure_bucket _ w := (None, w);
  rdma_put _ _ _ _ w := (None, w);
  rdma_get _ _ off _ w := (Ok (off, 4096, 1), w);
  rdma_release _ w := (Some (errorf "unknown token"), w);
|}.

Definition smoke_config (op : string) (put_offset : Z) : Config :=
  {| Transport := " RDMA "; Endpoint := ""; Bucket := "b"; Key := "k"; Op := op; Verify := true; PayloadSize := 0;
     RequestTimeout := 0; RDMAConnectTO := 0; RDMAControlTO := 0; RDMADataTO := 0; RDMASharedMem := 0;
     RDMASharedMemPath := ""; RDMAPutOffset := put_offset; RDMAGetOffset := -1; RDMAGetMaxSize := 0;
     RDMALowCPU := false; RDMAFrameSize := 0; RDMASendDepth := 0; RDMARecvDepth := 0; RDMAInlineBytes := 0;
     RDMASignalIntvl := 0 |}.

Lemma validated_windows_witness :
  let c := normalized (smoke_config "put" 4096) in
  (0 <= RDMAPutOffset c /\ 0 <= PayloadSize c /\ RDMAPutOffset c + PayloadSize c <= RDMASharedMem c) /\
  (0 <= RDMAGetOffset c /\ 0 < RDMAGetMaxSize c /\ RDMAGetOffset c + RDMAGetMaxSize c <= RDMASharedMem c) /\
  0 < RDMASharedMem c /\ Bucket c <> EmptyString /\ Key c <> EmptyString.
Proof. apply (validated_windows (smoke_config "put" 4096)); by vm_compute. Defined.

(** Two slips of the RDMA smoke run.  The deferred release of a GET assigns a variable
    that shadows the result, so that a release that fails is not reported; and the window
    checks add in int, so that an offset near its limit wraps around and passes, though
    the payload's slice would then panic. *)
Theorem smoke_rdma_slips :
  let get := Run (smoke_config "get" 0) [] tt in
  let far := normalized (smoke_config "put" (2 ^ 63 - 1)) in
  get.1.2 = [Mapped; Opened; Got (8 * 2 ^ 20, 4096, 1); Released (8 * 2 ^ 20, 4096, 1); ClosedClient; Unmapped] /\
  match get.1.1 with Ret (r, errs) => Verified r = true /\ errs = [] | _ => False end /\
  (rdma_release (8 * 2 ^ 20, 4096, 1) tt).1 <> None /\
  Validate far = None /\ RDMASharedMem far < RDMAPutOffset far.
Proof. by vm_compute. Qed.
