(* ===== verification/Commands.v ===== *)
(** * The programs' command lines (cmd/inmem-s3-server, cmd/s3-rdma-server, cmd/s3-rdma-smoke)

    Each program declares its flags with their defaults (NewFlagSet and RegisterFlags of
    internal/inmems3/app, the main functions of the others), parses its arguments
    (Flags.v), makes the configuration of App.v or Smoke.v of them and runs it.  What a
    main function ends with is its exit code.  The usage texts are in Usage.v. *)

From S2P Require Import Prelude VerbsConfig VerbsConn VerbsListen Flags App.
From S2P Require MemStore LoadedStore Smoke.

(** What the flags' pointers hold after Parse. *)
Definition bool_of (fs : FlagSet) (n : string) : bool :=
  match flag_get fs n with Some (VBool b) => b | _ => false end.
Definition int_of (fs : FlagSet) (n : string) : Z :=
  match flag_get fs n with Some (VInt z) => z | _ => 0 end.
Definition string_of (fs : FlagSet) (n : string) : string :=
  match flag_get fs n with Some (VString s) => s | _ => "" end.
Definition duration_of (fs : FlagSet) (n : string) : Z :=
  match flag_get fs n with Some (VDuration z) => z | _ => 0 end.

Definition exit_code : Type := Z.

(** A run, and [log.Fatal] or [os.Exit(1)] when it fails. *)
Definition exit_with {W S E A} (m : M W S E A) : M W S E exit_code :=
  let! r := catch m in ret (match r with Ok _ => 0 | Err _ => 1 end).

(** The flag package's [CommandLine]: ExitOnError. *)
Definition flag_exit (e : flag_err) : exit_code := match e with ErrHelp => 0 | _ => 2 end.

(** ** cmd/inmem-s3-server *)

Module InmemMain.
Import InmemApp.

(** The flags of a configuration, in the order of their declaration: [RegisterFlags]. *)
Definition RegisterFlags (c : Config) : FlagSet :=
  [("tcp-listen", VString (TCPListen c));
   ("enable-rdma-zcopy", VBool (EnableRDMAZCopy c));
   ("rdma-zcopy-listen", VString (RDMAZCopyListen c));
   ("rdma-backlog", VInt (RDMABacklog c));
   ("rdma-accept-workers", VInt (RDMAWorkers c));
   ("rdma-lowcpu", VBool (RDMALowCPU c));
   ("rdma-frame-payload", VInt (RDMAFramePayload c));
   ("rdma-send-depth", VInt (RDMASendDepth c));
   ("rdma-recv-depth", VInt (RDMARecvDepth c));
   ("rdma-inline-threshold", VInt (RDMAInline c));
   ("rdma-send-signal-interval", VInt (RDMASignalIntvl c));
   ("region", VString (Region c));
   ("max-object-size", VInt (MaxObjectSize c));
   ("store-max-bytes", VInt (StoreMaxBytes c));
   ("store-evict-policy", VString (StoreEvictPolicy c));
   ("payload-root", VString (PayloadRoot c));
   ("control-grpc-listen", VString (ControlGRPCListen c))]%string.

(** The configuration the flags write to. *)
Definition config_of (fs : FlagSet) : Config :=
  {| TCPListen := string_of fs "tcp-listen"; EnableRDMAZCopy := bool_of fs "enable-rdma-zcopy";
     RDMAZCopyListen := string_of fs "rdma-zcopy-listen"; RDMABacklog := int_of fs "rdma-backlog";
     RDMAWorkers := int_of fs "rdma-accept-workers"; RDMALowCPU := bool_of fs "rdma-lowcpu";
     RDMAFramePayload := int_of fs "rdma-frame-payload"; RDMASendDepth := int_of fs "rdma-send-depth";
     RDMARecvDepth := int_of fs "rdma-recv-depth"; RDMAInline := int_of fs "rdma-inline-threshold";
     RDMASignalIntvl := int_of fs "rdma-send-signal-interval"; Region := string_of fs "region";
     MaxObjectSize := int_of fs "max-object-size"; StoreMaxBytes := int_of fs "store-max-bytes";
     StoreEvictPolicy := string_of fs "store-evict-policy"; PayloadRoot := string_of fs "payload-root";
     ControlGRPCListen := string_of fs "control-grpc-listen" |}.

(** The set returns its errors (ContinueOnError). *)
Definition NewFlagSet (c : Config) : FlagSet := RegisterFlags c.

Section main.
Context {W : Type} `{!AppHost W}.

Definition main (args : list string) : M W (process MemStore.MemoryStore) (list AppErr) exit_code :=
  match Parse args (NewFlagSet DefaultConfig) with
  | ParseErr ErrHelp => ret 0
  | ParseErr _ => ret 1
  | Parsed fs _ => exit_with (Run (config_of fs))
  end.
End main.
End InmemMain.

(** ** cmd/s3-rdma-server *)

Module S3Main.
Import S3App.

Definition defaultTCPListen : string := "127.0.0.1:10090".
Definition defaultRDMAZCopyListen : string := "127.0.0.1:10191".
Definition defaultRegion : string := "us-east-1".
Definition defaultMaxObjectSize : Z := 64 * 2 ^ 20.
Definition defaultRDMAControlTO : Z := 30 * 10 ^ 9.
Definition defaultRDMADataTO : Z := 2 * 60 * 10 ^ 9.
Definition defaultRDMAIdleTO : Z := 5 * 60 * 10 ^ 9.

(** The flags with these values. *)
Definition flags_of (c : Config) : FlagSet :=
  [("debug", VBool (Debug c));
   ("tcp-listen", VString (TCPListen c));
   ("enable-rdma-zcopy", VBool (EnableRDMAZCopy c));
   ("rdma-zcopy-listen", VString (RDMAZCopyListen c));
   ("region", VString (Region c));
   ("payload-root", VString (PayloadRoot c));
   ("max-object-size", VInt (MaxObjectSize c));
   ("rdma-backlog", VInt (RDMABacklog c));
   ("rdma-accept-workers", VInt (RDMAWorkers c));
   ("rdma-lowcpu", VBool (RDMALowCPU c));
   ("rdma-frame-payload", VInt (RDMAFramePayload c));
   ("rdma-send-depth", VInt (RDMASendDepth c));
   ("rdma-recv-depth", VInt (RDMARecvDepth c));
   ("rdma-inline-threshold", VInt (RDMAInline c));
   ("rdma-send-signal-interval", VInt (RDMASignalIntvl c));
   ("rdma-control-timeout", VDuration (RDMAControlTO c));
   ("rdma-data-timeout", VDuration (RDMADataTO c));
   ("rdma-idle-timeout", VDuration (RDMAIdleTO c))]%string.

(** The defaults main declares them with. *)
Definition flag_defaults : Config :=
  {| Debug := false; TCPListen := defaultTCPListen; EnableRDMAZCopy := false;
     RDMAZCopyListen := defaultRDMAZCopyListen; RDMABacklog := DefaultVerbsListenBacklog;
     RDMAWorkers := DefaultVerbsAcceptWorkers; RDMALowCPU := false;
     RDMAFramePayload := DefaultVerbsFramePayloadSize; RDMASendDepth := DefaultVerbsSendQueueDepth;
     RDMARecvDepth := DefaultVerbsRecvQueueDepth; RDMAInline := DefaultVerbsInlineThreshold;
     RDMASignalIntvl := DefaultVerbsSendSignalInterval; RDMAControlTO := defaultRDMAControlTO;
     RDMADataTO := defaultRDMADataTO; RDMAIdleTO := defaultRDMAIdleTO; Region := defaultRegion;
     PayloadRoot := ""; MaxObjectSize := defaultMaxObjectSize |}.

Definition config_of (fs : FlagSet) : Config :=
  {| Debug := bool_of fs "debug"; TCPListen := string_of fs "tcp-listen";
     EnableRDMAZCopy := bool_of fs "enable-rdma-zcopy"; RDMAZCopyListen := string_of fs "rdma-zcopy-listen";
     RDMABacklog := int_of fs "rdma-backlog"; RDMAWorkers := int_of fs "rdma-accept-workers";
     RDMALowCPU := bool_of fs "rdma-lowcpu"; RDMAFramePayload := int_of fs "rdma-frame-payload";
     RDMASendDepth := int_of fs "rdma-send-depth"; RDMARecvDepth := int_of fs "rdma-recv-depth";
     RDMAInline := int_of fs "rdma-inline-threshold"; RDMASignalIntvl := int_of fs "rdma-send-signal-interval";
     RDMAControlTO := duration_of fs "rdma-control-timeout"; RDMADataTO := duration_of fs "rdma-data-timeout";
     RDMAIdleTO := duration_of fs "rdma-idle-timeout"; Region := string_of fs "region";
     PayloadRoot := string_of fs "payload-root"; MaxObjectSize := int_of fs "max-object-size" |}.

Section main.
Context {W : Type} `{!AppHost W}.

(** The log level aside. *)
Definition main (args : list string) : M W (process LoadedStore.MemoryStore) (list AppErr) exit_code :=
  match Parse args (flags_of flag_defaults) with
  | ParseErr e => ret (flag_exit e)
  | Parsed fs _ => exit_with (Run (config_of fs))
  end.
End main.
End S3Main.

(** ** cmd/s3-rdma-smoke *)

Module SmokeMain.
Import Smoke.

Definition defaultRDMAPutOffset : Z := 0.

Definition flags_of (c : Config) : FlagSet :=
  [("transport", VString (Transport c));
   ("endpoint", VString (Endpoint c));
   ("bucket", VString (Bucket c));
   ("key", VString (Key c));
   ("op", VString (Op c));
   ("verify", VBool (Verify c));
   ("payload-size", VInt (PayloadSize c));
   ("request-timeout", VDuration (RequestTimeout c));
   ("rdma-connect-timeout", VDuration (RDMAConnectTO c));
   ("rdma-control-timeout", VDuration (RDMAControlTO c));
   ("rdma-data-timeout", VDuration (RDMADataTO c));
   ("rdma-shared-memory-size", VInt (RDMASharedMem c));
   ("rdma-shared-memory-path", VString (RDMASharedMemPath c));
   ("rdma-put-offset", VInt (RDMAPutOffset c));
   ("rdma-get-offset", VInt (RDMAGetOffset c));
   ("rdma-get-max-size", VInt (RDMAGetMaxSize c));
   ("rdma-lowcpu", VBool (RDMALowCPU c));
   ("rdma-frame-payload", VInt (RDMAFrameSize c));
   ("rdma-send-depth", VInt (RDMASendDepth c));
   ("rdma-recv-depth", VInt (RDMARecvDepth c));
   ("rdma-inline-threshold", VInt (RDMAInlineBytes c));
   ("rdma-send-signal-interval", VInt (RDMASignalIntvl c))]%string.

Definition flag_defaults : Config :=
  {| Transport := defaultTransport; Endpoint := ""; Bucket := "bench-bucket"; Key := "smoke-object";
     Op := "put-get"; Verify := true; PayloadSize := defaultPayloadSize; RequestTimeout := defaultRequestTimeout;
     RDMAConnectTO := defaultRDMAConnectTO; RDMAControlTO := defaultRDMAControlTO; RDMADataTO := defaultRDMADataTO;
     RDMASharedMem := defaultRDMASharedMemSize; RDMASharedMemPath := ""; RDMAPutOffset := defaultRDMAPutOffset;
     RDMAGetOffset := defaultRDMAGetOffset; RDMAGetMaxSize := defaultRDMAGetMaxSize; RDMALowCPU := false;
     RDMAFrameSize := DefaultVerbsFramePayloadSize; RDMASendDepth := DefaultVerbsSendQueueDepth;
     RDMARecvDepth := DefaultVerbsRecvQueueDepth; RDMAInlineBytes := DefaultVerbsInlineThreshold;
     RDMASignalIntvl := DefaultVerbsSendSignalInterval |}.

Definition config_of (fs : FlagSet) : Config :=
  {| Transport := string_of fs "transport"; Endpoint := string_of fs "endpoint"; Bucket := string_of fs "bucket";
     Key := string_of fs "key"; Op := string_of fs "op"; Verify := bool_of fs "verify";
     PayloadSize := int_of fs "payload-size"; RequestTimeout := duration_of fs "request-timeout";
     RDMAConnectTO := duration_of fs "rdma-connect-timeout"; RDMAControlTO := duration_of fs "rdma-control-timeout";
     RDMADataTO := duration_of fs "rdma-data-timeout"; RDMASharedMem := int_of fs "rdma-shared-memory-size";
     RDMASharedMemPath := string_of fs "rdma-shared-memory-path"; RDMAPutOffset := int_of fs "rdma-put-offset";
     RDMAGetOffset := int_of fs "rdma-get-offset"; RDMAGetMaxSize := int_of fs "rdma-get-max-size";
     RDMALowCPU := bool_of fs "rdma-lowcpu"; RDMAFrameSize := int_of fs "rdma-frame-payload";
     RDMASendDepth := int_of fs "rdma-send-depth"; RDMARecvDepth := int_of fs "rdma-recv-depth";
     RDMAInlineBytes := int_of fs "rdma-inline-threshold"; RDMASignalIntvl := int_of fs "rdma-send-signal-interval" |}.

Section main.
Context {W : Type} `{!SmokeHost W}.

(** The exit code, and the line that is printed. *)
Definition main (args : list string) : M W (list rdma_event) Empty_set (exit_code * option string) :=
  match Parse args (flags_of flag_defaults) with
  | ParseErr e => ret (flag_exit e, None)
  | Parsed fs _ =>
    let! r := Run (config_of fs) in
    match r with
    | (result, []) => ret (0, Some (Summary result))
    | _ => ret (1, None)
    end
  end.
End main.
End SmokeMain.

(** ** Properties *)

Definition inmem_config_ok (c : InmemApp.Config) : Prop :=
  Forall (fun f => value_ok f.2) (InmemMain.RegisterFlags c).
Definition s3_config_ok (c : S3App.Config) : Prop := Forall (fun f => value_ok f.2) (S3Main.flags_of c).
Definition smoke_config_ok (c : Smoke.Config) : Prop := Forall (fun f => value_ok f.2) (SmokeMain.flags_of c).

(** The flags of a program are the same whatever their values; no two share a name. *)
Lemma inmem_flags (c : InmemApp.Config) : inmem_config_ok c ->
  Parse (render_arg <$> InmemMain.RegisterFlags c) (InmemMain.RegisterFlags InmemApp.DefaultConfig) =
  Parsed (InmemMain.RegisterFlags c) [].
Proof.
  intros Hc. apply parse_render; [by vm_compute| |by vm_compute|done].
  apply (bool_decide_unpack _). by vm_compute.
Qed.

Lemma s3_flags (c : S3App.Config) : s3_config_ok c ->
  Parse (render_arg <$> S3Main.flags_of c) (S3Main.flags_of S3Main.flag_defaults) = Parsed (S3Main.flags_of c) [].
Proof.
  intros Hc. apply parse_render; [by vm_compute| |by vm_compute|done].
  apply (bool_decide_unpack _). by vm_compute.
Qed.

Lemma smoke_flags (c : Smoke.Config) : smoke_config_ok c ->
  Parse (render_arg <$> SmokeMain.flags_of c) (SmokeMain.flags_of SmokeMain.flag_defaults) =
  Parsed (SmokeMain.flags_of c) [].
Proof.
  intros Hc. apply parse_render; [by vm_compute| |by vm_compute|done].
  apply (bool_decide_unpack _). by vm_compute.
Qed.

(** The flag --rdma-lowcpu of cmd/s3-rdma-server and of cmd/s3-rdma-smoke does nothing on
    its own: the programs declare --rdma-send-signal-interval with the default 1 instead
    of 0, and an interval that is given wins over the one of the low-CPU mode.  The
    in-memory server's flag, whose interval is 0 by default, asks for every 16th
    completion. *)
Definition interval_of (o : VerbsOptions) : option Z :=
  match normalize o with Ok c => Some (sendSignalIntvl c) | Err _ => None end.

Theorem lowcpu_flag_is_ignored :
  (exists fs, Parse ["--rdma-lowcpu"; "--enable-rdma-zcopy"]%string (S3Main.flags_of S3Main.flag_defaults) = Parsed fs [] /\
     S3App.RDMALowCPU (S3Main.config_of fs) = true /\ S3App.Validate (S3Main.config_of fs) = None /\
     interval_of (lo_VerbsOptions (S3App.listener_options (S3Main.config_of fs))) = Some 1) /\
  (exists fs, Parse ["--rdma-lowcpu"; "--enable-rdma-zcopy"]%string (InmemMain.RegisterFlags InmemApp.DefaultConfig) = Parsed fs [] /\
     InmemApp.Validate (InmemMain.config_of fs) = None /\
     interval_of (lo_VerbsOptions (InmemApp.listener_options (InmemMain.config_of fs))) = Some 16).
Proof. split; (eexists; split; [vm_compute; reflexivity|]); by vm_compute. Qed.

(** A bool flag takes no separate argument: what follows "--enable-rdma-zcopy" ends the
    flags, and those after it are dropped without an error. *)
Theorem bool_argument_ends_the_flags :
  exists fs, Parse ["--enable-rdma-zcopy"; "true"; "--tcp-listen"; ""]%string (S3Main.flags_of S3Main.flag_defaults) =
      Parsed fs ["true"; "--tcp-listen"; ""]%string /\
    S3App.EnableRDMAZCopy (S3Main.config_of fs) = true /\
    S3App.TCPListen (S3Main.config_of fs) = S3Main.defaultTCPListen.
Proof. eexists. split; [vm_compute; reflexivity|]. by vm_compute. Qed.

(** The defaults of the three programs are accepted. *)
Theorem defaults_are_valid :
  InmemApp.Validate (InmemApp.normalized InmemApp.DefaultConfig) = None /\
  S3App.Validate S3Main.flag_defaults = None /\ Smoke.Validate SmokeMain.flag_defaults = None.
Proof. by vm_compute. Qed.
