(* ===== verification/Usage.v ===== *)
(** * The usage texts of the two servers and of the smoke tool

    A usage text is its lines.  The theorem compares it with the flags the program
    declares (Commands.v): each has its entry, with the default it is declared with. *)

From S2P Require Import Prelude VerbsConfig VerbsListen Flags GoFmt App Commands.
From S2P Require MemStore Smoke.

#[local] Open Scope string_scope.

Definition tabs : string := String "009" (String "009" EmptyString).

(** The program's name, or else [default]. *)
Definition program (default name : string) : string :=
  path_base (if String.eqb name "" then default else name).

(** ** The texts *)

Module InmemUsage.
Import InmemApp.

(** It shows the values of [c]: those the flags have when it is printed. *)
Definition UsageText (c : Config) (name : string) : list string :=
  let name := program "inmem-s3-server" name in
  [
   "Usage:";
   "  " +:+ name +:+ " [flags]";
   "";
   "S3-compatible in-memory benchmark server.";
   "GET/HEAD/list read from the preloaded payload store. PUT validates uploads and discards their payload bytes.";
   "";
   "Data listeners (enable at least one):";
   "  --tcp-listen addr";
   "        HTTP/S3 listener address. Default: " +:+ (TCPListen c) +:+ ". Empty disables TCP.";
   "  --enable-rdma-zcopy";
   "        Enable the RDMA zcopy listener. Default: " +:+ fmt_t (EnableRDMAZCopy c) +:+ ".";
   "  --rdma-zcopy-listen addr";
   "        RDMA zcopy listener address when RDMA is enabled. Default: " +:+ (RDMAZCopyListen c) +:+ ".";
   "";
   "General behavior:";
   "  --region string";
   "        Region returned by the S3-compatible APIs. Default: " +:+ (Region c) +:+ ".";
   "  --max-object-size bytes";
   "        Per-upload size limit. Default: " +:+ fmt_d (MaxObjectSize c) +:+ ". Values <= 0 disable the limit.";
   "  --payload-root path";
   "        Optional startup preload directory. Top-level folders become buckets and nested files become object keys.";
   "  --control-grpc-listen addr";
   "        Optional gRPC control-plane listener for AddFolder/ListBuckets/DeleteBucket/ClearAll. Empty disables it.";
   "";
   "In-memory payload store:";
   "  --store-max-bytes bytes";
   "        Resident-byte limit for GET payloads. Default: " +:+ fmt_d (StoreMaxBytes c) +:+ " (unlimited).";
   "  --store-evict-policy string";
   "        Store-full behavior. Supported values: " +:+ MemStore.EvictPolicyReject +:+ ", " +:+ MemStore.EvictPolicyFIFO +:+ ". Default: " +:+ (StoreEvictPolicy c) +:+ ".";
   "";
   "RDMA tuning:";
   "  --rdma-backlog int";
   "        RDMA CM listen backlog. Default: " +:+ fmt_d (RDMABacklog c) +:+ ". A value of 0 uses the RDMA library default.";
   "  --rdma-accept-workers int";
   "        Concurrent RDMA accept workers. Default: " +:+ fmt_d (RDMAWorkers c) +:+ ". A value <= 0 uses the RDMA library default.";
   "  --rdma-frame-payload int";
   "        RDMA frame payload size in bytes. Default: 0 (library default " +:+ fmt_d DefaultVerbsFramePayloadSize +:+ ").";
   "  --rdma-send-depth int";
   "        RDMA send queue depth. Default: 0 (library default " +:+ fmt_d DefaultVerbsSendQueueDepth +:+ ").";
   "  --rdma-recv-depth int";
   "        RDMA recv queue depth. Default: 0 (library default " +:+ fmt_d DefaultVerbsRecvQueueDepth +:+ ").";
   "  --rdma-inline-threshold int";
   "        RDMA inline-send threshold in bytes. Default: 0 (library default " +:+ fmt_d DefaultVerbsInlineThreshold +:+ ").";
   "  --rdma-lowcpu";
   "        Prefer fewer RDMA completion signals when send signal interval is left at 0.";
   "  --rdma-send-signal-interval int";
   "        RDMA send completion interval. Default: 0 (library default " +:+ fmt_d DefaultVerbsSendSignalInterval +:+ ", or " +:+ fmt_d DefaultVerbsLowCPUSendSignalInterval +:+ " with --rdma-lowcpu)."].
End InmemUsage.

Module S3Usage.
Import S3Main.

Definition usageText (name : string) : list string :=
  let name := program "s3-rdma-server" name in
  [
   "Usage:";
   "  " +:+ name +:+ " [flags]";
   "";
   "Standalone benchmark server with minimal S3/TCP support and RDMA zcopy support.";
   "PUT payloads are received and discarded; only startup-loaded payload-root objects are readable via GET.";
   "";
   "General:";
   "  --debug";
   tabs +:+ "Enable debug logging. Default: false.";
   "  --region string";
   tabs +:+ "Region returned by the S3-compatible API. Default: " +:+ defaultRegion +:+ ".";
   "  --payload-root path";
   tabs +:+ "Optional startup preload directory for persistent GET objects. Default: " +:+ dquote +:+ dquote +:+ ".";
   "  --max-object-size bytes";
   tabs +:+ "Maximum accepted PUT size. Default: " +:+ fmt_d defaultMaxObjectSize +:+ ". Values <= 0 disable the limit.";
   "";
   "Data listeners:";
   "  --tcp-listen addr";
   tabs +:+ "HTTP/TCP listener address. Default: " +:+ defaultTCPListen +:+ ". Empty disables TCP.";
   "  --enable-rdma-zcopy";
   tabs +:+ "Enable the RDMA zcopy listener. Default: false.";
   "  --rdma-zcopy-listen addr";
   tabs +:+ "RDMA zcopy listener address. Default: " +:+ defaultRDMAZCopyListen +:+ ". For live RDMA traffic, use an RDMA-backed interface address.";
   "";
   "RDMA tuning:";
   "  --rdma-backlog int";
   tabs +:+ "RDMA listener backlog. Default: " +:+ fmt_d DefaultVerbsListenBacklog +:+ ". A value of 0 uses the RDMA library default.";
   "  --rdma-accept-workers int";
   tabs +:+ "RDMA accept worker count. Default: " +:+ fmt_d DefaultVerbsAcceptWorkers +:+ ". A value <= 0 uses the RDMA library default.";
   "  --rdma-frame-payload int";
   tabs +:+ "RDMA frame payload size in bytes. Default: " +:+ fmt_d DefaultVerbsFramePayloadSize +:+ ".";
   "  --rdma-send-depth int";
   tabs +:+ "RDMA send queue depth. Default: " +:+ fmt_d DefaultVerbsSendQueueDepth +:+ ".";
   "  --rdma-recv-depth int";
   tabs +:+ "RDMA recv queue depth. Default: " +:+ fmt_d DefaultVerbsRecvQueueDepth +:+ ".";
   "  --rdma-inline-threshold int";
   tabs +:+ "RDMA inline threshold in bytes. Default: " +:+ fmt_d DefaultVerbsInlineThreshold +:+ ".";
   "  --rdma-lowcpu";
   tabs +:+ "Prefer fewer RDMA completion signals when the signal interval is left at 0.";
   "  --rdma-send-signal-interval int";
   tabs +:+ "RDMA send completion interval. Default: " +:+ fmt_d DefaultVerbsSendSignalInterval +:+ ".";
   "  --rdma-control-timeout duration";
   tabs +:+ "Timeout for RDMA control messages. Default: " +:+ Duration_String defaultRDMAControlTO +:+ ".";
   "  --rdma-data-timeout duration";
   tabs +:+ "Timeout for RDMA payload transfer operations. Default: " +:+ Duration_String defaultRDMADataTO +:+ ".";
   "  --rdma-idle-timeout duration";
   tabs +:+ "Maximum idle wait for the next RDMA control message before the server closes the connection. Default: " +:+ Duration_String defaultRDMAIdleTO +:+ "."].
End S3Usage.

Module SmokeUsage.
Import Smoke SmokeMain.

Definition defaultBucket : string := "bench-bucket".
Definition defaultKey : string := "smoke-object".
Definition defaultOp : string := "put-get".

Definition usageText (name : string) : list string :=
  let name := program "s3-rdma-smoke" name in
  [
   "Usage:";
   "  " +:+ name +:+ " [flags]";
   "";
   "Combined smoke tool for the standalone s3-rdma-server.";
   "Use transport=tcp for the S3-compatible HTTP path or transport=rdma for the zcopy RDMA path.";
   "";
   "Common:";
   "  --transport string";
   tabs +:+ "Smoke transport: tcp or rdma. Default: " +:+ defaultTransport +:+ ".";
   "  --endpoint value";
   tabs +:+ "Server endpoint. Default depends on transport: tcp=http://127.0.0.1:10090, rdma=127.0.0.1:10191. For live RDMA runs, prefer an RDMA-backed interface address.";
   "  --bucket string";
   tabs +:+ "Bucket name. Default: " +:+ defaultBucket +:+ ".";
   "  --key string";
   tabs +:+ "Object key. Default: " +:+ defaultKey +:+ ".";
   "  --op string";
   tabs +:+ "Smoke operation: put, get, or put-get. Default: " +:+ defaultOp +:+ ".";
   "  --verify";
   tabs +:+ "Verify the expected smoke semantics. Default: true.";
   "  --payload-size bytes";
   tabs +:+ "Payload size in bytes. Used for PUT data and GET size checks. Default: " +:+ fmt_d defaultPayloadSize +:+ ".";
   "  --request-timeout duration";
   tabs +:+ "Per-operation timeout for the TCP path. Default: " +:+ Duration_String defaultRequestTimeout +:+ ".";
   "";
   "RDMA-only:";
   "  --rdma-connect-timeout duration";
   tabs +:+ "Timeout for opening the RDMA connection. Default: " +:+ Duration_String defaultRDMAConnectTO +:+ ".";
   "  --rdma-control-timeout duration";
   tabs +:+ "Timeout for RDMA control operations such as hello and ensure-bucket. Default: " +:+ Duration_String defaultRDMAControlTO +:+ ".";
   "  --rdma-data-timeout duration";
   tabs +:+ "Timeout for RDMA PUT/GET payload operations. Default: " +:+ Duration_String defaultRDMADataTO +:+ ".";
   "  --rdma-shared-memory-size bytes";
   tabs +:+ "Shared mmap region size. Default: " +:+ fmt_d defaultRDMASharedMemSize +:+ ".";
   "  --rdma-shared-memory-path path";
   tabs +:+ "Optional file-backed shared memory path. When empty, use anonymous mmap.";
   "  --rdma-put-offset bytes";
   tabs +:+ "PUT payload offset inside the shared memory region. Default: " +:+ fmt_d defaultRDMAPutOffset +:+ ".";
   "  --rdma-get-offset bytes";
   tabs +:+ "GET target offset inside the shared memory region. Default: " +:+ fmt_d defaultRDMAGetOffset +:+ ".";
   "  --rdma-get-max-size bytes";
   tabs +:+ "Maximum readable GET size inside the shared memory region. Default: " +:+ fmt_d defaultRDMAGetMaxSize +:+ ".";
   "  --rdma-lowcpu";
   tabs +:+ "Prefer lower CPU RDMA signaling behavior.";
   "  --rdma-frame-payload bytes";
   tabs +:+ "RDMA frame payload size. Default: " +:+ fmt_d DefaultVerbsFramePayloadSize +:+ ".";
   "  --rdma-send-depth int";
   tabs +:+ "RDMA send queue depth. Default: " +:+ fmt_d DefaultVerbsSendQueueDepth +:+ ".";
   "  --rdma-recv-depth int";
   tabs +:+ "RDMA recv queue depth. Default: " +:+ fmt_d DefaultVerbsRecvQueueDepth +:+ ".";
   "  --rdma-inline-threshold bytes";
   tabs +:+ "RDMA inline threshold. Default: " +:+ fmt_d DefaultVerbsInlineThreshold +:+ ".";
   "  --rdma-send-signal-interval int";
   tabs +:+ "RDMA send signal interval. Default: " +:+ fmt_d DefaultVerbsSendSignalInterval +:+ "."].
End SmokeUsage.

(** ** The entries of a text *)

Fixpoint word (s : string) : string :=
  match s with
  | EmptyString => EmptyString
  | String c r => if Ascii.eqb c " " then EmptyString else String c (word r)
  end.

(** The flags that have an entry, each with the line that describes it. *)
Fixpoint entries (ls : list string) : list (string * string) :=
  match ls with
  | [] => []
  | l :: ls' =>
    match strip_prefix "  --" l, ls' with
    | Some r, d :: _ => (word r, d) :: entries ls'
    | _, _ => entries ls'
    end
  end.

(** How a default is written. *)
Definition shown (v : value) : string :=
  match v with
  | VBool b => fmt_t b
  | VInt n => fmt_d n
  | VString s => if String.eqb s "" then dquote +:+ dquote else s
  | VFloat _ => ""
  | VDuration d => Duration_String d
  end.

(** The description gives no default, or the one of the flag. *)
Definition right_default (d : string) (v : value) : bool :=
  negb (Contains d "Default: ") ||
  Contains d ("Default: " +:+ shown v +:+ ".") || Contains d ("Default: " +:+ shown v +:+ " (").

(** Every flag has an entry that agrees with it, and every entry is one of a flag. *)
Definition describes (text : list string) (fs : FlagSet) : Prop :=
  Forall (fun f => exists d, (f.1, d) ∈ entries text /\ right_default d f.2 = true) fs /\
  Forall (fun e => e.1 ∈ fs.*1) (entries text) /\ NoDup (entries text).*1.

Definition described_in (es : list (string * string)) (f : string * value) : bool :=
  existsb (fun e => String.eqb e.1 f.1 && right_default e.2 f.2) es.

Lemma describes_dec text fs :
  forallb (described_in (entries text)) fs &&
  forallb (fun e => bool_decide (e.1 ∈ fs.*1)) (entries text) && bool_decide (NoDup (entries text).*1) = true ->
  describes text fs.
Proof.
  intros [[H1 H2]%andb_prop H3%bool_decide_eq_true]%andb_prop.
  rewrite forallb_forall in H1, H2. split_and!; [| |done]; apply Forall_forall.
  - intros f Hf. apply list_elem_of_In, H1, existsb_exists in Hf as ([n d] & Hin & [Hn Hd]%andb_prop).
    apply String.eqb_eq in Hn. simpl in Hn. subst n. exists d. split; [by apply list_elem_of_In|done].
  - intros e He. apply list_elem_of_In, H2, bool_decide_eq_true in He. done.
Qed.

(** The usage texts agree with the command lines: whatever the program is called, its
    text has exactly one entry for each flag the program declares and none for anything
    else, and where an entry gives a default it is the one the flag is declared with. *)
Theorem usage_describes_flags name :
  describes (drop 2 (InmemUsage.UsageText InmemApp.DefaultConfig name)) (InmemMain.NewFlagSet InmemApp.DefaultConfig) /\
  describes (drop 2 (S3Usage.usageText name)) (S3Main.flags_of S3Main.flag_defaults) /\
  describes (drop 2 (SmokeUsage.usageText name)) (SmokeMain.flags_of SmokeMain.flag_defaults).
Proof. split_and!; apply describes_dec; by vm_compute. Qed.

(** ** The text that -help prints *)

(** The values of the flags where Parse stops. *)
Fixpoint parse_state (args : list string) (fs : FlagSet) : FlagSet :=
  match args with
  | [] => fs
  | s :: args' =>
    match read_arg s with
    | ArgFlag name val =>
      match flag_get fs name with
      | None => fs
      | Some old =>
        let set v rest :=
          match Set_value old v with Some new => parse_state rest (flag_set fs name new) | None => fs end in
        if is_bool old then set (default "true" val) args'
        else match val, args' with
             | Some v, _ => set v args'
             | None, v :: args'' =>
               match Set_value old v with Some new => parse_state args'' (flag_set fs name new) | None => fs end
             | None, [] => fs
             end
      end
    | _ => fs
    end
  end.

(** The in-memory server's -help shows as defaults what the arguments before it have set. *)
Theorem help_shows_current_values :
  let fs := InmemMain.NewFlagSet InmemApp.DefaultConfig in
  let args := ["--region=eu-west-1"; "--max-object-size=7"; "-h"] in
  Parse args fs = ParseErr ErrHelp /\
  ~ describes (InmemUsage.UsageText (InmemMain.config_of (parse_state args fs)) "") fs /\
  ("max-object-size", "        Per-upload size limit. Default: 7. Values <= 0 disable the limit.") ∈
    entries (InmemUsage.UsageText (InmemMain.config_of (parse_state args fs)) "").
Proof.
  cbv zeta. split; [by vm_compute|]. set (text := InmemUsage.UsageText _ _).
  assert (He : (("max-object-size", "        Per-upload size limit. Default: 7. Values <= 0 disable the limit.") : string * string)
                 ∈ entries text) by (apply (bool_decide_unpack _); by vm_compute).
  split; [|done]. intros (H1 & _ & H3). rewrite Forall_forall in H1.
  destruct (H1 ("max-object-size", VInt (64 * 2 ^ 20))) as (d & Hd & Hr).
  { by apply (list_elem_of_lookup_2 _ 12). }
  assert (Hu : forall d', ("max-object-size", d') ∈ entries text -> right_default d' (VInt (64 * 2 ^ 20)) = false).
  { intros d' Hd'. assert (HF : forallb (fun e => negb (String.eqb e.1 "max-object-size") ||
      negb (right_default e.2 (VInt (64 * 2 ^ 20)))) (entries text) = true) by (by vm_compute).
    rewrite forallb_forall in HF. apply list_elem_of_In, HF in Hd'. simpl in Hd'. by apply negb_true_iff. }
  simpl in Hr, Hd. by rewrite (Hu d Hd) in Hr.
Qed.
