(* ===== verification/SharedMem.v ===== *)
(** * Shared memory regions (smoke.go: newSharedMemory; the demo's newSharedMmap)

    A region is mapped anonymously, or from a file that is opened, sized, mapped and
    closed again.  The state is the process's account of open descriptors and mappings;
    what the system answers is an argument.  A descriptor is gone after [file.Close]
    whatever that returns; a mapping stays when [syscall.Munmap] fails. *)

From S2P Require Import Prelude VerbsConn.

#[local] Open Scope go_scope.

(** A mapping: its address and its length. *)
Record mapping := { m_addr : Z; m_len : Z }.

#[export] Instance mapping_eq_dec : EqDecision mapping.
Proof. solve_decision. Defined.

Record account := { open_files : list Z; mappings : list mapping }.

(** What the system answers; [mkdir_of] is [os.MkdirAll] of the path's directory, and a
    mapping without a descriptor is an anonymous one. *)
Class ShmHost (W : Type) := {
  os_mkdir_of : string -> W -> option string * W;
  os_open : string -> W -> res string Z * W;
  os_truncate : Z -> Z -> W -> option string * W;
  os_mmap : option Z -> Z -> W -> res string Z * W;
  os_close : Z -> W -> option string * W;
  os_munmap : mapping -> W -> option string * W;
}.

(** An error: what failed, and what failed while cleaning up after it. *)
Inductive shm_err :=
| EMmap (e : string)
| EMkdir (e : string)
| EOpenFile (e : string)
| ETruncate (e : string) (close : option string)
| EMmapFile (e : string) (close : option string)
| ECloseFile (e : string) (unmap : option string).

Section Shm.
Context {W : Type} `{!ShmHost W}.
#[local] Abbreviation S := (M W account shm_err).

Definition note_open (fd : Z) : S unit :=
  modify (fun a => {| open_files := fd :: open_files a; mappings := mappings a |}).
Definition note_close (fd : Z) : S unit :=
  modify (fun a => {| open_files := list_difference (open_files a) [fd]; mappings := mappings a |}).
Definition note_map (m : mapping) : S unit :=
  modify (fun a => {| open_files := open_files a; mappings := m :: mappings a |}).
Definition note_unmap (m : mapping) : S unit :=
  modify (fun a => {| open_files := open_files a; mappings := list_difference (mappings a) [m] |}).

Definition close_file (fd : Z) : S (option string) :=
  let! e := host (os_close fd) in
  note_close fd;;
  ret e.

(** [syscall.Munmap(b)], the cleanup function of a region. *)
Definition munmap (m : mapping) : S (option string) :=
  let! e := host (os_munmap m) in
  match e with Some _ => ret e | None => note_unmap m;; ret None end.

Definition mmap (fd : option Z) (size : Z) : S (res string mapping) :=
  let! r := host (os_mmap fd size) in
  match r with
  | Err e => ret (Err e)
  | Ok a => let m := {| m_addr := a; m_len := size |} in note_map m;; ret (Ok m)
  end.

Definition newAnonymousSharedMemory (size : Z) : S mapping :=
  let! r := mmap None size in
  match r with Err e => fail (EMmap e) | Ok b => ret b end.

Definition newFileBackedSharedMemory (size : Z) (path : string) : S mapping :=
  let! mkErr := host (os_mkdir_of path) in
  match mkErr with
  | Some e => fail (EMkdir e)
  | None =>
    let! file := host (os_open path) in
    match file with
    | Err e => fail (EOpenFile e)
    | Ok fd =>
      note_open fd;;
      let! trErr := host (os_truncate fd size) in
      match trErr with
      | Some e => let! closeErr := close_file fd in fail (ETruncate e closeErr)
      | None =>
        let! b := mmap (Some fd) size in
        match b with
        | Err e => let! closeErr := close_file fd in fail (EMmapFile e closeErr)
        | Ok m =>
          let! closeErr := close_file fd in
          match closeErr with
          | Some e => let! unmapErr := munmap m in fail (ECloseFile e unmapErr)
          | None => ret m
          end
        end
      end
    end
  end.

Definition newSharedMemory (size : Z) (path : string) : S mapping :=
  if negb (String.eqb (TrimSpace path) "") then newFileBackedSharedMemory size path
  else newAnonymousSharedMemory size.

(** The demo's region, with the cleanup that only prints an error. *)
Definition newSharedMmap (size : Z) : S mapping := newAnonymousSharedMemory size.

(** ** Properties *)

(** The system gives descriptors and addresses that are not in use. *)
Definition fresh_in (a : account) : Prop :=
  (forall path w fd, (os_open path w).1 = Ok fd -> fd ∉ open_files a) /\
  (forall fd size w addr len, (os_mmap fd size w).1 = Ok addr -> {| m_addr := addr; m_len := len |} ∉ mappings a).

Lemma difference_head {A} `{EqDecision A} (x : A) l : x ∉ l -> list_difference (x :: l) [x] = l.
Proof.
  intros Hx. simpl. case_decide as Hin; [|by destruct Hin; apply list_elem_of_singleton]. clear Hin.
  induction l as [|y l IH]; [done|]. apply not_elem_of_cons in Hx as [Hy Hx]. simpl.
  case_decide as Hin; [apply list_elem_of_singleton in Hin; congruence|]. by rewrite IH.
Qed.

(** A region that is returned is mapped with the size asked for, and its file is closed;
    a call that fails leaves nothing open and nothing mapped, unless unmapping failed
    too, which its error says; and the cleanup function unmaps the region. *)
Theorem newSharedMemory_leaks_nothing size path a w :
  fresh_in a ->
  let '(out, a', w') := newSharedMemory size path a w in
  open_files a' = open_files a /\
  match out with
  | Ret m => m_len m = size /\ mappings a' = m :: mappings a /\
             ((munmap m a' w').1.1 = Ret None -> mappings (munmap m a' w').1.2 = mappings a)
  | Fail (ECloseFile _ (Some _)) => exists m, mappings a' = m :: mappings a
  | Fail _ => mappings a' = mappings a
  | _ => False
  end.
Proof.
  intros [Hf Hm]. unfold newSharedMemory. destruct (negb _).
  - unfold newFileBackedSharedMemory, mmap, munmap, close_file, note_open, note_close, note_map, note_unmap,
      bind, host, modify, ret, fail.
    destruct (os_mkdir_of path w) as [[e|] w1]; [by split|].
    destruct (os_open path w1) as [[fd|e] w2] eqn:Eo; [|by split].
    assert (Hfd : fd ∉ open_files a) by (apply (Hf path w1); by rewrite Eo).
    cbn [open_files mappings].
    destruct (os_truncate fd size w2) as [[e|] w3].
    { destruct (os_close fd w3) as [ce w4]. cbn [open_files mappings]. by rewrite (difference_head fd _ Hfd). }
    destruct (os_mmap (Some fd) size w3) as [[ad|e] w4] eqn:Em.
    + pose proof (Hm (Some fd) size w3 ad size) as Hnew. rewrite Em in Hnew. specialize (Hnew eq_refl).
      cbn [open_files mappings]. destruct (os_close fd w4) as [[e|] w5]; cbn [open_files mappings];
        rewrite (difference_head fd _ Hfd).
      * destruct (os_munmap _ w5) as [[e'|] w6]; cbn [open_files mappings]; (split; [done|]); [by eexists|].
        by rewrite (difference_head _ _ Hnew).
      * split; [done|]. split; [done|]. split; [done|].
        destruct (os_munmap _ w5) as [[e'|] w6]; cbn [open_files mappings]; [done|].
        intros _. by rewrite (difference_head _ _ Hnew).
    + destruct (os_close fd w4) as [ce w5]. cbn [open_files mappings]. by rewrite (difference_head fd _ Hfd).
  - unfold newAnonymousSharedMemory, mmap, munmap, note_map, note_unmap, bind, host, modify, ret, fail.
    destruct (os_mmap None size w) as [[ad|e] w1] eqn:Em; [|by split].
    pose proof (Hm None size w ad size) as Hnew. rewrite Em in Hnew. specialize (Hnew eq_refl).
    cbn [open_files mappings]. split; [done|]. split; [done|]. split; [done|].
    destruct (os_munmap _ w1) as [[e'|] w2]; cbn [open_files mappings]; [done|].
    intros _. by rewrite (difference_head _ _ Hnew).
Qed.
End Shm.

(** ** Runs *)

(** A system that numbers descriptors and addresses from a counter; the file cannot be
    closed, nor anything unmapped, when [ss_broken]. *)
Record shm_sim := { ss_next : Z; ss_broken : bool }.

#[export] Instance shm_sim_host : ShmHost shm_sim := {|
  os_mkdir_of _ w := (None, w);
  os_open _ w := (Ok (ss_next w), {| ss_next := ss_next w + 1; ss_broken := ss_broken w |});
  os_truncate _ _ w := (None, w);
  os_mmap _ _ w := (Ok (4096 * ss_next w), {| ss_next := ss_next w + 1; ss_broken := ss_broken w |});
  os_close _ w := (if ss_broken w then Some "EIO"%string else None, w);
  os_munmap _ w := (if ss_broken w then Some "EINVAL"%string else None, w);
|}.

Example file_region :
  (newSharedMemory 64 "/dev/shm/x" {| open_files := []; mappings := [] |} {| ss_next := 3; ss_broken := false |}).1 =
  (Ret {| m_addr := 16384; m_len := 64 |},
   {| open_files := []; mappings := [{| m_addr := 16384; m_len := 64 |}] |}).
Proof. by vm_compute. Qed.

Example broken_region :
  (newSharedMemory 64 "/dev/shm/x" {| open_files := []; mappings := [] |} {| ss_next := 3; ss_broken := true |}).1 =
  (Fail (ECloseFile "EIO" (Some "EINVAL"%string)),
   {| open_files := []; mappings := [{| m_addr := 16384; m_len := 64 |}] |}).
Proof. by vm_compute. Qed.

Lemma newSharedMemory_leaks_nothing_witness :
  let a := {| open_files := []; mappings := [] |} in
  let '(out, a', _) := newSharedMemory 64 " " a {| ss_next := 3; ss_broken := true |} in
  open_files a' = [] /\ out = Ret {| m_addr := 12288; m_len := 64 |}.
Proof.
  pose proof (newSharedMemory_leaks_nothing 64 " " {| open_files := []; mappings := [] |}
    {| ss_next := 3; ss_broken := true |}) as H.
  cbv zeta. destruct (newSharedMemory 64 " " _ _) as [[out a'] w'] eqn:E. vm_compute in E. injection E as <- <- <-.
  split; [|done]. apply H. split; intros; apply not_elem_of_nil.
Defined.
