(* ===== verification/Bench.v ===== *)
(** * The benchmark client (cmd/bench-client/main.go)

    Its configuration, the clients and keys of its jobs, the two ways it runs them, and
    the summary.  The closed loop (workers fed from a channel) and the open loop (jobs
    launched by tickers) are transition systems of Trans.v: the goroutines are lists of
    their positions in the code, the channels lists bounded as the code's are.  The HTTP
    operations are arguments. *)

From Stdlib Require Import SpecFloat.
From S2P Require Import Prelude Trans Floats GoFmt Control.

#[local] Open Scope go_scope.

(** ** Configuration *)

Record benchConfig := {
  mode : string;
  op : string;
  endpoint : string;
  region : string;
  bucket : string;
  keyPrefix : string;
  iterations : Z;
  concurrency : Z;
  targetRPS : float64;
  duration : Z;
  warmup : Z;
  objectSize : Z;
  requestTimeout : Z;
  accessKey : string;
  secretKey : string;
  verbose : bool;
  jsonPath : string;
  prefillCount : Z;
  rdmaLowCPU : bool;
  rdmaFramePayload : Z;
  rdmaSendDepth : Z;
  rdmaRecvDepth : Z;
  rdmaInline : Z;
  rdmaSignalIntvl : Z;
  rdmaMaxConns : Z;
  rdmaSharePool : bool;
  rdmaSharePoolKey : string;
  rdmaEndpointPool : Z;
  rdmaEndpointWarm : bool;
  rdmaSharedMemBgt : Z;
  rdmaEndpointMux : bool;
  rdmaEndpointSend : Z;
  s3ClientCount : Z;
  openLoopFanout : bool;
}.

Definition normalizeEndpoint (in_ : string) : string :=
  let v := TrimSpace in_ in
  if HasPrefix v "http://" || HasPrefix v "https://" then v else "http://" +:+ v.

(** What parseFlags does after flag.Parse. *)
Definition parseFlags (c : benchConfig) : benchConfig :=
  {| mode := ToLower (TrimSpace (mode c)); op := ToLower (TrimSpace (op c));
     endpoint := normalizeEndpoint (endpoint c); region := region c; bucket := bucket c;
     keyPrefix := keyPrefix c; iterations := iterations c; concurrency := concurrency c;
     targetRPS := targetRPS c; duration := duration c; warmup := warmup c; objectSize := objectSize c;
     requestTimeout := requestTimeout c; accessKey := accessKey c; secretKey := secretKey c;
     verbose := verbose c; jsonPath := jsonPath c; prefillCount := prefillCount c;
     rdmaLowCPU := rdmaLowCPU c; rdmaFramePayload := rdmaFramePayload c; rdmaSendDepth := rdmaSendDepth c;
     rdmaRecvDepth := rdmaRecvDepth c; rdmaInline := rdmaInline c; rdmaSignalIntvl := rdmaSignalIntvl c;
     rdmaMaxConns := rdmaMaxConns c; rdmaSharePool := rdmaSharePool c;
     rdmaSharePoolKey := rdmaSharePoolKey c; rdmaEndpointPool := rdmaEndpointPool c;
     rdmaEndpointWarm := rdmaEndpointWarm c; rdmaSharedMemBgt := rdmaSharedMemBgt c;
     rdmaEndpointMux := rdmaEndpointMux c; rdmaEndpointSend := rdmaEndpointSend c;
     s3ClientCount := s3ClientCount c; openLoopFanout := openLoopFanout c |}.

Definition known_op (o : string) : bool :=
  String.eqb o "put" || String.eqb o "get" || String.eqb o "put-get".

(** The switch on target-rps and duration. *)
Definition validateLoop (cfg : benchConfig) : option string :=
  if f64_eq (targetRPS cfg) f64_zero && (duration cfg =? 0) then
    if iterations cfg <=? 0 then Some "iterations must be > 0"%string
    else if concurrency cfg <=? 0 then Some "concurrency must be > 0"%string
    else None
  else if f64_lt f64_zero (targetRPS cfg) && (0 <? duration cfg) then None
  else Some "target-rps and duration must be set together"%string.

Definition validateConfig (cfg : benchConfig) : option string :=
  if negb (String.eqb (mode cfg) "tcp") && negb (String.eqb (mode cfg) "rdma") then
    Some "mode must be tcp or rdma"%string
  else if negb (known_op (op cfg)) then Some "op must be put, get, or put-get"%string
  else if f64_lt (targetRPS cfg) f64_zero then Some "target-rps must be >= 0"%string
  else if duration cfg <? 0 then Some "duration must be >= 0"%string
  else
    match validateLoop cfg with
    | Some e => Some e
    | None =>
      if objectSize cfg <? 0 then Some "object-size must be >= 0"%string
      else if requestTimeout cfg <=? 0 then Some "request-timeout must be > 0"%string
      else if String.eqb (bucket cfg) "" then Some "bucket must not be empty"%string
      else if String.eqb (keyPrefix cfg) "" then Some "key-prefix must not be empty"%string
      else if s3ClientCount cfg <=? 0 then Some "s3-client-count must be > 0"%string
      else None
    end.

Definition isOpenLoopMode (cfg : benchConfig) : bool :=
  f64_lt f64_zero (targetRPS cfg) && (0 <? duration cfg).

(** ** Clients *)

(** A client: its serial number, the connections its transport is limited to, and the
    options it is made with. *)
Record s3_client := {
  serial : Z;
  maxConnsPerHost : Z;
  Region : string;
  BaseEndpoint : string;
  UsePathStyle : bool;
  Credentials : string * string;
}.

Definition newS3Client (cfg : benchConfig) (n maxConns : Z) : res string s3_client :=
  if String.eqb (mode cfg) "rdma" then
    Err "bench-client rdma mode is no longer supported; use mode=tcp or s3-rdma-zcopy-demo"%string
  else Ok {| serial := n; maxConnsPerHost := maxConns; Region := region cfg; BaseEndpoint := endpoint cfg;
             UsePathStyle := true; Credentials := (accessKey cfg, secretKey cfg) |}.

(** [for i := 0; i < cfg.s3ClientCount; i++], with [n] rounds left. *)
Fixpoint make_clients (cfg : benchConfig) (n : nat) (i : Z) : res string (list s3_client) :=
  match n with
  | O => Ok []
  | S n' =>
    let maxConns := if String.eqb (mode cfg) "rdma" then rdmaMaxConns cfg else 0 in
    try client <- newS3Client cfg i maxConns;
    try rest <- make_clients cfg n' (i + 1);
    Ok (client :: rest)
  end.

Definition newS3Clients (cfg : benchConfig) : res string (list s3_client) :=
  let count := Z.to_nat (s3ClientCount cfg) in
  if String.eqb (mode cfg) "rdma" && rdmaSharePool cfg && (1 <? s3ClientCount cfg) then
    try sharedClient <- newS3Client cfg 0 (rdmaMaxConns cfg);
    Ok (replicate count sharedClient)
  else make_clients cfg count 0.

(** [clients[idx%len(clients)]], with [n] clients; [None]: the index panics. *)
Definition selectClient (n idx : Z) : option Z :=
  if n =? 0 then None
  else let r := Z.rem idx n in if r <? 0 then None else Some r.

(** ** Jobs *)

Definition objectKey (prefix : string) (i : Z) : string := prefix +:+ "-" +:+ fmt_0d 8 i.

Definition makePayload (n : Z) : list byte :=
  (fun i => byte_of_Z (Z.land (Z.of_nat i * 31 + 7) 255)) <$> seq 0 (Z.to_nat n).

(** The number of objects that a GET benchmark puts beforehand. *)
Definition prefill_count (cfg : benchConfig) : Z :=
  if String.eqb (op cfg) "get" && (prefillCount cfg <=? 0) then
    if isOpenLoopMode cfg then i64_of_f64 (f64_ceil (f64_mul (targetRPS cfg) (Seconds (duration cfg))))
    else iterations cfg
  else prefillCount cfg.

(** The object a job works on. *)
Definition key_index (cfg : benchConfig) (prefillCount i : Z) : Z :=
  if String.eqb (op cfg) "get" && (0 <? prefillCount) then Z.rem i prefillCount else i.
Definition job_key (cfg : benchConfig) (prefillCount i : Z) : string :=
  objectKey (keyPrefix cfg) (key_index cfg prefillCount i).

Section operations.
Context {W : Type} (put get : string -> W -> option string * W).

Definition runOperation (op key : string) (w : W) : option string * W :=
  if String.eqb op "put" then put key w
  else if String.eqb op "get" then get key w
  else if String.eqb op "put-get" then
    match put key w with
    | (Some e, w') => (Some e, w')
    | (None, w') => get key w'
    end
  else (Some ("unsupported op " +:+ Quote op), w).

(** [for i := 0; i < count; i++] from [i], with [n] rounds left. *)
Fixpoint prefill (cfg : benchConfig) (n : nat) (i : Z) (w : W) : option string * W :=
  match n with
  | O => (None, w)
  | S n' =>
    let key := objectKey (keyPrefix cfg) i in
    match put key w with
    | (Some e, w') => (Some ("prefill key=" +:+ key +:+ ": " +:+ e), w')
    | (None, w') => prefill cfg n' (i + 1) w'
    end
  end.

Fixpoint runWarmup (cfg : benchConfig) (prefillCount : Z) (n : nat) (i : Z) (w : W) : option string * W :=
  match n with
  | O => (None, w)
  | S n' =>
    match runOperation (op cfg) (job_key cfg prefillCount i) w with
    | (Some e, w') => (Some e, w')
    | (None, w') => runWarmup cfg prefillCount n' (i + 1) w'
    end
  end.
End operations.

(** ** Collecting results *)

Record opResult := { latency : Z; err : option string }.

(** The variables of a collector; [errs] has the capacity 8. *)
Record tally := { durations : list Z; failed : Z; errs : list string }.

Definition no_tally : tally := {| durations := []; failed := 0; errs := [] |}.

Definition collect (t : tally) (r : opResult) : tally :=
  match err r with
  | Some e =>
    {| durations := durations t; failed := failed t + 1;
       errs := if blen (errs t) <? 8 then errs t ++ [e] else errs t |}
  | None => {| durations := durations t ++ [latency r]; failed := failed t; errs := errs t |}
  end.

(** A goroutine that runs jobs: waiting for one, running one, sending its result, gone. *)
Inductive task :=
| TIdle
| TRun (job : Z)
| TSend (job : Z) (r : opResult)
| TGone.

Definition is_gone (p : task) : bool := match p with TGone => true | _ => false end.

(** ** The closed loop

    A result is kept with the number of its job, which the code does not have. *)

Record closed_loop := {
  fed : Z;                                (* jobs sent on the channel [jobs] *)
  jobs_closed : bool;
  workers : list task;
  results : list (Z * opResult);
  counted : list (Z * opResult);          (* received by the collecting loop, in order *)
  counts : tally;
  returned : bool;
}.

Definition start_closed (cfg : benchConfig) : closed_loop :=
  {| fed := 0; jobs_closed := false; workers := replicate (Z.to_nat (concurrency cfg)) TIdle;
     results := []; counted := []; counts := no_tally; returned := false |}.

Inductive closed_action :=
| CFeed (i : nat)                  (* jobs <- i, received by worker [i] *)
| CCloseJobs                       (* close(jobs) *)
| CDone (i : nat) (r : opResult)   (* the worker's operation ends *)
| CPost (i : nat)                  (* results <- opResult *)
| CExit (i : nat)                  (* the range over jobs ends *)
| CCollect                         (* r := <-results *)
| CReturn.                         (* wg.Wait(), after the collecting loop *)

Definition closed_with (s : closed_loop) (n : Z) (ws : list task) (rs : list (Z * opResult)) : closed_loop :=
  {| fed := n; jobs_closed := jobs_closed s; workers := ws; results := rs; counted := counted s;
     counts := counts s; returned := returned s |}.

Definition closed_act (iters : Z) (a : closed_action) (s : closed_loop) : option closed_loop :=
  match a with
  | CFeed i =>
    match workers s !! i with
    | Some TIdle =>
      if fed s <? iters then Some (closed_with s (fed s + 1) (<[i := TRun (fed s)]> (workers s)) (results s))
      else None
    | _ => None
    end
  | CCloseJobs =>
    if (fed s =? iters) && negb (jobs_closed s) then
      Some {| fed := fed s; jobs_closed := true; workers := workers s; results := results s;
              counted := counted s; counts := counts s; returned := returned s |}
    else None
  | CDone i r =>
    match workers s !! i with
    | Some (TRun j) => Some (closed_with s (fed s) (<[i := TSend j r]> (workers s)) (results s))
    | _ => None
    end
  | CPost i =>
    match workers s !! i with
    | Some (TSend j r) =>
      if blen (results s) <? iters then
        Some (closed_with s (fed s) (<[i := TIdle]> (workers s)) (results s ++ [(j, r)]))
      else None
    | _ => None
    end
  | CExit i =>
    match workers s !! i with
    | Some TIdle =>
      if jobs_closed s then Some (closed_with s (fed s) (<[i := TGone]> (workers s)) (results s)) else None
    | _ => None
    end
  | CCollect =>
    match results s with
    | (j, r) :: rest =>
      if blen (counted s) <? iters then
        Some {| fed := fed s; jobs_closed := jobs_closed s; workers := workers s; results := rest;
                counted := counted s ++ [(j, r)]; counts := collect (counts s) r; returned := returned s |}
      else None
    | [] => None
    end
  | CReturn =>
    if (blen (counted s) =? iters) && forallb is_gone (workers s) && negb (returned s) then
      Some {| fed := fed s; jobs_closed := jobs_closed s; workers := workers s; results := results s;
              counted := counted s; counts := counts s; returned := true |}
    else None
  end.

(** ** The open loop

    One scheduler per ticker: a single one in runBenchmarkOpenLoopGlobal, one per client in
    runBenchmarkOpenLoopPerClient.  The number of a job is its position in [tasks]. *)

Record open_loop := {
  timer_fired : bool;
  scheds : list bool;                     (* [true]: still scheduling *)
  tasks : list task;
  chan : list (Z * opResult);
  chan_closed : bool;
  o_counted : list (Z * opResult);
  o_counts : tally;
  o_returned : bool;
}.

Definition start_open (n : nat) : open_loop :=
  {| timer_fired := false; scheds := replicate n true; tasks := []; chan := []; chan_closed := false;
     o_counted := []; o_counts := no_tally; o_returned := false |}.

(** The number of schedulers. *)
Definition schedulers (cfg : benchConfig) (clients : Z) : nat :=
  if openLoopFanout cfg && (1 <? clients) && f64_le (f64_of_Z clients) (targetRPS cfg)
  then Z.to_nat clients else 1.

(** The client of a job launched by the scheduler [k]. *)
Definition job_client (cfg : benchConfig) (clients : Z) (k : nat) (job : Z) : option Z :=
  if openLoopFanout cfg && (1 <? clients) && f64_le (f64_of_Z clients) (targetRPS cfg)
  then Some (Z.of_nat k) else selectClient clients job.

(** What float64(time.Second) / targetRPS becomes as a duration. *)
Definition openLoopInterval (targetRPS : float64) : Z :=
  let interval := i64_of_f64 (f64_div (f64_of_Z (10 ^ 9)) targetRPS) in
  if interval <? 1 then 1 else interval.

Inductive open_action :=
| OTick (k : nat)                  (* <-ticker.C: launch the next job *)
| OTimer                           (* the timer fires *)
| OStop (k : nat)                  (* the scheduler sees it *)
| ODone (i : nat) (r : opResult)
| OPost (i : nat)                  (* results <- opResult *)
| OCollect
| OClose                           (* runWG.Wait(); close(results) *)
| OReturn.                         (* collectWG.Wait() *)

Definition open_with (s : open_loop) (f : bool) (ks : list bool) (ts : list task)
    (c : list (Z * opResult)) : open_loop :=
  {| timer_fired := f; scheds := ks; tasks := ts; chan := c; chan_closed := chan_closed s;
     o_counted := o_counted s; o_counts := o_counts s; o_returned := o_returned s |}.

Definition open_act (a : open_action) (s : open_loop) : option open_loop :=
  match a with
  | OTick k =>
    match scheds s !! k with
    | Some true => Some (open_with s (timer_fired s) (scheds s) (tasks s ++ [TRun (blen (tasks s))]) (chan s))
    | _ => None
    end
  | OTimer => if timer_fired s then None else Some (open_with s true (scheds s) (tasks s) (chan s))
  | OStop k =>
    match scheds s !! k with
    | Some true =>
      if timer_fired s then Some (open_with s true (<[k := false]> (scheds s)) (tasks s) (chan s)) else None
    | _ => None
    end
  | ODone i r =>
    match tasks s !! i with
    | Some (TRun j) => Some (open_with s (timer_fired s) (scheds s) (<[i := TSend j r]> (tasks s)) (chan s))
    | _ => None
    end
  | OPost i =>
    match tasks s !! i with
    | Some (TSend j r) =>
      if (blen (chan s) <? 4096) && negb (chan_closed s) then
        Some (open_with s (timer_fired s) (scheds s) (<[i := TGone]> (tasks s)) (chan s ++ [(j, r)]))
      else None
    | _ => None
    end
  | OCollect =>
    match chan s with
    | (j, r) :: rest =>
      Some {| timer_fired := timer_fired s; scheds := scheds s; tasks := tasks s; chan := rest;
              chan_closed := chan_closed s; o_counted := o_counted s ++ [(j, r)];
              o_counts := collect (o_counts s) r; o_returned := o_returned s |}
    | [] => None
    end
  | OClose =>
    if forallb negb (scheds s) && forallb is_gone (tasks s) && negb (chan_closed s) then
      Some {| timer_fired := timer_fired s; scheds := scheds s; tasks := tasks s; chan := chan s;
              chan_closed := true; o_counted := o_counted s; o_counts := o_counts s; o_returned := o_returned s |}
    else None
  | OReturn =>
    match chan s with
    | [] =>
      if chan_closed s && negb (o_returned s) then
        Some {| timer_fired := timer_fired s; scheds := scheds s; tasks := tasks s; chan := [];
                chan_closed := true; o_counted := o_counted s; o_counts := o_counts s; o_returned := true |}
      else None
    | _ => None
    end
  end.

(** ** The summary *)

Definition p50 : float64 := Eval vm_compute in f64_div (f64_of_Z 50) (f64_of_Z 100).
Definition p95 : float64 := Eval vm_compute in f64_div (f64_of_Z 95) (f64_of_Z 100).
Definition p99 : float64 := Eval vm_compute in f64_div (f64_of_Z 99) (f64_of_Z 100).

(** [None]: the index is out of range. *)
Definition percentile (ds : list Z) (p : float64) : option Z :=
  match ds with
  | [] => Some 0
  | d :: _ =>
    if f64_le p f64_zero then Some d
    else if f64_le f64_one p then last ds
    else
      let idx := i64_of_f64 (f64_mul (f64_of_Z (blen ds - 1)) p) in
      if idx <? 0 then None else ds !! Z.to_nat idx
  end.

(** Durations in nanoseconds.  A percentile that is [None] is an index that panics; the
    theorem [summary_is_ordered] excludes it.  FallbackDialAttempts and Errors are set by
    the loops. *)
Record benchSummary := {
  Timestamp : string;
  Mode : string;
  Operation : string;
  Endpoint : string;
  SummaryRegion : string;
  Bucket : string;
  BenchmarkModel : string;
  OpenLoopDispatch : string;
  Iterations : Z;
  Concurrency : Z;
  ClientCount : Z;
  TargetRPS : float64;
  TargetDuration : Z;
  Warmup : Z;
  ObjectSize : Z;
  Elapsed : Z;
  Success : Z;
  Failed : Z;
  ThroughputReqPerSec : float64;
  ThroughputMBPerSec : float64;
  AverageLatency : Z;
  P50Latency : option Z;
  P95Latency : option Z;
  P99Latency : option Z;
  MinLatency : Z;
  MaxLatency : Z;
}.

Definition sort_durations (ds : list Z) : list Z := merge_sort Z.le ds.

(** [total += d], in int64. *)
Definition total_of (ds : list Z) : Z := fold_left (fun t d => i64 (t + d)) ds 0.

(** [launched]: the argument [iterations]; [now]: the time, written as RFC 3339. *)
Definition summarize (now : string) (cfg : benchConfig) (ds : list Z) (nfailed elapsed launched : Z) : benchSummary :=
  let success := blen ds in
  let is_open := isOpenLoopMode cfg in
  let sorted := sort_durations ds in
  let perSec x := f64_div x (Seconds elapsed) in
  let bytesPerOp := if String.eqb (op cfg) "put-get" then i64 (objectSize cfg * 2) else objectSize cfg in
  {| Timestamp := now; Mode := mode cfg; Operation := op cfg; Endpoint := endpoint cfg;
     SummaryRegion := region cfg; Bucket := bucket cfg;
     BenchmarkModel := if is_open then "open-loop"%string else "closed-loop"%string;
     OpenLoopDispatch := if negb is_open then ""%string
                         else if openLoopFanout cfg then "per-client-fanout"%string else "single-global"%string;
     Iterations := launched; Concurrency := if is_open then 0 else concurrency cfg;
     ClientCount := s3ClientCount cfg; TargetRPS := targetRPS cfg; TargetDuration := duration cfg;
     Warmup := warmup cfg; ObjectSize := objectSize cfg; Elapsed := elapsed;
     Success := success; Failed := nfailed;
     ThroughputReqPerSec := if success =? 0 then f64_zero else perSec (f64_of_Z success);
     ThroughputMBPerSec := if success =? 0 then f64_zero
       else f64_div (perSec (f64_of_Z (i64 (success * bytesPerOp)))) (f64_of_Z (1024 * 1024));
     AverageLatency := if success =? 0 then 0 else Z.quot (total_of sorted) success;
     P50Latency := percentile sorted p50; P95Latency := percentile sorted p95; P99Latency := percentile sorted p99;
     MinLatency := hd 0 sorted; MaxLatency := List.last sorted 0 |}.

(** ** Accounts of the jobs *)

Definition run_of (p : task) : list Z := match p with TRun j => [j] | _ => [] end.
Definition send_of (p : task) : list (Z * opResult) := match p with TSend j r => [(j, r)] | _ => [] end.
Definition running (ts : list task) : list Z := concat (run_of <$> ts).
Definition sending (ts : list task) : list (Z * opResult) := concat (send_of <$> ts).

(** The first [n] jobs: each is running, or its result is being sent, in the channel
    or counted. *)
Definition accounted_for (n : Z) (ts : list task) (ch cn : list (Z * opResult)) : Prop :=
  0 <= n /\ seqZ 0 n ≡ₚ running ts ++ (sending ts ++ ch ++ cn).*1.

Lemma seqZ_next n : 0 <= n -> seqZ 0 (n + 1) = seqZ 0 n ++ [n].
Proof. intros Hn. by rewrite seqZ_app by lia. Qed.

Lemma all_gone_empty ts : forallb is_gone ts = true -> running ts = [] /\ sending ts = [].
Proof.
  intros Hg. induction ts as [|p l IH]; [done|]. simpl in Hg. apply andb_prop in Hg as [H1 H2].
  destruct p; try done. by apply IH.
Qed.

Section accounts.
Context {n : Z} {ts : list task} {ch cn : list (Z * opResult)} (Hok : accounted_for n ts ch cn).

Lemma acc_start i : ts !! i = Some TIdle -> accounted_for (n + 1) (<[i := TRun n]> ts) ch cn.
Proof.
  destruct Hok as [Hn Hp]. intros Hi. split; [lia|].
  pose proof (concat_insert run_of ts i TIdle (TRun n) Hi) as H1.
  pose proof (concat_insert send_of ts i TIdle (TRun n) Hi) as H2. simpl in H1, H2.
  rewrite seqZ_next, Hp by done. unfold running, sending. rewrite H1, H2. solve_Permutation.
Qed.

Lemma acc_launch : accounted_for (n + 1) (ts ++ [TRun n]) ch cn.
Proof.
  destruct Hok as [Hn Hp]. split; [lia|]. rewrite seqZ_next, Hp by done. unfold running, sending.
  rewrite !fmap_app, !concat_app. simpl. rewrite app_nil_r. solve_Permutation.
Qed.

Lemma acc_done i j r : ts !! i = Some (TRun j) -> accounted_for n (<[i := TSend j r]> ts) ch cn.
Proof.
  destruct Hok as [Hn Hp]. intros Hi. split; [done|].
  pose proof (concat_insert run_of ts i _ (TSend j r) Hi) as H1.
  pose proof (concat_insert send_of ts i _ (TSend j r) Hi) as H2. simpl in H1, H2.
  rewrite Hp. unfold running, sending. rewrite <- H1, H2. simpl. solve_Permutation.
Qed.

Lemma acc_post i j r p : ts !! i = Some (TSend j r) -> p = TIdle \/ p = TGone ->
  accounted_for n (<[i := p]> ts) (ch ++ [(j, r)]) cn.
Proof.
  destruct Hok as [Hn Hp]. intros Hi Hpp. split; [done|].
  pose proof (concat_insert run_of ts i _ p Hi) as H1.
  pose proof (concat_insert send_of ts i _ p Hi) as H2.
  rewrite Hp. unfold running, sending. destruct Hpp; subst p; simpl in H1, H2; rewrite H1, <- H2, !fmap_app;
    simpl; solve_Permutation.
Qed.

Lemma acc_exit i : ts !! i = Some TIdle -> accounted_for n (<[i := TGone]> ts) ch cn.
Proof.
  destruct Hok as [Hn Hp]. intros Hi. split; [done|].
  pose proof (concat_insert run_of ts i _ TGone Hi) as H1.
  pose proof (concat_insert send_of ts i _ TGone Hi) as H2. simpl in H1, H2.
  rewrite Hp. unfold running, sending. by rewrite H1, H2.
Qed.

Lemma acc_collect x rest : ch = x :: rest -> accounted_for n ts rest (cn ++ [x]).
Proof. destruct Hok as [Hn Hp]. intros ->. split; [done|]. rewrite Hp, !fmap_app. simpl. solve_Permutation. Qed.

Lemma acc_room : blen (running ts) + blen (sending ts) + blen ch + blen cn = n.
Proof.
  destruct Hok as [Hn Hp]. apply Permutation_length in Hp.
  rewrite length_seqZ, length_app, length_fmap, !length_app in Hp. unfold blen. lia.
Qed.

(** Nothing runs and nothing is being sent: each of the jobs has been counted once. *)
Lemma acc_all_gone : forallb is_gone ts = true -> seqZ 0 n ≡ₚ (ch ++ cn).*1.
Proof.
  destruct Hok as [Hn Hp]. intros Hg. rewrite Hp.
  by destruct (all_gone_empty ts Hg) as [-> ->].
Qed.
End accounts.

(** What a collector has after the results [rs]. *)
Definition tally_of (rs : list (Z * opResult)) : tally := fold_left (fun t x => collect t x.2) rs no_tally.

Lemma tally_snoc rs x : tally_of (rs ++ [x]) = collect (tally_of rs) x.2.
Proof. unfold tally_of. by rewrite fold_left_app. Qed.

(** The latencies of the successes, the number of failures, the first eight errors. *)
Lemma tally_spec rs :
  durations (tally_of rs) = omap (fun x => match err x.2 with Some _ => None | None => Some (latency x.2) end) rs /\
  failed (tally_of rs) = blen (omap (fun x => err x.2) rs) /\
  errs (tally_of rs) = take 8 (omap (fun x => err x.2) rs).
Proof.
  induction rs as [|x rs (IH1 & IH2 & IH3)] using rev_ind; [done|]. rewrite tally_snoc.
  rewrite !omap_app. unfold collect. simpl. destruct (err x.2) as [e|] eqn:Ee; simpl; rewrite ?app_nil_r.
  - split_and!; [done|rewrite IH2; unfold blen; rewrite length_app; simpl; lia|].
    rewrite IH3. set (l := omap _ rs). unfold blen. rewrite length_take, take_app.
    destruct (Z.ltb_spec (Z.of_nat (8 `min` length l)) 8).
    + rewrite (take_ge [e]) by (simpl; lia). done.
    + replace (8 - length l)%nat with 0%nat by lia. by rewrite app_nil_r.
  - by rewrite IH1.
Qed.

Lemma tally_total rs : blen (durations (tally_of rs)) + failed (tally_of rs) = blen rs.
Proof.
  induction rs as [|x rs IH] using rev_ind; [done|]. rewrite tally_snoc. unfold collect.
  unfold blen in *. rewrite length_app. destruct (err x.2); simpl; rewrite ?length_app; simpl; lia.
Qed.

(** ** The closed loop counts every job once and comes to its end *)

Section closed.
Context (iters : Z).
#[local] Abbreviation reaches := (reaches_by (closed_act iters)).
#[local] Abbreviation run := (run_by (closed_act iters)).

Record closed_ok (s : closed_loop) : Prop := {
  ck_acc : accounted_for (fed s) (workers s) (results s) (counted s);
  ck_fed : fed s <= iters;
  ck_jobs : jobs_closed s = true -> fed s = iters;
  ck_gone : forall i, workers s !! i = Some TGone -> jobs_closed s = true;
  ck_counts : counts s = tally_of (counted s);
  ck_ret : returned s = true -> blen (counted s) = iters /\ forallb is_gone (workers s) = true;
}.

(** A worker's step. *)
Lemma closed_with_ok s i p p' n rs :
  closed_ok s -> workers s !! i = Some p -> p <> TGone -> (p' = TGone -> jobs_closed s = true) ->
  accounted_for n (<[i := p']> (workers s)) rs (counted s) -> n <= iters -> (jobs_closed s = true -> n = iters) ->
  closed_ok (closed_with s n (<[i := p']> (workers s)) rs).
Proof.
  intros Hs Hi Hp Hp' Hacc Hn Hj. split; try done; simpl; [|apply Hs|].
  - intros k [(-> & E & _)|[_ Hk]]%list_lookup_insert_Some; [by apply Hp'|by apply (ck_gone s Hs k)].
  - intros Hr. apply (ck_ret s Hs) in Hr as [_ Hg]. pose proof (forallb_at _ _ _ _ Hg Hi). by destruct p.
Qed.

Lemma closed_act_ok a s s' : closed_ok s -> closed_act iters a s = Some s' -> closed_ok s'.
Proof.
  intros Hs Ha. pose proof (ck_acc s Hs) as Hacc. destruct a as [i| |i r|i|i| |]; simpl in Ha.
  - destruct (workers s !! i) as [[]|] eqn:Hi; simplify_eq. destruct (fed s <? iters) eqn:E; simplify_eq. bool_facts.
    eapply closed_with_ok; [done|exact Hi|done|done|by apply acc_start|lia|].
    intros Hj. apply (ck_jobs s Hs) in Hj. lia.
  - destruct (_ && _) eqn:E; simplify_eq. bool_facts. destruct Hs. by split.
  - destruct (workers s !! i) as [[]|] eqn:Hi; simplify_eq.
    eapply closed_with_ok; [done|exact Hi|done|done|by eapply acc_done|apply Hs|apply Hs].
  - destruct (workers s !! i) as [[]|] eqn:Hi; simplify_eq. case_match; simplify_eq.
    eapply closed_with_ok; [done|exact Hi|done|done|eapply acc_post; eauto|apply Hs|apply Hs].
  - destruct (workers s !! i) as [[]|] eqn:Hi; simplify_eq. destruct (jobs_closed s) eqn:E; simplify_eq.
    eapply closed_with_ok; [done|exact Hi|done|done|by apply acc_exit|apply Hs|]. intros _. by apply (ck_jobs s Hs).
  - destruct (results s) as [|[j r] rest] eqn:Er; simplify_eq. destruct (_ <? _) eqn:E; simplify_eq. bool_facts.
    split; simpl; [by eapply acc_collect|apply Hs|apply Hs|apply Hs|by rewrite (ck_counts s Hs), tally_snoc|].
    intros Hr. apply (ck_ret s Hs) in Hr. lia.
  - destruct (_ && _) eqn:E; simplify_eq. bool_facts. destruct Hs. by split.
Qed.

Lemma start_closed_ok cfg : 0 <= iters -> closed_ok (start_closed cfg).
Proof.
  intros Hi. split; simpl; try done.
  - split; [done|]. simpl. unfold running, sending. induction (Z.to_nat (concurrency cfg)) as [|n IH]; done.
  - intros i Hg. apply lookup_replicate in Hg as [? _]. done.
Qed.

Lemma closed_reaches_ok cfg s : 0 <= iters -> reaches (start_closed cfg) s -> closed_ok s.
Proof. intros Hi. apply (reaches_inv _ closed_ok closed_act_ok), start_closed_ok, Hi. Qed.

(** Four steps for a job and its result, one for each of the others. *)
Definition task_rank (p : task) : nat :=
  match p with TIdle => 1 | TRun _ => 4 | TSend _ _ => 3 | TGone => 0 end.
Definition closed_rank (s : closed_loop) : nat :=
  4 * Z.to_nat (iters - fed s) + sum_list (task_rank <$> workers s) + length (results s) +
  (if jobs_closed s then 0 else 1) + (if returned s then 0 else 1).

Lemma closed_lowers a s s' :
  closed_ok s -> closed_act iters a s = Some s' -> closed_rank s = S (closed_rank s').
Proof.
  intros Hs Ha. unfold closed_rank. destruct a as [i| |i r|i|i| |]; simpl in Ha.
  - destruct (workers s !! i) as [[]|] eqn:Hi; simplify_eq. destruct (fed s <? iters) eqn:E; simplify_eq. bool_facts.
    pose proof (sum_list_insert task_rank (workers s) i _ (TRun (fed s)) Hi) as Hr. simpl in *. lia.
  - destruct (_ && _) eqn:E; simplify_eq. bool_facts. simpl. destruct (jobs_closed s); [done|lia].
  - destruct (workers s !! i) as [[]|] eqn:Hi; simplify_eq.
    pose proof (sum_list_insert task_rank (workers s) i _ (TSend job r) Hi) as Hr. simpl in *. lia.
  - destruct (workers s !! i) as [[]|] eqn:Hi; simplify_eq. case_match; simplify_eq.
    pose proof (sum_list_insert task_rank (workers s) i _ TIdle Hi) as Hr. simpl in *. rewrite length_app. simpl. lia.
  - destruct (workers s !! i) as [[]|] eqn:Hi; simplify_eq. destruct (jobs_closed s) eqn:E; simplify_eq.
    pose proof (sum_list_insert task_rank (workers s) i _ TGone Hi) as Hr. simpl in *. rewrite E. lia.
  - destruct (results s) as [|[j r] rest] eqn:Er; simplify_eq. case_match; simplify_eq. simpl. lia.
  - destruct (_ && _) eqn:E; simplify_eq. bool_facts. simpl. destruct (returned s); [done|lia].
Qed.

(** Until the loop has returned some goroutine can take a step: no deadlock. *)
Lemma closed_enabled s :
  closed_ok s -> (0 < length (workers s))%nat -> returned s = false ->
  exists a, is_Some (closed_act iters a s).
Proof.
  intros Hs Hw Hr. pose proof (acc_room (ck_acc s Hs)) as Hroom. pose proof (ck_fed s Hs) as Hfed.
  pose proof (blen_nonneg (running (workers s))) as B1. pose proof (blen_nonneg (sending (workers s))) as B2.
  pose proof (blen_nonneg (counted s)) as B3.
  destruct (forallb is_gone (workers s)) eqn:Eg.
  - (* all workers have left: collect what is in the channel, then return *)
    assert (Hj : jobs_closed s = true).
    { destruct (workers s) as [|p ws] eqn:Ew; [simpl in Hw; lia|]. simpl in Eg. apply andb_prop in Eg as [Hp _].
      apply (ck_gone s Hs 0). rewrite Ew. by destruct p. }
    apply (ck_jobs s Hs) in Hj. destruct (results s) as [|[j r] rest] eqn:Er.
    + assert (E : blen (counted s) = iters).
      { pose proof (acc_all_gone (ck_acc s Hs) Eg) as Hp. rewrite Er in Hp. apply Permutation_length in Hp.
        rewrite length_seqZ, length_fmap in Hp. unfold blen in *. simpl in Hp. destruct (ck_acc s Hs). lia. }
      exists CReturn. simpl. by rewrite E, Z.eqb_refl, Eg, Hr.
    + exists CCollect. simpl. rewrite Er. destruct (Z.ltb_spec (blen (counted s)) iters) as [|Hge]; [done|].
      unfold blen in *. simpl in Hroom. lia.
  - apply forallb_not in Eg as (i & p & Hi & Hp). destruct p as [|j|j r|]; try done.
    + destruct (Z.ltb_spec (fed s) iters) as [Hlt|Hge].
      * exists (CFeed i). simpl. by rewrite Hi, (proj2 (Z.ltb_lt _ _) Hlt).
      * destruct (jobs_closed s) eqn:Ej; [exists (CExit i)|exists CCloseJobs]; simpl; rewrite ?Hi, Ej; [done|].
        by rewrite (proj2 (Z.eqb_eq (fed s) iters)) by lia.
    + exists (CDone i {| latency := 0; err := None |}). simpl. by rewrite Hi.
    + exists (CPost i). simpl. rewrite Hi.
      assert (Hone : 1 <= blen (sending (workers s))).
      { pose proof (concat_insert send_of (workers s) i _ TGone Hi) as Hc. apply Permutation_length in Hc.
        unfold sending, blen. simpl in Hc. lia. }
      by rewrite (proj2 (Z.ltb_lt (blen (results s)) iters)) by lia.
Qed.

Lemma closed_workers a s s' : closed_act iters a s = Some s' -> length (workers s') = length (workers s).
Proof.
  intros Ha. destruct a as [i| |i r|i|i| |]; simpl in Ha; repeat case_match; simplify_eq; simpl; by rewrite ?length_insert.
Qed.
End closed.

(** C34: the closed loop, in any reachable state, whatever the order of its goroutines' steps
    and whatever the operations return.  No job is given to two workers and no result is
    counted twice; a result always finds room in its channel; what the collector has are
    the latencies of the successes, the number of the failures and the first eight error
    texts among the results it has received.  Once the loop has returned, the results of
    exactly the jobs 0 to iterations - 1 have been counted and every worker is gone. *)
Theorem closed_loop_counts_jobs cfg s :
  0 <= iterations cfg -> reaches_by (closed_act (iterations cfg)) (start_closed cfg) s ->
  NoDup (running (workers s) ++ (sending (workers s) ++ results s ++ counted s).*1) /\
  (forall i j r, workers s !! i = Some (TSend j r) -> is_Some (closed_act (iterations cfg) (CPost i) s)) /\
  durations (counts s) = omap (fun x => match err x.2 with Some _ => None | None => Some (latency x.2) end) (counted s) /\
  failed (counts s) = blen (omap (fun x => err x.2) (counted s)) /\
  errs (counts s) = take 8 (omap (fun x => err x.2) (counted s)) /\
  (returned s = true ->
     (counted s).*1 ≡ₚ seqZ 0 (iterations cfg) /\
     blen (durations (counts s)) + failed (counts s) = iterations cfg /\
     forallb is_gone (workers s) = true).
Proof.
  intros Hn Hr. pose proof (closed_reaches_ok _ cfg s Hn Hr) as Hs.
  rewrite (ck_counts _ s Hs). destruct (tally_spec (counted s)) as (T1 & T2 & T3). split_and!; try done.
  - destruct (ck_acc _ s Hs) as [_ Hp]. rewrite <- Hp. apply NoDup_seqZ.
  - intros i j r Hi. pose proof (acc_room (ck_acc _ s Hs)) as Hroom. pose proof (ck_fed _ s Hs) as Hfed.
    pose proof (blen_nonneg (running (workers s))). pose proof (blen_nonneg (counted s)). simpl. rewrite Hi.
    pose proof (concat_insert send_of (workers s) i _ TGone Hi) as Hc. apply Permutation_length in Hc.
    unfold sending, blen in *. simpl in Hc.
    by rewrite (proj2 (Z.ltb_lt (Z.of_nat (length (results s))) (iterations cfg))) by lia.
  - intros Hret. destruct (ck_ret _ s Hs Hret) as [Hc Hg]. rewrite tally_total. split_and!; [|done|done].
    assert (Hf : fed s = iterations cfg).
    { pose proof (acc_room (ck_acc _ s Hs)). pose proof (ck_fed _ s Hs).
      pose proof (blen_nonneg (running (workers s))). pose proof (blen_nonneg (sending (workers s))).
      pose proof (blen_nonneg (results s)). lia. }
    pose proof (acc_all_gone (ck_acc _ s Hs) Hg) as Hp. rewrite Hf in Hp. rewrite Hp.
    assert (E : results s = []).
    { pose proof (acc_room (ck_acc _ s Hs)). pose proof (blen_nonneg (running (workers s))).
      pose proof (blen_nonneg (sending (workers s))). destruct (results s); [done|]. unfold blen in *. simpl in *. lia. }
    by rewrite E.
Qed.

(** The closed loop ends, when every operation does: from any reachable state with at least
    one worker, a run of the goroutines is no longer than four steps per job left and
    one per result and worker, and where it can go no further the loop has returned. *)
Theorem closed_loop_ends cfg s l s' :
  0 <= iterations cfg -> 0 < concurrency cfg ->
  reaches_by (closed_act (iterations cfg)) (start_closed cfg) s -> run_by (closed_act (iterations cfg)) l s = Some s' ->
  (length l <= closed_rank (iterations cfg) s)%nat /\
  ((forall a, closed_act (iterations cfg) a s' = None) -> returned s' = true).
Proof.
  intros Hn Hc Hr Hrun. set (act := closed_act (iterations cfg)) in *.
  assert (Hs : closed_ok (iterations cfg) s /\ (0 < length (workers s))%nat).
  { split; [by apply (closed_reaches_ok _ cfg)|]. clear Hrun. induction Hr as [|s1 a s2 Hr IH Ha].
    - simpl. rewrite length_replicate. lia.
    - by rewrite (closed_workers _ a s1 s2 Ha). }
  destruct (run_bounded act (closed_ok (iterations cfg)) (closed_act_ok _) (fun _ => true)
    (closed_rank (iterations cfg)) (fun s => (0 < length (workers s))%nat)) with (l := l) (s := s) (s' := s')
    as (Hlen & Hs' & Hw'); [|apply Hs|apply Hs|by apply forallb_forall|done|].
  { intros a s1 s2 H1 H2 _ Ha. rewrite (closed_workers _ a s1 s2 Ha).
    rewrite (closed_lowers _ a s1 s2 H1 Ha). split; [lia|done]. }
  split; [lia|]. intros Hend. destruct (returned s') eqn:E; [done|].
  destruct (closed_enabled _ s' Hs' Hw' E) as (a & s2 & Ha). unfold act in Hend. by rewrite Hend in Ha.
Qed.

(** ** The open loop *)

#[local] Abbreviation reaches := (reaches_by open_act).
#[local] Abbreviation run := (run_by open_act).

Record open_ok (s : open_loop) : Prop := {
  oc_acc : accounted_for (blen (tasks s)) (tasks s) (chan s) (o_counted s);
  oc_tasks : forall i, tasks s !! i <> Some TIdle;
  oc_closed : chan_closed s = true -> forallb negb (scheds s) = true /\ forallb is_gone (tasks s) = true;
  oc_counts : o_counts s = tally_of (o_counted s);
  oc_ret : o_returned s = true -> chan_closed s = true /\ chan s = [];
}.

Lemma chan_open_task s i p : open_ok s -> tasks s !! i = Some p -> p <> TGone -> chan_closed s = false.
Proof.
  intros Hs Hi Hp. destruct (chan_closed s) eqn:E; [|done]. apply (oc_closed s Hs) in E as [_ Hg].
  pose proof (forallb_at _ _ _ _ Hg Hi). by destruct p.
Qed.

Lemma chan_open_sched s k : open_ok s -> scheds s !! k = Some true -> chan_closed s = false.
Proof.
  intros Hs Hk. destruct (chan_closed s) eqn:E; [|done]. apply (oc_closed s Hs) in E as [Hg _].
  pose proof (forallb_at _ _ _ _ Hg Hk). done.
Qed.

(** A step before the channel is closed. *)
Lemma open_with_ok s f ks ts c :
  open_ok s -> chan_closed s = false -> (forall i, ts !! i <> Some TIdle) ->
  accounted_for (blen ts) ts c (o_counted s) -> open_ok (open_with s f ks ts c).
Proof.
  intros Hs Hc Ht Hacc. split; try done; simpl; [congruence|apply Hs|].
  intros Hr. apply (oc_ret s Hs) in Hr as [? _]. congruence.
Qed.

Lemma open_task_ok s f i p p' c :
  open_ok s -> tasks s !! i = Some p -> p <> TGone -> p' <> TIdle ->
  accounted_for (blen (tasks s)) (<[i := p']> (tasks s)) c (o_counted s) ->
  open_ok (open_with s f (scheds s) (<[i := p']> (tasks s)) c).
Proof.
  intros Hs Hi Hp Hp' Hacc. apply open_with_ok; [done|by eapply chan_open_task| |].
  - intros k [(_ & E & _)|[_ Hk]]%list_lookup_insert_Some; [done|by apply (oc_tasks s Hs k)].
  - unfold blen. by rewrite length_insert.
Qed.

Lemma open_act_ok a s s' : open_ok s -> open_act a s = Some s' -> open_ok s'.
Proof.
  intros Hs Ha. pose proof (oc_acc s Hs) as Hacc. destruct a as [k| |k|i r|i| | |]; simpl in Ha.
  - destruct (scheds s !! k) as [[]|] eqn:Hk; simplify_eq. apply open_with_ok; [done|by eapply chan_open_sched| |].
    + intros i [Hi|[_ Hi]]%lookup_app_Some; [by apply (oc_tasks s Hs i)|].
      apply list_lookup_singleton_Some in Hi as [_ Hi]. done.
    + rewrite blen_app. apply (acc_launch Hacc).
  - destruct (timer_fired s); simplify_eq. destruct Hs. by split.
  - destruct (scheds s !! k) as [[]|] eqn:Hk; simplify_eq. destruct (timer_fired s); simplify_eq.
    apply open_with_ok; [done|by eapply chan_open_sched|apply Hs|done].
  - destruct (tasks s !! i) as [[]|] eqn:Hi; simplify_eq.
    eapply open_task_ok; [done|exact Hi|done|done|by eapply acc_done].
  - destruct (tasks s !! i) as [[]|] eqn:Hi; simplify_eq. case_match; simplify_eq.
    eapply open_task_ok; [done|exact Hi|done|done|eapply acc_post; eauto].
  - destruct (chan s) as [|[j r] rest] eqn:Ec; simplify_eq.
    split; simpl; [by eapply acc_collect|apply Hs|apply Hs|by rewrite (oc_counts s Hs), tally_snoc|].
    intros Hr. apply (oc_ret s Hs) in Hr as [_ Hr]. congruence.
  - destruct (_ && _) eqn:E; simplify_eq. bool_facts. destruct Hs as [? ? ? ? Hr]. split; try done. simpl.
    intros [Hc _]%Hr. congruence.
  - destruct (chan s) as [|] eqn:Ec; simplify_eq. destruct (_ && _) eqn:E; simplify_eq. bool_facts.
    destruct Hs as [? ? Hc ? ?]. rewrite Ec in *. split; try done. simpl. intros _. by apply Hc.
Qed.

Lemma open_reaches_ok n s : reaches (start_open n) s -> open_ok s.
Proof. apply (reaches_inv _ open_ok open_act_ok). by split. Qed.

Definition open_rank (s : open_loop) : nat :=
  sum_list (task_rank <$> tasks s) + length (chan s) + (if timer_fired s then 0 else 1) +
  (if chan_closed s then 0 else 1) + (if o_returned s then 0 else 1).

Lemma open_lowers a s s' :
  open_ok s -> forallb negb (scheds s) = true -> open_act a s = Some s' ->
  (open_rank s' < open_rank s)%nat /\ forallb negb (scheds s') = true.
Proof.
  intros Hs Hk Ha. unfold open_rank. destruct a as [k| |k|i r|i| | |]; simpl in Ha.
  - destruct (scheds s !! k) as [[]|] eqn:E; simplify_eq. pose proof (forallb_at _ _ _ _ Hk E). done.
  - destruct (timer_fired s) eqn:E; simplify_eq. simpl. split; [lia|done].
  - destruct (scheds s !! k) as [[]|] eqn:E; simplify_eq. pose proof (forallb_at _ _ _ _ Hk E). done.
  - destruct (tasks s !! i) as [[]|] eqn:Hi; simplify_eq. split; [|done].
    pose proof (sum_list_insert task_rank (tasks s) i _ (TSend job r) Hi) as Hr. simpl in *. lia.
  - destruct (tasks s !! i) as [[]|] eqn:Hi; simplify_eq. case_match; simplify_eq. split; [|done].
    pose proof (sum_list_insert task_rank (tasks s) i _ TGone Hi) as Hr. simpl in *. rewrite length_app. simpl. lia.
  - destruct (chan s) as [|[j r] rest] eqn:Ec; simplify_eq. simpl. split; [lia|done].
  - destruct (_ && _) eqn:E; simplify_eq. bool_facts. simpl. destruct (chan_closed s); [done|]. split; [lia|done].
  - destruct (chan s) as [|] eqn:Ec; simplify_eq. destruct (_ && _) eqn:E; simplify_eq. bool_facts. simpl.
    destruct (chan_closed s), (o_returned s); try done. split; [lia|done].
Qed.

Lemma open_enabled s :
  open_ok s -> forallb negb (scheds s) = true -> o_returned s = false -> exists a, is_Some (open_act a s).
Proof.
  intros Hs Hk Hr. destruct (chan s) as [|[j r] rest] eqn:Ec; [|exists OCollect; simpl; by rewrite Ec].
  destruct (forallb is_gone (tasks s)) eqn:Eg.
  - destruct (chan_closed s) eqn:Eo; [exists OReturn|exists OClose]; simpl; [by rewrite Ec, Eo, Hr|by rewrite Hk, Eg, Eo].
  - apply forallb_not in Eg as (i & p & Hi & Hp). destruct p as [|j|j r|]; [by destruct (oc_tasks s Hs i)| | |done].
    + exists (ODone i {| latency := 0; err := None |}). simpl. by rewrite Hi.
    + exists (OPost i). simpl. by rewrite Hi, Ec, (chan_open_task s i _ Hs Hi).
Qed.

(** The open loop, with one scheduler or one for each client, in any reachable state.  Every
    launched job is in one place, and no job is counted twice; no goroutine has a
    result to send once the channel is closed, where sending would panic; the collector
    has the latencies of the successes, the number of the failures and the first eight
    error texts.  When the loop has returned, exactly the launched jobs have been counted:
    successes and failures add up to the number launched. *)
Theorem open_loop_counts_jobs n s :
  reaches (start_open n) s ->
  NoDup (running (tasks s) ++ (sending (tasks s) ++ chan s ++ o_counted s).*1) /\
  (chan_closed s = true -> running (tasks s) = [] /\ sending (tasks s) = []) /\
  durations (o_counts s) = omap (fun x => match err x.2 with Some _ => None | None => Some (latency x.2) end) (o_counted s) /\
  failed (o_counts s) = blen (omap (fun x => err x.2) (o_counted s)) /\
  errs (o_counts s) = take 8 (omap (fun x => err x.2) (o_counted s)) /\
  (o_returned s = true ->
     (o_counted s).*1 ≡ₚ seqZ 0 (blen (tasks s)) /\
     blen (durations (o_counts s)) + failed (o_counts s) = blen (tasks s)).
Proof.
  intros Hr. apply open_reaches_ok in Hr as Hs.
  rewrite (oc_counts s Hs). destruct (tally_spec (o_counted s)) as (T1 & T2 & T3). split_and!; try done.
  - destruct (oc_acc s Hs) as [_ Hp]. rewrite <- Hp. apply NoDup_seqZ.
  - intros [_ Hg]%(oc_closed s Hs). by apply all_gone_empty.
  - intros Hret. destruct (oc_ret s Hs Hret) as [Hc He]. apply (oc_closed s Hs) in Hc as [_ Hg].
    pose proof (acc_all_gone (oc_acc s Hs) Hg) as Hp. rewrite He in Hp. simpl in Hp. rewrite tally_total.
    split; [done|]. apply Permutation_length in Hp. rewrite length_seqZ, length_fmap in Hp. unfold blen in *. lia.
Qed.

(** Once the schedulers have stopped the open loop ends, when every operation does: a run of
    the other goroutines is bounded, and where it can go no further the loop has returned;
    a full channel holds the senders up, not the collector. *)
Theorem open_loop_ends n s l s' :
  reaches (start_open n) s -> forallb negb (scheds s) = true -> run l s = Some s' ->
  (length l <= open_rank s)%nat /\ ((forall a, open_act a s' = None) -> o_returned s' = true).
Proof.
  intros Hr Hk Hrun. apply open_reaches_ok in Hr as Hs.
  destruct (run_bounded open_act open_ok open_act_ok (fun _ => true) open_rank
    (fun s => forallb negb (scheds s) = true)) with (l := l) (s := s) (s' := s')
    as (Hlen & Hs' & Hk'); [|done|done|by apply forallb_forall|done|].
  { intros a s1 s2 H1 H2 _. by apply open_lowers. }
  split; [lia|]. intros Hend. destruct (o_returned s') eqn:E; [done|].
  destruct (open_enabled s' Hs' Hk' E) as (a & s2 & Ha). by rewrite Hend in Ha.
Qed.

(** ** The summary *)

Lemma total_of_sum ds t :
  Forall (fun d => 0 <= d) ds -> 0 <= t -> t + zsum id ds < 2 ^ 63 ->
  fold_left (fun t d => i64 (t + d)) ds t = t + zsum id ds.
Proof.
  revert t. induction ds as [|d ds IH]; intros t Hds Ht Hb; simpl in *; [lia|].
  apply Forall_cons in Hds as [Hd Hds]. assert (0 <= zsum id ds).
  { clear -Hds. induction Hds; simpl; unfold id in *; lia. }
  unfold id in *. rewrite i64_id by lia. rewrite IH by (done || lia). lia.
Qed.

Lemma sum_between ds a b :
  Forall (fun d => a <= d <= b) ds -> a * blen ds <= zsum id ds <= b * blen ds.
Proof. unfold blen, id. induction 1; simpl; lia. Qed.

Lemma sort_durations_perm ds : sort_durations ds ≡ₚ ds.
Proof. apply merge_sort_Permutation. Qed.

Lemma sorted_ends d ds :
  StronglySorted Z.le (d :: ds) -> Forall (fun x => d <= x <= List.last (d :: ds) 0) (d :: ds).
Proof.
  revert d. induction ds as [|e ds IH]; intros d Hs; [repeat constructor; simpl; lia|].
  apply StronglySorted_inv in Hs as [Hs Hd]. specialize (IH e Hs).
  change (List.last (d :: e :: ds) 0) with (List.last (e :: ds) 0).
  apply Forall_cons in Hd as [Hde _]. pose proof IH as IHe. apply Forall_cons in IHe as [He _].
  constructor; [lia|]. eapply Forall_impl; [exact IH|]. simpl. lia.
Qed.

(** The index of a quantile that is a proper fraction is in range. *)
Lemma percentile_in ds m e :
  ds <> [] -> blen ds <= 2 ^ 53 -> e <= 0 -> Zpos m < 2 ^ (- e) ->
  f64_le (S754_finite false m e) f64_zero = false -> f64_le f64_one (S754_finite false m e) = false ->
  exists d, percentile ds (S754_finite false m e) = Some d /\ d ∈ ds.
Proof.
  intros Hne Hlen He Hm H0 H1. unfold percentile. destruct ds as [|d0 ds']; [done|]. rewrite H0, H1.
  set (ds := d0 :: ds') in *. assert (Hb : 0 < blen ds) by (unfold blen; simpl; lia).
  destruct (quantile_index (blen ds - 1) m e ltac:(lia) He Hm) as (k & Hk & Hr).
  unfold i64_of_f64. rewrite Hk, (proj2 (Z.leb_le (- 2 ^ 63) k)), (proj2 (Z.ltb_lt k (2 ^ 63))) by lia. simpl.
  rewrite (proj2 (Z.ltb_ge k 0)) by lia.
  destruct (lookup_lt_is_Some_2 ds (Z.to_nat k)) as [d Hd]; [unfold blen in *; lia|].
  exists d. split; [done|]. by eapply list_elem_of_lookup_2.
Qed.

(** The summary of a benchmark with at least one success, whose latencies are not negative
    and whose sum is an int64.  The quantiles, computed with a rounded product, are never
    out of range; they are latencies that were measured, as are the minimum and the
    maximum, and they and the average lie between the two; successes and failures are
    reported as counted. *)
Theorem summary_is_ordered now cfg ds nfailed elapsed launched :
  ds <> [] -> blen ds <= 2 ^ 53 -> Forall (fun d => 0 <= d) ds -> zsum id ds < 2 ^ 63 ->
  let sm := summarize now cfg ds nfailed elapsed launched in
  let within d := MinLatency sm <= d <= MaxLatency sm in
  Success sm = blen ds /\ Failed sm = nfailed /\
  MinLatency sm ∈ ds /\ MaxLatency sm ∈ ds /\ Forall within ds /\ within (AverageLatency sm) /\
  Forall (fun q => exists d, q = Some d /\ d ∈ ds /\ within d) [P50Latency sm; P95Latency sm; P99Latency sm].
Proof.
  intros Hne Hlen Hpos Hsum. cbv zeta. unfold summarize. cbn [Success Failed MinLatency MaxLatency AverageLatency P50Latency P95Latency P99Latency].
  pose proof (sort_durations_perm ds) as Hperm. set (st := sort_durations ds) in *.
  assert (Hsorted : StronglySorted Z.le st) by (apply (StronglySorted_merge_sort Z.le); intros ???; lia).
  assert (Hst : st <> []) by (intros E; rewrite E in Hperm; by apply Permutation_nil_l in Hperm).
  assert (Hlst : blen st = blen ds) by (unfold blen; by rewrite Hperm).
  assert (Hin : hd 0 st ∈ ds /\ List.last st 0 ∈ ds /\ Forall (fun d => hd 0 st <= d <= List.last st 0) ds).
  { rewrite <- Hperm. destruct st as [|d l]; [done|].
    split_and!; [left| |by apply sorted_ends].
    apply list_elem_of_In. destruct (exists_last Hst) as (l' & x & ->). rewrite List.last_last. apply in_or_app. right. by left. }
  destruct Hin as (H1 & H2 & H3). clearbody st.
  assert (Hb : 0 < blen ds) by (destruct ds; [done|]; unfold blen; simpl; lia).
  rewrite (proj2 (Z.eqb_neq (blen ds) 0)) by lia.
  assert (Hmin : 0 <= hd 0 st) by by rewrite Forall_forall in Hpos; apply Hpos.
  assert (Htot : total_of st = zsum id ds).
  { unfold total_of. rewrite <- (zsum_perm id st ds) by done. apply (total_of_sum st 0); [by rewrite Hperm|done|].
    by rewrite (zsum_perm id st ds). }
  assert (Havg : hd 0 st <= Z.quot (total_of st) (blen ds) <= List.last st 0).
  { rewrite Htot. pose proof (sum_between ds _ _ H3) as [S1 S2]. rewrite Z.quot_div_nonneg by nia.
    split; [apply Z.div_le_lower_bound; lia|apply Z.div_le_upper_bound; lia]. }
  assert (Hq : forall m e, e <= 0 -> Zpos m < 2 ^ (- e) ->
    f64_le (S754_finite false m e) f64_zero = false -> f64_le f64_one (S754_finite false m e) = false ->
    exists d, percentile st (S754_finite false m e) = Some d /\ d ∈ ds /\ hd 0 st <= d <= List.last st 0).
  { intros m e He Hm E0 E1. destruct (percentile_in st m e Hst ltac:(lia) He Hm E0 E1) as (d & Hd & Hi).
    rewrite Hperm in Hi. exists d. split_and!; [done|done|by rewrite Forall_forall in H3; apply H3..]. }
  split_and!; [done|done|done|done|done|apply Havg|apply Havg|].
  repeat constructor; by apply Hq; vm_compute.
Qed.

(** ** Configuration and keys *)

(** A configuration that passes the checks runs in exactly one of the two modes. *)
Theorem validated_config cfg :
  validateConfig cfg = None ->
  known_op (op cfg) = true /\ 0 <= objectSize cfg /\ 0 < s3ClientCount cfg /\ 0 < requestTimeout cfg /\
  (if isOpenLoopMode cfg then 0 < duration cfg
   else duration cfg = 0 /\ 0 < iterations cfg /\ 0 < concurrency cfg).
Proof.
  unfold validateConfig. destruct (_ && _); [done|]. destruct (known_op _); [|done]. simpl.
  destruct (f64_lt _ _); [done|]. destruct (_ <? 0) eqn:Ed; [done|].
  destruct (validateLoop cfg) eqn:El; [done|]. destruct (objectSize cfg <? 0) eqn:E1; [done|].
  destruct (requestTimeout cfg <=? 0) eqn:E2; [done|]. destruct (String.eqb (bucket cfg) ""); [done|].
  destruct (String.eqb (keyPrefix cfg) ""); [done|]. destruct (s3ClientCount cfg <=? 0) eqn:E3; [done|].
  intros _. bool_facts. split; [done|]. split; [lia|]. split; [lia|]. split; [lia|].
  unfold validateLoop in El. unfold isOpenLoopMode.
  destruct (f64_eq _ _ && _) eqn:Ez.
  - apply andb_prop in Ez as [_ Ez]. destruct (iterations cfg <=? 0) eqn:E4; [done|].
    destruct (concurrency cfg <=? 0) eqn:E5; [done|]. bool_facts.
    rewrite Ez, Z.ltb_irrefl, andb_false_r. lia.
  - destruct (f64_lt f64_zero _ && _) eqn:Eo; [|done]. by apply andb_prop in Eo as [_ Eo%Z.ltb_lt].
Qed.

(** The flag --mode=rdma passes the checks, but no client can be made in that mode. *)
Theorem rdma_mode_is_refused cfg :
  mode cfg = "rdma"%string -> 0 < s3ClientCount cfg ->
  newS3Clients cfg = Err "bench-client rdma mode is no longer supported; use mode=tcp or s3-rdma-zcopy-demo"%string.
Proof.
  intros Hm Hc. unfold newS3Clients, newS3Client. rewrite Hm. simpl.
  destruct (rdmaSharePool cfg && _); [done|]. destruct (Z.to_nat (s3ClientCount cfg)) as [|n] eqn:E; [lia|].
  simpl. unfold newS3Client. by rewrite Hm.
Qed.

Lemma pad_zero_value w s : digits_value (pad_zero w s) 0 = digits_value s 0.
Proof. unfold pad_zero. induction (w - String.length s)%nat as [|[|n] IH]; done. Qed.

Lemma fmt_0d_inj w i j : 0 <= i -> 0 <= j -> fmt_0d w i = fmt_0d w j -> i = j.
Proof.
  intros Hi Hj. unfold fmt_0d. rewrite (proj2 (Z.ltb_ge i 0)), (proj2 (Z.ltb_ge j 0)) by done.
  intros E%(f_equal (fun s => digits_value s 0)). rewrite !pad_zero_value, !fmt_d_nonneg in E by done.
  rewrite !(proj1 (pretty_N_facts _)) in E. simplify_eq. lia.
Qed.

Lemma objectKey_inj p i j : 0 <= i -> 0 <= j -> objectKey p i = objectKey p j -> i = j.
Proof.
  intros Hi Hj E%(inj (String.append p)). apply (inj (String.append "-")) in E. by apply fmt_0d_inj in E.
Qed.

(** What prefill puts, when every put succeeds. *)
Lemma prefill_puts cfg n i done_ :
  prefill (fun key w => (None, w ++ [key])) cfg n i done_ =
  (None, done_ ++ (objectKey (keyPrefix cfg) <$> seqZ i (Z.of_nat n))).
Proof.
  revert i done_. induction n as [|n IH]; intros i d; [simpl; by rewrite app_nil_r|].
  simpl prefill. rewrite IH, <- app_assoc. f_equal. f_equal.
  rewrite (seqZ_cons i (Z.of_nat (S n))) by lia.
  by replace (Z.pred (Z.of_nat (S n))) with (Z.of_nat n) by lia.
Qed.

(** In a GET benchmark with a positive count of prefilled objects every job, whatever its
    number, gets an object that prefill has put; jobs of different numbers below the
    count get different objects. *)
Theorem get_jobs_are_prefilled cfg n i :
  op cfg = "get"%string -> 0 < n -> 0 <= i ->
  job_key cfg n i ∈ (prefill (fun key w => (None, w ++ [key])) cfg (Z.to_nat n) 0 []).2 /\
  (forall j, 0 <= j < n -> i < n -> job_key cfg n i = job_key cfg n j -> i = j).
Proof.
  intros Ho Hn Hi. rewrite prefill_puts. simpl. unfold job_key, key_index. rewrite Ho.
  rewrite (proj2 (Z.ltb_lt 0 n)) by done. simpl. split.
  - apply list_elem_of_fmap. exists (Z.rem i n). split; [done|].
    rewrite elem_of_seqZ, Z.rem_mod_nonneg by lia. pose proof (Z.mod_pos_bound i n Hn). lia.
  - intros j Hj Hin E. rewrite !Z.rem_small in E by lia. by apply objectKey_inj in E; [|lia|lia].
Qed.

(** The interval of a ticker is positive for every rate, as time.NewTicker demands. *)
Lemma interval_positive rps : 1 <= openLoopInterval rps.
Proof. unfold openLoopInterval. destruct (_ <? 1) eqn:E; bool_facts; lia. Qed.

(** A thousand per second; and one per 10^11 seconds, whose interval is out of range: the ticker
    runs at its fastest. *)
Example intervals :
  openLoopInterval (f64_of_Z 1000) = 10 ^ 6 /\
  openLoopInterval (f64_div f64_one (f64_of_Z (10 ^ 11))) = 1.
Proof. by vm_compute. Qed.

(** ** Runs *)

Definition bench_sample : benchConfig :=
  {| mode := "tcp"; op := "get"; endpoint := "http://127.0.0.1:10090"; region := "us-east-1"; bucket := "b";
     keyPrefix := "o"; iterations := 2; concurrency := 1; targetRPS := f64_zero; duration := 0; warmup := 0;
     objectSize := 8; requestTimeout := 10 ^ 9; accessKey := "test"; secretKey := "test"; verbose := false;
     jsonPath := ""; prefillCount := 0; rdmaLowCPU := false; rdmaFramePayload := 0; rdmaSendDepth := 0;
     rdmaRecvDepth := 0; rdmaInline := 0; rdmaSignalIntvl := 0; rdmaMaxConns := 0; rdmaSharePool := false;
     rdmaSharePoolKey := ""; rdmaEndpointPool := 0; rdmaEndpointWarm := false; rdmaSharedMemBgt := 0;
     rdmaEndpointMux := false; rdmaEndpointSend := 0; s3ClientCount := 1; openLoopFanout := false |}.

Definition ok_in (d : Z) : opResult := {| latency := d; err := None |}.
Definition failing (e : string) : opResult := {| latency := 5; err := Some e |}.

(** Two jobs, the second of which fails. *)
Definition closed_sample : list closed_action :=
  [CFeed 0; CDone 0 (ok_in 7); CPost 0; CFeed 0; CCloseJobs; CCollect; CDone 0 (failing "timeout"); CPost 0;
   CExit 0; CCollect; CReturn].
Definition closed_end : closed_loop := after_by (closed_act 2) (start_closed bench_sample) closed_sample.

Lemma closed_loop_counts_jobs_witness :
  returned closed_end = true /\ counts closed_end = {| durations := [7]; failed := 1; errs := ["timeout"%string] |} /\
  (counted closed_end).*1 ≡ₚ seqZ 0 2.
Proof.
  split; [by vm_compute|]. split; [by vm_compute|].
  apply (closed_loop_counts_jobs bench_sample closed_end);
    [done|apply (after_reaches (closed_act 2) (start_closed bench_sample)); by vm_compute|by vm_compute].
Defined.

Lemma closed_loop_ends_witness :
  (length closed_sample <= closed_rank 2 (start_closed bench_sample))%nat /\
  ((forall a, closed_act 2 a closed_end = None) -> returned closed_end = true).
Proof.
  apply (closed_loop_ends bench_sample (start_closed bench_sample) closed_sample closed_end);
    [done|done|apply reaches_refl|by vm_compute].
Defined.

(** Two schedulers launch three jobs. *)
Definition open_sample : list open_action :=
  [OTick 1; OTick 0; ODone 0 (ok_in 3); OPost 0; OTimer; OTick 1; OStop 0; OStop 1].
Definition open_drain : list open_action :=
  [ODone 2 (failing "refused"); OPost 2; OCollect; ODone 1 (ok_in 4); OPost 1; OClose; OCollect; OCollect; OReturn].
Definition open_end : open_loop := after_by open_act (start_open 2) (open_sample ++ open_drain).

Lemma open_loop_counts_jobs_witness :
  o_returned open_end = true /\ o_counts open_end = {| durations := [3; 4]; failed := 1; errs := ["refused"%string] |} /\
  (o_counted open_end).*1 ≡ₚ seqZ 0 3.
Proof.
  split; [by vm_compute|]. split; [by vm_compute|].
  apply (open_loop_counts_jobs 2 open_end);
    [apply (after_reaches open_act (start_open 2)); by vm_compute|by vm_compute].
Defined.

Lemma open_loop_ends_witness :
  let s := after_by open_act (start_open 2) open_sample in
  (length open_drain <= open_rank s)%nat /\ ((forall a, open_act a open_end = None) -> o_returned open_end = true).
Proof.
  apply (open_loop_ends 2 (after_by open_act (start_open 2) open_sample) open_drain open_end);
    [apply (after_reaches open_act (start_open 2)); by vm_compute|by vm_compute|by vm_compute].
Defined.

Lemma summary_is_ordered_witness :
  let sm := summarize "now" bench_sample [9; 4; 6] 1 (10 ^ 9) 4 in
  let within d := MinLatency sm <= d <= MaxLatency sm in
  (MinLatency sm, P50Latency sm, P99Latency sm, MaxLatency sm, AverageLatency sm) = (4, Some 6, Some 6, 9, 6) /\
  Success sm = 3 /\ Failed sm = 1 /\
  MinLatency sm ∈ [9; 4; 6] /\ MaxLatency sm ∈ [9; 4; 6] /\ Forall within [9; 4; 6] /\ within (AverageLatency sm) /\
  Forall (fun q => exists d, q = Some d /\ d ∈ [9; 4; 6] /\ within d) [P50Latency sm; P95Latency sm; P99Latency sm].
Proof.
  split; [by vm_compute|].
  apply (summary_is_ordered "now" bench_sample [9; 4; 6] 1 (10 ^ 9) 4); [done|done|by repeat constructor|done].
Defined.

Lemma validated_config_witness :
  validateConfig bench_sample = None /\ known_op (op bench_sample) = true /\
  0 < s3ClientCount bench_sample.
Proof. split; [by vm_compute|]. by pose proof (validated_config bench_sample eq_refl) as (? & ? & ? & _). Defined.

Lemma get_jobs_are_prefilled_witness :
  job_key bench_sample 2 7 = "o-00000001"%string /\
  job_key bench_sample 2 7 ∈ (prefill (fun key w => (None, w ++ [key])) bench_sample 2 0 []).2.
Proof. split; [by vm_compute|]. by apply (get_jobs_are_prefilled bench_sample 2 7). Defined.
