(* ===== verification/BenchReport.v ===== *)
(** * The benchmark client's report (cmd/bench-client/main.go: printSummary, writeSummaryJSON)

    The lines printed on standard output and the text of the JSON file, with
    encoding/json's MarshalIndent of the summary: its indentation, its omitted fields and
    its numbers, which are the shortest that read back as the float64. *)

From Stdlib Require Import SpecFloat.
From S2P Require Import Prelude Floats Strconv GoFmt Json Bench.

#[local] Open Scope go_scope.

(** ** strconv.FormatFloat(x, ., -1, 64) *)

(** The integer part of [m * 2^e / 10^k], and how the rest compares with a half. *)
Definition scaled (m e k : Z) : Z * comparison :=
  let n := m * (if 0 <=? e then 2 ^ e else 1) * (if 0 <=? k then 1 else 10 ^ (- k)) in
  let d := (if 0 <=? e then 1 else 2 ^ (- e)) * (if 0 <=? k then 10 ^ k else 1) in
  (n / d, 2 * (n mod d) ?= d).

(** The number of [p] digits next to [x], or its other neighbour, if it reads back as [x];
    [k] is the exponent of the last digit. *)
Definition digits_at (m e k : Z) (x : float64) : option Z :=
  let '(q, rest) := scaled m e k in
  let up := match rest with Lt => false | Gt => true | Eq => Z.odd q end in
  let near := if up then q + 1 else q in
  let far := if up then q else q + 1 in
  let reads c := f64_eq (f64_of_dec c k) x in
  if reads near then Some near else if reads far then Some far else None.

(** The first [p] digits that are enough; 17 always are. *)
Fixpoint shortest_from (fuel : nat) (p : Z) (m e top : Z) (x : float64) : option (Z * Z) :=
  match fuel with
  | O => None
  | S fuel' =>
    match digits_at m e (top - p) x with
    | Some c => Some (c, top - p)
    | None => shortest_from fuel' (p + 1) m e top x
    end
  end.

(** How many digits the integer part of [m * 2^e] has, or minus the zeros after the point. *)
Fixpoint count_digits (fuel : nat) (n : Z) : Z :=
  match fuel with
  | O => 0
  | S fuel' => if n <=? 0 then 0 else 1 + count_digits fuel' (n / 10)
  end.
Fixpoint count_zeros (fuel : nat) (m e k : Z) : Z :=
  match fuel with
  | O => 0
  | S fuel' => if 0 <? (scaled m e (k - 1)).1 then k else count_zeros fuel' m e (k - 1)
  end.
Definition magnitude (m e : Z) : Z :=
  let n := (scaled m e 0).1 in
  if 0 <? n then count_digits 400 n else count_zeros 400 m e 0.

Definition shortest (m : positive) (e : Z) : option (Z * Z) :=
  shortest_from 17 1 (Zpos m) e (magnitude (Zpos m) e) (S754_finite false m e).

(** The digits without the zeros they end in, and where the point stands in them. *)
Fixpoint strip_zeros (fuel : nat) (c : Z) : Z :=
  match fuel with
  | O => c
  | S fuel' => if negb (c =? 0) && (c mod 10 =? 0) then strip_zeros fuel' (c / 10) else c
  end.

Definition decimal (c k : Z) : string * Z :=
  (fmt_d (strip_zeros 20 c), string_len (fmt_d c) + k).

Fixpoint zeros (n : nat) : string := match n with O => EmptyString | S n' => String "0" (zeros n') end.

(** [%f]: [dp] digits before the point. *)
Definition fmt_f (ds : string) (dp : Z) : string :=
  let nd := string_len ds in
  if dp <=? 0 then "0." +:+ zeros (Z.to_nat (- dp)) +:+ ds
  else if nd <=? dp then ds +:+ zeros (Z.to_nat (dp - nd))
  else String.substring 0 (Z.to_nat dp) ds +:+ "." +:+ String.substring (Z.to_nat dp) (Z.to_nat (nd - dp)) ds.

(** [%e], with the exponent's first zero removed as encoding/json does. *)
Definition fmt_e (ds : string) (dp : Z) : string :=
  let x := dp - 1 in
  match ds with
  | String a r =>
    String a (if String.eqb r "" then "" else String "." r) +:+ "e" +:+
    (if x <? 0 then "-" else "+") +:+ fmt_d (Z.abs x)
  | EmptyString => ""
  end.

(** ** encoding/json *)

(** The encoder of float64: the error of a number that JSON cannot write. *)
Definition float_json (x : float64) : res string string :=
  match x with
  | S754_nan => Err "json: unsupported value: NaN"%string
  | S754_infinity s => Err ("json: unsupported value: " +:+ if s then "-Inf" else "+Inf")
  | S754_zero s => Ok (if s then "-0" else "0")%string
  | S754_finite s m e =>
    match shortest m e with
    | None => Err "no digits"%string
    | Some (c, k) =>
      let '(ds, dp) := decimal c k in
      let text := if (dp <? - 5) || (21 <? dp) then fmt_e ds dp else fmt_f ds dp in
      Ok ((if s then "-" else "") +:+ text)
    end
  end.

(** A field's value, as it is indented inside the object. *)
Inductive field_value :=
| FString (s : string)
| FInt (n : Z)
| FFloat (x : float64)
| FStrings (l : list string).

(** A field, and whether an empty value is left out. *)
Record field := { f_name : string; f_omitempty : bool; f_value : field_value }.

Definition is_empty (v : field_value) : bool :=
  match v with
  | FString s => String.eqb s ""
  | FInt n => n =? 0
  | FFloat x => f64_eq x f64_zero
  | FStrings l => match l with [] => true | _ => false end
  end.

Definition newline : string := String "010" EmptyString.

Definition comma_lines (indent : string) (l : list string) : string :=
  String.concat ("," +:+ newline +:+ indent) l.

Definition value_json (v : field_value) : res string string :=
  match v with
  | FString s => Ok (marshal_string s)
  | FInt n => Ok (fmt_d n)
  | FFloat x => float_json x
  | FStrings l =>
    Ok (match l with
        | [] => "[]"
        | _ => "[" +:+ newline +:+ "    " +:+ comma_lines "    " (marshal_string <$> l) +:+ newline +:+ "  ]"
        end)
  end.

Definition member_json (f : field) : res string string :=
  try v <- value_json (f_value f);
  Ok (marshal_string (f_name f) +:+ ": " +:+ v).

Fixpoint members_json (fs : list field) : res string (list string) :=
  match fs with
  | [] => Ok []
  | f :: fs' =>
    try m <- member_json f;
    try ms <- members_json fs';
    Ok (m :: ms)
  end.

(** [json.MarshalIndent(v, "", "  ")] of a struct with these fields. *)
Definition MarshalIndent (fs : list field) : res string string :=
  try ms <- members_json (filter (fun f => negb (f_omitempty f && is_empty (f_value f)) = true) fs);
  Ok (match ms with
      | [] => "{}"
      | _ => "{" +:+ newline +:+ "  " +:+ comma_lines "  " ms +:+ newline +:+ "}"
      end).

(** ** The summary *)

(** The counter of dialStats: it starts at zero, and nothing in the program adds to it. *)
Definition dialStats : Type := Z.
Definition new_dialStats : dialStats := 0.

(** A duration that is reported; see [benchSummary] on [None]. *)
Definition reported (d : option Z) : Z := default 0 d.

Definition must (name : string) (v : field_value) : field :=
  {| f_name := name; f_omitempty := false; f_value := v |}.
Definition maybe (name : string) (v : field_value) : field :=
  {| f_name := name; f_omitempty := true; f_value := v |}.

(** The struct's fields with their tags. *)
Definition summary_fields (s : benchSummary) (dials : dialStats) (errors : list string) : list field :=
  [must "timestamp" (FString (Timestamp s));
   must "mode" (FString (Mode s));
   must "operation" (FString (Operation s));
   must "endpoint" (FString (Endpoint s));
   must "region" (FString (SummaryRegion s));
   must "bucket" (FString (Bucket s));
   must "benchmark_model" (FString (BenchmarkModel s));
   maybe "open_loop_dispatch" (FString (OpenLoopDispatch s));
   must "iterations" (FInt (Iterations s));
   must "concurrency" (FInt (Concurrency s));
   must "client_count" (FInt (ClientCount s));
   maybe "target_rps" (FFloat (TargetRPS s));
   maybe "target_duration" (FInt (TargetDuration s));
   must "warmup" (FInt (Warmup s));
   must "object_size" (FInt (ObjectSize s));
   must "elapsed" (FInt (Elapsed s));
   must "success" (FInt (Success s));
   must "failed" (FInt (Failed s));
   must "throughput_req_per_sec" (FFloat (ThroughputReqPerSec s));
   must "throughput_mb_per_sec" (FFloat (ThroughputMBPerSec s));
   must "avg_latency" (FInt (AverageLatency s));
   must "p50_latency" (FInt (reported (P50Latency s)));
   must "p95_latency" (FInt (reported (P95Latency s)));
   must "p99_latency" (FInt (reported (P99Latency s)));
   must "min_latency" (FInt (MinLatency s));
   must "max_latency" (FInt (MaxLatency s));
   must "fallback_dial_attempts" (FInt dials);
   maybe "errors" (FStrings errors)].

(** What writeSummaryJSON writes to the file. *)
Definition summary_json (s : benchSummary) (dials : dialStats) (errors : list string) : res string string :=
  MarshalIndent (summary_fields s dials errors).

(** The lines on standard output. *)
Definition printSummary (s : benchSummary) (dials : dialStats) (errors : list string) : list string :=
  ["mode=" +:+ Mode s +:+ " op=" +:+ Operation s +:+ " endpoint=" +:+ Endpoint s +:+ " model=" +:+ BenchmarkModel s;
   (if String.eqb (BenchmarkModel s) "open-loop" then
      "launched=" +:+ fmt_d (Iterations s) +:+ " target_rps=" +:+ fmt_2f (TargetRPS s) +:+
      " target_duration=" +:+ Duration_String (TargetDuration s) +:+ " warmup=" +:+ fmt_d (Warmup s) +:+
      " object_size=" +:+ fmt_d (ObjectSize s) +:+ " client_count=" +:+ fmt_d (ClientCount s) +:+
      " dispatch=" +:+ OpenLoopDispatch s
    else
      "iterations=" +:+ fmt_d (Iterations s) +:+ " concurrency=" +:+ fmt_d (Concurrency s) +:+
      " warmup=" +:+ fmt_d (Warmup s) +:+ " object_size=" +:+ fmt_d (ObjectSize s) +:+
      " client_count=" +:+ fmt_d (ClientCount s));
   "success=" +:+ fmt_d (Success s) +:+ " failed=" +:+ fmt_d (Failed s) +:+
   " elapsed=" +:+ Duration_String (Elapsed s);
   "throughput: " +:+ fmt_2f (ThroughputReqPerSec s) +:+ " req/s, " +:+ fmt_2f (ThroughputMBPerSec s) +:+ " MiB/s";
   "latency: avg=" +:+ Duration_String (AverageLatency s) +:+ " p50=" +:+ Duration_String (reported (P50Latency s)) +:+
   " p95=" +:+ Duration_String (reported (P95Latency s)) +:+ " p99=" +:+ Duration_String (reported (P99Latency s)) +:+
   " min=" +:+ Duration_String (MinLatency s) +:+ " max=" +:+ Duration_String (MaxLatency s);
   "fallback_dial_attempts=" +:+ fmt_d dials] ++
  match errors with
  | [] => []
  | _ => ["sample_errors:"%string] ++ ((fun e => "  - " +:+ e) <$> errors)
  end.

(** ** Examples *)

Example floats_written :
  (fun x => float_json x) <$>
    [f64_of_dec 1 0; f64_of_dec 1 (-1); f64_of_dec 25 (-1); f64_of_dec 123456789 (-3); f64_of_dec 1 (-7);
     f64_of_dec 5 (-324); f64_of_dec 1 21; f64_of_dec 1 20; f64_div (f64_of_Z 1) (f64_of_Z 3);
     f64_of_dec 17976931348623157 292; f64_zero; f64_of_bin 1 (-44); f64_of_dec 100 0] =
  [Ok "1"; Ok "0.1"; Ok "2.5"; Ok "123456.789"; Ok "1e-7"; Ok "5e-324"; Ok "1e+21"; Ok "100000000000000000000";
   Ok "0.3333333333333333"; Ok "1.7976931348623157e+308"; Ok "0"; Ok "5.684341886080802e-14"; Ok "100"]%string.
Proof. vm_compute. reflexivity. Qed.
