(* ===== verification/BenchRun.v ===== *)
(** * Running the benchmark client (cmd/bench-client/main.go: main and its HTTP calls)

    Bench.v has the configuration, the jobs, the loops and the summary; here is main: the
    bucket, the objects put beforehand, the warm-up, the loop the configuration asks for,
    the summary and its report (BenchReport.v).  The SDK's calls are the class [BenchHost]; what the goroutines of a
    loop do is a schedule of Bench.v's actions. *)

From Stdlib Require Import SpecFloat.
From S2P Require Import Prelude Trans Floats GoFmt VerbsConn Bench BenchReport.

#[local] Open Scope go_scope.

(** ** The HTTP transport of a client *)

(** The fields newHTTPClient sets; the SDK's transport is an argument. *)
Record transport := {
  t_Proxy : bool;
  t_MaxConnsPerHost : Z;
  t_MaxIdleConnsPerHost : Z;
  t_MaxIdleConns : Z;
}.

Definition newHTTPClient (tr : transport) (maxConns : Z) : transport :=
  if 0 <? maxConns then
    {| t_Proxy := false; t_MaxConnsPerHost := maxConns; t_MaxIdleConnsPerHost := maxConns;
       t_MaxIdleConns := if t_MaxIdleConns tr <? maxConns then maxConns else t_MaxIdleConns tr |}
  else
    {| t_Proxy := false; t_MaxConnsPerHost := t_MaxConnsPerHost tr;
       t_MaxIdleConnsPerHost := t_MaxIdleConnsPerHost tr; t_MaxIdleConns := t_MaxIdleConns tr |}.

(** ** The SDK's calls *)

(** An error, and its code when it is an API error. *)
Record sdk_err := { api_code : option string; sdk_text : string }.

Definition already_there (e : sdk_err) : bool :=
  match api_code e with
  | Some code => String.eqb code "BucketAlreadyOwnedByYou" || String.eqb code "BucketAlreadyExists"
  | None => false
  end.

(** [s3_get]: the error of GetObject, or else what copying the body ends with. *)
Class BenchHost (W : Type) := {
  s3_create_bucket : string -> W -> option sdk_err * W;
  s3_head_bucket : string -> W -> option sdk_err * W;
  s3_put : string -> string -> list byte -> W -> option string * W;
  s3_get : string -> string -> W -> res string (option string) * W;
  bench_closed : W -> list closed_action * W;
  bench_open : W -> list open_action * W;
  bench_elapsed : W -> Z * W;
  bench_now : W -> string * W;
  os_write_file : string -> string -> W -> option string * W;
}.

(** The requests for objects and the lines on standard output, in order. *)
Inductive access := Put (key : string) | Get (key : string) | Say (line : string).

Section run.
Context {W : Type} `{!BenchHost W}.
#[local] Abbreviation D := (M W (list access) string).

Definition ensureBucket (bucket : string) : D (option string) :=
  let! err := host (s3_create_bucket bucket) in
  match err with
  | None => ret None
  | Some e =>
    if already_there e then ret None
    else
      let! headErr := host (s3_head_bucket bucket) in
      match headErr with
      | None => ret None
      | Some _ => ret (Some ("create bucket: " +:+ sdk_text e))
      end
  end.

Definition putObject (bucket : string) (payload : list byte) (key : string) (w : W * list access)
    : option string * (W * list access) :=
  let '(e, w1) := s3_put bucket key payload w.1 in (e, (w1, w.2 ++ [Put key])).

Definition getObject (bucket key : string) (w : W * list access) : option string * (W * list access) :=
  let '(r, w1) := s3_get bucket key w.1 in
  (match r with Err e => Some e | Ok copyErr => copyErr end, (w1, w.2 ++ [Get key])).

(** A function of Bench.v in the monad of main. *)
Definition lift (f : W * list access -> option string * (W * list access)) : D (option string) :=
  fun l w => let '(e, (w1, l1)) := f (w, l) in (Ret e, l1, w1).

Definition say (line : string) : D unit := modify (fun l => l ++ [Say line]).

Fixpoint say_all (ls : list string) : D unit :=
  match ls with [] => ret tt | line :: ls' => say line;; say_all ls' end.

(** [if err != nil { fatalf(...) }] *)
Definition or_fatal (prefix : string) (e : option string) : D unit :=
  match e with Some x => fail (prefix +:+ x) | None => ret tt end.

(** ** The loops: a schedule that does not come to the return is not a run *)

Definition runBenchmarkClosedLoop (cfg : benchConfig) : D (benchSummary * list string) :=
  let! acts := host bench_closed in
  let! elapsed := host bench_elapsed in
  let! now := host bench_now in
  match run_by (closed_act (iterations cfg)) acts (start_closed cfg) with
  | Some s =>
    if returned s then
      ret (summarize now cfg (durations (counts s)) (failed (counts s)) elapsed (iterations cfg), errs (counts s))
    else diverged
  | None => diverged
  end.

Definition runBenchmarkOpenLoop (cfg : benchConfig) (clients : Z) : D (benchSummary * list string) :=
  let! acts := host bench_open in
  let! elapsed := host bench_elapsed in
  let! now := host bench_now in
  match run_by open_act acts (start_open (schedulers cfg clients)) with
  | Some s =>
    if o_returned s then
      ret (summarize now cfg (durations (o_counts s)) (failed (o_counts s)) elapsed (blen (tasks s)), errs (o_counts s))
    else diverged
  | None => diverged
  end.

Definition runBenchmark (cfg : benchConfig) (clients : Z) : D (benchSummary * list string) :=
  if isOpenLoopMode cfg then runBenchmarkOpenLoop cfg clients else runBenchmarkClosedLoop cfg.

(** [prefill], with the line it prints. *)
Definition prefill_verbose (cfg : benchConfig) (payload : list byte) (count : Z) : D (option string) :=
  (if verbose cfg then say ("prefill " +:+ fmt_d count +:+ " objects") else ret tt);;
  lift (prefill (putObject (bucket cfg) payload) cfg (Z.to_nat count) 0).

Definition writeSummaryJSON (path : string) (summary : benchSummary) (stats : dialStats) (errors : list string)
    : D (option string) :=
  match summary_json summary stats errors with
  | Err e => ret (Some e)
  | Ok data => host (os_write_file path data)
  end.

(** ** main; [flags] is what flag.Parse has filled in *)

Definition main (flags : benchConfig) : D (benchSummary * list string) :=
  let cfg := parseFlags flags in
  or_fatal "invalid config: " (validateConfig cfg);;
  let stats := new_dialStats in
  match newS3Clients cfg with
  | Err e => fail ("create s3 clients: " +:+ e)
  | Ok clients =>
    let! err := ensureBucket (bucket cfg) in
    or_fatal "ensure bucket: " err;;
    let payload := makePayload (objectSize cfg) in
    let prefillCount := prefill_count cfg in
    (if String.eqb (op cfg) "get" then
       let! err := prefill_verbose cfg payload prefillCount in
       or_fatal "prefill: " err
     else ret tt);;
    (if 0 <? warmup cfg then
       (if verbose cfg then say ("running warmup: " +:+ fmt_d (warmup cfg) +:+ " ops") else ret tt);;
       let! err := lift (runWarmup (putObject (bucket cfg) payload) (getObject (bucket cfg)) cfg prefillCount
                                   (Z.to_nat (warmup cfg)) 0) in
       or_fatal "warmup failed: " err
     else ret tt);;
    let! r := runBenchmark cfg (blen clients) in
    say_all (printSummary r.1 stats r.2);;
    (if negb (String.eqb (jsonPath cfg) "") then
       let! err := writeSummaryJSON (jsonPath cfg) r.1 stats r.2 in
       or_fatal "write summary json: " err
     else ret tt);;
    ret r
  end.

(** ** Properties *)

(** The requests of one operation. *)
Definition accesses (op key : string) : list access :=
  if String.eqb op "put" then [Put key]
  else if String.eqb op "get" then [Get key]
  else if String.eqb op "put-get" then [Put key; Get key]
  else [].

(** A step of Bench.v that succeeds has made these requests. *)
Definition makes (f : W * list access -> option string * (W * list access)) (l : list access) : Prop :=
  forall w, (f w).1 = None -> (f w).2.2 = w.2 ++ l.

Lemma put_makes b p key : makes (putObject b p key) [Put key].
Proof. intros w. unfold putObject. by destruct (s3_put b key p w.1) as [e w1]. Qed.

Lemma get_makes b key : makes (getObject b key) [Get key].
Proof. intros w. unfold getObject. by destruct (s3_get b key w.1) as [r w1]. Qed.

Lemma operation_makes b p o key : makes (runOperation (putObject b p) (getObject b) o key) (accesses o key).
Proof.
  intros w. unfold runOperation, accesses. destruct (String.eqb o "put"); [apply put_makes|].
  destruct (String.eqb o "get"); [apply get_makes|]. destruct (String.eqb o "put-get"); [|done].
  destruct (putObject b p key w) as [[e|] w1] eqn:E; [done|]. intros H. rewrite (get_makes b key w1 H).
  pose proof (put_makes b p key w) as Hp. rewrite E in Hp. simpl. simpl in Hp. rewrite (Hp eq_refl). by rewrite <- app_assoc.
Qed.

Lemma seqZ_more i n : seqZ i (Z.of_nat (S n)) = i :: seqZ (i + 1) (Z.of_nat n).
Proof. rewrite (seqZ_cons i (Z.of_nat (S n))) by lia. by replace (Z.pred (Z.of_nat (S n))) with (Z.of_nat n) by lia. Qed.

Lemma prefill_makes b p cfg n i :
  makes (prefill (putObject b p) cfg n i) ((fun j => Put (objectKey (keyPrefix cfg) j)) <$> seqZ i (Z.of_nat n)).
Proof.
  revert i. induction n as [|n IH]; intros i w; [intros _; by rewrite app_nil_r|]. cbn [prefill]. rewrite seqZ_more.
  destruct (putObject b p _ w) as [[e|] w1] eqn:E; [done|]. intros H. rewrite (IH (i + 1) w1 H).
  pose proof (put_makes b p (objectKey (keyPrefix cfg) i) w) as Hp. rewrite E in Hp. simpl in Hp. rewrite (Hp eq_refl).
  by rewrite <- app_assoc.
Qed.

Lemma warmup_makes b p cfg c n i :
  makes (runWarmup (putObject b p) (getObject b) cfg c n i)
        (concat ((fun j => accesses (op cfg) (job_key cfg c j)) <$> seqZ i (Z.of_nat n))).
Proof.
  revert i. induction n as [|n IH]; intros i w; [intros _; by rewrite app_nil_r|]. cbn [runWarmup]. rewrite seqZ_more.
  destruct (runOperation _ _ _ _ w) as [[e|] w1] eqn:E; [done|]. intros H. rewrite (IH (i + 1) w1 H).
  pose proof (operation_makes b p (op cfg) (job_key cfg c i) w) as Hp. rewrite E in Hp. simpl in Hp. rewrite (Hp eq_refl).
  by rewrite <- app_assoc.
Qed.

Lemma wp_say_all ls (Q : outcome string unit -> list access -> W -> Prop) l w :
  Q (Ret tt) (l ++ (Say <$> ls)) w -> wp (say_all ls) Q l w.
Proof.
  revert l. induction ls as [|x ls IH]; intros l HQ; cbn [say_all]; [apply wp_ret; by rewrite app_nil_r in HQ|].
  apply wp_bind, wp_modify. cbn [seq_post]. apply IH. by rewrite <- app_assoc.
Qed.

(** What a flag makes main say. *)
Definition said (b : bool) (line : string) : list access := if b then [Say line] else [].

Lemma wp_said (b : bool) line (Q : outcome string unit -> list access -> W -> Prop) l w :
  Q (Ret tt) (l ++ said b line) w -> wp (if b then say line else ret tt) Q l w.
Proof. destruct b; intros HQ; [by apply wp_modify|apply wp_ret; by rewrite app_nil_r in HQ]. Qed.

(** A step of main that has done this when it succeeds. *)
Definition adds (m : D (option string)) (l1 : list access) : Prop := forall l (w : W),
  wp m (fun o l' _ => match o with Ret None => l' = l ++ l1 | Ret (Some _) => True | _ => False end) l w.

Lemma lift_adds f l1 : makes f l1 -> adds (lift f) l1.
Proof.
  intros Hf l w. unfold wp, lift. pose proof (Hf (w, l)) as H. destruct (f (w, l)) as [[e|] [w1 l']]; [done|].
  by apply H.
Qed.

Lemma said_adds (b : bool) line (m : D (option string)) l1 : adds m l1 -> adds ((if b then say line else ret tt);; m) (said b line ++ l1).
Proof.
  intros Hm l w. apply wp_bind, wp_said. cbn [seq_post]. eapply wp_mono; [apply Hm|].
  intros [[e|]|m'| |] l' w'; try done. intros ->. by rewrite app_assoc.
Qed.

(** It ends the process when it fails. *)
Lemma wp_step (m : D (option string)) l1 prefix (Q : outcome string unit -> list access -> W -> Prop) l w :
  adds m l1 -> (forall e l' w', Q (Fail e) l' w') -> (forall w', Q (Ret tt) (l ++ l1) w') ->
  wp (let! err := m in or_fatal prefix err) Q l w.
Proof.
  intros Hm HF HR. apply wp_bind. eapply wp_mono; [apply Hm|].
  intros [[e|]|e| |] l' w'; cbn [seq_post]; try done; [intros _; by apply wp_fail|]. intros ->. by apply wp_ret.
Qed.

Lemma ensure_quiet b (Q : outcome string (option string) -> list access -> W -> Prop) l w :
  (forall e w', Q (Ret e) l w') -> wp (ensureBucket b) Q l w.
Proof.
  intros HQ. unfold ensureBucket. apply wp_bind, wp_host. intros [e|] w1 _; cbn [seq_post]; [|by apply wp_ret].
  destruct (already_there e); [by apply wp_ret|].
  apply wp_bind, wp_host. intros [x|] w2 _; cbn [seq_post]; by apply wp_ret.
Qed.

(** What a summary says of the loop it sums up. *)
Definition accounts (cfg : benchConfig) (r : benchSummary * list string) : Prop :=
  Success r.1 + Failed r.1 = Iterations r.1 /\
  (isOpenLoopMode cfg = false -> Iterations r.1 = iterations cfg) /\
  blen r.2 = Z.min 8 (Failed r.1).

Lemma loop_accounts cfg clients (Q : outcome string (benchSummary * list string) -> list access -> W -> Prop) l w :
  validateConfig cfg = None ->
  (forall r w', accounts cfg r -> Q (Ret r) l w') -> (forall w', Q Diverged l w') ->
  wp (runBenchmark cfg clients) Q l w.
Proof.
  intros Hv HR HD. unfold runBenchmark. destruct (isOpenLoopMode cfg) eqn:Eo.
  - unfold runBenchmarkOpenLoop. apply wp_bind, wp_host. intros acts w1 _. cbn [seq_post].
    apply wp_bind, wp_host. intros el w2 _. cbn [seq_post]. apply wp_bind, wp_host. intros now w3 _. cbn [seq_post].
    destruct (run_by open_act acts _) as [s|] eqn:Er; [|apply HD]. destruct (o_returned s) eqn:Eret; [|apply HD].
    apply wp_ret, HR. pose proof (run_reaches _ _ _ _ _ (reaches_refl open_act _) Er) as Hreach.
    destruct (open_loop_counts_jobs _ s Hreach) as (_ & _ & _ & H4 & H5 & H6). destruct (H6 Eret) as [_ H7].
    split; [exact H7|]. split; [congruence|]. simpl. rewrite H5, H4. unfold blen. rewrite length_take. lia.
  - unfold runBenchmarkClosedLoop. apply wp_bind, wp_host. intros acts w1 _. cbn [seq_post].
    apply wp_bind, wp_host. intros el w2 _. cbn [seq_post]. apply wp_bind, wp_host. intros now w3 _. cbn [seq_post].
    destruct (run_by _ acts _) as [s|] eqn:Er; [|apply HD]. destruct (returned s) eqn:Eret; [|apply HD].
    apply wp_ret, HR. pose proof (run_reaches _ _ _ _ _ (reaches_refl (closed_act _) _) Er) as Hreach.
    assert (Hit : 0 <= iterations cfg).
    { apply validated_config in Hv as (_ & _ & _ & _ & Hloop). rewrite Eo in Hloop. lia. }
    pose proof (closed_reaches_ok _ cfg s Hit Hreach) as Hs. destruct (ck_ret _ s Hs Eret) as [Hc _].
    destruct (tally_spec (counted s)) as (_ & H4 & H5). pose proof (tally_total (counted s)) as H7.
    rewrite <- (ck_counts _ s Hs) in *. split; [simpl; congruence|]. split; [done|]. simpl. rewrite H5, H4.
    unfold blen. rewrite length_take. lia.
Qed.

(** What happens before the loop: the objects put beforehand, and the warm-up. *)
Definition prefilled (cfg : benchConfig) (count : Z) : list access :=
  if String.eqb (op cfg) "get" then
    said (verbose cfg) ("prefill " +:+ fmt_d count +:+ " objects") ++
    ((fun j => Put (objectKey (keyPrefix cfg) j)) <$> seqZ 0 (Z.of_nat (Z.to_nat count)))
  else [].
Definition warmed_up (cfg : benchConfig) (count : Z) : list access :=
  if 0 <? warmup cfg then
    said (verbose cfg) ("running warmup: " +:+ fmt_d (warmup cfg) +:+ " ops") ++
    concat ((fun j => accesses (op cfg) (job_key cfg count j)) <$> seqZ 0 (Z.of_nat (Z.to_nat (warmup cfg))))
  else [].
Definition before_loop (cfg : benchConfig) : list access :=
  prefilled cfg (prefill_count cfg) ++ warmed_up cfg (prefill_count cfg).

(** And after it. *)
Definition reported_run (r : benchSummary * list string) : list access :=
  Say <$> printSummary r.1 new_dialStats r.2.

Lemma validated_mode cfg : validateConfig cfg = None -> mode cfg = "tcp"%string \/ mode cfg = "rdma"%string.
Proof.
  unfold validateConfig. destruct (_ && _) eqn:E; [done|]. intros _.
  destruct (String.eqb_spec (mode cfg) "tcp"); [by left|]. destruct (String.eqb_spec (mode cfg) "rdma"); [by right|done].
Qed.

Lemma wp_prefilled cfg payload (Q : outcome string unit -> list access -> W -> Prop) w :
  (forall m l' w', Q (Fail m) l' w') -> (forall w', Q (Ret tt) (prefilled cfg (prefill_count cfg)) w') ->
  wp (if String.eqb (op cfg) "get" then
        let! err := prefill_verbose cfg payload (prefill_count cfg) in or_fatal "prefill: " err
      else ret tt) Q [] w.
Proof.
  intros HF HR. unfold prefilled in HR. destruct (String.eqb (op cfg) "get"); [|by apply wp_ret].
  by apply (wp_step _ _ _ _ _ _ (said_adds _ _ _ _ (lift_adds _ _ (prefill_makes _ _ _ _ _)))).
Qed.

Lemma wp_warmed_up cfg payload (Q : outcome string unit -> list access -> W -> Prop) l w :
  (forall m l' w', Q (Fail m) l' w') -> (forall w', Q (Ret tt) (l ++ warmed_up cfg (prefill_count cfg)) w') ->
  wp (if 0 <? warmup cfg then
        (if verbose cfg then say ("running warmup: " +:+ fmt_d (warmup cfg) +:+ " ops") else ret tt);;
        let! err := lift (runWarmup (putObject (bucket cfg) payload) (getObject (bucket cfg)) cfg (prefill_count cfg)
                                    (Z.to_nat (warmup cfg)) 0) in or_fatal "warmup failed: " err
      else ret tt) Q l w.
Proof.
  intros HF HR. unfold warmed_up in HR. destruct (0 <? warmup cfg); [|apply wp_ret; by setoid_rewrite app_nil_r in HR].
  apply wp_bind, wp_said. cbn [seq_post].
  apply (wp_step _ _ _ _ _ _ (lift_adds _ _ (warmup_makes _ _ _ _ _ _))); [done|]. intros w'. by rewrite <- app_assoc.
Qed.

Lemma wp_bench_main flags w :
  wp (main flags) (fun o l _ => match o with
    | Ret r => validateConfig (parseFlags flags) = None /\ mode (parseFlags flags) = "tcp"%string /\
               accounts (parseFlags flags) r /\ l = before_loop (parseFlags flags) ++ reported_run r
    | Fail _ | Diverged => True
    | Blocked => False end) [] w.
Proof.
  unfold main. set (cfg := parseFlags flags). apply wp_bind. destruct (validateConfig cfg) as [e|] eqn:Hv; [by apply wp_fail|].
  apply wp_ret. cbn [seq_post]. destruct (newS3Clients cfg) as [clients|e] eqn:Hc; [|by apply wp_fail].
  assert (Hmode : mode cfg = "tcp"%string).
  { destruct (validated_mode cfg Hv) as [|Hm]; [done|]. apply validated_config in Hv as (_ & _ & Hn & _).
    by rewrite (rdma_mode_is_refused cfg Hm Hn) in Hc. }
  apply wp_bind, ensure_quiet. intros e w1. cbn [seq_post]. apply wp_bind.
  destruct e as [e|]; [by apply wp_fail|]. apply wp_ret. cbn [seq_post]. cbv zeta.
  apply wp_bind, wp_prefilled; [done|]. intros w2. cbn [seq_post].
  apply wp_bind, wp_warmed_up; [done|]. intros w3. cbn [seq_post].
  apply wp_bind, loop_accounts; [done| |done]. intros r w4 Hr. cbn [seq_post].
  apply wp_bind, wp_say_all. cbn [seq_post]. apply wp_bind.
  destruct (negb _); [|apply wp_ret; cbn [seq_post]; by apply wp_ret].
  unfold writeSummaryJSON. destruct (summary_json _ _ _) as [data|e]; apply wp_bind; [|by apply wp_ret, wp_fail].
  apply wp_host. intros [e|] w5 _; cbn [seq_post]; [by apply wp_fail|]. apply wp_ret. by apply wp_ret.
Qed.

(** What main does when it comes to its end: the configuration is valid and not that of
    the RDMA mode; the requests before the loop are the objects put beforehand, in order
    and only for a GET benchmark, and those of the warm-up's operations; every object
    that a job of a GET benchmark reads, whatever the number of jobs, has been put then;
    the summary accounts for every job launched, which in the closed loop are the
    iterations, with the first eight errors; and what is printed at the end is its report. *)
Theorem bench_main_accounts flags w :
  match main flags [] w with
  | (Ret r, l, _) =>
    let cfg := parseFlags flags in
    validateConfig cfg = None /\ mode cfg = "tcp"%string /\ l = before_loop cfg ++ reported_run r /\
    (op cfg = "get"%string -> 0 < prefill_count cfg -> forall j, 0 <= j ->
       Put (job_key cfg (prefill_count cfg) j) ∈ l) /\
    Success r.1 + Failed r.1 = Iterations r.1 /\
    (isOpenLoopMode cfg = false -> Iterations r.1 = iterations cfg) /\
    blen r.2 = Z.min 8 (Failed r.1)
  | (Fail _, _, _) | (Diverged, _, _) => True
  | (Blocked, _, _) => False
  end.
Proof.
  pose proof (wp_bench_main flags w) as H. unfold wp in H.
  destruct (main flags [] w) as [[[r|e| |] l] w']; try done. cbv zeta.
  set (cfg := parseFlags flags) in *. destruct H as (Hv & Hm & Hr & ->). split_and!; try done; [|apply Hr..].
  intros Ho Hn j Hj. unfold before_loop, prefilled, job_key, key_index. rewrite Ho. simpl.
  rewrite (proj2 (Z.ltb_lt 0 _)) by done. rewrite <- !app_assoc. apply elem_of_app. right. apply elem_of_app. left.
  apply list_elem_of_fmap. exists (Z.rem j (prefill_count cfg)). split; [done|].
  rewrite elem_of_seqZ, Z.rem_mod_nonneg by lia. pose proof (Z.mod_pos_bound j (prefill_count cfg) Hn). lia.
Qed.
End run.

(** ** Runs *)

(** A server on which the second of two operations times out. *)
#[export] Instance bench_sim : BenchHost unit := {|
  s3_create_bucket _ w := (Some {| api_code := Some "BucketAlreadyExists"%string; sdk_text := "exists" |}, w);
  s3_head_bucket _ w := (None, w);
  s3_put _ _ _ w := (None, w);
  s3_get _ _ w := (Ok None, w);
  bench_closed w := (closed_sample, w);
  bench_open w := ([], w);
  bench_elapsed w := (10 ^ 9, w);
  bench_now w := ("2025-01-01T00:00:00Z"%string, w);
  os_write_file _ _ w := (None, w);
|}.

(** The report of [bench_sample]'s run. *)
Definition sample_report : list string :=
  ["mode=tcp op=get endpoint=http://127.0.0.1:10090 model=closed-loop";
   "iterations=2 concurrency=1 warmup=0 object_size=8 client_count=1";
   "success=1 failed=1 elapsed=1s";
   "throughput: 1.00 req/s, 0.00 MiB/s";
   "latency: avg=7ns p50=7ns p95=7ns p99=7ns min=7ns max=7ns";
   "fallback_dial_attempts=0";
   "sample_errors:";
   "  - timeout"]%string.

Lemma bench_main_accounts_witness :
  let '(out, l, _) := main bench_sample [] tt in
  l = [Put "o-00000000"; Put "o-00000001"] ++ (Say <$> sample_report) /\
  match out with Ret r => Success r.1 + Failed r.1 = 2 /\ r.2 = ["timeout"%string] | _ => False end.
Proof.
  pose proof (bench_main_accounts bench_sample tt) as H.
  assert (Hout : match main bench_sample [] tt with
                 | (Ret r, l, _) => r.2 = ["timeout"%string] /\ reported_run r = (Say <$> sample_report)
                 | _ => False end)
    by (vm_compute; split; reflexivity).
  destruct (main bench_sample [] tt) as [[[r|e| |] l] w']; try done. destruct Hout as [Hout Hrep].
  destruct H as (_ & _ & -> & _ & H1 & H2 & _). rewrite Hrep. split; [by vm_compute|]. split; [|done].
  rewrite H1. apply H2. by vm_compute.
Defined.
