(* ===== verification/Demo.v ===== *)
(** * The zcopy demo (cmd/s3-rdma-zcopy-demo/main.go)

    A load generator over the zcopy client: what its flags are checked for, where in the
    shared memory its concurrent GETs are placed, one operation with its verification and
    the release of the borrowed result, and the summary.  The client library is the class
    [DemoHost]. *)

From Stdlib Require Import SpecFloat.
From S2P Require Import Prelude Floats GoFmt VerbsConn Bench.

#[local] Open Scope go_scope.

Definition defaultConnectTimeout : Z := 10 * 10 ^ 9.
Definition defaultControlTimeout : Z := 30 * 10 ^ 9.
Definition defaultDataTimeout : Z := 2 * 60 * 10 ^ 9.

(** ** Flags *)

Record flags := {
  f_endpoint : string;
  f_bucket : string;
  f_key : string;
  f_op : string;
  memSize : Z;
  putOffset : Z;
  putSize : Z;
  getOffset : Z;
  maxGetSize : Z;
  concurrent : Z;
  clientCount : Z;
  statsInterval : Z;
  f_targetRPS : float64;
  f_duration : Z;
  verifyResult : bool;
  reqTimeout : Z;
  f_connectTO : Z;
  f_controlTO : Z;
  f_dataTO : Z;
  frameSize : Z;
  sendDepth : Z;
  recvDepth : Z;
  inlineBytes : Z;
  maxCredits : Z;
  sendQueueLen : Z;
}.

(** The product of two int, when it is one; [None] stands for the result false. *)
Definition mulIntChecked (a b : Z) : option Z :=
  if (a <? 0) || (b <? 0) then None
  else if (a =? 0) || (b =? 0) then Some 0
  else if Z.quot max_int b <? a then None
  else Some (i64 (a * b)).

Fixpoint first_bad (checks : list (bool * string)) : option string :=
  match checks with
  | [] => None
  | (bad, msg) :: rest => if bad : bool then Some msg else first_bad rest
  end.

Definition when (bad : bool) (msg : string) : bool * string := (bad, msg).
#[local] Arguments when bad%_bool_scope msg%_string_scope.

Definition openLoop (f : flags) : bool := f64_lt f64_zero (f_targetRPS f) && (0 <? f_duration f).

Definition closedLoop (f : flags) : bool := f64_eq (f_targetRPS f) f64_zero && (f_duration f =? 0).

(** The checks of the window of the closed burst. *)
Definition burst_checks (f : flags) : list (bool * string) :=
  match mulIntChecked (concurrent f) (maxGetSize f) with
  | None => [when true ("invalid get window: concurrent=" +:+ fmt_d (concurrent f) +:+ " max=" +:+ fmt_d (maxGetSize f) +:+
                        " overflows int")]
  | Some getWindow =>
    [when (concurrent f <=? 0) "concurrent-get must be > 0";
     when (memSize f <? i64 (getOffset f + getWindow))
       ("invalid get range offset=" +:+ fmt_d (getOffset f) +:+ " max=" +:+ fmt_d (maxGetSize f) +:+
        " concurrent=" +:+ fmt_d (concurrent f) +:+ " mem=" +:+ fmt_d (memSize f))]
  end.

Definition open_checks (f : flags) : list (bool * string) :=
  [when (f64_le (f_targetRPS f) f64_zero) "target-rps must be > 0";
   when (f_duration f <=? 0) "duration must be > 0";
   when (memSize f <? i64 (getOffset f + maxGetSize f))
     ("invalid get range offset=" +:+ fmt_d (getOffset f) +:+ " max=" +:+ fmt_d (maxGetSize f) +:+
      " mem=" +:+ fmt_d (memSize f))].

(** The message of the fatalf a process with these flags ends with, if any. *)
Definition check_flags (f : flags) : option string :=
  let op := ToLower (TrimSpace (f_op f)) in
  first_bad
    ([when (negb (String.eqb op "get" || String.eqb op "put-get")) "op must be one of: get, put-get";
      when (negb (closedLoop f) && negb (openLoop f)) "target-rps and duration must be set together";
      when (memSize f <=? 0) "mem-size must be > 0";
      when ((putOffset f <? 0) || (putSize f <? 0) || (memSize f <? i64 (putOffset f + putSize f)))
        ("invalid put range offset=" +:+ fmt_d (putOffset f) +:+ " size=" +:+ fmt_d (putSize f) +:+
         " mem=" +:+ fmt_d (memSize f));
      when ((getOffset f <? 0) || (maxGetSize f <=? 0))
        ("invalid get range offset=" +:+ fmt_d (getOffset f) +:+ " max=" +:+ fmt_d (maxGetSize f));
      when (clientCount f <=? 0) "client-count must be > 0";
      when (maxCredits f <? 0) "max-credits must be >= 0";
      when (sendQueueLen f <? 0) "send-queue-len must be >= 0"] ++
     (if negb (closedLoop f) && openLoop f then open_checks f else burst_checks f)).

(** An unset timeout is the legacy one, or else the default. *)
Definition resolve_timeout (own legacy default : Z) : Z :=
  let v := if own <=? 0 then legacy else own in if v <=? 0 then default else v.

(** ** Jobs *)

Record benchConfig := {
  op : string;
  b_bucket : string;
  b_putOffset : Z;
  b_putSize : Z;
  b_getOffset : Z;
  b_maxGetSize : Z;
  b_concurrent : Z;
  b_targetRPS : float64;
  b_duration : Z;
  connectTO : Z;
  controlTO : Z;
  dataTO : Z;
  b_verify : bool;
}.

Definition runCfg (f : flags) : benchConfig :=
  {| op := ToLower (TrimSpace (f_op f)); b_bucket := f_bucket f; b_putOffset := putOffset f; b_putSize := putSize f;
     b_getOffset := getOffset f; b_maxGetSize := maxGetSize f; b_concurrent := concurrent f;
     b_targetRPS := f_targetRPS f; b_duration := f_duration f;
     connectTO := resolve_timeout (f_connectTO f) (reqTimeout f) defaultConnectTimeout;
     controlTO := resolve_timeout (f_controlTO f) (reqTimeout f) defaultControlTimeout;
     dataTO := resolve_timeout (f_dataTO f) (reqTimeout f) defaultDataTimeout; b_verify := verifyResult f |}.

(** A job: its client, its number, the offset its GET is placed at. *)
Record job := { j_client : Z; requestID : Z; targetOffset : Z }.

Definition burst_job (cfg : benchConfig) (c slot : Z) : job :=
  {| j_client := c; requestID := i64 (c * b_concurrent cfg + slot);
     targetOffset := i64 (b_getOffset cfg + i64 (slot * b_maxGetSize cfg)) |}.

(** The loops of runClosedBurst; client [i] has the id [i]. *)
Definition burst_jobs (cfg : benchConfig) (clients : Z) : list job :=
  concat ((fun c => burst_job cfg c <$> seqZ 0 (b_concurrent cfg)) <$> seqZ 0 clients).

Definition availableSlots (mem off size : Z) : Z :=
  if size <=? 0 then 1
  else
    let space := mem - off in
    if space <=? 0 then 1
    else let slots := Z.quot space size in if slots <? 1 then 1 else slots.

(** The job the ticker launches as number [jobIdx]. *)
Definition open_job (cfg : benchConfig) (mem clients jobIdx : Z) : job :=
  let slots := availableSlots mem (b_getOffset cfg) (b_maxGetSize cfg) in
  let slot := if 1 <? slots then Z.rem jobIdx slots else 0 in
  {| j_client := Z.rem jobIdx clients; requestID := jobIdx;
     targetOffset := i64 (b_getOffset cfg + i64 (slot * b_maxGetSize cfg)) |}.

Definition openLoopInterval (targetRPS : float64) : Z :=
  let interval := i64_of_f64 (f64_div (f64_of_Z (10 ^ 9)) targetRPS) in
  if interval <? 1 then 1 else interval.

Definition objectKey (base : string) (clientID clientCount : Z) : string :=
  if clientCount <=? 1 then base else base +:+ "-c" +:+ fmt_0d 3 clientID.

Definition payloadByte (clientID index : Z) : byte :=
  byte_of_Z (Z.land (i64 (index * 31 + 17 + clientID * 13)) 255).

Definition payload (clientID size : Z) : list byte := payloadByte clientID <$> seqZ 0 size.

(** ** One operation *)

Record BufferRef := { Offset : Z; Size : Z }.
Definition no_ref : BufferRef := {| Offset := 0; Size := 0 |}.

(** [d_shared]: the client's shared memory. *)
Class DemoHost (W : Type) := {
  d_put : BufferRef -> W -> option string * W;
  d_get : Z -> Z -> W -> res string BufferRef * W;
  d_release : BufferRef -> W -> option string * W;
  d_shared : W -> list byte;
}.

Inductive demo_event := Got (r : BufferRef) | Released (r : BufferRef).

(** The index expression panics. *)
Inductive panic := IndexOutOfRange.

Section operation.
Context {W : Type} `{!DemoHost W}.
#[local] Abbreviation D := (M W (list demo_event) panic).

Definition note (e : demo_event) : D unit := modify (fun l => l ++ [e]).

Definition where_text (j : job) : string :=
  " client=" +:+ fmt_d (j_client j) +:+ " req=" +:+ fmt_d (requestID j).

(** [for i := 0; i < cfg.putSize; i++] from [i]: the first byte that differs. *)
Fixpoint verify_bytes (shared : list byte) (j : job) (off i : Z) (n : nat) : res panic (option string) :=
  match n with
  | O => Ok None
  | S n' =>
    let at_ := off + i in
    match (if at_ <? 0 then None else shared !! Z.to_nat at_) with
    | None => Err IndexOutOfRange
    | Some got =>
      if bool_decide (got = payloadByte (j_client j) i) then verify_bytes shared j off (i + 1) n'
      else Ok (Some ("data mismatch" +:+ where_text j +:+ " byte=" +:+ fmt_d i +:+
                     " expected=" +:+ fmt_d (Z_of_byte (payloadByte (j_client j) i)) +:+ " got=" +:+ fmt_d (Z_of_byte got)))
    end
  end.

(** What is returned before the deferred release has run. *)
Definition check_result (cfg : benchConfig) (j : job) (ref : BufferRef) : D (option string) :=
  if negb (Size ref =? b_putSize cfg) then ret (Some ("size mismatch" +:+ where_text j +:+ " put=" +:+ fmt_d (b_putSize cfg) +:+ " get=" +:+ fmt_d (Size ref)))
  else if negb (b_verify cfg) then ret None
  else
    let! shared := peek d_shared in
    match verify_bytes shared j (Offset ref) 0 (Z.to_nat (b_putSize cfg)) with
    | Ok e => ret e
    | Err p => fail p
    end.

Definition executeOperation (cfg : benchConfig) (j : job) : D (BufferRef * option string) :=
  let source := {| Offset := b_putOffset cfg; Size := b_putSize cfg |} in
  let! putErr := if String.eqb (op cfg) "put-get" then host (d_put source) else ret None in
  match putErr with
  | Some e => ret (no_ref, Some ("put failed" +:+ where_text j +:+ ": " +:+ e))
  | None =>
    let! r := host (d_get (targetOffset j) (b_maxGetSize cfg)) in
    match r with
    | Err e => ret (no_ref, Some ("get failed" +:+ where_text j +:+ ": " +:+ e))
    | Ok ref =>
      note (Got ref);;
      let! err := check_result cfg j ref in
      let! relErr := host (d_release ref) in
      note (Released ref);;
      ret (ref, match err, relErr with
                | None, Some e => Some ("release failed" +:+ where_text j +:+ ": " +:+ e)
                | _, _ => err
                end)
    end
  end.
End operation.

(** ** The summary *)

Record benchStats := {
  s_mode : string;
  launched : Z;
  success : Z;
  s_failed : Z;
  s_elapsed : Z;
  throughput : float64;
  avg : Z;
  s_p50 : option Z;
  s_p95 : option Z;
  s_p99 : option Z;
  min : Z;
  max : Z;
  s_errors : list string;
  lastClientID : Z;
  lastRef : BufferRef;
}.

Definition percentile : list Z -> float64 -> option Z := Bench.percentile.

(** [last]: lastClientID and lastRef. *)
Definition summarizeBench (mode : string) (nlaunched : Z) (ds : list Z) (nfailed elapsed : Z) (errors : list string)
    (last : Z * BufferRef) : benchStats :=
  let n := blen ds in
  let sorted := sort_durations ds in
  {| s_mode := mode; launched := nlaunched; success := n; s_failed := nfailed; s_elapsed := elapsed;
     throughput := if 0 <? elapsed then f64_div (f64_of_Z n) (Seconds elapsed) else f64_zero;
     avg := if n =? 0 then 0 else Z.quot (total_of sorted) n;
     s_p50 := percentile sorted p50; s_p95 := percentile sorted p95; s_p99 := percentile sorted p99;
     min := hd 0 sorted; max := List.last sorted 0;
     s_errors := errors; lastClientID := last.1; lastRef := last.2 |}.

(** The collector of both loops, over the results in the order they arrive. *)
Definition collect_results (rs : list (Z * opResult)) : tally := tally_of rs.

(** What it keeps of the last success: [client_of] and [ref_of] are the client of a job and
    the reference its operation has returned. *)
Definition last_success (client_of : Z -> Z) (ref_of : Z -> BufferRef) (rs : list (Z * opResult)) : Z * BufferRef :=
  fold_left (fun acc x => match err x.2 with None => (client_of x.1, ref_of x.1) | Some _ => acc end) rs (-1, no_ref).

(** runClosedBurst, with the results of the jobs in the order they arrive; job [j] is that
    of client [j / concurrent]. *)
Definition runClosedBurst (cfg : benchConfig) (clients : Z) (ref_of : Z -> BufferRef) (rs : list (Z * opResult))
    (elapsed : Z) : benchStats :=
  match mulIntChecked clients (b_concurrent cfg) with
  | None =>
    summarizeBench "closed-burst" 0 [] 1 0
      ["invalid total gets: clients=" +:+ fmt_d clients +:+ " concurrent-get=" +:+ fmt_d (b_concurrent cfg)]
      (0, no_ref)
  | Some totalGets =>
    let t := collect_results rs in
    summarizeBench "closed-burst" totalGets (durations t) (failed t) elapsed (errs t)
      (last_success (fun j => Z.quot j (b_concurrent cfg)) ref_of rs)
  end.

(** ** Flags and windows *)

Lemma mulIntChecked_exact a b c :
  a <= max_int -> b <= max_int ->
  (mulIntChecked a b = Some c <-> 0 <= a /\ 0 <= b /\ a * b <= max_int /\ c = a * b).
Proof.
  intros Ha Hb. unfold mulIntChecked. destruct (Z.ltb_spec a 0), (Z.ltb_spec b 0); simpl; try (split; [done|lia]).
  destruct (Z.eqb_spec a 0) as [->|Ha0]; simpl; [unfold max_int; split; [intros [= <-]|intros (_ & _ & _ & ->)]; done|].
  destruct (Z.eqb_spec b 0) as [->|Hb0]; simpl; [unfold max_int; rewrite Z.mul_0_r; split; [intros [= <-]|intros (_ & _ & _ & ->)]; done|].
  rewrite Z.quot_div_nonneg by (unfold max_int; lia).
  destruct (Z.ltb_spec (max_int / b) a) as [Hlt|Hge].
  - split; [done|]. intros (_ & _ & Hm & _). pose proof (Z.div_le_lower_bound max_int b a ltac:(lia) ltac:(lia)). lia.
  - assert (a * b <= max_int) by (pose proof (Z.mul_div_le max_int b ltac:(lia)); nia).
    rewrite i64_id by (unfold max_int in *; nia). naive_solver.
Qed.

Lemma first_bad_None l : first_bad l = None <-> Forall (fun c => c.1 = false) l.
Proof.
  induction l as [|[[] msg] l IH]; simpl; rewrite ?Forall_cons; simpl; [done| |naive_solver].
  split; [done|by intros [? _]].
Qed.

Lemma elem_of_burst_jobs cfg clients j :
  j ∈ burst_jobs cfg clients <->
  exists c slot, 0 <= c < clients /\ 0 <= slot < b_concurrent cfg /\ j = burst_job cfg c slot.
Proof.
  unfold burst_jobs. rewrite list_elem_of_In, in_concat. split.
  - intros (l & Hl%list_elem_of_In & Hj%list_elem_of_In).
    apply list_elem_of_fmap in Hl as (c & -> & Hc%elem_of_seqZ).
    apply list_elem_of_fmap in Hj as (slot & -> & Hs%elem_of_seqZ). exists c, slot. split_and!; lia || done.
  - intros (c & slot & Hc & Hs & ->). exists (burst_job cfg c <$> seqZ 0 (b_concurrent cfg)).
    rewrite <- !list_elem_of_In. split; apply list_elem_of_fmap; eexists; (split; [done|]); apply elem_of_seqZ; lia.
Qed.

Lemma checked_clients f : check_flags f = None -> 0 < clientCount f.
Proof.
  unfold check_flags. intros Hc%first_bad_None. rewrite Forall_app, !Forall_cons in Hc.
  destruct Hc as [(_ & _ & _ & _ & _ & Hcl & _) _]. unfold when in Hcl. simpl (_.1) in Hcl. bool_facts. lia.
Qed.

(** What the checks of the closed burst say, the sums being within int. *)
Lemma checked_burst f :
  check_flags f = None -> closedLoop f = true -> putOffset f + putSize f < 2 ^ 63 ->
  concurrent f <= max_int -> maxGetSize f <= max_int -> getOffset f + concurrent f * maxGetSize f < 2 ^ 63 ->
  0 <= putOffset f /\ 0 <= putSize f /\ putOffset f + putSize f <= memSize f /\
  0 <= getOffset f /\ 0 < maxGetSize f /\ 0 < clientCount f /\ 0 < concurrent f /\
  getOffset f + concurrent f * maxGetSize f <= memSize f.
Proof.
  intros Hc Hl Hp Hcm Hgm Hg. unfold check_flags in Hc. rewrite Hl in Hc. simpl negb in Hc. cbn [andb] in Hc.
  apply first_bad_None in Hc. rewrite Forall_app, !Forall_cons in Hc.
  destruct Hc as [(_ & _ & _ & Hput & Hget & Hcl & _ & _ & _) Hb]. unfold when in *. simpl (_.1) in *.
  bool_facts. unfold burst_checks in Hb.
  destruct (mulIntChecked (concurrent f) (maxGetSize f)) as [w|] eqn:Em.
  - apply mulIntChecked_exact in Em as (M1 & M2 & M3 & ->); [|done..].
    rewrite !Forall_cons in Hb. unfold when in Hb. simpl (_.1) in Hb. destruct Hb as (B1 & B2 & _). bool_facts.
    rewrite i64_id in * by nia. lia.
  - apply Forall_cons in Hb as [Hb _]. done.
Qed.

(** Flags that the closed burst accepts.  Every GET of the burst is placed at or after
    get-offset and ends within the shared memory of its client; two GETs of one client,
    which run at the same time, never share a byte; the jobs are as many as clients times
    concurrent GETs, with distinct numbers; and the payload of the PUTs lies within the
    memory.  The sums of the flags are assumed to be in the range of int. *)
Theorem burst_windows_are_disjoint f :
  check_flags f = None -> closedLoop f = true -> putOffset f + putSize f < 2 ^ 63 ->
  concurrent f <= max_int -> maxGetSize f <= max_int -> getOffset f + concurrent f * maxGetSize f < 2 ^ 63 ->
  clientCount f * concurrent f < 2 ^ 63 ->
  let jobs := burst_jobs (runCfg f) (clientCount f) in
  (forall j, j ∈ jobs -> 0 <= j_client j < clientCount f /\ getOffset f <= targetOffset j /\
                         targetOffset j + maxGetSize f <= memSize f) /\
  (forall j j', j ∈ jobs -> j' ∈ jobs -> j_client j = j_client j' -> j <> j' ->
     targetOffset j + maxGetSize f <= targetOffset j' \/ targetOffset j' + maxGetSize f <= targetOffset j) /\
  blen jobs = clientCount f * concurrent f /\
  (forall j j', j ∈ jobs -> j' ∈ jobs -> requestID j = requestID j' -> j = j') /\
  0 <= putOffset f /\ 0 <= putSize f /\ putOffset f + putSize f <= memSize f.
Proof.
  intros Hc Hl Hp Hcm Hgm Hg Hn. destruct (checked_burst f Hc Hl Hp Hcm Hgm Hg) as (P1 & P2 & P3 & G1 & G2 & C1 & C2 & G3).
  cbv zeta. set (cfg := runCfg f).
  assert (Hjob : forall c slot, 0 <= c < clientCount f -> 0 <= slot < concurrent f ->
    burst_job cfg c slot = {| j_client := c; requestID := c * concurrent f + slot;
                              targetOffset := getOffset f + slot * maxGetSize f |}).
  { intros c slot H1 H2. unfold burst_job, cfg, runCfg. cbn [b_concurrent b_getOffset b_maxGetSize].
    assert (0 <= c * concurrent f + slot < 2 ^ 63) by nia.
    assert (0 <= slot * maxGetSize f /\ getOffset f + slot * maxGetSize f < 2 ^ 63) by nia.
    by rewrite (i64_id (slot * maxGetSize f)), !i64_id by lia. }
  assert (Hin : forall j, j ∈ burst_jobs cfg (clientCount f) -> exists c slot, 0 <= c < clientCount f /\
    0 <= slot < concurrent f /\ j = {| j_client := c; requestID := c * concurrent f + slot;
                                      targetOffset := getOffset f + slot * maxGetSize f |}).
  { intros j (c & slot & H1 & H2 & ->)%elem_of_burst_jobs. exists c, slot. split; [done|]. split; [done|]. by apply Hjob. }
  split_and!; try done.
  - intros j (c & slot & H1 & H2 & ->)%Hin. simpl. split_and!; nia.
  - intros j j' (c & s1 & H1 & H2 & ->)%Hin (c' & s2 & H3 & H4 & ->)%Hin. simpl. intros -> Hne.
    destruct (Z.lt_total s1 s2) as [|[->|]]; [left; nia|done|right; nia].
  - assert (E : forall l : list Z,
      blen (concat ((fun c => burst_job cfg c <$> seqZ 0 (concurrent f)) <$> l)) = blen l * concurrent f).
    { unfold blen. induction l as [|c l IH]; [done|]. rewrite fmap_cons. cbn [concat].
      rewrite length_app, length_fmap, length_seqZ. cbn [length]. lia. }
    unfold burst_jobs. change (b_concurrent cfg) with (concurrent f). rewrite E. unfold blen. rewrite length_seqZ. lia.
  - intros j j' (c & s1 & H1 & H2 & ->)%Hin (c' & s2 & H3 & H4 & ->)%Hin. simpl. intros E.
    assert (c = c') as -> by nia. assert (s1 = s2) as -> by lia. done.
Qed.

(** The open loop: the GET of every job lies within the memory. *)
Theorem open_windows_in_range f jobIdx :
  check_flags f = None -> closedLoop f = false -> 0 <= jobIdx ->
  memSize f < 2 ^ 63 -> getOffset f + maxGetSize f < 2 ^ 63 ->
  let j := open_job (runCfg f) (memSize f) (clientCount f) jobIdx in
  0 <= j_client j < clientCount f /\
  getOffset f <= targetOffset j /\ targetOffset j + maxGetSize f <= memSize f.
Proof.
  intros Hc Hl Hj Hm Hg. unfold check_flags in Hc. rewrite Hl in Hc.
  apply first_bad_None in Hc. rewrite Forall_app, !Forall_cons in Hc. unfold when in Hc. simpl (_.1) in Hc.
  destruct Hc as [(_ & Hmode & _ & _ & Hget & Hcl & _ & _ & _) Hb]. simpl in Hmode. bool_facts.
  rewrite Hmode in Hb. cbn [negb andb] in Hb. unfold open_checks in Hb. rewrite !Forall_cons in Hb. destruct Hb as (_ & _ & Hw & _).
  unfold when in Hw. simpl in Hw. bool_facts. rewrite i64_id in Hw by lia.
  unfold open_job, runCfg. cbn [j_client targetOffset b_getOffset b_maxGetSize].
  assert (Hcr : 0 <= Z.rem jobIdx (clientCount f) < clientCount f) by (apply Z.rem_bound_pos; lia).
  set (slots := availableSlots _ _ _). assert (Hs : 1 <= slots /\ slots * maxGetSize f <= memSize f - getOffset f).
  { unfold slots, availableSlots. rewrite (proj2 (Z.leb_gt (maxGetSize f) 0)), (proj2 (Z.leb_gt (memSize f - getOffset f) 0)) by lia.
    rewrite Z.quot_div_nonneg by lia. pose proof (Z.mul_div_le (memSize f - getOffset f) (maxGetSize f) ltac:(lia)).
    destruct (Z.ltb_spec ((memSize f - getOffset f) / maxGetSize f) 1); lia. }
  clearbody slots. set (slot := if 1 <? slots then Z.rem jobIdx slots else 0).
  assert (Hsl : 0 <= slot < slots).
  { unfold slot. destruct (1 <? slots); [apply Z.rem_bound_pos; lia|lia]. }
  clearbody slot. assert (0 <= slot * maxGetSize f /\ (slot + 1) * maxGetSize f <= memSize f - getOffset f) by nia.
  rewrite (i64_id (slot * maxGetSize f)), i64_id by lia. lia.
Qed.

(** The slot is chosen by the number of the job, and so is the client: when the number of
    slots divides the number of clients, a client uses one slot for all its jobs, which
    then overwrite each other's results when they run at the same time. *)
Theorem open_slots_collide cfg mem clients i i' :
  let slots := availableSlots mem (b_getOffset cfg) (b_maxGetSize cfg) in
  0 <= i -> 0 <= i' -> 0 < clients -> (slots | clients) ->
  j_client (open_job cfg mem clients i) = j_client (open_job cfg mem clients i') ->
  targetOffset (open_job cfg mem clients i) = targetOffset (open_job cfg mem clients i').
Proof.
  cbv zeta. set (slots := availableSlots _ _ _). intros Hi Hi' Hc [q Hq]. unfold open_job. fold slots.
  cbn [j_client targetOffset]. intros E. destruct (Z.ltb_spec 1 slots) as [Hs|]; [|done].
  rewrite !Z.rem_mod_nonneg in * by lia. assert (Hmod : i mod slots = i' mod slots).
  { assert (Hx : forall x, x mod slots = (x mod clients) mod slots).
    { intros x. rewrite Hq, (Z.mul_comm q), Z.rem_mul_r, Z.mul_comm by nia. by rewrite Z.mod_add, Z.mod_mod by lia. }
    by rewrite (Hx i), (Hx i'), E. }
  by rewrite Hmod.
Qed.

(** ** One operation *)

Lemma verify_bytes_spec shared j off i n :
  0 <= off + i -> off + i + Z.of_nat n <= blen shared ->
  exists e, verify_bytes shared j off i n = Ok e /\
    (e = None <-> take n (drop (Z.to_nat (off + i)) shared) = (payloadByte (j_client j) <$> seqZ i (Z.of_nat n))).
Proof.
  revert i. induction n as [|n IH]; intros i H0 H1; [by exists None|].
  simpl verify_bytes. rewrite (proj2 (Z.ltb_ge (off + i) 0)) by done.
  destruct (lookup_lt_is_Some_2 shared (Z.to_nat (off + i))) as [got Hgot]; [unfold blen in *; lia|].
  rewrite Hgot. rewrite (drop_S _ _ _ Hgot). rewrite seqZ_cons by lia. simpl (take _ _).
  replace (Z.pred (Z.of_nat (S n))) with (Z.of_nat n) by lia. change (Z.succ i) with (i + 1).
  case_bool_decide as Hb.
  - destruct (IH (i + 1)) as (e & He & Hiff); [lia|lia|]. exists e. split; [done|]. rewrite Hiff, Hb.
    replace (S (Z.to_nat (off + i))) with (Z.to_nat (off + (i + 1))) by lia.
    rewrite fmap_cons. split; [by intros ->|by intros [= ->]].
  - eexists. split; [done|]. rewrite fmap_cons. split; [done|]. by intros [= E _].
Qed.

Lemma bind_ret {W St E A B} (m : M W St E A) (k : A -> M W St E B) s w a s' w' :
  m s w = (Ret a, s', w') -> bind m k s w = k a s' w'.
Proof. unfold bind. by intros ->. Qed.

Lemma host_ret {W St E A} (f : W -> A * W) (s : St) w a w' :
  f w = (a, w') -> host f s w = (Ret a, s, w') :> (outcome E A * St * W).
Proof. unfold host. by intros ->. Qed.

Section operation_facts.
Context {W : Type} `{!DemoHost W}.

(** One operation of the demo.  A PUT or GET that fails is its error, and nothing has been
    borrowed.  When the GET returns a reference within the shared memory, the reference is
    released, once, whatever the verification finds; and the operation succeeds exactly
    when the size is that of the payload, the bytes in the shared memory are the payload
    of this client (unless they are not to be verified), and the release succeeds. *)
Theorem operation_verifies cfg j (w : W) :
  0 <= b_putSize cfg ->
  let '(putErr, w1) := if String.eqb (op cfg) "put-get"
                       then d_put {| Offset := b_putOffset cfg; Size := b_putSize cfg |} w else (None, w) in
  let '(r, w2) := d_get (targetOffset j) (b_maxGetSize cfg) w1 in
  let run := executeOperation cfg j [] w in
  match putErr, r with
  | Some _, _ => exists e, run = (Ret (no_ref, Some e), [], w1)
  | None, Err _ => exists e, run = (Ret (no_ref, Some e), [], w2)
  | None, Ok ref =>
    0 <= Offset ref -> Offset ref + Size ref <= blen (d_shared w2) ->
    let '(relErr, w3) := d_release ref w2 in
    exists e, run = (Ret (ref, e), [Got ref; Released ref], w3) /\
      (e = None <-> Size ref = b_putSize cfg /\
         (b_verify cfg = true -> take (Z.to_nat (Size ref)) (drop (Z.to_nat (Offset ref)) (d_shared w2)) =
                                 payload (j_client j) (b_putSize cfg)) /\
         relErr = None)
  end.
Proof.
  intros Hsize.
  destruct (if String.eqb (op cfg) "put-get" then d_put _ w else (None, w)) as [putErr w1] eqn:Ep.
  destruct (d_get (targetOffset j) (b_maxGetSize cfg) w1) as [r w2] eqn:Eg. cbv zeta.
  assert (Eput : (if String.eqb (op cfg) "put-get" then host (d_put {| Offset := b_putOffset cfg; Size := b_putSize cfg |})
                  else ret None) ([] : list demo_event) w = (Ret putErr, [], w1) :> (outcome panic _ * _ * _)).
  { destruct (String.eqb _ _); [by apply host_ret|by simplify_eq]. }
  unfold executeOperation. rewrite (bind_ret _ _ _ _ _ _ _ Eput). destruct putErr as [e|]; [by eexists|].
  rewrite (bind_ret _ _ _ _ _ _ _ (host_ret _ _ _ _ _ Eg)). destruct r as [ref|e]; [|by eexists].
  intros H0 H1. destruct (d_release ref w2) as [relErr w3] eqn:Er.
  assert (Hcheck : exists e, check_result cfg j ref [Got ref] w2 = (Ret e, [Got ref], w2) /\
    (e = None <-> Size ref = b_putSize cfg /\
       (b_verify cfg = true -> take (Z.to_nat (Size ref)) (drop (Z.to_nat (Offset ref)) (d_shared w2)) =
                               payload (j_client j) (b_putSize cfg)))).
  { unfold check_result. destruct (Z.eqb_spec (Size ref) (b_putSize cfg)) as [E|E]; simpl; [|eexists; split; [done|naive_solver]].
    destruct (b_verify cfg); simpl; [|eexists; split; [done|naive_solver]].
    unfold bind, peek. destruct (verify_bytes_spec (d_shared w2) j (Offset ref) 0 (Z.to_nat (b_putSize cfg)))
      as (e & He & Hiff); [lia|lia|]. rewrite He. exists e. split; [done|]. rewrite Hiff, E, Z.add_0_r.
    unfold payload. rewrite Z2Nat.id by done. naive_solver. }
  destruct Hcheck as (e & He & Hiff).
  rewrite (bind_ret (note (Got ref)) _ [] w2 tt [Got ref] w2) by done. rewrite (bind_ret _ _ _ _ _ _ _ He).
  rewrite (bind_ret _ _ _ _ _ _ _ (host_ret _ _ _ _ _ Er)).
  rewrite (bind_ret (note (Released ref)) _ [Got ref] w3 tt [Got ref; Released ref] w3) by done.
  eexists. split; [done|]. destruct e as [e|], relErr as [e'|]; split; try done; naive_solver.
Qed.
End operation_facts.

(** ** Runs *)

(** A server that keeps one object, and a client memory of 64 bytes. *)
Record demo_sim := { ds_object : list byte; ds_memory : list byte }.

#[export] Instance demo_sim_host : DemoHost demo_sim := {|
  d_put r w := (None, {| ds_object := take (Z.to_nat (Size r)) (drop (Z.to_nat (Offset r)) (ds_memory w));
                         ds_memory := ds_memory w |});
  d_get off _ w := (Ok {| Offset := off; Size := blen (ds_object w) |},
                    {| ds_object := ds_object w;
                       ds_memory := take (Z.to_nat off) (ds_memory w) ++ ds_object w ++
                                    drop (Z.to_nat off + length (ds_object w)) (ds_memory w) |});
  d_release _ w := (None, w);
  d_shared w := ds_memory w;
|}.

Definition demo_flags (op : string) (get_offset : Z) (many : Z) : flags :=
  {| f_endpoint := "127.0.0.1:10191"; f_bucket := "b"; f_key := "k"; f_op := op; memSize := 64; putOffset := 0; putSize := 8; getOffset := get_offset; maxGetSize := 16;
     concurrent := many; clientCount := 2; statsInterval := 0; f_targetRPS := f64_zero; f_duration := 0; verifyResult := true;
     reqTimeout := 0; f_connectTO := 0; f_controlTO := 0; f_dataTO := 0; frameSize := 0; sendDepth := 0; recvDepth := 0;
     inlineBytes := 0; maxCredits := 0; sendQueueLen := 0 |}.

Definition demo_start : demo_sim :=
  {| ds_object := []; ds_memory := payload 1 8 ++ replicate 56 x00 |}.

Lemma burst_windows_are_disjoint_witness :
  let f := demo_flags "get" 16 3 in
  let jobs := burst_jobs (runCfg f) 2 in
  (fun j => (j_client j, targetOffset j)) <$> jobs = [(0, 16); (0, 32); (0, 48); (1, 16); (1, 32); (1, 48)] /\
  (forall j j', j ∈ jobs -> j' ∈ jobs -> j_client j = j_client j' -> j <> j' ->
     targetOffset j + 16 <= targetOffset j' \/ targetOffset j' + 16 <= targetOffset j) /\
  blen jobs = 6.
Proof.
  split; [by vm_compute|].
  pose proof (burst_windows_are_disjoint (demo_flags "get" 16 3) ltac:(by vm_compute) ltac:(by vm_compute)
    ltac:(done) ltac:(done) ltac:(done) ltac:(done) ltac:(done)) as (_ & Hd & Hn & _).
  split; [exact Hd|exact Hn].
Defined.

Lemma open_windows_in_range_witness :
  let f := demo_flags "get" 16 1 in
  let g := {| f_endpoint := "127.0.0.1:10191"; f_bucket := "b"; f_key := "k"; f_op := f_op f; memSize := memSize f; putOffset := putOffset f; putSize := putSize f;
              getOffset := getOffset f; maxGetSize := maxGetSize f; concurrent := concurrent f;
              clientCount := clientCount f; statsInterval := 0; f_targetRPS := f64_of_Z 100; f_duration := 10 ^ 9; verifyResult := true;
              reqTimeout := 0; f_connectTO := 0; f_controlTO := 0; f_dataTO := 0; frameSize := 0; sendDepth := 0; recvDepth := 0;
     inlineBytes := 0; maxCredits := 0; sendQueueLen := 0 |} in
  let j := open_job (runCfg g) 64 2 5 in
  j = {| j_client := 1; requestID := 5; targetOffset := 48 |} /\
  0 <= j_client j < 2 /\ 16 <= targetOffset j /\ targetOffset j + 16 <= 64.
Proof.
  cbv zeta. split; [by vm_compute|].
  apply (open_windows_in_range {| f_endpoint := "127.0.0.1:10191"; f_bucket := "b"; f_key := "k"; f_op := "get"; memSize := 64; putOffset := 0; putSize := 8;
              getOffset := 16; maxGetSize := 16; concurrent := 1;
              clientCount := 2; statsInterval := 0; f_targetRPS := f64_of_Z 100; f_duration := 10 ^ 9; verifyResult := true;
              reqTimeout := 0; f_connectTO := 0; f_controlTO := 0; f_dataTO := 0; frameSize := 0; sendDepth := 0; recvDepth := 0;
     inlineBytes := 0; maxCredits := 0; sendQueueLen := 0 |} 5);
    first [by vm_compute|done].
Defined.

(** Two clients and two slots: the jobs 0 and 2 of client 0 are placed at one offset. *)
Lemma open_slots_collide_witness :
  let cfg := runCfg (demo_flags "get" 32 1) in
  targetOffset (open_job cfg 64 2 0) = 32 /\ targetOffset (open_job cfg 64 2 1) = 48 /\
  targetOffset (open_job cfg 64 2 0) = targetOffset (open_job cfg 64 2 2).
Proof.
  split; [by vm_compute|]. split; [by vm_compute|].
  apply (open_slots_collide (runCfg (demo_flags "get" 32 1)) 64 2 0 2); [done|done|done|by exists 1|done].
Defined.

Lemma operation_verifies_witness :
  let cfg := runCfg (demo_flags "put-get" 16 1) in
  let ref := {| Offset := 16; Size := 8 |} in
  exists e w, executeOperation cfg (burst_job cfg 1 0) [] demo_start = (Ret (ref, e), [Got ref; Released ref], w) /\
    e = None.
Proof.
  destruct (operation_verifies (runCfg (demo_flags "put-get" 16 1)) (burst_job (runCfg (demo_flags "put-get" 16 1)) 1 0)
    demo_start) as (e & H & Hiff); [done|done|by vm_compute|].
  eexists e, _. split; [exact H|]. apply Hiff. split_and!; [done|by intros _; vm_compute|done].
Defined.

(** What the checks do not exclude: GET windows over the payload of the PUTs, whose second
    operation then fails its verification; and a get-offset whose sum wraps around. *)
Theorem overlapping_windows_are_accepted :
  let f := demo_flags "put-get" 4 1 in
  let op w := executeOperation (runCfg f) (burst_job (runCfg f) 1 0) [] w in
  check_flags f = None /\
  (op demo_start).1.1 = Ret ({| Offset := 4; Size := 8 |}, None) /\
  match (op (op demo_start).2).1.1 with Ret (_, Some _) => True | _ => False end /\
  check_flags (demo_flags "get" max_int 1) = None.
Proof. by vm_compute. Qed.
