(* ===== verification/DemoStats.v ===== *)
(** * The zcopy demo's runtime statistics (main.go: readThreadCount, monitorRuntime)

    The number of threads, read from /proc/self/status or else counted in
    /proc/self/task, and the peaks that a goroutine samples while the benchmark runs.
    What the files hold and what the runtime counts are arguments. *)

From S2P Require Import Prelude.

#[local] Open Scope go_scope.

(** ** strings.Fields *)

Fixpoint next_field (s : string) : string * string :=
  match s with
  | EmptyString => (EmptyString, EmptyString)
  | String a r =>
    match strip_any space_runes s with
    | Some _ => (EmptyString, s)
    | None => let '(f, rest) := next_field r in (String a f, rest)
    end
  end.

(** A field and what separates it take at least one byte. *)
Fixpoint fields_fuel (n : nat) (s : string) : list string :=
  match n with
  | O => []
  | S n' =>
    match TrimLeftSpace s with
    | EmptyString => []
    | s1 => let '(f, rest) := next_field s1 in f :: fields_fuel n' rest
    end
  end.

Definition Fields (s : string) : list string := fields_fuel (String.length s) s.

(** ** readThreadCount *)

Inductive stat_err :=
| EParse (field : string)
| EScan (e : string)
| ETask (status : option string) (e : string).

(** [status]: the error of opening the file, or the lines of the scanner and what its
    [Err] answers once the loop is left; [task]: the entries of the directory. *)
Definition count_tasks (openErr : option string) (task : res string Z) : res stat_err Z :=
  match task with Err e => Err (ETask openErr e) | Ok n => Ok n end.

Definition readThreadCount (status : res string (list string * option string)) (task : res string Z)
    : res stat_err Z :=
  match status with
  | Err e => count_tasks (Some e) task
  | Ok (lines, scanErr) =>
    let after_loop := match scanErr with Some e => Err (EScan e) | None => count_tasks None task end in
    match find (fun line => HasPrefix line "Threads:") lines with
    | None => after_loop
    | Some line =>
      match Fields line with
      | _ :: field :: _ => match Atoi field with Some n => Ok n | None => Err (EParse field) end
      | _ => after_loop
      end
    end
  end.

(** ** monitorRuntime *)

Record runtimeSample := { maxThreads : Z; maxGoroutines : Z }.

(** What one look at the runtime gives. *)
Record look := { threads : res stat_err Z; goroutines : Z }.

Definition threads_or (d : Z) (l : look) : Z := match threads l with Ok n => n | Err _ => d end.

Definition first_sample (l : look) : runtimeSample :=
  {| maxThreads := threads_or (-1) l; maxGoroutines := goroutines l |}.

Definition update (s : runtimeSample) (l : look) : runtimeSample :=
  {| maxThreads := match threads l with
                   | Ok n => if maxThreads s <? n then n else maxThreads s
                   | Err _ => maxThreads s
                   end;
     maxGoroutines := if maxGoroutines s <? goroutines l then goroutines l else maxGoroutines s |}.

(** The look before the loop, one for each tick, and the one when it is stopped. *)
Definition monitorRuntime (first : look) (ticks : list look) (stop : look) : runtimeSample :=
  update (fold_left update ticks (first_sample first)) stop.

(** What main reports: the peaks of its own looks at the start and the end, and of the
    monitor if there was one. *)
Definition peaks (start : look) (monitored : option runtimeSample) (last : look) : runtimeSample :=
  let s0 := {| maxThreads := threads_or (-1) start; maxGoroutines := goroutines start |} in
  let s1 := match monitored with
            | Some m => {| maxThreads := if maxThreads s0 <? maxThreads m then maxThreads m else maxThreads s0;
                           maxGoroutines := if maxGoroutines s0 <? maxGoroutines m then maxGoroutines m
                                            else maxGoroutines s0 |}
            | None => s0
            end in
  let endThreads := threads_or (-1) last in
  {| maxThreads := if maxThreads s1 <? endThreads then endThreads else maxThreads s1;
     maxGoroutines := if maxGoroutines s1 <? goroutines last then goroutines last else maxGoroutines s1 |}.

(** ** Properties *)

Lemma digit_not_space a r : is_digit a = true -> strip_any space_runes (String a r) = None.
Proof. destruct a as [[] [] [] [] [] [] [] []]; intros H; vm_compute in H; try discriminate H; reflexivity. Qed.

Lemma digits_field s : all_chars is_digit s = true -> next_field s = (s, EmptyString).
Proof.
  induction s as [|a s IH]; [done|]. cbn [all_chars]. intros [Ha Hs]%andb_prop. cbn [next_field].
  by rewrite digit_not_space, IH.
Qed.

Lemma Atoi_fmt_d n : 0 <= n < 2 ^ 63 -> Atoi (fmt_d n) = Some n.
Proof.
  intros Hn. rewrite fmt_d_nonneg by lia. destruct (pretty_N_facts (Z.to_N n)) as (Hv & Hd & Hh).
  destruct (pretty (Z.to_N n)) as [|a r] eqn:E; [naive_solver|]. cbn [all_chars] in Hd. apply andb_prop in Hd as [Ha _].
  assert (Hs : Atoi (String a r) = match digits_value (String a r) 0 with
    | Some m => if (- 2 ^ 63 <=? m) && (m <? 2 ^ 63) then Some m else None | None => None end).
  { destruct a as [[] [] [] [] [] [] [] []]; vm_compute in Ha; try discriminate Ha; reflexivity. }
  rewrite Hs, Hv, Z2N.id by lia.
  by rewrite (proj2 (Z.leb_le (- 2 ^ 63) n)), (proj2 (Z.ltb_lt n (2 ^ 63))) by lia.
Qed.

(** The kernel's line for [n] threads. *)
Definition thread_line (n : Z) : string := "Threads:" +:+ String "009" (fmt_d n).

Lemma thread_line_fields n : 0 <= n -> Fields (thread_line n) = ["Threads:"%string; fmt_d n].
Proof.
  intros Hn. assert (Hd : all_chars is_digit (fmt_d n) = true).
  { rewrite fmt_d_nonneg by done. apply pretty_N_facts. }
  assert (Hh : exists a r, fmt_d n = String a r).
  { destruct (fmt_d n) as [|a r] eqn:E; [|by eauto]. rewrite fmt_d_nonneg in E by done.
    destruct (pretty_N_facts (Z.to_N n)) as (_ & _ & [H|(a & r & H & _)]); congruence. }
  destruct Hh as (a & r & E). unfold thread_line, Fields. rewrite E in *.
  pose proof (digits_field _ Hd) as Hf. cbn [all_chars] in Hd. apply andb_prop in Hd as [Ha _].
  pose proof (digit_not_space a r Ha) as Hns. assert (Hne : String a r <> EmptyString) by done.
  revert Hf Hns Hne. generalize (String a r) as d. intros d Hf Hns Hne.
  assert (H1 : forall k, fields_fuel (S k) ("Threads:" +:+ String "009" d) = "Threads:"%string :: fields_fuel k (String "009" d)).
  { intros k. reflexivity. }
  assert (Hd0 : forall k, fields_fuel (S (S k)) (String "009" d) = [d]).
  { intros k. cbn [fields_fuel]. unfold TrimLeftSpace. cbn [String.length].
    change (trim_left_fuel space_runes (S (String.length d)) (String "009" d)) with (trim_left_fuel space_runes (String.length d) d).
    rewrite trim_left_done by done. destruct d as [|b d']; [done|]. by rewrite Hf. }
  change (String.length ("Threads:" +:+ String "009" d)) with (S (S (S (S (S (S (S (S (S (String.length d)))))))))).
  by rewrite H1, Hd0.
Qed.

(** The number the kernel writes is read back, whatever stands before and after its line,
    and when there is no such line the directory's entries are counted. *)
Theorem readThreadCount_reads before after n scanErr task :
  Forall (fun line => HasPrefix line "Threads:" = false) before -> 0 <= n < 2 ^ 63 ->
  readThreadCount (Ok (before ++ thread_line n :: after, scanErr)) task = Ok n /\
  (forall m, readThreadCount (Ok (before, None)) (Ok m) = Ok m).
Proof.
  intros Hb Hn. unfold readThreadCount.
  assert (H1 : find (fun line => HasPrefix line "Threads:") before = None).
  { clear Hn. induction Hb as [|l ls Hl Hls IH]; [done|]. simpl. by rewrite Hl. }
  assert (H2 : find (fun line => HasPrefix line "Threads:") (before ++ thread_line n :: after) = Some (thread_line n)).
  { clear H1. induction Hb as [|l ls Hl Hls IH]; [done|]. simpl. by rewrite Hl. }
  rewrite H1, H2, thread_line_fields, Atoi_fmt_d by lia. done.
Qed.

(** A sample bounds every look that went into it, and is one of them. *)
Definition covers (s : runtimeSample) (ls : list look) : Prop :=
  Forall (fun l => threads_or (-1) l <= maxThreads s /\ goroutines l <= maxGoroutines s) ls /\
  (maxThreads s = -1 \/ exists l, l ∈ ls /\ threads l = Ok (maxThreads s)) /\
  (exists l, l ∈ ls /\ goroutines l = maxGoroutines s).

Lemma update_covers s ls l : -1 <= maxThreads s -> covers s ls -> -1 <= maxThreads (update s l) /\ covers (update s l) (ls ++ [l]).
Proof.
  intros Hm (H1 & H2 & H3).
  assert (Ht : -1 <= maxThreads (update s l) /\ maxThreads s <= maxThreads (update s l) /\
    threads_or (-1) l <= maxThreads (update s l) /\
    (maxThreads (update s l) = maxThreads s \/ threads l = Ok (maxThreads (update s l)))).
  { unfold update, threads_or. simpl. destruct (threads l) as [n|e]; [|split_and!; [try lia..|by left]].
    destruct (Z.ltb_spec (maxThreads s) n); (split_and!; [try lia..|try (by left); try (by right)]). }
  assert (Hg : maxGoroutines s <= maxGoroutines (update s l) /\ goroutines l <= maxGoroutines (update s l) /\
    (maxGoroutines (update s l) = maxGoroutines s \/ goroutines l = maxGoroutines (update s l))).
  { unfold update. simpl. destruct (Z.ltb_spec (maxGoroutines s) (goroutines l)); (split_and!; [try lia..|try (by left); try (by right)]). }
  destruct Ht as (Ht1 & Ht2 & Ht3 & Ht4), Hg as (Hg1 & Hg2 & Hg3). split; [done|]. split_and!.
  - apply Forall_app. split; [|by repeat constructor]. eapply Forall_impl; [exact H1|].
    intros x [Hx1 Hx2]. cbv beta. lia.
  - destruct Ht4 as [E|E]; [|right; exists l; split; [|done]; set_solver]. rewrite E.
    destruct H2 as [?|(x & Hx & Ex)]; [by left|right; exists x; split; [set_solver|done]].
  - destruct Hg3 as [E|E]; [|exists l; split; [set_solver|done]]. rewrite E.
    destruct H3 as (x & Hx & Ex). exists x. split; [set_solver|done].
Qed.

(** The monitor reports the peaks of its looks: no look saw more, and one of them saw just
    that many (or none could count the threads); thread counts being natural numbers. *)
Theorem monitorRuntime_peaks first ticks stop :
  -1 <= threads_or (-1) first ->
  covers (monitorRuntime first ticks stop) (first :: ticks ++ [stop]).
Proof.
  intros Hf. unfold monitorRuntime.
  assert (Hgo : forall ts s ls, -1 <= maxThreads s -> covers s ls ->
    -1 <= maxThreads (fold_left update ts s) /\ covers (fold_left update ts s) (ls ++ ts)).
  { induction ts as [|t ts IH]; intros s ls Hs Hc; [by rewrite app_nil_r|]. simpl.
    destruct (update_covers s ls t Hs Hc) as [H1 H2]. specialize (IH _ _ H1 H2). by rewrite <- app_assoc in IH. }
  destruct (Hgo ticks (first_sample first) [first]) as [H1 H2]; [done| |].
  - unfold covers, first_sample, threads_or. simpl. split_and!.
    + repeat constructor; simpl; lia.
    + destruct (threads first) eqn:E; [right|by left]. exists first. split; [set_solver|done].
    + exists first. split; [set_solver|done].
  - apply (update_covers _ ([first] ++ ticks) stop H1 H2).
Qed.

Lemma readThreadCount_reads_witness :
  readThreadCount (Ok (["Name:	x"; "Threads:	17"; "Cpus:	3"]%string, None)) (Ok 4) = Ok 17.
Proof. exact (proj1 (readThreadCount_reads ["Name:	x"%string] ["Cpus:	3"%string] 17 None (Ok 4)
  ltac:(by repeat constructor) ltac:(lia))). Defined.

Lemma monitorRuntime_peaks_witness :
  let l t g := {| threads := t; goroutines := g |} in
  covers (monitorRuntime (l (Ok 3) 9) [l (Err (EScan "io")) 12; l (Ok 8) 4] (l (Ok 5) 4))
    [l (Ok 3) 9; l (Err (EScan "io")) 12; l (Ok 8) 4; l (Ok 5) 4] /\
  monitorRuntime (l (Ok 3) 9) [l (Err (EScan "io")) 12; l (Ok 8) 4] (l (Ok 5) 4) =
    {| maxThreads := 8; maxGoroutines := 12 |}.
Proof.
  cbv zeta. split; [|done].
  apply (monitorRuntime_peaks {| threads := Ok 3; goroutines := 9 |}
    [{| threads := Err (EScan "io"); goroutines := 12 |}; {| threads := Ok 8; goroutines := 4 |}]
    {| threads := Ok 5; goroutines := 4 |}). done.
Defined.
