(* ===== verification/DemoRun.v ===== *)
(** * Running the zcopy demo (cmd/s3-rdma-zcopy-demo/main.go: main and its two loops)

    Demo.v has the checks, the placement of the jobs, one operation and the summary; here
    are the goroutines of runClosedBurst as a transition system (those of runOpenLoop are
    the open loop of Bench.v with one scheduler), and main: a client and a mapping for
    each id, the bucket, the first PUTs, the loop, the report, and the deferred clean-up,
    which os.Exit skips. *)

From Stdlib Require Import SpecFloat.
From S2P Require Import Prelude Trans Floats GoFmt VerbsConn Bench BenchReport Demo DemoStats.

#[local] Open Scope go_scope.

(** ** runClosedBurst

    The goroutine of job [j] is [TRun j] while executeOperation runs, [TSend j r] when it has
    a result to send, and gone after it. *)

Record burst := {
  u_tasks : list task;
  u_results : list (Z * opResult);
  u_closed : bool;
}.

Definition start_burst : burst := {| u_tasks := []; u_results := []; u_closed := false |}.

Inductive burst_action :=
| ULaunch                          (* go func ... *)
| UDone (i : nat) (r : opResult)   (* executeOperation returns *)
| UPost (i : nat)                  (* results <- opResult *)
| UClose.                          (* runWG.Wait(); close(results) *)

Definition burst_act (totalGets : Z) (a : burst_action) (s : burst) : option burst :=
  match a with
  | ULaunch =>
    if (blen (u_tasks s) <? totalGets) && negb (u_closed s) then
      Some {| u_tasks := u_tasks s ++ [TRun (blen (u_tasks s))]; u_results := u_results s; u_closed := u_closed s |}
    else None
  | UDone i r =>
    match u_tasks s !! i with
    | Some (TRun j) =>
      Some {| u_tasks := <[i := TSend j r]> (u_tasks s); u_results := u_results s; u_closed := u_closed s |}
    | _ => None
    end
  | UPost i =>
    match u_tasks s !! i with
    | Some (TSend j r) =>
      if (blen (u_results s) <? totalGets) && negb (u_closed s) then
        Some {| u_tasks := <[i := TGone]> (u_tasks s); u_results := u_results s ++ [(j, r)]; u_closed := u_closed s |}
      else None
    | _ => None
    end
  | UClose =>
    if (blen (u_tasks s) =? totalGets) && forallb is_gone (u_tasks s) && negb (u_closed s) then
      Some {| u_tasks := u_tasks s; u_results := u_results s; u_closed := true |}
    else None
  end.

Record burst_ok (total : Z) (s : burst) : Prop := {
  uo_acc : accounted_for (blen (u_tasks s)) (u_tasks s) (u_results s) [];
  uo_total : blen (u_tasks s) <= total;
  uo_tasks : forall i, u_tasks s !! i <> Some TIdle;
  uo_closed : u_closed s = true -> blen (u_tasks s) = total /\ forallb is_gone (u_tasks s) = true;
}.

Lemma start_burst_ok total : 0 <= total -> burst_ok total start_burst.
Proof. intros Ht. by split. Qed.

(** A goroutine's step, after which the channel is still open. *)
Lemma burst_task_ok total s i p p' rs :
  burst_ok total s -> u_tasks s !! i = Some p -> p <> TGone -> p' <> TIdle ->
  accounted_for (blen (u_tasks s)) (<[i := p']> (u_tasks s)) rs [] ->
  burst_ok total {| u_tasks := <[i := p']> (u_tasks s); u_results := rs; u_closed := u_closed s |}.
Proof.
  intros Hs Hi Hp Hp' Hacc.
  assert (Hlen : blen (<[i := p']> (u_tasks s)) = blen (u_tasks s)) by (unfold blen; by rewrite length_insert).
  split; simpl; rewrite ?Hlen; [done|apply Hs| |].
  - intros k [(_ & E & _)|[_ Hk]]%list_lookup_insert_Some; [done|by apply (uo_tasks _ s Hs k)].
  - intros [_ Hg]%(uo_closed _ s Hs). pose proof (forallb_at _ _ _ _ Hg Hi). by destruct p.
Qed.

Lemma burst_act_ok total a s s' : burst_ok total s -> burst_act total a s = Some s' -> burst_ok total s'.
Proof.
  intros Hs Ha. pose proof (uo_acc _ s Hs) as Hacc. destruct a as [|i r|i|]; simpl in Ha.
  - destruct (_ && _) eqn:E; simplify_eq. bool_facts. split; simpl.
    + rewrite blen_app. apply (acc_launch Hacc).
    + rewrite blen_app. change (blen [TRun (blen (u_tasks s))]) with 1. lia.
    + intros i [Hi|[_ Hi]]%lookup_app_Some; [by apply (uo_tasks _ s Hs i)|].
      apply list_lookup_singleton_Some in Hi as [_ Hi]. done.
    + intros Hc. congruence.
  - destruct (u_tasks s !! i) as [[]|] eqn:Hi; simplify_eq.
    eapply burst_task_ok; [done|exact Hi|done|done|by eapply acc_done].
  - destruct (u_tasks s !! i) as [[]|] eqn:Hi; simplify_eq. destruct (_ && _); simplify_eq.
    eapply burst_task_ok; [done|exact Hi|done|done|eapply acc_post; eauto].
  - destruct (_ && _) eqn:E; simplify_eq. bool_facts. destruct Hs. by split.
Qed.

Lemma burst_reaches_ok total s :
  0 <= total -> reaches_by (burst_act total) start_burst s -> burst_ok total s.
Proof. intros Ht. apply (reaches_inv _ _ (burst_act_ok total)), start_burst_ok, Ht. Qed.

(** Four steps for a job, three once it is launched, and the closing. *)
Definition burst_rank (total : Z) (s : burst) : nat :=
  5 * Z.to_nat (total - blen (u_tasks s)) + sum_list (task_rank <$> u_tasks s) + (if u_closed s then 0 else 1).

Lemma sum_list_snoc (l : list nat) n : sum_list (l ++ [n]) = (sum_list l + n)%nat.
Proof. induction l as [|m l IH]; simpl; [lia|]. rewrite IH. lia. Qed.

Lemma burst_lowers total a s s' :
  burst_ok total s -> burst_act total a s = Some s' -> (burst_rank total s' < burst_rank total s)%nat.
Proof.
  intros Hs Ha. unfold burst_rank. destruct a as [|i r|i|]; simpl in Ha.
  - destruct (_ && _) eqn:E; simplify_eq. bool_facts. simpl. rewrite blen_app, fmap_app. cbn [fmap list_fmap]. rewrite sum_list_snoc.
    change (blen [TRun (blen (u_tasks s))]) with 1. simpl. lia.
  - destruct (u_tasks s !! i) as [[]|] eqn:Hi; simplify_eq. simpl.
    pose proof (sum_list_insert task_rank (u_tasks s) i _ (TSend job r) Hi) as Hr. simpl in *.
    unfold blen. rewrite length_insert. lia.
  - destruct (u_tasks s !! i) as [[]|] eqn:Hi; simplify_eq. destruct (_ && _); simplify_eq. simpl.
    pose proof (sum_list_insert task_rank (u_tasks s) i _ TGone Hi) as Hr. simpl in *.
    unfold blen. rewrite length_insert. lia.
  - destruct (_ && _) eqn:E; simplify_eq. bool_facts. simpl. destruct (u_closed s); [done|]. lia.
Qed.

Lemma burst_room total s i j r :
  burst_ok total s -> u_tasks s !! i = Some (TSend j r) ->
  blen (u_results s) < total /\ u_closed s = false.
Proof.
  intros Hs Hi. split.
  - pose proof (acc_room (uo_acc _ s Hs)) as Hroom. pose proof (uo_total _ s Hs) as Ht.
    pose proof (blen_nonneg (running (u_tasks s))) as B1.
    pose proof (concat_insert send_of (u_tasks s) i _ TGone Hi) as Hc. apply Permutation_length in Hc.
    unfold sending, blen in *. simpl in Hc, Hroom. lia.
  - destruct (u_closed s) eqn:E; [|done]. apply (uo_closed _ s Hs) in E as [_ Hg].
    pose proof (forallb_at _ _ _ _ Hg Hi). done.
Qed.

Lemma burst_enabled total s :
  burst_ok total s -> u_closed s = false -> exists a, is_Some (burst_act total a s).
Proof.
  intros Hs Hc. destruct (Z.ltb_spec (blen (u_tasks s)) total) as [Hlt|Hge].
  { exists ULaunch. simpl. by rewrite (proj2 (Z.ltb_lt _ _) Hlt), Hc. }
  destruct (forallb is_gone (u_tasks s)) eqn:Eg.
  - pose proof (uo_total _ s Hs). exists UClose. simpl.
    by rewrite Eg, Hc, (proj2 (Z.eqb_eq (blen (u_tasks s)) total)) by lia.
  - apply forallb_not in Eg as (i & p & Hi & Hp). destruct p as [|j|j r|]; [by destruct (uo_tasks _ s Hs i)| | |done].
    + exists (UDone i {| latency := 0; err := None |}). simpl. by rewrite Hi.
    + exists (UPost i). simpl. rewrite Hi. destruct (burst_room total s i j r Hs Hi) as [Hr ->].
      by rewrite (proj2 (Z.ltb_lt _ _) Hr).
Qed.

(** What is left when the channel has been closed: each job's result, once. *)
Lemma burst_end total s :
  burst_ok total s -> u_closed s = true ->
  (u_results s).*1 ≡ₚ seqZ 0 total /\ blen (u_tasks s) = total /\ blen (u_results s) = total.
Proof.
  intros Hs Hc. destruct (uo_closed _ s Hs Hc) as [Hn Hg].
  pose proof (acc_all_gone (uo_acc _ s Hs) Hg) as Hp. rewrite app_nil_r, Hn in Hp.
  split; [by symmetry|]. split; [done|]. apply Permutation_length in Hp.
  rewrite length_seqZ, length_fmap in Hp. destruct (uo_acc _ s Hs). unfold blen in *. lia.
Qed.

(** ** runOpenLoop: the open loop of Bench.v with one scheduler *)

Definition start_run : open_loop := start_open 1.
Definition run_act : open_action -> open_loop -> option open_loop := open_act.

(** The job a tick launches. *)
Definition launched_job (cfg : benchConfig) (mem clients : Z) (s : open_loop) : job :=
  open_job cfg mem clients (blen (tasks s)).

Definition runOpenLoop (clients : Z) (ref_of : Z -> BufferRef) (s : open_loop) (elapsed : Z) : benchStats :=
  let t := o_counts s in
  summarizeBench "open-loop" (blen (tasks s)) (durations t) (failed t) elapsed (errs t)
    (last_success (fun j => Z.rem j clients) ref_of (o_counted s)).

(** ** The report *)

Definition printBenchStats (s : benchStats) : list string :=
  ["benchmark mode=" +:+ s_mode s +:+ " launched=" +:+ fmt_d (launched s) +:+ " success=" +:+ fmt_d (success s) +:+
   " failed=" +:+ fmt_d (s_failed s) +:+ " elapsed=" +:+ Duration_String (s_elapsed s) +:+
   " throughput=" +:+ fmt_2f (throughput s) +:+ " req/s";
   "latency avg=" +:+ Duration_String (avg s) +:+ " p50=" +:+ Duration_String (reported (s_p50 s)) +:+
   " p95=" +:+ Duration_String (reported (s_p95 s)) +:+ " p99=" +:+ Duration_String (reported (s_p99 s)) +:+
   " min=" +:+ Duration_String (min s) +:+ " max=" +:+ Duration_String (max s)] ++
  (if (0 <=? lastClientID s) && (0 <? Size (lastRef s)) then
     ["last_ref client=" +:+ fmt_d (lastClientID s) +:+ " offset=" +:+ fmt_d (Offset (lastRef s)) +:+
      " size=" +:+ fmt_d (Size (lastRef s))]
   else []).

(** [%v] of an error; [err_text] writes those of readThreadCount. *)
Definition error_text (err_text : stat_err -> string) (l : look) : string :=
  match threads l with Ok _ => "<nil>" | Err e => err_text e end.

(** What the process looks like at the start and at the end, with the number of its cgo
    calls; the monitor's sample, when there is one. *)
Definition runtime_lines (err_text : stat_err -> string) (start last : look * Z) (monitored : option runtimeSample)
    : list string :=
  let peak := peaks start.1 monitored last.1 in
  ["runtime stats: goroutines start=" +:+ fmt_d (goroutines start.1) +:+ " peak=" +:+ fmt_d (maxGoroutines peak) +:+
   " end=" +:+ fmt_d (goroutines last.1) +:+ " threads start=" +:+ fmt_d (threads_or (-1) start.1) +:+
   " peak=" +:+ fmt_d (maxThreads peak) +:+ " end=" +:+ fmt_d (threads_or (-1) last.1) +:+
   " cgo_calls_delta=" +:+ fmt_d (i64 (last.2 - start.2))] ++
  match threads start.1, threads last.1 with
  | Ok _, Ok _ => []
  | _, _ => ["thread stat warning: start_err=" +:+ error_text err_text start.1 +:+
             " end_err=" +:+ error_text err_text last.1]
  end.

Definition report (f : flags) (stats : benchStats) (runtime : list string) : list string :=
  ["zcopy demo ok endpoint=" +:+ f_endpoint f +:+ " bucket=" +:+ f_bucket f +:+ " key=" +:+ f_key f +:+
   " op=" +:+ op (runCfg f) +:+ " mode=" +:+ s_mode stats +:+ " clients=" +:+ fmt_d (clientCount f) +:+
   " mem_per_client=" +:+ fmt_d (memSize f) +:+ " put=[" +:+ fmt_d (putOffset f) +:+ "," +:+
   fmt_d (i64 (putOffset f + putSize f)) +:+ ")"] ++
  printBenchStats stats ++ runtime.

(** ** main *)

Inductive event :=
| Mapped (id : Z) | Unmapped (id : Z) | Opened (id : Z) | Closed (id : Z)
| Say (line : string)      (* on standard output *)
| Warn (line : string).    (* on standard error *)

Record demoClient := { id : Z; key : string; shared : list byte }.

(** What the system and the client library answer; [None] is nil.  The schedules are what
    the goroutines of a loop do, and the references what the jobs' operations return; a
    look is at the numbers of threads, goroutines and cgo calls, [mh_monitor] those of
    monitorRuntime.  An munmap that fails, which is only printed, is left out. *)
Class MainHost (W : Type) := {
  mh_mmap : Z -> W -> option string * W;
  mh_new : flags -> list byte -> W -> option string * W;
  mh_ensure : string -> W -> option string * W;
  mh_put : string -> string -> BufferRef -> W -> option string * W;
  mh_close : Z -> W -> option string * W;
  mh_burst : W -> list burst_action * W;
  mh_open : W -> list open_action * W;
  mh_elapsed : W -> Z * W;
  mh_refs : W -> (Z -> BufferRef) * W;
  mh_look : W -> (look * Z) * W;
  mh_monitor : W -> (look * list look * look) * W;
  mh_err_text : stat_err -> string;
}.

(** The process ends: by fatalf, which runs no deferred function, or by a panic. *)
Inductive ending := Fatal (msg : string) | Panic.

(** [for i := 0; i < putSize; i++ { shared[putOffset+i] = ... }] on fresh memory. *)
Definition fill_shared (f : flags) (clientID : Z) : option (list byte) :=
  if putSize f <=? 0 then Some (replicate (Z.to_nat (memSize f)) x00)
  else if (0 <=? putOffset f) && (putOffset f + putSize f <=? memSize f) then
    Some (replicate (Z.to_nat (putOffset f)) x00 ++ payload clientID (putSize f) ++
          replicate (Z.to_nat (memSize f - putOffset f - putSize f)) x00)
  else None.

Section main.
Context {W : Type} `{!MainHost W}.
#[local] Abbreviation D := (M W (list event) ending).

Definition note_event (e : event) : D unit := modify (fun l => l ++ [e]).

Fixpoint note_all (es : list event) : D unit :=
  match es with [] => ret tt | e :: es' => note_event e;; note_all es' end.

Definition or_fatal (prefix : string) (e : option string) : D unit :=
  match e with Some x => fail (Fatal (prefix +:+ x)) | None => ret tt end.

(** One turn of the loop that makes the clients; [None]: the slice index panics. *)
Definition make_client (f : flags) (clientID : Z) : D (option demoClient) :=
  let! mapErr := host (mh_mmap (memSize f)) in
  or_fatal ("mmap shared memory (client=" +:+ fmt_d clientID +:+ "): ") mapErr;;
  note_event (Mapped clientID);;
  match fill_shared f clientID with
  | None => ret None
  | Some bytes =>
    let! newErr := host (mh_new f bytes) in
    match newErr with
    | Some e => note_event (Unmapped clientID);; fail (Fatal ("init s3rdmaclient (client=" +:+ fmt_d clientID +:+ "): " +:+ e))
    | None =>
      note_event (Opened clientID);;
      ret (Some {| id := clientID; key := objectKey (f_key f) clientID (clientCount f); shared := bytes |})
    end
  end.

(** The deferred function; its goroutines, one per client, share only the channel of their
    errors, which are printed once all of them are done. *)
Fixpoint close_each (cs : list demoClient) (warnings : list string) : D (list string) :=
  match cs with
  | [] => ret warnings
  | c :: cs' =>
    let! err := host (mh_close (id c)) in
    note_event (Closed (id c));;
    note_event (Unmapped (id c));;
    close_each cs' (match err with
                    | Some e => warnings ++ ["client=" +:+ fmt_d (id c) +:+ " close failed: " +:+ e]
                    | None => warnings
                    end)
  end.

Definition close_clients (cs : list demoClient) : D unit :=
  let! warnings := close_each cs [] in
  note_all ((fun e => Warn ("cleanup warning: " +:+ e)) <$> warnings).

(** A panic runs the deferred function; the mapping of the client that was being made is
    not among those it unmaps. *)
Fixpoint make_clients (f : flags) (clients : list demoClient) (ids : list Z) : D (list demoClient) :=
  match ids with
  | [] => ret clients
  | i :: ids' =>
    let! r := make_client f i in
    match r with
    | Some c => make_clients f (clients ++ [c]) ids'
    | None => close_clients clients;; fail Panic
    end
  end.

Fixpoint first_puts (f : flags) (cs : list demoClient) : D unit :=
  match cs with
  | [] => ret tt
  | c :: cs' =>
    let! e := host (mh_put (f_bucket f) (key c) {| Offset := putOffset f; Size := putSize f |}) in
    or_fatal ("put zero-copy failed (client=" +:+ fmt_d (id c) +:+ "): ") e;;
    first_puts f cs'
  end.

(** The loop the flags ask for, to its end; an unfinished schedule is not a run. *)
Definition run_loop (f : flags) (n : Z) : D benchStats :=
  let! refs := host mh_refs in
  if openLoop f then
    let! acts := host mh_open in
    let! elapsed := host mh_elapsed in
    match run_by run_act acts start_run with
    | Some s => if o_returned s then ret (runOpenLoop n refs s elapsed) else diverged
    | None => diverged
    end
  else
    match mulIntChecked n (concurrent f) with
    | None => ret (runClosedBurst (runCfg f) n refs [] 0)
    | Some totalGets =>
      let! acts := host mh_burst in
      let! elapsed := host mh_elapsed in
      match run_by (burst_act totalGets) acts start_burst with
      | Some s => if u_closed s then ret (runClosedBurst (runCfg f) n refs (u_results s) elapsed) else diverged
      | None => diverged
      end
    end.

(** The note on a flag that the open loop does not use. *)
Definition ignored_note (f : flags) : list event :=
  if openLoop f && negb (concurrent f =? 1) then
    [Warn ("note: concurrent-get=" +:+ fmt_d (concurrent f) +:+
           " is ignored in open-loop mode; each launched request is one operation")]
  else [].

(** The sample of the goroutine monitorRuntime, which runs unless the interval is not positive. *)
Definition monitored (f : flags) : D (option runtimeSample) :=
  if 0 <? statsInterval f then
    let! looks := host mh_monitor in
    let '(first, ticks, stop) := looks in
    ret (Some (monitorRuntime first ticks stop))
  else ret None.

Definition main (f : flags) : D benchStats :=
  match check_flags f with
  | Some e => fail (Fatal e)
  | None =>
    note_all (ignored_note f);;
    let! start := host mh_look in
    let! clients := make_clients f [] (seqZ 0 (clientCount f)) in
    let! e := host (mh_ensure (f_bucket f)) in
    or_fatal "ensure bucket failed: " e;;
    (if String.eqb (op (runCfg f)) "get" then first_puts f clients else ret tt);;
    let! stats := run_loop f (blen clients) in
    (if 0 <? s_failed stats then
       note_all ((fun msg => Warn ("sample error: " +:+ msg)) <$> s_errors stats);;
       fail (Fatal ("benchmark failed success=" +:+ fmt_d (success stats) +:+ " failed=" +:+ fmt_d (s_failed stats)))
     else ret tt);;
    let! sample := monitored f in
    let! last := host mh_look in
    note_all (Say <$> report f stats (runtime_lines mh_err_text start last sample));;
    close_clients clients;;
    ret stats
  end.
End main.

(** ** Properties *)

(** The closed burst, in any reachable state: no goroutine is ever blocked on its result,
    the channel having room for all of them, and none sends on the closed channel.  Every
    run comes to its end within a bound, and where it can go no further the channel is
    closed; then the results are those of each job, once, and the successes and failures
    of the summary add up to the jobs launched. *)
Theorem burst_counts_jobs cfg clients total refs s l s' elapsed :
  mulIntChecked clients (b_concurrent cfg) = Some total -> 0 <= total ->
  reaches_by (burst_act total) start_burst s -> run_by (burst_act total) l s = Some s' ->
  (length l <= burst_rank total s)%nat /\
  (forall i j r, u_tasks s !! i = Some (TSend j r) -> is_Some (burst_act total (UPost i) s)) /\
  ((forall a, burst_act total a s' = None) -> u_closed s' = true) /\
  (u_closed s' = true -> (u_results s').*1 ≡ₚ seqZ 0 total /\
     let st := runClosedBurst cfg clients refs (u_results s') elapsed in
     launched st = total /\ success st + s_failed st = total).
Proof.
  intros Hm Ht Hr Hrun. pose proof (burst_reaches_ok total s Ht Hr) as Hs.
  destruct (run_bounded (burst_act total) (burst_ok total) (burst_act_ok total) (fun _ => true) (burst_rank total)
    (fun _ => True)) with (l := l) (s := s) (s' := s') as (Hlen & Hs' & _); [|done|done|by apply forallb_forall|done|].
  { intros a s1 s2 H1 _ _ Ha. split; [by eapply burst_lowers|done]. }
  split; [lia|]. split_and!.
  - intros i j r Hi. destruct (burst_room total s i j r Hs Hi) as [H1 H2]. simpl.
    by rewrite Hi, (proj2 (Z.ltb_lt _ _) H1), H2.
  - intros Hend. destruct (u_closed s') eqn:E; [done|].
    destruct (burst_enabled total s' Hs' E) as (a & s2 & Ha). by rewrite Hend in Ha.
  - intros Hc. destruct (burst_end total s' Hs' Hc) as (H1 & _ & H3). split; [done|].
    unfold runClosedBurst. rewrite Hm. simpl. split; [done|].
    unfold collect_results. by rewrite tally_total.
Qed.

Section facts.
Context {W : Type} `{!MainHost W}.
#[local] Abbreviation D := (M W (list event) ending).

(** The events of a complete client, and of its end. *)
Definition made (i : Z) : list event := [Mapped i; Opened i].
Definition gone (i : Z) : list event := [Closed i; Unmapped i].

Lemma wp_or_fatal p e (Q : outcome ending unit -> list event -> W -> Prop) l w :
  (forall m, Q (Fail m) l w) -> Q (Ret tt) l w -> wp (or_fatal p e : D unit) Q l w.
Proof. intros H1 H2. unfold or_fatal. destruct e; [by apply wp_fail|by apply wp_ret]. Qed.

Lemma wp_note_all es (Q : outcome ending unit -> list event -> W -> Prop) l w :
  Q (Ret tt) (l ++ es) w -> wp (note_all es : D unit) Q l w.
Proof.
  revert l. induction es as [|e es IH]; intros l HQ; cbn [note_all]; [apply wp_ret; by rewrite app_nil_r in HQ|].
  apply wp_bind, wp_modify. cbn [seq_post]. apply IH. by rewrite <- app_assoc.
Qed.

Lemma make_client_events f i l w :
  wp (make_client f i : D (option demoClient)) (fun o l' _ => match o with
    | Ret (Some c) => id c = i /\ l' = l ++ made i
    | Ret None | Fail _ => True | _ => False end) l w.
Proof.
  unfold make_client. apply wp_bind, wp_host. intros e w1 _. cbn [seq_post].
  apply wp_bind, wp_or_fatal; [done|]. cbn [seq_post]. apply wp_bind, wp_modify. cbn [seq_post].
  destruct (fill_shared f i) as [b|]; [|by apply wp_ret]. apply wp_bind, wp_host. intros e2 w2 _. cbn [seq_post].
  destruct e2 as [x|].
  - apply wp_bind, wp_modify. done.
  - apply wp_bind, wp_modify. cbn [seq_post]. apply wp_ret. split; [done|]. by rewrite <- app_assoc.
Qed.

Lemma close_each_events cs ws l w :
  wp (close_each cs ws : D (list string)) (fun o l' _ =>
    exists ws', o = Ret ws' /\ l' = l ++ concat (gone <$> (id <$> cs))) l w.
Proof.
  revert ws l w. induction cs as [|c cs IH]; intros ws l w; cbn [close_each].
  { apply wp_ret. exists ws. by rewrite app_nil_r. }
  apply wp_bind, wp_host. intros e w1 _. cbn [seq_post]. apply wp_bind, wp_modify. cbn [seq_post].
  apply wp_bind, wp_modify. cbn [seq_post]. eapply wp_mono; [apply IH|]. intros o l' w' (ws' & -> & ->).
  exists ws'. split; [done|]. by rewrite <- !app_assoc.
Qed.

(** What the deferred function does: each client ends, then the warnings. *)
Definition cleaned (ids : list Z) (l : list event) : Prop :=
  exists warnings, l = concat (gone <$> ids) ++ (Warn <$> warnings).

Lemma close_clients_events cs l w :
  wp (close_clients cs : D unit) (fun o l' _ => o = Ret tt /\ exists l1, l' = l ++ l1 /\ cleaned (id <$> cs) l1) l w.
Proof.
  unfold close_clients. apply wp_bind. eapply wp_mono; [apply close_each_events|].
  intros o l' w' (ws & -> & ->). cbn [seq_post]. apply wp_note_all. split; [done|].
  eexists. split; [by rewrite <- app_assoc|]. exists ((fun e => "cleanup warning: " +:+ e) <$> ws).
  f_equal. apply list_fmap_compose.
Qed.

Lemma make_clients_events f made_cs ids l w :
  wp (make_clients f made_cs ids : D (list demoClient)) (fun o l' _ => match o with
    | Ret cs => id <$> cs = (id <$> made_cs) ++ ids /\ l' = l ++ concat (made <$> ids)
    | Fail _ => True | _ => False end) l w.
Proof.
  revert made_cs l w. induction ids as [|i ids IH]; intros cs l w; cbn [make_clients].
  { apply wp_ret. by rewrite !app_nil_r. }
  apply wp_bind. eapply wp_mono; [apply make_client_events|].
  intros [[c|]|m| |] l1 w1; cbn [seq_post]; try done.
  - intros [<- ->]. eapply wp_mono; [apply IH|]. intros [cs'|m| |] l2 w2; try done.
    intros [H ->]. rewrite H, fmap_app. split; by rewrite <- app_assoc.
  - intros _. apply wp_bind. eapply wp_mono; [apply close_clients_events|]. by intros o l2 w2 [-> _].
Qed.

Lemma first_puts_events f cs l w :
  wp (first_puts f cs : D unit) (fun o l' _ => match o with
    | Ret _ => l' = l | Fail _ => True | _ => False end) l w.
Proof.
  revert w. induction cs as [|c cs IH]; intros w; cbn [first_puts]; [by apply wp_ret|].
  apply wp_bind, wp_host. intros e w1 _. cbn [seq_post]. apply wp_bind, wp_or_fatal; [done|]. cbn [seq_post]. apply IH.
Qed.

(** The loop of a configuration that has passed the checks: its summary accounts for the
    jobs it launched, and the burst launches all of them. *)
Lemma run_loop_counts f n l w :
  0 <= n <= max_int -> concurrent f <= max_int ->
  wp (run_loop f n : D benchStats) (fun o l' _ => match o with
    | Ret st => l' = l /\ (0 < s_failed st \/ success st = launched st /\
        (openLoop f = false -> launched st = n * concurrent f))
    | Fail _ => False | _ => True end) l w.
Proof.
  intros Hn Hc. unfold run_loop. apply wp_bind, wp_host. intros refs w0 _. cbn [seq_post].
  destruct (openLoop f) eqn:Eo.
  - apply wp_bind, wp_host. intros acts w1 _. cbn [seq_post]. apply wp_bind, wp_host. intros el w2 _. cbn [seq_post].
    destruct (run_by run_act acts start_run) as [s|] eqn:Er; [|done]. destruct (o_returned s) eqn:Eret; [|done].
    apply wp_ret. split; [done|]. simpl.
    assert (Hs : open_ok s).
    { apply (open_reaches_ok 1). by eapply run_reaches; [apply reaches_refl|]. }
    destruct (oc_ret s Hs Eret) as [Hcl He]. apply (oc_closed s Hs) in Hcl as [_ Hg].
    pose proof (acc_all_gone (oc_acc s Hs) Hg) as Hp. rewrite He in Hp. simpl in Hp.
    apply Permutation_length in Hp. rewrite length_seqZ, length_fmap in Hp.
    pose proof (tally_total (o_counted s)) as Ht. rewrite (oc_counts s Hs).
    pose proof (blen_nonneg (durations (tally_of (o_counted s)))). unfold blen in *.
    destruct (Z.ltb_spec 0 (failed (tally_of (o_counted s)))); [by left|right]. split; [|done].
    destruct (tally_spec (o_counted s)) as (_ & Hf & _). unfold blen in Hf. lia.
  - destruct (mulIntChecked n (concurrent f)) as [total|] eqn:Em; [|apply wp_ret; split; [done|left]];
      [|unfold runClosedBurst; simpl; rewrite Em; simpl; lia].
    pose proof Em as Em'. apply mulIntChecked_exact in Em as (H0 & H1 & H2 & ->); [|lia|lia].
    apply wp_bind, wp_host. intros acts w1 _. cbn [seq_post]. apply wp_bind, wp_host. intros el w2 _. cbn [seq_post].
    destruct (run_by _ acts start_burst) as [s|] eqn:Er; [|done]. destruct (u_closed s) eqn:Ec; [|done].
    assert (Hs : burst_ok (n * concurrent f) s).
    { apply burst_reaches_ok; [nia|]. by eapply run_reaches; [apply reaches_refl|]. }
    destruct (burst_end _ s Hs Ec) as (_ & _ & Hlen). unfold runClosedBurst. simpl.
    rewrite Em'. apply wp_ret. split; [done|]. simpl. unfold collect_results.
    pose proof (tally_total (u_results s)) as Ht. destruct (tally_spec (u_results s)) as (_ & Hf & _).
    unfold blen in *. destruct (Z.ltb_spec 0 (failed (tally_of (u_results s)))); [by left|right]. lia.
Qed.

(** What main does when it comes to its end by returning: each of the clients has been
    mapped and opened, and after the report closed and unmapped, once; and every operation
    of the loop has succeeded, in the closed burst as many as the flags ask for.  (A
    process that ends by fatalf leaves the clients to the system.) *)
Definition ran_clean (f : flags) (stats : benchStats) (events : list event) : Prop :=
  exists runtime gone_events,
    events = ignored_note f ++ concat (made <$> seqZ 0 (clientCount f)) ++ (Say <$> report f stats runtime) ++ gone_events /\
    cleaned (seqZ 0 (clientCount f)) gone_events.

Lemma wp_demo_main f w :
  clientCount f <= max_int -> concurrent f <= max_int ->
  wp (main f : D benchStats) (fun o l _ => match o with
    | Ret stats => ran_clean f stats l /\ success stats = launched stats /\ s_failed stats <= 0 /\
        (openLoop f = false -> launched stats = clientCount f * concurrent f)
    | _ => True end) [] w.
Proof.
  intros Hn Hc. unfold main. destruct (check_flags f) as [e|] eqn:Hcheck; [by apply wp_fail|]. apply checked_clients in Hcheck.
  apply wp_bind, wp_note_all. cbn [seq_post app]. apply wp_bind, wp_host. intros start w1 _. cbn [seq_post].
  apply wp_bind. eapply wp_mono; [apply make_clients_events|]. intros [cs|m| |] l1 w2; cbn [seq_post]; try done.
  intros [Hids ->]. cbn [fmap list_fmap app] in Hids. apply wp_bind, wp_host. intros e w3 _. cbn [seq_post].
  apply wp_bind, wp_or_fatal; [done|]. cbn [seq_post]. set (ms := ignored_note f ++ concat _).
  assert (Hputs : wp (if String.eqb (op (runCfg f)) "get" then first_puts f cs else ret tt : D unit)
    (fun o l' _ => match o with Ret _ => l' = ms | Fail _ => True | _ => False end) ms w3).
  { destruct (String.eqb _ _); [apply first_puts_events|by apply wp_ret]. }
  apply wp_bind. eapply wp_mono; [exact Hputs|]. intros [?|m| |] l2 w4; cbn [seq_post]; try done. intros ->.
  assert (Hlen : blen cs = Z.max 0 (clientCount f)).
  { unfold blen. rewrite <- (length_fmap id cs), Hids, length_seqZ. lia. }
  apply wp_bind. eapply wp_mono; [apply (run_loop_counts f (blen cs)); [rewrite Hlen; unfold max_int in *; lia|done]|].
  intros [st|m| |] l3 w5; cbn [seq_post]; try done. intros [-> Hst].
  apply wp_bind. destruct (Z.ltb_spec 0 (s_failed st)) as [Hf|Hf]; [by apply wp_bind, wp_note_all|]. apply wp_ret. cbn [seq_post].
  apply wp_bind. unfold wp at 1.
  assert (Hmon : forall l w, exists smp w', monitored f l w = (Ret smp, l, w')).
  { intros l w'. unfold monitored. destruct (0 <? statsInterval f); [|by eexists _, _]. unfold bind, host.
    destruct (mh_monitor w') as [[[x y] z] w'']. by eexists _, _. }
  destruct (Hmon ms w5) as (smp & w6 & ->). cbn [seq_post]. apply wp_bind, wp_host. intros last w7 _. cbn [seq_post].
  apply wp_bind, wp_note_all. cbn [seq_post]. apply wp_bind. eapply wp_mono; [apply close_clients_events|].
  intros o l' w8 [-> (l1 & -> & Hl1)]. cbn [seq_post]. apply wp_ret. rewrite Hids in Hl1. split.
  { eexists _, l1. split; [|done]. unfold ms. by rewrite <- !app_assoc. }
  destruct Hst as [?|[H1 H2]]; [lia|]. split_and!; [done|lia|].
  intros Ho. rewrite (H2 Ho), Hlen, Z.max_r by lia. done.
Qed.

Theorem main_cleans_up f w :
  clientCount f <= max_int -> concurrent f <= max_int ->
  match main f [] w with
  | (Ret stats, events, _) =>
    ran_clean f stats events /\ success stats = launched stats /\ s_failed stats <= 0 /\
    (openLoop f = false -> launched stats = clientCount f * concurrent f)
  | _ => True
  end.
Proof.
  intros Hn Hc. pose proof (wp_demo_main f w Hn Hc) as H. unfold wp in H. by destruct (main f [] w) as [[[]]].
Qed.
End facts.

(** ** Runs *)

(** A host on which everything succeeds; [md_jobs] is what the goroutines of the loop do. *)
Record main_sim := { md_jobs : list burst_action }.

#[export] Instance main_sim_host : MainHost main_sim := {|
  mh_mmap _ w := (None, w);
  mh_new _ _ w := (None, w);
  mh_ensure _ w := (None, w);
  mh_put _ _ _ w := (None, w);
  mh_close _ w := (None, w);
  mh_burst w := (md_jobs w, w);
  mh_open w := ([], w);
  mh_elapsed w := (10 ^ 9, w);
  mh_refs w := (fun j => {| Offset := 16; Size := 8 |}, w);
  mh_look w := (({| threads := Ok 7; goroutines := 3 |}, 5), w);
  mh_monitor w := (({| threads := Ok 7; goroutines := 3 |}, [], {| threads := Ok 9; goroutines := 5 |}), w);
  mh_err_text _ := "error"%string;
|}.

Definition ok_result (latency : Z) : opResult := {| latency := latency; err := None |}.

(** Two clients with one GET each; the second one's result arrives first. *)
Definition two_jobs : list burst_action :=
  [ULaunch; ULaunch; UDone 1 (ok_result 5); UPost 1; UDone 0 (ok_result 7); UPost 0; UClose].

Lemma main_cleans_up_witness :
  exists stats w, main (demo_flags "get" 16 1) [] {| md_jobs := two_jobs |} =
    (Ret stats, [Mapped 0; Opened 0; Mapped 1; Opened 1;
      Say "zcopy demo ok endpoint=127.0.0.1:10191 bucket=b key=k op=get mode=closed-burst clients=2 mem_per_client=64 put=[0,8)";
      Say "benchmark mode=closed-burst launched=2 success=2 failed=0 elapsed=1s throughput=2.00 req/s";
      Say "latency avg=6ns p50=5ns p95=5ns p99=5ns min=5ns max=7ns";
      Say "last_ref client=0 offset=16 size=8";
      Say "runtime stats: goroutines start=3 peak=3 end=3 threads start=7 peak=7 end=7 cgo_calls_delta=0";
      Closed 0; Unmapped 0; Closed 1; Unmapped 1], w) /\
    launched stats = 2 /\ success stats = 2.
Proof.
  pose proof (main_cleans_up (demo_flags "get" 16 1) {| md_jobs := two_jobs |} ltac:(done) ltac:(done)) as H.
  destruct (main (demo_flags "get" 16 1) [] {| md_jobs := two_jobs |}) as [[[stats|m| |] l] w] eqn:E;
    [|by vm_compute in E..].
  destruct H as (_ & H1 & _ & H2). specialize (H2 ltac:(done)).
  exists stats, w. split; [vm_compute in E; injection E as <- <- <-; vm_compute; reflexivity|]. by rewrite H1, H2.
Defined.

Lemma burst_counts_jobs_witness :
  let cfg := runCfg (demo_flags "get" 16 1) in
  let refs j := {| Offset := j; Size := 8 |} in
  exists s', run_by (burst_act 2) two_jobs start_burst = Some s' /\ (u_results s').*1 = [1; 0] /\
    let st := runClosedBurst cfg 2 refs (u_results s') 0 in launched st = 2 /\ success st + s_failed st = 2.
Proof.
  cbv zeta. eexists. split; [by vm_compute|]. split; [by vm_compute|].
  eapply (burst_counts_jobs (runCfg (demo_flags "get" 16 1)) 2 2 (fun j => {| Offset := j; Size := 8 |}) start_burst two_jobs);
    [by vm_compute|done|apply reaches_refl|by vm_compute|by vm_compute].
Defined.
