(* ===== verification/LoadMain.v ===== *)
(** * The command lines of the two load generators (cmd/bench-client, cmd/s3-rdma-zcopy-demo)

    Their flags with the defaults, the configuration made of them, and the exit codes of
    their main functions (BenchRun.v, DemoRun.v); and the theorem on the command lines of
    all five programs. *)

From Stdlib Require Import SpecFloat.
From S2P Require Import Prelude Trans Floats Strconv VerbsConn Flags Commands.
From S2P Require App Smoke Bench BenchReport BenchRun Demo DemoRun.

#[local] Open Scope go_scope.

Definition float_of (fs : FlagSet) (n : string) : float64 :=
  match flag_get fs n with Some (VFloat x) => x | _ => f64_zero end.

(** ** cmd/bench-client *)

Module BenchMain.
Import Bench.

Definition flags_of (c : benchConfig) : FlagSet :=
  [("mode", VString (mode c));
   ("op", VString (op c));
   ("endpoint", VString (endpoint c));
   ("region", VString (region c));
   ("bucket", VString (bucket c));
   ("key-prefix", VString (keyPrefix c));
   ("iterations", VInt (iterations c));
   ("concurrency", VInt (concurrency c));
   ("target-rps", VFloat (targetRPS c));
   ("duration", VDuration (duration c));
   ("warmup", VInt (warmup c));
   ("object-size", VInt (objectSize c));
   ("request-timeout", VDuration (requestTimeout c));
   ("access-key", VString (accessKey c));
   ("secret-key", VString (secretKey c));
   ("verbose", VBool (verbose c));
   ("json", VString (jsonPath c));
   ("prefill", VInt (prefillCount c));
   ("s3-client-count", VInt (s3ClientCount c));
   ("open-loop-client-fanout", VBool (openLoopFanout c));
   ("rdma-lowcpu", VBool (rdmaLowCPU c));
   ("rdma-frame-payload", VInt (rdmaFramePayload c));
   ("rdma-send-depth", VInt (rdmaSendDepth c));
   ("rdma-recv-depth", VInt (rdmaRecvDepth c));
   ("rdma-inline-threshold", VInt (rdmaInline c));
   ("rdma-send-signal-interval", VInt (rdmaSignalIntvl c));
   ("rdma-max-conns-per-host", VInt (rdmaMaxConns c));
   ("rdma-shared-http-pool", VBool (rdmaSharePool c));
   ("rdma-shared-http-pool-key", VString (rdmaSharePoolKey c));
   ("rdma-endpoint-pool-size", VInt (rdmaEndpointPool c));
   ("rdma-endpoint-pool-warmup", VBool (rdmaEndpointWarm c));
   ("rdma-shared-memory-budget-bytes", VInt (rdmaSharedMemBgt c));
   ("rdma-endpoint-multiplex", VBool (rdmaEndpointMux c));
   ("rdma-endpoint-send-queue-depth", VInt (rdmaEndpointSend c))]%string.

Definition flag_defaults : benchConfig :=
  {| mode := "tcp"; op := "put-get"; endpoint := "http://127.0.0.1:10090"; region := "us-east-1";
     bucket := "bench-bucket"; keyPrefix := "bench-object"; iterations := 1000; concurrency := 16;
     targetRPS := f64_zero; duration := 0; warmup := 100; objectSize := 4096; requestTimeout := 5 * 10 ^ 9;
     accessKey := "test"; secretKey := "test"; verbose := false; jsonPath := ""; prefillCount := 0;
     rdmaLowCPU := false; rdmaFramePayload := 0; rdmaSendDepth := 0; rdmaRecvDepth := 0; rdmaInline := 0;
     rdmaSignalIntvl := 0; rdmaMaxConns := 0; rdmaSharePool := false; rdmaSharePoolKey := "";
     rdmaEndpointPool := 0; rdmaEndpointWarm := false; rdmaSharedMemBgt := 0; rdmaEndpointMux := false;
     rdmaEndpointSend := 0; s3ClientCount := 1; openLoopFanout := false |}.

(** What the variables hold after Parse. *)
Definition config_of (fs : FlagSet) : benchConfig :=
  {| mode := string_of fs "mode"; op := string_of fs "op"; endpoint := string_of fs "endpoint";
     region := string_of fs "region"; bucket := string_of fs "bucket"; keyPrefix := string_of fs "key-prefix";
     iterations := int_of fs "iterations"; concurrency := int_of fs "concurrency";
     targetRPS := float_of fs "target-rps"; duration := duration_of fs "duration"; warmup := int_of fs "warmup";
     objectSize := int_of fs "object-size"; requestTimeout := duration_of fs "request-timeout";
     accessKey := string_of fs "access-key"; secretKey := string_of fs "secret-key"; verbose := bool_of fs "verbose";
     jsonPath := string_of fs "json"; prefillCount := int_of fs "prefill"; rdmaLowCPU := bool_of fs "rdma-lowcpu";
     rdmaFramePayload := int_of fs "rdma-frame-payload"; rdmaSendDepth := int_of fs "rdma-send-depth";
     rdmaRecvDepth := int_of fs "rdma-recv-depth"; rdmaInline := int_of fs "rdma-inline-threshold";
     rdmaSignalIntvl := int_of fs "rdma-send-signal-interval"; rdmaMaxConns := int_of fs "rdma-max-conns-per-host";
     rdmaSharePool := bool_of fs "rdma-shared-http-pool"; rdmaSharePoolKey := string_of fs "rdma-shared-http-pool-key";
     rdmaEndpointPool := int_of fs "rdma-endpoint-pool-size"; rdmaEndpointWarm := bool_of fs "rdma-endpoint-pool-warmup";
     rdmaSharedMemBgt := int_of fs "rdma-shared-memory-budget-bytes"; rdmaEndpointMux := bool_of fs "rdma-endpoint-multiplex";
     rdmaEndpointSend := int_of fs "rdma-endpoint-send-queue-depth"; s3ClientCount := int_of fs "s3-client-count";
     openLoopFanout := bool_of fs "open-loop-client-fanout" |}.

Section main.
Context {W : Type} `{!BenchRun.BenchHost W}.

Definition main (args : list string) : M W (list BenchRun.access) string exit_code :=
  match Parse args (flags_of flag_defaults) with
  | ParseErr e => ret (flag_exit e)
  | Parsed fs _ => exit_with (BenchRun.main (config_of fs))
  end.
End main.
End BenchMain.

(** ** cmd/s3-rdma-zcopy-demo *)

Module DemoMain.
Import Demo DemoRun.

Definition flags_of (c : flags) : FlagSet :=
  [("endpoint", VString (f_endpoint c));
   ("bucket", VString (f_bucket c));
   ("key", VString (f_key c));
   ("op", VString (f_op c));
   ("mem-size", VInt (memSize c));
   ("put-offset", VInt (putOffset c));
   ("put-size", VInt (putSize c));
   ("get-offset", VInt (getOffset c));
   ("get-max-size", VInt (maxGetSize c));
   ("concurrent-get", VInt (concurrent c));
   ("client-count", VInt (clientCount c));
   ("stats-interval", VDuration (statsInterval c));
   ("target-rps", VFloat (f_targetRPS c));
   ("duration", VDuration (f_duration c));
   ("verify-result", VBool (verifyResult c));
   ("request-timeout", VDuration (reqTimeout c));
   ("connect-timeout", VDuration (f_connectTO c));
   ("control-timeout", VDuration (f_controlTO c));
   ("data-timeout", VDuration (f_dataTO c));
   ("rdma-frame-payload", VInt (frameSize c));
   ("rdma-send-depth", VInt (sendDepth c));
   ("rdma-recv-depth", VInt (recvDepth c));
   ("rdma-inline-threshold", VInt (inlineBytes c));
   ("max-credits", VInt (maxCredits c));
   ("send-queue-len", VInt (sendQueueLen c))]%string.

Definition flag_defaults : flags :=
  {| f_endpoint := "127.0.0.1:10191"; f_bucket := "bench-bucket"; f_key := "zcopy-demo"; f_op := "get";
     memSize := 32 * 1024 * 1024; putOffset := 0; putSize := 256 * 1024; getOffset := 1024 * 1024;
     maxGetSize := 512 * 1024; concurrent := 1; clientCount := 1; statsInterval := 10 ^ 9; f_targetRPS := f64_zero;
     f_duration := 0; verifyResult := true; reqTimeout := 0; f_connectTO := 0; f_controlTO := 0; f_dataTO := 0;
     frameSize := 0; sendDepth := 0; recvDepth := 0; inlineBytes := 0; maxCredits := 0; sendQueueLen := 0 |}.

Definition config_of (fs : FlagSet) : flags :=
  {| f_endpoint := string_of fs "endpoint"; f_bucket := string_of fs "bucket"; f_key := string_of fs "key";
     f_op := string_of fs "op"; memSize := int_of fs "mem-size"; putOffset := int_of fs "put-offset";
     putSize := int_of fs "put-size"; getOffset := int_of fs "get-offset"; maxGetSize := int_of fs "get-max-size";
     concurrent := int_of fs "concurrent-get"; clientCount := int_of fs "client-count";
     statsInterval := duration_of fs "stats-interval"; f_targetRPS := float_of fs "target-rps";
     f_duration := duration_of fs "duration"; verifyResult := bool_of fs "verify-result";
     reqTimeout := duration_of fs "request-timeout"; f_connectTO := duration_of fs "connect-timeout";
     f_controlTO := duration_of fs "control-timeout"; f_dataTO := duration_of fs "data-timeout";
     frameSize := int_of fs "rdma-frame-payload"; sendDepth := int_of fs "rdma-send-depth";
     recvDepth := int_of fs "rdma-recv-depth"; inlineBytes := int_of fs "rdma-inline-threshold";
     maxCredits := int_of fs "max-credits"; sendQueueLen := int_of fs "send-queue-len" |}.

(** fatalf exits with 1, a panic with 2. *)
Definition ending_exit (e : ending) : exit_code := match e with Fatal _ => 1 | Panic => 2 end.

Section main.
Context {W : Type} `{!MainHost W}.

Definition main (args : list string) : M W (list event) ending exit_code :=
  match Parse args (flags_of flag_defaults) with
  | ParseErr e => ret (flag_exit e)
  | Parsed fs _ => let! r := catch (DemoRun.main (config_of fs)) in
                   ret (match r with Ok _ => 0 | Err e => ending_exit e end)
  end.
End main.
End DemoMain.

(** ** Properties *)

Definition bench_config_ok (c : Bench.benchConfig) : Prop := Forall (fun f => value_ok f.2) (BenchMain.flags_of c).
Definition demo_flags_ok (c : Demo.flags) : Prop := Forall (fun f => value_ok f.2) (DemoMain.flags_of c).

Lemma bench_flags (c : Bench.benchConfig) : bench_config_ok c ->
  Parse (render_arg <$> BenchMain.flags_of c) (BenchMain.flags_of BenchMain.flag_defaults) = Parsed (BenchMain.flags_of c) [].
Proof.
  intros Hc. apply parse_render; [by vm_compute| |by vm_compute|done].
  apply (bool_decide_unpack _). by vm_compute.
Qed.

Lemma demo_flags (c : Demo.flags) : demo_flags_ok c ->
  Parse (render_arg <$> DemoMain.flags_of c) (DemoMain.flags_of DemoMain.flag_defaults) = Parsed (DemoMain.flags_of c) [].
Proof.
  intros Hc. apply parse_render; [by vm_compute| |by vm_compute|done].
  apply (bool_decide_unpack _). by vm_compute.
Qed.

(** C33: Any configuration of the five programs can be written as a command line: given
    every flag as "--name=value", a bool as true or false, a duration in nanoseconds and a
    float64 as its exact hexadecimal text, the program runs exactly that configuration.
    So every flag is declared, under its own name and with a value of its own type, and
    reaches its own field. *)
Theorem command_lines_round_trip (ci : App.InmemApp.Config) (cs : App.S3App.Config) (ck : Smoke.Config)
    (cb : Bench.benchConfig) (cd : Demo.flags) :
  inmem_config_ok ci -> s3_config_ok cs -> smoke_config_ok ck -> bench_config_ok cb -> demo_flags_ok cd ->
  (forall W `{!App.AppHost W} s (w : W), InmemMain.main (render_arg <$> InmemMain.RegisterFlags ci) s w =
     exit_with (App.InmemApp.Run ci) s w) /\
  (forall W `{!App.AppHost W} s (w : W), S3Main.main (render_arg <$> S3Main.flags_of cs) s w =
     exit_with (App.S3App.Run cs) s w) /\
  (exists fs, Parse (render_arg <$> SmokeMain.flags_of ck) (SmokeMain.flags_of SmokeMain.flag_defaults) =
     Parsed fs [] /\ SmokeMain.config_of fs = ck) /\
  (forall W `{!BenchRun.BenchHost W} s (w : W), BenchMain.main (render_arg <$> BenchMain.flags_of cb) s w =
     exit_with (BenchRun.main cb) s w) /\
  (exists fs, Parse (render_arg <$> DemoMain.flags_of cd) (DemoMain.flags_of DemoMain.flag_defaults) =
     Parsed fs [] /\ DemoMain.config_of fs = cd).
Proof.
  intros Hi Hs Hk Hb Hd. split_and!.
  - intros W H s w. unfold InmemMain.main, InmemMain.NewFlagSet. rewrite inmem_flags by done. by destruct ci.
  - intros W H s w. unfold S3Main.main. rewrite s3_flags by done. by destruct cs.
  - eexists. split; [by apply smoke_flags|]. by destruct ck.
  - intros W H s w. unfold BenchMain.main. rewrite bench_flags by done. by destruct cb.
  - eexists. split; [by apply demo_flags|]. by destruct cd.
Qed.

#[local] Existing Instances App.app_sim_host BenchRun.bench_sim.

Lemma command_lines_round_trip_witness :
  let ci := App.inmem_sample true (-5) in
  let cb := Bench.bench_sample in
  InmemMain.main (render_arg <$> InmemMain.RegisterFlags ci) App.started {| App.as_verbs := true; App.as_stop := App.StopSignal |} =
    exit_with (App.InmemApp.Run ci) App.started {| App.as_verbs := true; App.as_stop := App.StopSignal |} /\
  BenchMain.main (render_arg <$> BenchMain.flags_of cb) [] tt = exit_with (BenchRun.main cb) [] tt /\
  (exists fs, Parse (render_arg <$> DemoMain.flags_of (Demo.demo_flags "get" 16 1)) (DemoMain.flags_of DemoMain.flag_defaults) =
     Parsed fs [] /\ DemoMain.config_of fs = Demo.demo_flags "get" 16 1).
Proof.
  cbv zeta.
  assert (Hi : inmem_config_ok (App.inmem_sample true (-5))) by (by repeat constructor).
  assert (Hs : s3_config_ok App.s3_sample) by (by repeat constructor).
  assert (Hk : smoke_config_ok (Smoke.smoke_config "put" (-1))) by (by repeat constructor).
  assert (Hb : bench_config_ok Bench.bench_sample) by (by repeat constructor).
  assert (Hd : demo_flags_ok (Demo.demo_flags "get" 16 1)) by (by repeat constructor).
  destruct (command_lines_round_trip (App.inmem_sample true (-5)) App.s3_sample (Smoke.smoke_config "put" (-1))
    Bench.bench_sample (Demo.demo_flags "get" 16 1) Hi Hs Hk Hb Hd) as (H1 & _ & _ & H4 & H5).
  split_and!; [apply H1|apply H4|exact H5].
Defined.

(** The benchmark client accepts an infinite rate: the interval is a nanosecond; a GET
    benchmark puts no object beforehand and reads objects that are not there; and the
    summary it ends with cannot be written as JSON. *)
Theorem infinite_rate_is_accepted :
  exists fs, Parse ["--op=get"; "--target-rps=Inf"; "--duration=1s"; "--json=out"]%string
      (BenchMain.flags_of BenchMain.flag_defaults) = Parsed fs [] /\
    let cfg := Bench.parseFlags (BenchMain.config_of fs) in
    Bench.validateConfig cfg = None /\ Bench.isOpenLoopMode cfg = true /\
    Bench.openLoopInterval (Bench.targetRPS cfg) = 1 /\ Bench.prefill_count cfg < 0 /\
    (forall j, Bench.key_index cfg (Bench.prefill_count cfg) j = j) /\
    forall now ds nfailed elapsed launched dials errors,
      BenchReport.summary_json (Bench.summarize now cfg ds nfailed elapsed launched) dials errors =
      Err "json: unsupported value: +Inf"%string.
Proof.
  eexists. split; [vm_compute; reflexivity|]. cbv zeta. split_and!; [by vm_compute..|by intros j; vm_compute|].
  intros now ds nfailed elapsed launched dials errors. unfold BenchReport.summary_json, Bench.summarize.
  generalize (Bench.sort_durations ds). intros sorted. reflexivity.
Qed.

(** The flag --rdma-lowcpu and the other RDMA flags of the benchmark client change
    nothing: the mode they are for makes no client. *)
Theorem bench_rdma_mode_always_fails W `{!BenchRun.BenchHost W} c l (w : W) :
  Bench.mode (Bench.parseFlags c) = "rdma"%string -> bench_config_ok c ->
  exists l' w', BenchMain.main (render_arg <$> BenchMain.flags_of c) l w = (Ret 1, l', w') /\ l' = l.
Proof.
  intros Hm Hc. unfold BenchMain.main. rewrite bench_flags by done.
  replace (BenchMain.config_of (BenchMain.flags_of c)) with c by (by destruct c).
  unfold exit_with, catch, bind, BenchRun.main, BenchRun.or_fatal.
  destruct (Bench.validateConfig (Bench.parseFlags c)) as [e|] eqn:Hv; [by eexists _, _|].
  unfold bind. simpl. destruct (Bench.validated_config _ Hv) as (_ & _ & Hn & _).
  rewrite Bench.rdma_mode_is_refused by done. by eexists _, _.
Qed.
